(** * RFC Editor synchronisation (ietf/sync/rfceditor.py)

    A shallow embedding of the queue parser's state decoding, the queue
    reconciler, the index reconciler and the outbound notifier, together
    with the properties established about them. *)

From Stdlib Require Import ZArith Lia Bool List Ascii String Permutation.
From stdpp Require Import base option list gmap strings pretty.

Open Scope string_scope.
Open Scope list_scope.
Open Scope Z_scope.

(** ** Python string primitives used by the module *)

Module PyStr.

(** The double quote character, and the empty string. *)
Definition dq : string := String (ascii_of_nat 34) EmptyString.
Definition empty : string := EmptyString.

(** [old in s] for a non-empty [old]: substring test. *)
Fixpoint contains (old s : string) : bool :=
  String.prefix old s ||
  match s with
  | EmptyString => false
  | String _ s' => contains old s'
  end.

(** [s.replace(old, "")] for a non-empty [old]: the occurrences of [old]
    are removed from left to right, without overlap.  [skip] counts the
    characters of a matched occurrence still to be dropped. *)
Fixpoint remove_from (old : string) (skip : nat) (s : string) : string :=
  match s with
  | EmptyString => EmptyString
  | String c s' =>
      match skip with
      | S k => remove_from old k s'
      | O =>
          if String.prefix old s
          then remove_from old (Nat.pred (String.length old)) s'
          else String c (remove_from old 0 s')
      end
  end.

Definition remove_all (old s : string) : string := remove_from old 0 s.

(** [s.startswith(p)] *)
Definition startswith (p s : string) : bool := String.prefix p s.

(** ASCII lower-casing, [s.lower()] on the ASCII range. *)
Definition lower_char (c : ascii) : ascii :=
  let n := nat_of_ascii c in
  if (65 <=? n)%nat && (n <=? 90)%nat then ascii_of_nat (n + 32) else c.

Fixpoint lower (s : string) : string :=
  match s with
  | EmptyString => EmptyString
  | String c s' => String (lower_char c) (lower s')
  end.

(** [s[:n]] *)
Fixpoint take (n : nat) (s : string) : string :=
  match n, s with
  | S k, String c s' => String c (take k s')
  | _, _ => EmptyString
  end.

Definition is_digit (c : ascii) : bool :=
  let n := nat_of_ascii c in (48 <=? n)%nat && (n <=? 57)%nat.

(** The truth value of a string: non-empty. *)
Definition truthy (s : string) : bool :=
  match s with EmptyString => false | _ => true end.

(** ASCII white space, which [int] strips from both ends. *)
Definition is_space (c : ascii) : bool :=
  let n := nat_of_ascii c in ((9 <=? n)%nat && (n <=? 13)%nat) || (n =? 32)%nat.

Fixpoint lstrip (s : string) : string :=
  match s with
  | String c s' => if is_space c then lstrip s' else s
  | EmptyString => EmptyString
  end.

Fixpoint rev_onto (s acc : string) : string :=
  match s with
  | EmptyString => acc
  | String c s' => rev_onto s' (String c acc)
  end.

Definition strip (s : string) : string :=
  rev_onto (lstrip (rev_onto (lstrip s) EmptyString)) EmptyString.

Definition digit_value (c : ascii) : Z := Z.of_nat (nat_of_ascii c) - 48.

(** Decimal digits, single underscores allowed between digits. *)
Fixpoint digits_value (s : string) (acc : Z) (after_digit : bool) : option Z :=
  match s with
  | EmptyString => if after_digit then Some acc else None
  | String c s' =>
      if is_digit c then digits_value s' (10 * acc + digit_value c) true
      else if Ascii.eqb c "_"%char && after_digit then digits_value s' acc false
      else None
  end.

(** [int(s)] for a string of ASCII characters; [None]: [ValueError].
    Python also reads the decimal digits and strips the white space
    of the rest of Unicode, which a [string] of this model cannot
    hold: what is proved of [int] is proved of ASCII text. *)
Definition int (s : string) : option Z :=
  match strip s with
  | String c s' =>
      if Ascii.eqb c "-"%char then option_map Z.opp (digits_value s' 0 false)
      else if Ascii.eqb c "+"%char then digits_value s' 0 false
      else digits_value (String c s') 0 false
  | EmptyString => None
  end.

Fixpoint zeros (n : nat) : string :=
  match n with
  | O => EmptyString
  | S k => String "0"%char (zeros k)
  end.

(** ["%04d" % n]: the sign counts in the width. *)
Definition percent_04d (n : Z) : string :=
  if n <? 0 then
    let ds := pretty (- n) in "-" +:+ zeros (3 - String.length ds) +:+ ds
  else
    let ds := pretty n in zeros (4 - String.length ds) +:+ ds.

End PyStr.

(** ** Outbound notifier: [post_approved_draft] *)

Module Notifier.

(** What [requests.post] does: it returns a response with a status code
    and a body, or raises an exception [e] (an [Exception]) of which only
    [str(e)] is used. *)
Inductive post_outcome : Type :=
| Responded (status_code : Z) (text : string)
| Raised (str_e : string).

(** The body of the [try] block: [inl] is normal completion, [inr msg] an
    exception whose [str] is [msg]. *)
Definition try_block (o : post_outcome) : unit + string :=
  match o with
  | Raised msg => inr msg
  | Responded status_code text =>
      if negb (status_code =? 200) then
        inr ("Status code is not 200 OK (it's " +:+ pretty status_code +:+ ").")
      else if negb (String.eqb text "OK") then
        inr ("Response is not " +:+ PyStr.dq +:+ "OK" +:+ PyStr.dq
             +:+ " (it's " +:+ PyStr.dq +:+ text +:+ PyStr.dq +:+ ").")
      else inl tt
  end.

(** [text = error = ""] before the [try]; the handler sets [error] only;
    [text] is never assigned again. *)
Definition post_approved_draft (o : post_outcome) : string * string :=
  let text := PyStr.empty in
  let error := PyStr.empty in
  let error :=
    match try_block o with
    | inl _ => error
    | inr msg => msg
    end in
  (text, error).

End Notifier.

(** ** Queue parser: decoding the annotations of a [state] element *)

Module QueueParser.
Import PyStr.

(** The longest prefix of ASCII digits, and what follows it. *)
Fixpoint span_digits (s : string) : string * string :=
  match s with
  | String c s' =>
      if is_digit c
      then let '(ds, r) := span_digits s' in (String c ds, r)
      else (EmptyString, s)
  | EmptyString => (EmptyString, EmptyString)
  end.

(** A match of [\(([0-9]+)G\)] anchored at the head of [s]; the result
    is group 1. *)
Definition match_gen_at (s : string) : option string :=
  match s with
  | String c r =>
      if Ascii.eqb c "("%char then
        let '(ds, r') := span_digits r in
        if truthy ds && String.prefix "G)" r' then Some ds else None
      else None
  | EmptyString => None
  end.

(** [re.search(r"\(([0-9]+)G\)", s)]: group 1 of the leftmost match. *)
Fixpoint search_gen (s : string) : option string :=
  match match_gen_at s with
  | Some g => Some g
  | None =>
      match s with
      | EmptyString => None
      | String _ s' => search_gen s'
      end
  end.

Definition gen_marker (g : string) : string := "(" +:+ g +:+ "G)".

(** The three decoding steps, each on the state string as it stands. *)
Definition strip_R (st : string * list string * string) :=
  let '(state, tags, gen) := st in
  if contains "*R" state then (remove_all "*R" state, tags ++ ["ref"], gen) else st.

Definition strip_A (st : string * list string * string) :=
  let '(state, tags, gen) := st in
  if contains "*A" state then (remove_all "*A" state, tags ++ ["iana"], gen) else st.

Definition strip_G (st : string * list string * string) :=
  let '(state, tags, gen) := st in
  match search_gen state with
  | Some g => (remove_all (gen_marker g) state, tags, g)
  | None => st
  end.

(** One [state] child element: [state] is overwritten with the text of
    the element, [tags] and [missref_generation] carry over. *)
Definition decode_state (acc : string * list string * string) (text : string) :=
  let '(_, tags, gen) := acc in
  strip_G (strip_A (strip_R (text, tags, gen))).

(** The loop over the [state] children of an entry. *)
Definition parse_states (texts : list string) : string * list string * string :=
  fold_left decode_state texts (EmptyString, [], EmptyString).

Definition parse_state (text : string) := parse_states [text].

End QueueParser.

(** ** Calendar arithmetic of [datetime] (proleptic Gregorian) *)

Module PyDate.

Definition MINYEAR : Z := 1.
Definition MAXYEAR : Z := 9999.

Definition is_leap (y : Z) : bool :=
  (y mod 4 =? 0) && (negb (y mod 100 =? 0) || (y mod 400 =? 0)).

(** The number of days of year [y]. *)
Definition year_length (y : Z) : Z := if is_leap y then 366 else 365.

Definition days_in_month (y m : Z) : Z :=
  if m =? 2 then (if is_leap y then 29 else 28)
  else if (m =? 4) || (m =? 6) || (m =? 9) || (m =? 11) then 30
  else 31.

(** Number of days before January 1st of year [y]. *)
Definition days_before_year (y : Z) : Z :=
  let p := y - 1 in p * 365 + p / 4 - p / 100 + p / 400.

(** Number of days in year [y] before the first day of month [m]. *)
Definition days_before_month (y m : Z) : Z :=
  match m with
  | 1 => 0 | 2 => 31 | 3 => 59 | 4 => 90 | 5 => 120 | 6 => 151
  | 7 => 181 | 8 => 212 | 9 => 243 | 10 => 273 | 11 => 304 | _ => 334
  end + (if (2 <? m) && is_leap y then 1 else 0).

Record date : Type := Date { year : Z; month : Z; day : Z }.

(** The dates [datetime.date] can hold. *)
Definition valid (d : date) : Prop :=
  MINYEAR <= year d <= MAXYEAR /\ 1 <= month d <= 12 /\
  1 <= day d <= days_in_month (year d) (month d).

Definition toordinal (d : date) : Z :=
  days_before_year (year d) + days_before_month (year d) (month d) + day d.

(** The date one day later ([None]: [OverflowError], past the last day
    of [MAXYEAR]). *)
Definition next_day (d : date) : option date :=
  if day d <? days_in_month (year d) (month d) then
    Some (Date (year d) (month d) (day d + 1))
  else if month d <? 12 then Some (Date (year d) (month d + 1) 1)
  else if year d <? MAXYEAR then Some (Date (year d + 1) 1 1)
  else None.

(** The date one day earlier ([None]: [OverflowError], before the first
    day of [MINYEAR]). *)
Definition prev_day (d : date) : option date :=
  if 1 <? day d then Some (Date (year d) (month d) (day d - 1))
  else if 1 <? month d then
    Some (Date (year d) (month d - 1) (days_in_month (year d) (month d - 1)))
  else if MINYEAR <? year d then Some (Date (year d - 1) 12 31)
  else None.

(** A [datetime] read on the wall clock of the reference time zone: a
    date and the microseconds elapsed since midnight. *)
Record datetime : Type := DateTime { dt_date : date; dt_usec : Z }.

Definition usec_per_day : Z := 86400 * 1000000.

Definition valid_dt (t : datetime) : Prop :=
  valid (dt_date t) /\ 0 <= dt_usec t < usec_per_day.

(** [a - b], a [timedelta], in microseconds. *)
Definition sub (a b : datetime) : Z :=
  (toordinal (dt_date a) - toordinal (dt_date b)) * usec_per_day
  + (dt_usec a - dt_usec b).

(** [t + timedelta(days=direction)] for [direction] in {-1, +1}. *)
Definition add_day (direction : Z) (t : datetime) : option datetime :=
  match (if direction <? 0 then prev_day (dt_date t) else next_day (dt_date t)) with
  | Some d => Some (DateTime d (dt_usec t))
  | None => None
  end.

End PyDate.

(** ** Index reconciler: synthesis of the publication timestamp *)

Module PubDate.
Import PyDate.

(** Modelled from the spec: [datetime_from_date(date, RPC_TZINFO)] of
    [ietf.utils.timezone], the candidate timestamp at midnight of the
    given day in the reference time zone. *)
Definition datetime_from_date (d : date) : datetime := DateTime d 0.

Definition same_month (a b : datetime) : bool :=
  (month (dt_date a) =? month (dt_date b)) && (year (dt_date a) =? year (dt_date b)).

(** The [while] loop; the result carries the number of iterations.
    [None]: the fuel ran out or [OverflowError] was raised. *)
Fixpoint walk (fuel : nat) (direction : Z) (d synthesized : datetime)
  : option (datetime * nat) :=
  if same_month synthesized d then Some (synthesized, O)
  else
    match fuel with
    | O => None
    | S fuel' =>
        match add_day direction synthesized with
        | None => None
        | Some t =>
            match walk fuel' direction d t with
            | Some (r, n) => Some (r, S n)
            | None => None
            end
        end
    end.

(** The timestamp of the [published_rfc] event, from the index date and
    the current time in the reference time zone. *)
Definition synthesize (fuel : nat) (rfc_published_date : date) (now : datetime)
  : option (datetime * nat) :=
  let d := datetime_from_date rfc_published_date in
  let synthesized := now in
  if Z.abs (sub d synthesized) >? 60 * usec_per_day then Some (d, O)
  else
    let direction := if sub d synthesized <? 0 then -1 else 1 in
    walk fuel direction d synthesized.

End PubDate.

(** ** Well-annotated queue states

    The states the RFC Editor queue carries are a plain text in which the
    annotations are set apart: an asterisk only ever begins [*R] or [*A],
    and an opening parenthesis only ever begins the generation marker. *)

Module QueueStateSpec.
Import PyStr QueueParser.

Inductive piece : Type :=
| Plain (c : ascii)
| MarkR
| MarkA
| MarkG.

Inductive marker : Type := KindR | KindA | KindG.

Definition render_piece (g : string) (p : piece) : string :=
  match p with
  | Plain c => String c EmptyString
  | MarkR => "*R"
  | MarkA => "*A"
  | MarkG => gen_marker g
  end.

Fixpoint render (g : string) (ps : list piece) : string :=
  match ps with
  | [] => EmptyString
  | p :: ps' => render_piece g p +:+ render g ps'
  end.

(** A plain character is neither an asterisk nor an opening
    parenthesis. *)
Definition plain_ok (p : piece) : bool :=
  match p with
  | Plain c => negb (Ascii.eqb c "*"%char) && negb (Ascii.eqb c "("%char)
  | _ => true
  end.

Fixpoint all_digits (s : string) : bool :=
  match s with
  | EmptyString => true
  | String c s' => is_digit c && all_digits s'
  end.

Definition is_kind (k : marker) (p : piece) : bool :=
  match k, p with
  | KindR, MarkR | KindA, MarkA | KindG, MarkG => true
  | _, _ => false
  end.

Definition has_kind (k : marker) (ps : list piece) : bool := existsb (is_kind k) ps.

Definition without (k : marker) (ps : list piece) : list piece :=
  List.filter (fun p => negb (is_kind k p)) ps.

(** The text that is left when every marker is taken out. *)
Definition plain_text (g : string) (ps : list piece) : string :=
  render g (without KindG (without KindA (without KindR ps))).

(** Following the spec's words: the three decoding steps taken in an
    arbitrary order. *)
Definition strip (k : marker) :=
  match k with
  | KindR => strip_R
  | KindA => strip_A
  | KindG => strip_G
  end.

Definition strip_in_order (order : list marker) (text : string) :=
  fold_left (fun st k => strip k st) order (text, [], EmptyString).

Definition well_annotated (g : string) (ps : list piece) : Prop :=
  all_digits g = true /\ truthy g = true /\ forallb plain_ok ps = true.

(** Following the spec's words: what decoding a state that carries both
    [*R] and [*A] is said to give.  The tags are ref and iana, the
    decoded state holds neither marker any more, and the order of the
    decoding steps does not matter for it. *)
Definition decodes_cleanly (text : string) : Prop :=
  let '(state, tags, _) := parse_state text in
  (forall t, In t tags <-> t = "ref" \/ t = "iana") /\
  contains "*R" state = false /\ contains "*A" state = false /\
  forall order, Permutation order [KindR; KindA; KindG] ->
    fst (fst (strip_in_order order text)) = state.

(** [lacks c s]: the character [c] does not occur in [s]. *)
Fixpoint lacks (c : ascii) (s : string) : bool :=
  match s with
  | EmptyString => true
  | String a s' => negb (Ascii.eqb a c) && lacks c s'
  end.

(** The pieces that the steps of [order] leave, and the plain ones. *)
Definition survives (order : list marker) (p : piece) : bool :=
  negb (existsb (fun k => is_kind k p) order).

Definition is_plain (p : piece) : bool :=
  match p with Plain _ => true | _ => false end.

End QueueStateSpec.

(** ** The document store

    The tables of the Datatracker database the two reconcilers read and
    write, and the calls they make to collaborators outside this module. *)

Module Db.

(** The columns of a [Document] row; an instance in memory holds a copy
    of them, written back by [save]. *)
Record DocFields : Type := mkFields {
  doc_type : string;
  rev : string;
  title : string;
  abstract : string;
  pages : option Z;
  std_level : option string;
  stream : option string;
  group : option string
}.

(** A document with its many-to-many relations, which are written to
    the database at once: the state per state type, the tags, and the
    URLs of [documenturl_set] by tag. *)
Record Document : Type := mkDocument {
  fields : DocFields;
  states : gmap string string;
  tags : gset string;
  urls : gmap string string
}.

(** The change notes of the index reconciler, each with the text it
    stands for in the source. *)
Inductive change_note : Type :=
| CreatedDocument (name : string)         (* "created document %s" *)
| CreatedAlias (name : string)            (* "created alias %s" *)
| ChangedTitle (t : string)               (* "changed title to '%s'" *)
| ChangedAbstract (a : string)            (* "changed abstract to '%s'" *)
| ChangedPages (n : Z)                    (* "changed pages to %s" *)
| ChangedStdLevel (slug : string)         (* "changed standardization level to %s" *)
| ChangedState (slug : option string)     (* "changed state to %s" *)
| ChangedStream (slug : string)           (* "changed stream to %s" *)
| SetGroup (acronym : string)             (* "set group to %s" *)
| AddedPublishedEvent (time : PyDate.datetime) (* "added RFC published event at %s" *)
| ChangedTypedState (state_type slug : string) (* "changed %s to %s" *)
| CreatedRelation (relationship source target : string)
                                          (* "created %s relation between %s and %s" *)
| AddedErrataTag                          (* "added Errata tag" *)
| AddedVerifiedErrataTag                  (* "added Verified Errata tag" *)
| RemovedErrataTag (all_rejected : bool)  (* "removed Errata tag[ (all errata rejected)]" *)
| RemovedVerifiedErrataTag.               (* "removed Verified Errata tag" *)

(** The text of the notes that are fixed strings. *)
Definition fixed_text (c : change_note) : option string :=
  match c with
  | AddedErrataTag => Some "added Errata tag"
  | AddedVerifiedErrataTag => Some "added Verified Errata tag"
  | RemovedErrataTag true => Some "removed Errata tag (all errata rejected)"
  | RemovedErrataTag false => Some "removed Errata tag"
  | RemovedVerifiedErrataTag => Some "removed Verified Errata tag"
  | _ => None
  end.

Inductive event_desc : Type :=
| ReceivedAnnouncement      (* "Announcement was received by RFC Editor" *)
| StateChange (state_type : string) (prev : option string) (next : string)
              (href : option string)
| ActionHoldersChanged
| PublishedRfc (time : PyDate.datetime)  (* "RFC published" *)
| SyncFromRfcEditor (changes : list change_note).
    (* "Received changes through RFC Editor sync (%s)" % ", ".join(changes) *)

Record DocEvent : Type := mkEvent {
  ev_doc : string;
  ev_rev : string;
  ev_by : string;
  ev_desc : event_desc
}.

Definition ev_type (e : DocEvent) : string :=
  match ev_desc e with
  | ReceivedAnnouncement => "rfc_editor_received_announcement"
  | StateChange _ _ _ _ => "changed_state"
  | ActionHoldersChanged => "changed_action_holders"
  | PublishedRfc _ => "published_rfc"
  | SyncFromRfcEditor _ => "sync_from_rfc_editor"
  end.

(** A [RelatedDocument] row: the source document, the target alias and
    the relationship. *)
Record Relation : Type := mkRelation {
  source : string;
  target : string;
  relationship : string
}.

(** Calls to collaborators outside the module, in the order made. *)
Inductive effect : Type :=
| SentMail (to subject body : string)
| MovedToArchive (doc rev : string)
| ActionHoldersUpdate (doc state_type : string) (prev : option string) (next : string)
| SavedWithHistory (doc : string) (events : list DocEvent).

(** The [DocAlias] table is a list of rows, an alias name with the names
    of the documents attached to it. *)
Record Store : Type := mkStore {
  documents : gmap string Document;
  aliases : list (string * list string);
  relations : list Relation;
  events : list DocEvent;
  effects : list effect
}.

(** The tables the reconcilers only read: the tag names, the group
    acronyms, the group of type individ, and whether
    [update_action_holders] returns an event for a state change of a
    document. *)
Record Tables : Type := mkTables {
  tag_names : gset string;
  groups : gset string;
  individ : option string;
  action_holders_event : string -> string -> option string -> string -> bool
}.

Definition system : string := "(System)".

#[global] Instance Relation_eq_dec : EqDecision Relation.
Proof. solve_decision. Defined.

(** *** Field and relation updates *)

Definition set_title (v : string) (f : DocFields) : DocFields :=
  mkFields (doc_type f) (rev f) v (abstract f) (pages f) (std_level f) (stream f) (group f).
Definition set_abstract (v : string) (f : DocFields) : DocFields :=
  mkFields (doc_type f) (rev f) (title f) v (pages f) (std_level f) (stream f) (group f).
Definition set_pages (v : option Z) (f : DocFields) : DocFields :=
  mkFields (doc_type f) (rev f) (title f) (abstract f) v (std_level f) (stream f) (group f).
Definition set_std_level (v : option string) (f : DocFields) : DocFields :=
  mkFields (doc_type f) (rev f) (title f) (abstract f) (pages f) v (stream f) (group f).
Definition set_stream (v : option string) (f : DocFields) : DocFields :=
  mkFields (doc_type f) (rev f) (title f) (abstract f) (pages f) (std_level f) v (group f).
Definition set_group (v : option string) (f : DocFields) : DocFields :=
  mkFields (doc_type f) (rev f) (title f) (abstract f) (pages f) (std_level f) (stream f) v.

Definition with_fields (f : DocFields) (d : Document) : Document :=
  mkDocument f (states d) (tags d) (urls d).
Definition with_states (m : gmap string string) (d : Document) : Document :=
  mkDocument (fields d) m (tags d) (urls d).
Definition with_tags (t : gset string) (d : Document) : Document :=
  mkDocument (fields d) (states d) t (urls d).
Definition with_urls (u : gmap string string) (d : Document) : Document :=
  mkDocument (fields d) (states d) (tags d) u.

Definition with_documents (m : gmap string Document) (s : Store) : Store :=
  mkStore m (aliases s) (relations s) (events s) (effects s).
Definition with_aliases (a : list (string * list string)) (s : Store) : Store :=
  mkStore (documents s) a (relations s) (events s) (effects s).
Definition with_relations (r : list Relation) (s : Store) : Store :=
  mkStore (documents s) (aliases s) r (events s) (effects s).
Definition with_events (e : list DocEvent) (s : Store) : Store :=
  mkStore (documents s) (aliases s) (relations s) e (effects s).
Definition with_effects (e : list effect) (s : Store) : Store :=
  mkStore (documents s) (aliases s) (relations s) (events s) e.

(** Apply [f] to the row of document [name]. *)
Definition update_doc (name : string) (f : Document -> Document) (s : Store) : Store :=
  with_documents (alter f name (documents s)) s.

(** Modelled from the spec: [Document.get_state], [set_state] and
    [unset_state] of [ietf.doc.models], a current lifecycle state per
    state-type namespace. *)
Definition get_state (state_type : string) (d : Document) : option string :=
  states d !! state_type.
Definition set_state (state_type slug : string) (d : Document) : Document :=
  with_states (<[state_type := slug]> (states d)) d.
Definition unset_state (state_type : string) (d : Document) : Document :=
  with_states (delete state_type (states d)) d.

(** [e.save()] of a new event, and calls recorded. *)
Definition save_event (e : DocEvent) (s : Store) : Store :=
  with_events (events s ++ [e]) s.
Definition perform (x : effect) (s : Store) : Store :=
  with_effects (effects s ++ [x]) s.

(** Modelled from the spec: [Document.latest_event(type=...)], whether
    the event history of the document holds an event of the type. *)
Definition has_event (name ty : string) (s : Store) : bool :=
  existsb (fun e => String.eqb (ev_doc e) name && String.eqb (ev_type e) ty) (events s).

(** Modelled from the spec: [add_state_change_event] of
    [ietf.doc.utils], which saves and returns a state-change event
    unless the state did not change. *)
Definition add_state_change_event (name rv state_type : string)
    (prev : option string) (next : string) (s : Store) : Store * option DocEvent :=
  if decide (prev = Some next) then (s, None)
  else
    let e := mkEvent name rv system (StateChange state_type prev next None) in
    (save_event e s, Some e).

(** Modelled from the spec: [update_action_holders] of [ietf.doc.utils],
    the action-holder recomputation, which may save and return an
    event. *)
Definition update_action_holders (T : Tables) (name rv state_type : string)
    (prev : option string) (next : string) (s : Store) : Store * option DocEvent :=
  let s := perform (ActionHoldersUpdate name state_type prev next) s in
  if action_holders_event T name state_type prev next then
    let e := mkEvent name rv system ActionHoldersChanged in
    (save_event e s, Some e)
  else (s, None).

(** The row of the alias named [name], if there is one. *)
Definition find_alias (name : string) (s : Store) : option (string * list string) :=
  List.find (fun row => String.eqb (fst row) name) (aliases s).

(** Whether document [d] has an alias whose name is among [names]. *)
Definition has_alias_in (names : list string) (d : string) (s : Store) : bool :=
  existsb (fun row => bool_decide (fst row ∈ names) && bool_decide (d ∈ snd row))
          (aliases s).

End Db.

(** ** Queue reconciler: [update_drafts_from_queue] *)

Module Queue.
Import Db.

(** A tuple of [parse_queue]. *)
Record entry : Type := mkEntry {
  name : string;
  date_received : string;
  state : string;
  qtags : list string;
  missref_generation : string;
  qstream : option string;
  auth48 : string;
  cluster : string;
  refs : list (string * string * bool)
}.

(** [state_mapping]: queue state codes to the slugs of the states of
    type draft-rfceditor. *)
Definition state_mapping : gmap string string :=
  list_to_map
    [ ("AUTH", "auth"); ("AUTH48", "auth48"); ("AUTH48-DONE", "auth48-done");
      ("EDIT", "edit"); ("IANA", "iana"); ("IESG", "iesg"); ("ISR", "isr");
      ("ISR-AUTH", "isr-auth"); ("REF", "ref"); ("RFC-EDITOR", "rfc-edit");
      ("TI", "tooling-issue"); ("TO", "timeout"); ("MISSREF", "missref") ].

(** The values of [tag_mapping]. *)
Definition tag_mapping_values : gset string := {[ "iana"; "ref" ]}.

(** The keys of [drafts_in_db]: the names of the documents of type draft
    that have an alias among [names]. *)
Definition drafts_in_db (names : list string) (s : Store) : gset string :=
  dom (filter (fun kv => doc_type (fields (snd kv)) = "draft"
                         /\ has_alias_in names (fst kv) s = true)
              (documents s)).

(** The state of the first loop. *)
Record run : Type := mkRun {
  store : Store;
  changed : gset string;
  warnings : list string
}.

Definition warn (w : string) (r : run) : run :=
  mkRun (store r) (changed r) (warnings r ++ [w]).

Section WithTables.
Variable T : Tables.

(** The first-contact block: the announcement was received. *)
Definition first_contact (nm : string) (d : Document) (s : Store)
  : Store * list DocEvent :=
  let e := mkEvent nm (rev (fields d)) system ReceivedAnnouncement in
  let s := save_event e s in
  let s := perform (SentMail "iesg-secretary@ietf.org"
                      (nm +:+ " in RFC Editor queue")
                      ("The announcement for " +:+ nm
                       +:+ " has been received by the RFC Editor.")) s in
  let s := update_doc nm (set_state "draft-iesg" "rfcqueue") s in
  let '(s, e1) := add_state_change_event nm (rev (fields d)) "draft-iesg"
                    (Some "ann") "rfcqueue" s in
  let '(s, e2) := update_action_holders T nm (rev (fields d)) "draft-iesg"
                    (Some "ann") "rfcqueue" s in
  (s, option_list e1 ++ option_list e2).

(** The draft-rfceditor state block, entered when the state changes. *)
Definition change_state (nm : string) (d : Document) (prev : option string)
    (next a48 : string) (s : Store) : Store * list DocEvent :=
  let s := update_doc nm (set_state "draft-rfceditor" next) s in
  let e := mkEvent nm (rev (fields d)) system
             (StateChange "draft-rfceditor" prev next None) in
  if PyStr.truthy a48 then
    let e := mkEvent nm (rev (fields d)) system
               (StateChange "draft-rfceditor" prev next (Some a48)) in
    let s := save_event e s in
    let s := update_doc nm (fun x => with_urls (<["auth48" := a48]> (urls x)) x) s in
    (s, [e])
  else
    let s := save_event e s in
    let s := update_doc nm (fun x => with_urls (delete "auth48" (urls x)) x) s in
    (s, [e]).

(** [DocTagName.objects.filter(slug__in=tags)], as a set. *)
Definition selected_tags (tags : list string) : gset string :=
  tag_names T ∩ list_to_set tags.

(** The blocks of an iteration act on the store, the [events] list
    and the [changed] set. *)
Definition acc : Type := Store * list DocEvent * gset string.

(** "check if we've noted it's been received" *)
Definition check_received (nm : string) (d : Document) (prev_state : option string)
    (a : acc) : acc :=
  let '(s, events, ch) := a in
  if bool_decide (get_state "draft-iesg" d = Some "ann")
     && bool_decide (prev_state = None)
     && negb (has_event nm "rfc_editor_received_announcement" s)
  then let '(s, evs) := first_contact nm d s in (s, events ++ evs, ch ∪ {[nm]})
  else a.

(** "check draft-rfceditor state" *)
Definition check_state (nm : string) (d : Document) (prev_state : option string)
    (next_state a48 : string) (a : acc) : acc :=
  let '(s, events, ch) := a in
  if negb (bool_decide (prev_state = Some next_state)) then
    let '(s, evs) := change_state nm d prev_state next_state a48 s in
    (s, events ++ evs, ch ∪ {[nm]})
  else a.

(** The tag block: the tags the entry selects against all the tags
    of the document. *)
Definition reconcile_tags (nm : string) (tgs : list string) (a : acc) : acc :=
  let '(s, events, ch) := a in
  let t := selected_tags tgs in
  if negb (bool_decide (t = default ∅ (tags <$> documents s !! nm))) then
    (update_doc nm (with_tags t) s, events, ch ∪ {[nm]})
  else a.

(** [if events: d.save_with_history(events)] *)
Definition save_history (nm : string) (a : acc) : acc :=
  let '(s, events, ch) := a in
  match events with
  | [] => a
  | _ => (perform (SavedWithHistory nm events) s, events, ch)
  end.

(** One iteration of the loop over the queue entries. *)
Definition step (in_db : gset string) (r : run) (e : entry) : run :=
  let nm := name e in
  if negb (bool_decide (nm ∈ in_db)) then
    warn ("unknown document " +:+ nm) r
  else if negb (PyStr.truthy (state e))
          || negb (bool_decide (is_Some (state_mapping !! state e))) then
    warn ("unknown state '" +:+ state e +:+ "' for " +:+ nm) r
  else
    match documents (store r) !! nm, state_mapping !! state e with
    | Some d, Some next_state =>
        let prev_state := get_state "draft-rfceditor" d in
        let a : acc := (store r, [], changed r) in
        let a := check_received nm d prev_state a in
        let a := check_state nm d prev_state next_state (auth48 e) a in
        let a := reconcile_tags nm (qtags e) a in
        let '(s, _, ch) := save_history nm a in
        mkRun s ch (warnings r)
    | _, _ => r
    end.

Definition main_loop (in_db : gset string) (drafts : list entry) (r : run) : run :=
  fold_left (step in_db) drafts r.

(** The documents of the second loop: no alias among [names], and a
    state of type draft-rfceditor. *)
Definition left_queue (names : list string) (s : Store) (nm : string) (d : Document) : bool :=
  negb (has_alias_in names nm s) && bool_decide (is_Some (get_state "draft-rfceditor" d)).

Definition leave_queue (d : Document) : Document :=
  unset_state "draft-rfceditor" (with_tags (tags d ∖ tag_mapping_values) d).

(** The second loop.  Its body adds the variable [name] of the first
    loop to [changed], which is unbound ([None]: [NameError]) when the
    queue is empty. *)
Definition remove_left (names : list string) (drafts : list entry) (r : run)
  : option run :=
  let s := store r in
  let gone := filter (fun kv => left_queue names s (fst kv) (snd kv) = true) (documents s) in
  if bool_decide (gone = ∅) then Some r
  else
    match last (List.map name drafts) with
    | None => None
    | Some nm =>
        let docs := map_imap (fun k d => Some (if left_queue names s k d
                                               then leave_queue d else d))
                             (documents s) in
        Some (mkRun (with_documents docs s) (changed r ∪ {[nm]}) (warnings r))
    end.

(** [update_drafts_from_queue(drafts)]: the changed names, the
    warnings, and the store it leaves.  [None] stands for an
    exception. *)
Definition update_drafts_from_queue (s : Store) (drafts : list entry)
  : option (gset string * list string * Store) :=
  if negb (bool_decide (tag_mapping_values ⊆ tag_names T)) then None
  else
    let names := List.map name drafts in
    let in_db := drafts_in_db names s in
    let r := main_loop in_db drafts (mkRun s ∅ []) in
    match remove_left names drafts r with
    | Some r => Some (changed r, warnings r, store r)
    | None => None
    end.
End WithTables.

End Queue.

(** ** What an iteration over the queue leaves alone *)

Module QueueSpec.
Import Db Queue.

(** [s'] differs from [s] only in the row of document [nm], in the
    events and in the calls made; the tags of [nm] are those of [s]. *)
Definition tag_frame (nm : string) (s s' : Store) : Prop :=
  aliases s' = aliases s /\
  exists f, documents s' = alter f nm (documents s) /\ forall x, tags (f x) = tags x.

(** What an iteration does to the store is local to the document the
    entry names. *)
Definition doc_frame (nm : string) (s s' : Store) : Prop :=
  aliases s' = aliases s /\ exists f, documents s' = alter f nm (documents s).

(** The warning for an entry whose state is not in the mapping. *)
Definition unknown_state_warning (e : entry) : string :=
  "unknown state '" +:+ state e +:+ "' for " +:+ name e.

End QueueSpec.

(** ** A small queue scenario

    Two drafts in the RFC Editor state EDIT, each with its own alias; the
    queue lists only the first, in the state it already has. *)

Module QueueScenario.
Import Db Queue.

Definition tables : Tables :=
  mkTables {[ "iana"; "ref"; "need-rev" ]} ∅ None (fun _ _ _ _ => false).

Definition draft_fields : DocFields :=
  mkFields "draft" "03" "A title" "An abstract" None None None None.

Definition in_edit (tgs : gset string) : Document :=
  mkDocument draft_fields {[ "draft-rfceditor" := "edit" ]} tgs ∅.

Definition store_with (tgs : gset string) : Store :=
  mkStore (<["draft-a" := in_edit tgs]> (<["draft-b" := in_edit ∅]> ∅))
          [("draft-a", ["draft-a"]); ("draft-b", ["draft-b"])] [] [] [].

Definition entry_a : entry :=
  mkEntry "draft-a" "2024-01-01" "EDIT" [] EmptyString (Some "ietf")
          EmptyString EmptyString [].

Definition entry_bogus : entry :=
  mkEntry "draft-b" "2024-01-02" "BOGUS" [] EmptyString (Some "ietf")
          EmptyString EmptyString [].

(** The tags of a set that the queue annotations speak about. *)
Definition restricted (t : gset string) : gset string := t ∩ {[ "ref"; "iana" ]}.

End QueueScenario.

(** ** Index reconciler: [update_docs_from_rfc_index] *)

Module Index.
Import Db PyDate.

(** A tuple of [parse_index]. *)
Record entry : Type := mkEntry {
  rfc_number : Z;
  e_title : string;
  authors : list string;
  rfc_published_date : date;
  current_status : string;
  updates : list string;
  updated_by : list string;
  obsoletes : list string;
  obsoleted_by : list string;
  also : list string;
  draft : string;
  has_errata : bool;
  e_stream : string;
  wg : option string;
  file_formats : string;
  e_pages : string;
  e_abstract : string
}.

(** An item of the errata data, with the two keys the module reads. *)
Record erratum : Type := mkErratum {
  doc_id : string;
  errata_status_code : string
}.

(** The dictionary [errata]: the items by [doc-id], in their order. *)
Definition group_errata (errata_data : list erratum) : gmap string (list erratum) :=
  fold_left (fun m item => <[doc_id item := default [] (m !! doc_id item) ++ [item]]> m)
            errata_data ∅.

Definition std_level_mapping : gmap string string :=
  list_to_map
    [ ("Standard", "std"); ("Internet Standard", "std"); ("Draft Standard", "ds");
      ("Proposed Standard", "ps"); ("Informational", "inf"); ("Experimental", "exp");
      ("Best Current Practice", "bcp"); ("Historic", "hist"); ("Unknown", "unkn") ].

Definition stream_mapping : gmap string string :=
  list_to_map
    [ ("IETF", "ietf"); ("INDEPENDENT", "ise"); ("IRTF", "irtf"); ("IAB", "iab");
      ("Legacy", "legacy") ].

Definition rfc_name (n : Z) : string := "rfc" +:+ pretty n.
Definition errata_key (n : Z) : string := "RFC" +:+ PyStr.percent_04d n.

(** [a < b] on dates. *)
Definition date_lt (a b : date) : bool :=
  (year a <? year b)
  || ((year a =? year b)
      && ((month a <? month b) || ((month a =? month b) && (day a <? day b)))).

(** What [Document.objects.create(name=name, type=draft)] stores. *)
Definition new_document : Document :=
  mkDocument (mkFields "draft" EmptyString EmptyString EmptyString None None None None)
             ∅ ∅ ∅.

(** The locals of one iteration: the store, the name of [doc], the
    columns of the instance [doc] in memory, [changes], [events] and
    [rfc_published]. *)
Record work : Type := mkWork {
  st : Store;
  doc : string;
  cur : DocFields;
  changes : list change_note;
  evs : list DocEvent;
  rfc_published : bool
}.

Definition with_st (s : Store) (w : work) : work :=
  mkWork s (doc w) (cur w) (changes w) (evs w) (rfc_published w).
Definition with_cur (f : DocFields) (w : work) : work :=
  mkWork (st w) (doc w) f (changes w) (evs w) (rfc_published w).
Definition note (c : change_note) (w : work) : work :=
  mkWork (st w) (doc w) (cur w) (changes w ++ [c]) (evs w) (rfc_published w).
Definition add_events (l : list DocEvent) (w : work) : work :=
  mkWork (st w) (doc w) (cur w) (changes w) (evs w ++ l) (rfc_published w).
Definition set_published (w : work) : work :=
  mkWork (st w) (doc w) (cur w) (changes w) (evs w) true.

(** The state of a type that the document has in the database. *)
Definition doc_state (state_type : string) (w : work) : option string :=
  documents (st w) !! doc w ≫= get_state state_type.

Definition doc_tags (w : work) : gset string :=
  default ∅ (tags <$> documents (st w) !! doc w).

Definition create_alias (name dn : string) (s : Store) : Store :=
  with_aliases (aliases s ++ [(name, [dn])]) s.

(** "make sure we got the document and alias" ([None]: an exception) *)
Definition resolve (s : Store) (e : entry) : option work :=
  let name := rfc_name (rfc_number e) in
  match find_alias name s with
  | Some (_, docs) =>
      match head docs with
      | Some dn =>
          match documents s !! dn with
          | Some d => Some (mkWork s dn (fields d) [] [] false)
          | None => None
          end
      | None => None
      end
  | None =>
      let found :=
        if PyStr.truthy (draft e) then
          match documents s !! draft e with
          | Some d => Some (draft e, d)
          | None => None
          end
        else None in
      match found with
      | Some (dn, d) =>
          Some (mkWork (create_alias name dn s) dn (fields d) [CreatedAlias name] [] false)
      | None =>
          match documents s !! name with
          | Some _ => None
          | None =>
              let s := with_documents (<[name := new_document]> (documents s)) s in
              Some (mkWork (create_alias name name s) name (fields new_document)
                           [CreatedDocument name; CreatedAlias name] [] false)
          end
      end
  end.

(** "check attributes" *)
Definition check_title (e : entry) (w : work) : work :=
  if negb (String.eqb (e_title e) (title (cur w))) then
    note (ChangedTitle (e_title e)) (with_cur (set_title (e_title e) (cur w)) w)
  else w.

Definition check_abstract (e : entry) (w : work) : work :=
  if PyStr.truthy (e_abstract e) && negb (String.eqb (e_abstract e) (abstract (cur w))) then
    note (ChangedAbstract (e_abstract e)) (with_cur (set_abstract (e_abstract e) (cur w)) w)
  else w.

Definition check_pages (e : entry) (w : work) : option work :=
  if PyStr.truthy (e_pages e) then
    match PyStr.int (e_pages e) with
    | None => None
    | Some n =>
        if negb (bool_decide (Some n = pages (cur w))) then
          Some (note (ChangedPages n) (with_cur (set_pages (Some n) (cur w)) w))
        else Some w
    end
  else Some w.

Definition check_std_level (e : entry) (w : work) : option work :=
  match std_level_mapping !! current_status e with
  | None => None
  | Some lv =>
      if negb (bool_decide (Some lv = std_level (cur w))) then
        Some (note (ChangedStdLevel lv) (with_cur (set_std_level (Some lv) (cur w)) w))
      else Some w
  end.

(** [doc.get_state_slug()] reads the state of the type of the document;
    the state set is that of type draft. *)
Definition check_state (w : work) : work :=
  if negb (bool_decide (doc_state (doc_type (cur w)) w = Some "rfc")) then
    let w := with_st (update_doc (doc w) (set_state "draft" "rfc") (st w)) w in
    let w := with_st (perform (MovedToArchive (doc w) (rev (cur w))) (st w)) w in
    note (ChangedState (doc_state (doc_type (cur w)) w)) w
  else w.

Definition check_stream (e : entry) (w : work) : option work :=
  match stream_mapping !! e_stream e with
  | None => None
  | Some sm =>
      if negb (bool_decide (stream (cur w) = Some sm)) then
        Some (note (ChangedStream sm) (with_cur (set_stream (Some sm) (cur w)) w))
      else Some w
  end.

Definition wg_truthy (e : entry) : option string :=
  match wg e with
  | Some g => if PyStr.truthy g then Some g else None
  | None => None
  end.

Section WithTables.
Variable T : Tables.

Definition check_group (e : entry) (w : work) : option work :=
  match group (cur w) with
  | Some _ => Some w
  | None =>
      match wg_truthy e with
      | Some g =>
          if bool_decide (g ∈ groups T) then
            Some (note (SetGroup g) (with_cur (set_group (Some g) (cur w)) w))
          else None
      | None =>
          match individ T with
          | Some g => Some (with_cur (set_group (Some g) (cur w)) w)
          | None => None
          end
      end
  end.

(** The [published_rfc] event, once per document. *)
Definition check_published (e : entry) (now : datetime) (w : work) : option work :=
  if negb (has_event (doc w) "published_rfc" (st w)) then
    match PubDate.synthesize 62 (rfc_published_date e) now with
    | None => None
    | Some (synthesized, _) =>
        let ev := mkEvent (doc w) (rev (cur w)) system (PublishedRfc synthesized) in
        let w := with_st (save_event ev (st w)) w in
        let w := add_events [ev] w in
        Some (set_published (note (AddedPublishedEvent synthesized) w))
    end
  else Some w.

(** One iteration of the loop over the four state types. *)
Definition check_typed_state (w : work) (t : string) : work :=
  match doc_state t w with
  | Some slug =>
      if negb (bool_decide (slug ∈ ["pub"; "idexists"])) then
        let w := with_st (update_doc (doc w) (set_state t "pub") (st w)) w in
        let w := note (ChangedTypedState t "pub") w in
        let '(s, ev) := update_action_holders T (doc w) (rev (cur w)) t (Some slug)
                          "pub" (st w) in
        add_events (option_list ev) (with_st s w)
      else w
  | None =>
      if String.eqb t "draft-iesg" then
        with_st (update_doc (doc w) (set_state "draft-iesg" "idexists") (st w)) w
      else w
  end.

Definition state_types : list string :=
  ["draft-iesg"; "draft-stream-iab"; "draft-stream-irtf"; "draft-stream-ise"].

Definition check_typed_states (w : work) : work :=
  fold_left check_typed_state state_types w.
End WithTables.

(** The aliases one identifier of a relation list stands for. *)
Definition lookup_targets (s : Store) (x : string) : list string :=
  if bool_decide (PyStr.take 3 x ∈ ["NIC"; "IEN"; "STD"; "RTR"]) then
    List.map fst
      (List.filter
         (fun row => PyStr.startswith "rfc" (fst row)
                     && existsb (fun d => has_alias_in [PyStr.lower x] d s) (snd row))
         (aliases s))
  else
    List.map fst (List.filter (fun row => String.eqb (fst row) (PyStr.lower x)) (aliases s)).

Definition add_new (res : list string) (a : string) : list string :=
  if bool_decide (a ∈ res) then res else res ++ [a].

Definition parse_relation_list (s : Store) (l : list string) : list string :=
  fold_left (fun res x => fold_left add_new (lookup_targets s x) res) l [].

Definition relationship_name (slug : string) : string :=
  if String.eqb slug "obs" then "obsoletes" else slug.

(** The body of the two relation loops: create the edge only if none
    with that source, target and relationship exists. *)
Definition ensure_relation (rel : string) (w : work) (x : string) : work :=
  let r := mkRelation (doc w) x rel in
  if negb (bool_decide (r ∈ relations (st w))) then
    note (CreatedRelation (relationship_name rel) (doc w) x)
         (with_st (with_relations (relations (st w) ++ [r]) (st w)) w)
  else w.

Definition check_relations (rel : string) (ids : list string) (w : work) : work :=
  fold_left (ensure_relation rel) (parse_relation_list (st w) ids) w.

(** The body of the loop over [also]. *)
Definition ensure_alias (w : work) (a : string) : work :=
  let a := PyStr.lower a in
  match find_alias a (st w) with
  | Some _ => w
  | None => note (CreatedAlias a) (with_st (create_alias a (doc w) (st w)) w)
  end.

Definition check_also (e : entry) (w : work) : work :=
  fold_left ensure_alias (also e) w.

Definition is_status (code : string) (er : erratum) : bool :=
  String.eqb (errata_status_code er) code.

(** [all_rejected = doc_errata and all(...)]: there are errata for the
    document and every one of them is rejected. *)
Definition all_rejected (doc_errata : list erratum) : bool :=
  match doc_errata with
  | [] => false
  | _ => forallb (is_status "Rejected") doc_errata
  end.

Definition add_tag (t : string) (w : work) : work :=
  with_st (update_doc (doc w) (fun d => with_tags (tags d ∪ {[t]}) d) (st w)) w.
Definition remove_tag (t : string) (w : work) : work :=
  with_st (update_doc (doc w) (fun d => with_tags (tags d ∖ {[t]}) d) (st w)) w.

(** The errata tags. *)
Definition check_errata (errata : gmap string (list erratum)) (e : entry) (w : work)
  : work :=
  let doc_errata := default [] (errata !! errata_key (rfc_number e)) in
  if has_errata e && negb (all_rejected doc_errata) then
    let w :=
      if negb (bool_decide ("errata" ∈ doc_tags w)) then
        note AddedErrataTag (add_tag "errata" w)
      else w in
    let has_verified_errata := existsb (is_status "Verified") doc_errata in
    if has_verified_errata && negb (bool_decide ("verified-errata" ∈ doc_tags w)) then
      note AddedVerifiedErrataTag (add_tag "verified-errata" w)
    else w
  else
    let w :=
      if bool_decide ("errata" ∈ doc_tags w) then
        note (RemovedErrataTag (all_rejected doc_errata)) (remove_tag "errata" w)
      else w in
    if bool_decide ("verified-errata" ∈ doc_tags w) then
      note RemovedVerifiedErrataTag (remove_tag "verified-errata" w)
    else w.

(** [if changes:] the consolidated event and [save_with_history], which
    writes the columns of the instance back. *)
Definition finish (w : work) : work :=
  match changes w with
  | [] => w
  | _ =>
      let ev := mkEvent (doc w) (rev (cur w)) system (SyncFromRfcEditor (changes w)) in
      let w := add_events [ev] (with_st (save_event ev (st w)) w) in
      let s := update_doc (doc w) (with_fields (cur w)) (st w) in
      with_st (perform (SavedWithHistory (doc w) (evs w)) s) w
  end.

(** The body of the loop for an entry that is not skipped. *)
Definition reconcile (T : Tables) (errata : gmap string (list erratum))
    (s : Store) (e : entry) (now : datetime) : option work :=
  w ← resolve s e;
  let w := check_title e w in
  let w := check_abstract e w in
  w ← check_pages e w;
  w ← check_std_level e w;
  let w := check_state w in
  w ← check_stream e w;
  w ← check_group T e w;
  w ← check_published e now w;
  let w := check_typed_states T w in
  let w := check_relations "obs" (obsoletes e) w in
  let w := check_relations "updates" (updates e) w in
  let w := check_also e w in
  let w := check_errata errata e w in
  Some (finish w).

(** What the generator yields for a document: the changes, the
    document and [rfc_published]. *)
Definition yielded : Type := list change_note * string * bool.

Definition skipped (skip_older_than_date : option date) (e : entry) : bool :=
  match skip_older_than_date with
  | Some cutoff => date_lt (rfc_published_date e) cutoff
  | None => false
  end.

(** One iteration of the loop over the index. *)
Definition step (T : Tables) (errata : gmap string (list erratum))
    (skip_older_than_date : option date) (s : Store) (e : entry) (now : datetime)
  : option (Store * list yielded) :=
  if skipped skip_older_than_date e then Some (s, [])
  else
    w ← reconcile T errata s e now;
    Some (st w,
          match changes w with
          | [] => []
          | _ => [(changes w, doc w, rfc_published w)]
          end).

(** The loop, over the entries each with the time at which it is
    reached. *)
Fixpoint run (T : Tables) (errata : gmap string (list erratum))
    (skip_older_than_date : option date) (s : Store)
    (index_data : list (entry * datetime)) : option (Store * list yielded) :=
  match index_data with
  | [] => Some (s, [])
  | (e, now) :: rest =>
      '(s1, out1) ← step T errata skip_older_than_date s e now;
      '(s2, out2) ← run T errata skip_older_than_date s1 rest;
      Some (s2, out1 ++ out2)
  end.

(** [update_docs_from_rfc_index(index_data, errata_data,
    skip_older_than_date)]: the store it leaves and the sequence it
    yields; [None] stands for an exception. *)
Definition update_docs_from_rfc_index (T : Tables) (s : Store)
    (index_data : list (entry * datetime)) (errata_data : list erratum)
    (skip_older_than_date : option date) : option (Store * list yielded) :=
  run T (group_errata errata_data) skip_older_than_date s index_data.

End Index.

(** ** A small index scenario

    An empty database and an index of two entries, the first of which
    lists the second among the documents it obsoletes. *)

Module IndexScenario.
Import Db PyDate Index.

Definition tables : Tables :=
  mkTables {[ "errata"; "verified-errata" ]} {[ "httpbis" ]} (Some "none")
           (fun _ _ _ _ => false).

Definition empty_store : Store := mkStore ∅ [] [] [] [].

Definition now : datetime := DateTime (Date 2024 4 20) 43200000000.

Definition plain_entry (n : Z) (ttl : string) (obs : list string) (errata : bool) : entry :=
  mkEntry n ttl ["A. Author"] (Date 2020 1 1) "Informational" [] [] obs [] []
          EmptyString errata "IETF" None "ascii" EmptyString EmptyString.

Definition rfc1 : entry := plain_entry 1 "One" ["RFC2"] false.
Definition rfc2 : entry := plain_entry 2 "Two" [] false.
Definition index : list (entry * datetime) := [(rfc1, now); (rfc2, now)].

(** An entry for which the index reports errata. *)
Definition rfc3 : entry := plain_entry 3 "Three" [] true.

(** The store a run over [index] leaves, from the empty store and
    from what that run left. *)
Definition store_after (r : option (Store * list yielded)) : Store :=
  match r with
  | Some (s, _) => s
  | None => empty_store
  end.

Definition after_one_run : Store :=
  store_after (update_docs_from_rfc_index tables empty_store index [] None).

Definition after_two_runs : Store :=
  store_after (update_docs_from_rfc_index tables after_one_run index [] None).

(** The same two entries in the other order: the entry of RFC 1
    comes after the entry of the document it obsoletes. *)
Definition index_back : list (entry * datetime) := [(rfc2, now); (rfc1, now)].

Definition after_back : Store :=
  store_after (update_docs_from_rfc_index tables empty_store index_back [] None).

(** An index that lists RFC 4 twice, under two titles. *)
Definition index_twice : list (entry * datetime) :=
  [(plain_entry 4 "Four" [] false, now); (plain_entry 4 "Fourth" [] false, now)].

Definition after_twice : Store :=
  store_after (update_docs_from_rfc_index tables empty_store index_twice [] None).

(** A database with one document that is not of type draft, and the
    entry of RFC 6, which names that document as its draft. *)
Definition review : Document :=
  mkDocument (mkFields "conflrev" "00" "Six" EmptyString None (Some "inf") (Some "ietf")
                       (Some "none"))
             {[ "draft-iesg" := "pub" ]} ∅ ∅.

Definition store_with_review : Store :=
  mkStore {[ "conflict-review-six" := review ]} [] [] [] [].

Definition rfc6 : entry :=
  mkEntry 6 "Six" ["A. Author"] (Date 2020 1 1) "Informational" [] [] [] [] []
          "conflict-review-six" false "IETF" None "ascii" EmptyString EmptyString.

Definition index_review : list (entry * datetime) := [(rfc6, now)].

Definition after_review : Store :=
  store_after (update_docs_from_rfc_index tables store_with_review index_review [] None).

(** A database that holds RFC 1, and an index that lists twice an
    entry of RFC 2 that obsoletes RFC 1. *)
Definition store_with_rfc1 : Store :=
  store_after (update_docs_from_rfc_index tables empty_store
                 [(plain_entry 1 "One" [] false, now)] [] None).

Definition rfc2_obsoletes_rfc1 : entry := plain_entry 2 "Two" ["RFC1"] false.

Definition index_repeated : list (entry * datetime) :=
  [(rfc2_obsoletes_rfc1, now); (rfc2_obsoletes_rfc1, now)].

Definition after_repeated : Store :=
  store_after (update_docs_from_rfc_index tables store_with_rfc1 index_repeated [] None).

End IndexScenario.

(** ** How the locals of an iteration of the index reconciler evolve *)

Module IndexSpec.
Import Db Index.

(** The blocks of an iteration, by the change notes they write. *)
Inductive note_kind : Type :=
| KCreated | KTitle | KAbstract | KPages | KStdLevel | KState | KStream
| KGroup | KPublished | KTypedState | KRelation | KErrata.

Definition kind_of (c : change_note) : note_kind :=
  match c with
  | CreatedDocument _ | CreatedAlias _ => KCreated
  | ChangedTitle _ => KTitle
  | ChangedAbstract _ => KAbstract
  | ChangedPages _ => KPages
  | ChangedStdLevel _ => KStdLevel
  | ChangedState _ => KState
  | ChangedStream _ => KStream
  | SetGroup _ => KGroup
  | AddedPublishedEvent _ => KPublished
  | ChangedTypedState _ _ => KTypedState
  | CreatedRelation _ _ _ => KRelation
  | AddedErrataTag | AddedVerifiedErrataTag | RemovedErrataTag _
  | RemovedVerifiedErrataTag => KErrata
  end.

(** What a change of the row of a document keeps: its tags when [kt],
    its columns when [kf], its states when [ks]. *)
Definition doc_keeps (kt kf ks : bool) (d d' : Document) : Prop :=
  (kt = true -> tags d' = tags d) /\
  (kf = true -> fields d' = fields d) /\
  (ks = true -> states d' = states d).

(** [evolves K kt kf ks w w']: from [w] to [w'] the document at hand is
    the same, only its row changed among the documents, and aliases,
    relations, events and change notes were only added: the aliases are
    new names, the relations are new edges from the document, of the
    two kinds, each once, the events are events of the document, and
    the notes are of the kinds [K]. *)
Record evolves (K : list note_kind) (kt kf ks : bool) (w w' : work) : Prop := mkEvolves {
  same_doc : doc w' = doc w;
  row_only : exists g, documents (st w') = alter g (doc w) (documents (st w))
                       /\ forall d, doc_keeps kt kf ks d (g d);
  more_aliases : exists x, aliases (st w') = aliases (st w) ++ x
                           /\ forall row, In row x -> find_alias (fst row) (st w) = None;
  more_relations : exists x, relations (st w') = relations (st w) ++ x
                             /\ NoDup x
                             /\ forall r, In r x ->
                                  ~ In r (relations (st w)) /\ source r = doc w
                                  /\ In (relationship r) ["obs"; "updates"];
  more_events : exists x, events (st w') = events (st w) ++ x
                          /\ Forall (fun e => ev_doc e = doc w) x;
  more_changes : exists x, changes w' = changes w ++ x
                           /\ Forall (fun c => In (kind_of c) K) x
}.

(** The errata records associated with the document of an entry. *)
Definition associated (errata_data : list erratum) (e : entry) : list erratum :=
  List.filter (fun er => String.eqb (doc_id er) (errata_key (rfc_number e))) errata_data.

(** Following the spec's words: all the associated errata are rejected,
    and the tags the document is said to end with. *)
Definition every_rejected (doc_errata : list erratum) : bool :=
  forallb (is_status "Rejected") doc_errata.

Definition claimed_errata_tags (e : entry) (doc_errata : list erratum)
    (after : gset string) : Prop :=
  if has_errata e && negb (every_rejected doc_errata) then
    "errata" ∈ after /\
    (existsb (is_status "Verified") doc_errata = true -> "verified-errata" ∈ after)
  else ("errata" ∉ after) /\ ("verified-errata" ∉ after).

Definition is_created (c : change_note) : Prop := kind_of c = KCreated.

(** The document an entry denotes in a store: the first document of
    the alias rfc<number>. *)
Definition entry_doc (s : Store) (e : entry) : option string :=
  match find_alias (rfc_name (rfc_number e)) s with
  | Some (_, dn :: _) => Some dn
  | _ => None
  end.

(** The group an iteration leaves in memory, and the columns. *)
Definition group_after (T : Tables) (e : entry) (g : option string) : option string :=
  match g with
  | Some _ => g
  | None => match wg_truthy e with Some x => Some x | None => individ T end
  end.

Definition fields_after (T : Tables) (e : entry) (f : DocFields) : DocFields :=
  let f := set_title (e_title e) f in
  let f := if PyStr.truthy (e_abstract e) then set_abstract (e_abstract e) f else f in
  let f := if PyStr.truthy (e_pages e) then set_pages (PyStr.int (e_pages e)) f else f in
  let f := set_std_level (std_level_mapping !! current_status e) f in
  let f := set_stream (stream_mapping !! e_stream e) f in
  set_group (group_after T e (group f)) f.

Definition typed_state_ok (d : Document) (t : string) : Prop :=
  match get_state t d with
  | Some slug => slug ∈ ["pub"; "idexists"]
  | None => t <> "draft-iesg"
  end.

Definition errata_tags_ok (e : entry) (doc_errata : list erratum) (tgs : gset string)
  : Prop :=
  if has_errata e && negb (all_rejected doc_errata) then
    "errata" ∈ tgs /\
    (existsb (is_status "Verified") doc_errata = true -> "verified-errata" ∈ tgs)
  else ("errata" ∉ tgs) /\ ("verified-errata" ∉ tgs).

(** [in_sync T errata s e dn d]: in the store [s] the entry [e] denotes
    the document [dn], whose row is [d], and every block of an iteration
    for [e] finds what it looks for. *)
Record in_sync (T : Tables) (errata : gmap string (list erratum)) (s : Store)
    (e : entry) (dn : string) (d : Document) : Prop := mkInSync {
  sync_alias : exists nm rest,
                 find_alias (rfc_name (rfc_number e)) s = Some (nm, dn :: rest);
  sync_row : documents s !! dn = Some d;
  sync_title : title (fields d) = e_title e;
  sync_abstract : PyStr.truthy (e_abstract e) = true ->
                  abstract (fields d) = e_abstract e;
  sync_pages : PyStr.truthy (e_pages e) = true ->
               exists n, PyStr.int (e_pages e) = Some n /\ pages (fields d) = Some n;
  sync_std_level : exists lv, std_level_mapping !! current_status e = Some lv
                              /\ std_level (fields d) = Some lv;
  sync_type : doc_type (fields d) = "draft";
  sync_state : get_state "draft" d = Some "rfc";
  sync_stream : exists sm, stream_mapping !! e_stream e = Some sm
                           /\ stream (fields d) = Some sm;
  sync_group : group (fields d) <> None
               \/ (wg_truthy e = None /\ individ T <> None);
  sync_published : has_event dn "published_rfc" s = true;
  sync_typed : forall t, In t state_types -> typed_state_ok d t;
  sync_obsoletes : forall a, In a (parse_relation_list s (obsoletes e)) ->
                     mkRelation dn a "obs" ∈ relations s;
  sync_updates : forall a, In a (parse_relation_list s (updates e)) ->
                   mkRelation dn a "updates" ∈ relations s;
  sync_also : forall a, In a (also e) -> find_alias (PyStr.lower a) s <> None;
  sync_errata : errata_tags_ok e (default [] (errata !! errata_key (rfc_number e)))
                               (tags d)
}.

(** From [s] to [s'] the aliases, the relations and the events were
    only added to. *)
Definition grows (s s' : Store) : Prop :=
  (exists x, aliases s' = aliases s ++ x) /\
  (exists x, relations s' = relations s ++ x) /\
  (exists x, events s' = events s ++ x).

(** The entries of an index that the cutoff date does not skip. *)
Definition processed (skip : option PyDate.date) (index_data : list (entry * PyDate.datetime))
  : list entry :=
  List.filter (fun e => negb (skipped skip e)) (List.map fst index_data).

(** The relation identifiers of an entry resolve in [s'] to no alias
    they did not resolve to in [s]. *)
Definition same_targets (s s' : Store) (e : entry) : Prop :=
  (forall a, In a (parse_relation_list s' (obsoletes e)) ->
             In a (parse_relation_list s (obsoletes e))) /\
  (forall a, In a (parse_relation_list s' (updates e)) ->
             In a (parse_relation_list s (updates e))).

(** The entry without its two relation lists. *)
Definition without_relations (e : entry) : entry :=
  mkEntry (rfc_number e) (e_title e) (authors e) (rfc_published_date e)
          (current_status e) [] (updated_by e) [] (obsoleted_by e) (also e) (draft e)
          (has_errata e) (e_stream e) (wg e) (file_formats e) (e_pages e)
          (e_abstract e).

(** In [s] every alias that a relation list of [e] resolves to is the
    target of a relation of the kind of the list from the document
    that [e] denotes. *)
Definition relations_present (s : Store) (e : entry) : Prop :=
  forall dn, entry_doc s e = Some dn ->
    (forall a, In a (parse_relation_list s (obsoletes e)) ->
               mkRelation dn a "obs" ∈ relations s) /\
    (forall a, In a (parse_relation_list s (updates e)) ->
               mkRelation dn a "updates" ∈ relations s).

(** The number of rows of the relation table that are the edge [r]. *)
Definition count_relation (r : Relation) (s : Store) : nat :=
  length (List.filter (fun x => bool_decide (x = r)) (relations s)).

Definition all_kinds : list note_kind :=
  [KCreated; KTitle; KAbstract; KPages; KStdLevel; KState; KStream; KGroup;
   KPublished; KTypedState; KRelation; KErrata].

End IndexSpec.

(** ** What a run over the queue does, entry by entry *)

Module QueueRunSpec.
Import Db Queue.

(** The entries the first loop works on: the document is known and
    the state code is one of the mapping. *)
Definition known (in_db : gset string) (e : entry) : bool :=
  bool_decide (name e ∈ in_db) && PyStr.truthy (state e)
  && bool_decide (is_Some (state_mapping !! state e)).

(** The warning the first loop gives for an entry it does not work
    on. *)
Definition warning_of (in_db : gset string) (e : entry) : string :=
  if bool_decide (name e ∈ in_db)
  then "unknown state '" +:+ state e +:+ "' for " +:+ name e
  else "unknown document " +:+ name e.

Definition is_mail (x : effect) : bool :=
  match x with SentMail _ _ _ => true | _ => false end.

(** The condition of the first-contact block. *)
Definition first_contact_due (nm : string) (d : Document) (s : Store) : bool :=
  bool_decide (get_state "draft-iesg" d = Some "ann")
  && bool_decide (get_state "draft-rfceditor" d = None)
  && negb (has_event nm "rfc_editor_received_announcement" s).

(** The mail of the first-contact block. *)
Definition mail_of (nm : string) : effect :=
  SentMail "iesg-secretary@ietf.org" (nm +:+ " in RFC Editor queue")
           ("The announcement for " +:+ nm +:+ " has been received by the RFC Editor.").

(** What the state block does to the AUTH48 URL of the document. *)
Definition url_step (a48 : string) (x : Document) : Document :=
  if PyStr.truthy a48 then with_urls (<["auth48" := a48]> (urls x)) x
  else with_urls (delete "auth48" (urls x)) x.

(** The row of the document after each block of an iteration. *)
Definition after_contact (nm : string) (d : Document) (s : Store) : Document :=
  if first_contact_due nm d s then set_state "draft-iesg" "rfcqueue" d else d.

Definition after_state (next a48 : string) (prev : option string) (d : Document)
  : Document :=
  if bool_decide (prev = Some next) then d
  else
    let d := set_state "draft-rfceditor" next d in
    if PyStr.truthy a48 then with_urls (<["auth48" := a48]> (urls d)) d
    else with_urls (delete "auth48" (urls d)) d.

Definition after_tags (t : gset string) (d : Document) : Document :=
  if bool_decide (t = tags d) then d else with_tags t d.

(** [advances nm s s']: from [s] to [s'] only the row of [nm] changed
    among the documents, keeping its columns, the events added are
    events of [nm], and aliases and relations are as they were. *)
Record advances (nm : string) (s s' : Store) : Prop := mkAdvances {
  adv_aliases : aliases s' = aliases s;
  adv_relations : relations s' = relations s;
  adv_documents : exists f, documents s' = alter f nm (documents s)
                            /\ forall x, fields (f x) = fields x;
  adv_events : exists x, events s' = events s ++ x
                         /\ Forall (fun ev => ev_doc ev = nm) x;
  adv_effects : exists x, effects s' = effects s ++ x
}.

End QueueRunSpec.

(** ** More of the queue scenario *)

Module QueueScenarioRuns.
Import Db Queue QueueScenario.

(** The store a run leaves: that of the result, the store given when
    the run raises. *)
Definition store_after (s : Store) (r : option (gset string * list string * Store))
  : Store :=
  match r with
  | Some (_, _, s') => s'
  | None => s
  end.

(** draft-a reaches AUTH48, with the link the queue gives for it. *)
Definition entry_auth48 : entry :=
  mkEntry "draft-a" "2024-01-01" "AUTH48" ["iana"] EmptyString (Some "ietf")
          "https://www.rfc-editor.org/auth48/rfc9999" EmptyString [].

(** A draft whose announcement was sent and which the RFC Editor has
    not been seen to hold yet. *)
Definition announced : Document :=
  mkDocument draft_fields {[ "draft-iesg" := "ann" ]} ∅ ∅.

Definition store_announced : Store :=
  mkStore {[ "draft-a" := announced ]} [("draft-a", ["draft-a"])] [] [] [].

(** The store after a run over the queue that lists draft-a alone. *)
Definition after_run : Store :=
  store_after (store_with ∅)
              (update_drafts_from_queue tables (store_with ∅) [entry_a]).

End QueueScenarioRuns.

(** ** What an iteration over the index adds to the event history *)

Module IndexRunSpec.
Import Db PyDate Index.

(** From [w] to [w'] no event was saved, and the document at hand, its
    revision and [rfc_published] are the same. *)
Record keeps (w w' : work) : Prop := mkKeeps {
  keeps_events : events (st w') = events (st w);
  keeps_evs : evs w' = evs w;
  keeps_doc : doc w' = doc w;
  keeps_rev : rev (cur w') = rev (cur w);
  keeps_published : rfc_published w' = rfc_published w
}.

(** The number of events of a type that a document has. *)
Definition count_events (name ty : string) (s : Store) : nat :=
  length (List.filter (fun ev => String.eqb (ev_doc ev) name && String.eqb (ev_type ev) ty)
                      (events s)).

Definition is_action_holders_event (name : string) (ev : DocEvent) : Prop :=
  ev_doc ev = name /\ ev_desc ev = ActionHoldersChanged.

(** The consolidated event of an iteration. *)
Definition sync_event (w : work) : DocEvent :=
  mkEvent (doc w) (rev (cur w)) system (SyncFromRfcEditor (changes w)).

(** The tags the errata block does not speak about. *)
Definition other_tag (x : string) : Prop := x <> "errata" /\ x <> "verified-errata".

(** The identifiers of a relation list that are translated through
    the aliases of the documents. *)
Definition translated (x : string) : bool :=
  bool_decide (PyStr.take 3 x ∈ ["NIC"; "IEN"; "STD"; "RTR"]).

End IndexRunSpec.

(** ** More index entries for the scenario *)

Module IndexRunScenario.
Import Db PyDate Index IndexScenario.

(** An entry with a status that [std_level_mapping] does not hold. *)
Definition rfc_odd : entry :=
  mkEntry 4 "Four" ["A. Author"] (Date 2020 1 1) "Not Issued" [] [] [] [] []
          EmptyString false "IETF" None "ascii" EmptyString EmptyString.

(** A store with the draft that became RFC 5, and the entry of that
    RFC. *)
Definition draft_five : Document :=
  mkDocument (mkFields "draft" "07" "Five" EmptyString None None None (Some "httpbis"))
             {[ "draft" := "active" ]} {[ "need-rev" ]} ∅.

Definition store_with_draft : Store :=
  mkStore {[ "draft-ietf-five" := draft_five ]}
          [("draft-ietf-five", ["draft-ietf-five"])] [] [] [].

Definition rfc5 : entry :=
  mkEntry 5 "Five" ["A. Author"] (Date 2020 1 1) "Proposed Standard" [] [] [] [] []
          "draft-ietf-five" false "IETF" (Some "httpbis") "ascii" "12" EmptyString.

(** An entry whose page count is no number. *)
Definition rfc_pages : entry :=
  mkEntry 4 "Four" ["A. Author"] (Date 2020 1 1) "Informational" [] [] [] [] []
          EmptyString false "IETF" None "ascii" "twelve" EmptyString.

(** A store with a draft that has a state in the IETF stream and one
    in the ISE stream, and the entry of the RFC it became. *)
Definition draft_eight : Document :=
  mkDocument (mkFields "draft" "03" "Eight" EmptyString None None None (Some "httpbis"))
             {[ "draft" := "active"; "draft-stream-ietf" := "rfc-edit";
                "draft-stream-ise" := "ise-rev" ]} ∅ ∅.

Definition store_with_streams : Store :=
  mkStore {[ "draft-ietf-eight" := draft_eight ]}
          [("draft-ietf-eight", ["draft-ietf-eight"])] [] [] [].

Definition rfc8 : entry :=
  mkEntry 8 "Eight" ["A. Author"] (Date 2020 1 1) "Proposed Standard" [] [] [] [] []
          "draft-ietf-eight" false "IETF" (Some "httpbis") "ascii" "12" EmptyString.

End IndexRunScenario.

(** ** The document tree of [xml.dom]

    What [pulldom] builds for a document: elements with their tag names
    and attributes, the character data as the parser delivers it (maybe
    in several pieces), and processing instructions.  Comments are not
    delivered to the content handler, so the tree has none. *)

Module Dom.

#[local] Unset Elimination Schemes.
Inductive node : Type :=
| Element (tagName : string) (attributes : list (string * string))
          (childNodes : list node)
| Text (data : string)
| Instruction (target data : string).
#[local] Set Elimination Schemes.

(** [node.localName]: the part of the tag name after its first colon,
    the tag name when it has none. *)
Fixpoint after_colon (s : string) : option string :=
  match s with
  | EmptyString => None
  | String c s' => if Ascii.eqb c ":"%char then Some s' else after_colon s'
  end.

Definition localName (tag : string) : string :=
  match after_colon tag with
  | Some l => l
  | None => tag
  end.

(** [node.getAttribute(name)]: the empty string when there is no such
    attribute. *)
Definition getAttribute (attrs : list (string * string)) (name : string) : string :=
  match List.find (fun kv => String.eqb (fst kv) name) attrs with
  | Some kv => snd kv
  | None => EmptyString
  end.

(** [L[-1].data += d] when the last node of [L] is a text node, [L]
    with a new text node otherwise. *)
Fixpoint append_text (L : list node) (d : string) : list node :=
  match L with
  | [] => [Text d]
  | [x] => match x with
           | Text d0 => [Text (d0 +:+ d)]
           | _ => [x; Text d]
           end
  | x :: L' => x :: append_text L' d
  end.

(** [node.normalize()]: empty text nodes are dropped and adjacent text
    nodes joined, in the element and in the elements below it. *)
Fixpoint normalize (n : node) : node :=
  match n with
  | Element t a cs =>
      Element t a
        (fold_left (fun L c =>
                      match c with
                      | Text d => if PyStr.truthy d then append_text L d else L
                      | Element _ _ _ => L ++ [normalize c]
                      | Instruction _ _ => L ++ [c]
                      end) cs [])
  | _ => n
  end.

Definition children (n : node) : list node :=
  match n with
  | Element _ _ cs => cs
  | _ => []
  end.

(** [node.firstChild.data]; [None] stands for [AttributeError]: there
    is no child, or the first child is an element. *)
Definition first_data (cs : list node) : option string :=
  match cs with
  | Text d :: _ => Some d
  | Instruction _ d :: _ => Some d
  | _ => None
  end.

(** The children that are elements of a given local name, each with
    its own children. *)
Fixpoint elements_named (name : string) (cs : list node) : list (list node) :=
  match cs with
  | [] => []
  | Element t _ sub :: rest =>
      if String.eqb (localName t) name then sub :: elements_named name rest
      else elements_named name rest
  | _ :: rest => elements_named name rest
  end.

Fixpoint join (sep : string) (l : list string) : string :=
  match l with
  | [] => EmptyString
  | [x] => x
  | x :: rest => x +:+ sep +:+ join sep rest
  end.

Definition newline : string := String (ascii_of_nat 10) EmptyString.

Fixpoint all_some {A} (l : list (option A)) : option (list A) :=
  match l with
  | [] => Some []
  | Some x :: rest => option_map (cons x) (all_some rest)
  | None :: _ => None
  end.

(** [get_child_text(parent_node, tag_name)] on the children of the
    parent. *)
Definition get_child_text (cs : list node) (tag_name : string) : option string :=
  option_map (join (newline +:+ newline))
             (all_some (List.map first_data (elements_named tag_name cs))).

(** [node.getElementsByTagName(name)]: the elements below the node
    with that tag name, in document order, each with its children.
    [below name n] is [n] itself, when it is such an element, and
    then those below it. *)
Fixpoint below (name : string) (n : node) : list (list node) :=
  match n with
  | Element t _ sub =>
      (if String.eqb name "*" || String.eqb t name then [sub] else [])
      ++ flat_map (below name) sub
  | _ => []
  end.

Definition getElementsByTagName (name : string) (cs : list node) : list (list node) :=
  flat_map (below name) cs.

End Dom.

(** ** More Python string operations, on ASCII strings *)

Module PyText.

Definition newline : ascii := ascii_of_nat 10.

(** The characters [str.strip()] removes. *)
Definition isspace (c : ascii) : bool :=
  let n := nat_of_ascii c in
  ((9 <=? n)%nat && (n <=? 13)%nat) || ((28 <=? n)%nat && (n <=? 32)%nat).

Fixpoint lstrip (s : string) : string :=
  match s with
  | String c s' => if isspace c then lstrip s' else s
  | EmptyString => EmptyString
  end.

(** [s.strip()] *)
Definition strip (s : string) : string :=
  PyStr.rev_onto (lstrip (PyStr.rev_onto (lstrip s) EmptyString)) EmptyString.

(** [s[n:]] *)
Fixpoint drop (n : nat) (s : string) : string :=
  match n, s with
  | S k, String _ s' => drop k s'
  | _, _ => s
  end.

(** [$]: the end of the string, or the newline that ends it. *)
Definition at_end (s : string) : bool :=
  match s with
  | EmptyString => true
  | String c EmptyString => Ascii.eqb c newline
  | _ => false
  end.

(** [-\d\d] at the head of [s]: what follows it. *)
Definition rev_at (s : string) : option string :=
  match s with
  | String c (String d1 (String d2 rest)) =>
      if Ascii.eqb c "-"%char && PyStr.is_digit d1 && PyStr.is_digit d2
      then Some rest else None
  | _ => None
  end.

(** [.txt] at the head of [s]: what follows it. *)
Definition txt_at (s : string) : option string :=
  match s with
  | String c (String t1 (String x (String t2 rest))) =>
      if negb (Ascii.eqb c newline) && Ascii.eqb t1 "t"%char
         && Ascii.eqb x "x"%char && Ascii.eqb t2 "t"%char
      then Some rest else None
  | _ => None
  end.

(** [(.txt){1,2}$] at the head of [s], two groups tried first: what
    is left after the match, nothing or the final newline. *)
Definition txt_groups_at (s : string) : option string :=
  match txt_at s with
  | Some r1 =>
      match txt_at r1 with
      | Some r2 => if at_end r2 then Some r2 else if at_end r1 then Some r1 else None
      | None => if at_end r1 then Some r1 else None
      end
  | None => None
  end.

(** [(-\d\d)?(.txt){1,2}$] at the head of [s]. *)
Definition suffix_at (s : string) : option string :=
  match rev_at s with
  | Some r =>
      match txt_groups_at r with
      | Some rest => Some rest
      | None => txt_groups_at s
      end
  | None => txt_groups_at s
  end.

(** [re.sub(r"(-\d\d)?(.txt){1,2}$", "", s)]: the leftmost match is
    taken out; what is left after it is nothing or a newline, where no
    other match begins. *)
Fixpoint sub_suffix (s : string) : string :=
  match suffix_at s with
  | Some rest => rest
  | None =>
      match s with
      | EmptyString => EmptyString
      | String c s' => String c (sub_suffix s')
      end
  end.

(** [re.search(r"-\d\d$", s)], as a truth value. *)
Fixpoint search_rev (s : string) : bool :=
  match rev_at s with
  | Some r => at_end r
  | None => false
  end
  || match s with
     | EmptyString => false
     | String _ s' => search_rev s'
     end.

(** [s[0:-3]] *)
Definition drop_last3 (s : string) : string :=
  PyStr.take (String.length s - 3) s.

Definition is_lower (c : ascii) : bool :=
  let n := nat_of_ascii c in (97 <=? n)%nat && (n <=? 122)%nat.
Definition is_upper (c : ascii) : bool :=
  let n := nat_of_ascii c in (65 <=? n)%nat && (n <=? 90)%nat.
Definition upper_char (c : ascii) : ascii :=
  if is_lower c then ascii_of_nat (nat_of_ascii c - 32) else c.

(** [s.title()]: a letter that follows a letter is put in lower case,
    any other letter in upper case. *)
Fixpoint title_from (previous_is_cased : bool) (s : string) : string :=
  match s with
  | EmptyString => EmptyString
  | String c s' =>
      if is_lower c || is_upper c then
        String (if previous_is_cased then PyStr.lower_char c else upper_char c)
               (title_from true s')
      else String c (title_from false s')
  end.

Definition title (s : string) : string := title_from false s.

(** The text is ASCII: every character is below 128. *)
Fixpoint is_ascii (s : string) : bool :=
  match s with
  | EmptyString => true
  | String c s' => (nat_of_ascii c <? 128)%nat && is_ascii s'
  end.

(** [l.index(x)]; [None]: [ValueError]. *)
Fixpoint index_of (x : string) (l : list string) : option nat :=
  match l with
  | [] => None
  | y :: rest => if String.eqb y x then Some O else option_map S (index_of x rest)
  end.

End PyText.

(** ** Queue parser: [parse_queue] on the document tree *)

Module QueueXml.
Import Dom PyStr QueueParser.

(** The state, the tags and the generation of the entry: the loop over
    the [state] children. *)
Definition entry_state (cs : list node) : option (string * list string * string) :=
  fold_left (fun acc sub =>
               match acc, first_data sub with
               | Some a, Some text => Some (decode_state a text)
               | _, _ => None
               end)
            (elements_named "state" cs) (Some (EmptyString, [], EmptyString)).

(** The loops that keep the text of the last child of a name. *)
Definition last_text (name : string) (cs : list node) : option string :=
  fold_left (fun acc sub =>
               match acc with
               | Some _ => first_data sub
               | None => None
               end)
            (elements_named name cs) (Some EmptyString).

Definition norm_ref (sub : list node) : option (string * string * bool) :=
  match get_child_text sub "ref-name", get_child_text sub "ref-state" with
  | Some ref_name, Some ref_state =>
      Some (ref_name, ref_state, startswith "IN-QUEUE" ref_state)
  | _, _ => None
  end.

(** The tuple of an [entry] element, from its children after
    [normalize]; [None] stands for an exception. *)
Definition parse_entry (stream : option string) (cs : list node) : option Queue.entry :=
  match get_child_text cs "draft", get_child_text cs "date-received",
        entry_state cs, last_text "auth48-url" cs, last_text "cluster-url" cs,
        all_some (List.map norm_ref (elements_named "normRef" cs)) with
  | Some draft, Some date_received, Some (state, tags, missref_generation),
    Some auth48, Some cluster, Some refs =>
      Some (Queue.mkEntry (PyText.sub_suffix (PyText.strip draft)) date_received state
                          tags missref_generation stream auth48 cluster refs)
  | _, _, _, _, _, _ => None
  end.

(** The stream of a section, by the start of its name. *)
Definition section_stream (name : string) : option string :=
  if startswith "IETF" name then Some "ietf"
  else if startswith "IAB" name then Some "iab"
  else if startswith "IRTF" name then Some "irtf"
  else if startswith "INDEPENDENT" name then Some "ise"
  else None.

(** The locals of the loop over the events. *)
Record scan : Type := mkScan {
  drafts : list Queue.entry;
  warnings : list string;
  stream : option string
}.

Definition start_section (attrs : list (string * string)) (a : scan) : scan :=
  let name := getAttribute attrs "name" in
  match section_stream name with
  | Some st => mkScan (drafts a) (warnings a) (Some st)
  | None => mkScan (drafts a) (warnings a ++ ["unrecognized section " +:+ name]) None
  end.

(** The loop over the events of the part of the document below and at
    [n]: the start of an [entry] element is followed by [expandNode],
    which takes the events of the whole element, so that the loop does
    not see the elements inside it. *)
Fixpoint visit (n : node) (a : option scan) : option scan :=
  match a with
  | None => None
  | Some st =>
      match n with
      | Element tag attrs cs =>
          if String.eqb tag "entry" then
            match parse_entry (stream st) (children (normalize n)) with
            | Some e => Some (mkScan (drafts st ++ [e]) (warnings st) (stream st))
            | None => None
            end
          else
            let st := if String.eqb tag "section" then start_section attrs st else st in
            fold_left (fun a c => visit c a) cs (Some st)
      | _ => Some st
      end
  end.

(** [parse_queue(response)] for a response whose document has the
    root element [root]. *)
Definition parse_queue (root : node) : option (list Queue.entry * list string) :=
  match visit root (Some (mkScan [] [] None)) with
  | Some a => Some (drafts a, warnings a)
  | None => None
  end.

End QueueXml.

(** ** Index parser: [parse_index] on the document tree *)

Module IndexXml.
Import Dom PyDate.

(** [normalize_std_name]: "remove zero padding" *)
Definition normalize_std_name (std_name : string) : string :=
  let prefix := PyStr.take 3 std_name in
  if bool_decide (prefix ∈ ["RFC"; "FYI"; "BCP"; "STD"]) then
    match PyStr.int (PyText.drop 3 std_name) with
    | Some n => prefix +:+ pretty n
    | None => std_name
    end
  else std_name.

(** [extract_doc_list(parentNode, tagName)] on the children of the
    parent. *)
Definition extract_doc_list (cs : list node) (tag : string) : option (list string) :=
  all_some
    (flat_map (fun u =>
                 List.map (fun d => option_map normalize_std_name (first_data d))
                          (getElementsByTagName "doc-id" u))
              (getElementsByTagName tag cs)).

(** The handling of a [bcp-entry], [fyi-entry] or [std-entry]
    element: [also_list] with the identifier of the entry added for
    each document it is also. *)
Definition note_also (bcpid : string) (also_list : gmap string (list string))
    (docid : string) : gmap string (list string) :=
  match also_list !! docid with
  | Some l => <[docid := l ++ [bcpid]]> also_list
  | None => <[docid := [bcpid]]> also_list
  end.

Definition series_entry (cs : list node) (also_list : gmap string (list string))
  : option (gmap string (list string)) :=
  match get_child_text cs "doc-id", extract_doc_list cs "is-also" with
  | Some id, Some doclist =>
      Some (fold_left (note_also (normalize_std_name id)) doclist also_list)
  | _, _ => None
  end.

Definition month_names : list string :=
  ["January"; "February"; "March"; "April"; "May"; "June"; "July"; "August";
   "September"; "October"; "November"; "December"].

(** [datetime.date(year, month, 1)] for a month of the list above;
    [None]: [ValueError], the year is out of range. *)
Definition first_of_month (y : Z) (month_index : nat) : option date :=
  if (MINYEAR <=? y)%Z && (y <=? MAXYEAR)%Z
  then Some (Date y (Z.of_nat month_index + 1) 1) else None.

(** The publication date of an entry: the first [date] element below
    it. *)
Definition entry_date (cs : list node) : option date :=
  match getElementsByTagName "date" cs with
  | d :: _ =>
      match get_child_text d "year" with
      | Some ytext =>
          match PyStr.int ytext, get_child_text d "month" with
          | Some y, Some m =>
              match PyText.index_of m month_names with
              | Some i => first_of_month y i
              | None => None
              end
          | _, _ => None
          end
      | None => None
      end
  | [] => None
  end.

(** [wg]: no group for NON WORKING GROUP and for names of more than
    15 characters. *)
Definition entry_wg (wg : string) : option string :=
  if PyStr.truthy wg
     && (String.eqb wg "NON WORKING GROUP" || (15 <? String.length wg)%nat)
  then None else Some wg.

Definition entry_draft (draft : string) : string :=
  if PyStr.truthy draft && PyText.search_rev draft then PyText.drop_last3 draft
  else draft.

(** The text of the [p] children of the last [abstract] element, the
    empty string when there is none. *)
Definition entry_abstract (cs : list node) : option string :=
  fold_left (fun acc a =>
               match acc with
               | Some _ => get_child_text a "p"
               | None => None
               end)
            (getElementsByTagName "abstract" cs) (Some EmptyString).

(** The tuple of an [rfc-entry] element, from its children after
    [normalize], with an empty [also]; [None] stands for an
    exception. *)
Definition rfc_entry (cs : list node) : option Index.entry :=
  doc_id ← get_child_text cs "doc-id";
  rfc_number ← PyStr.int (PyText.drop 3 doc_id);
  title ← get_child_text cs "title";
  authors ← all_some (List.map (fun a => get_child_text a "name")
                               (getElementsByTagName "author" cs));
  rfc_published_date ← entry_date cs;
  status ← get_child_text cs "current-status";
  updates ← extract_doc_list cs "updates";
  updated_by ← extract_doc_list cs "updated-by";
  obsoletes ← extract_doc_list cs "obsoletes";
  obsoleted_by ← extract_doc_list cs "obsoleted-by";
  pages ← get_child_text cs "page-count";
  stream ← get_child_text cs "stream";
  wg ← get_child_text cs "wg_acronym";
  formats ← all_some (List.map (fun f => get_child_text f "file-format")
                               (getElementsByTagName "format" cs));
  abstract ← entry_abstract cs;
  draft ← get_child_text cs "draft";
  Some (Index.mkEntry rfc_number title authors rfc_published_date (PyText.title status)
          updates updated_by obsoletes obsoleted_by [] (entry_draft draft)
          (match getElementsByTagName "errata-url" cs with [] => false | _ => true end)
          stream (entry_wg wg) (PyStr.lower (join "," formats)) pages abstract).

(** The locals of the loop over the events. *)
Record scan : Type := mkScan {
  also_list : gmap string (list string);
  data : list Index.entry
}.

(** The loop over the events of the part of the document below and at
    [n]; the elements inside an entry element are not seen by it. *)
Fixpoint visit (n : node) (a : option scan) : option scan :=
  match a with
  | None => None
  | Some st =>
      match n with
      | Element tag attrs cs =>
          if bool_decide (tag ∈ ["bcp-entry"; "fyi-entry"; "std-entry"]) then
            match series_entry (children (normalize n)) (also_list st) with
            | Some al => Some (mkScan al (data st))
            | None => None
            end
          else if String.eqb tag "rfc-entry" then
            match rfc_entry (children (normalize n)) with
            | Some e => Some (mkScan (also_list st) (data st ++ [e]))
            | None => None
            end
          else fold_left (fun a c => visit c a) cs (Some st)
      | _ => Some st
      end
  end.

(** The last loop: [also] of each tuple is extended with the list of
    its key, RFC and the number on four digits. *)
Definition with_also (al : gmap string (list string)) (e : Index.entry) : Index.entry :=
  match al !! ("RFC" +:+ PyStr.percent_04d (Index.rfc_number e)) with
  | Some l =>
      Index.mkEntry (Index.rfc_number e) (Index.e_title e) (Index.authors e)
        (Index.rfc_published_date e) (Index.current_status e) (Index.updates e)
        (Index.updated_by e) (Index.obsoletes e) (Index.obsoleted_by e)
        (Index.also e ++ l) (Index.draft e) (Index.has_errata e) (Index.e_stream e)
        (Index.wg e) (Index.file_formats e) (Index.e_pages e) (Index.e_abstract e)
  | None => e
  end.

(** [parse_index(response)] for a response whose document has the
    root element [root]. *)
Definition parse_index (root : node) : option (list Index.entry) :=
  match visit root (Some (mkScan ∅ [])) with
  | Some a => Some (List.map (with_also (also_list a)) (data a))
  | None => None
  end.

End IndexXml.

(** ** The usual layout of the queue document *)

Module QueueXmlSpec.
Import Dom QueueXml.

(** A root element that holds section elements, each given by its
    attributes and its children. *)
Definition queue_document (tag : string) (attrs : list (string * string))
    (sections : list (list (string * string) * list node)) : node :=
  Element tag attrs (List.map (fun sec => Element "section" (fst sec) (snd sec)) sections).

(** The children of a section are entry elements, and text. *)
Definition holds_entries (cs : list node) : Prop :=
  Forall (fun n => match n with Element t _ _ => t = "entry" | _ => True end) cs.

(** The elements among the children, each as [parse_entry] reads
    it. *)
Definition entries (cs : list node) : list (list node) :=
  flat_map (fun n => match n with
                     | Element _ _ _ => [children (normalize n)]
                     | _ => []
                     end) cs.

Definition section_name (sec : list (string * string) * list node) : string :=
  getAttribute (fst sec) "name".

(** One warning for each section whose name has no stream. *)
Definition section_warnings (sections : list (list (string * string) * list node))
  : list string :=
  flat_map (fun sec => match section_stream (section_name sec) with
                       | Some _ => []
                       | None => ["unrecognized section " +:+ section_name sec]
                       end) sections.

(** The tuples of the sections, each entry read with the stream of
    its own section. *)
Definition section_entries (sections : list (list (string * string) * list node))
  : list (option Queue.entry) :=
  flat_map (fun sec => List.map (parse_entry (section_stream (section_name sec)))
                                (entries (snd sec))) sections.

End QueueXmlSpec.

(** ** Two small documents *)

Module XmlScenario.
Import Dom.

Definition leaf (tag text : string) : node := Element tag [] [Text text].

(** An index with STD 5, which is also RFC 791, and the entry of
    RFC 791. *)
Definition sample_index : node :=
  Element "rfc-index" []
    [ Element "std-entry" []
        [ leaf "doc-id" "STD0005";
          Element "is-also" [] [leaf "doc-id" "RFC0791"] ];
      Element "rfc-entry" []
        [ leaf "doc-id" "RFC0791";
          leaf "title" "Internet Protocol";
          Element "author" [] [leaf "name" "J. Postel"];
          Element "date" [] [leaf "month" "September"; leaf "year" "1981"];
          Element "is-also" [] [leaf "doc-id" "STD0005"];
          leaf "current-status" "INTERNET STANDARD";
          leaf "stream" "Legacy" ] ].

Definition sample_index_data : list Index.entry :=
  [ Index.mkEntry 791 "Internet Protocol" ["J. Postel"] (PyDate.Date 1981 9 1)
      "Internet Standard" [] [] [] [] [] "" false "Legacy" (Some "") "" "" "" ].

Definition queue_entry (draft state : string) : node :=
  Element "entry" []
    [ leaf "draft" draft; leaf "date-received" "2011-03-14"; leaf "state" state ].

(** A queue with two sections, the second of a name that
    [parse_queue] does not know. *)
Definition sample_sections : list (list (string * string) * list node) :=
  [ ([("name", "IETF STREAM: WORKING GROUP STANDARDS TRACK")],
     [ Text " "; queue_entry "draft-ietf-foo-bar-07.txt" "EDIT*R";
       queue_entry "draft-ietf-baz-02.txt" "AUTH48" ]);
    ([("name", "EDITORIAL STREAM")], [ queue_entry "draft-rswg-qux-00.txt" "RFC-EDITOR" ]) ].

End XmlScenario.

(** * Properties *)

Import ListNotations.

Module NotifierFacts.
Import Notifier.

(** The function returns a pair for every outcome of the request: no
    exception leaves it. *)
Lemma post_approved_draft_total o : exists text error, post_approved_draft o = (text, error).
Proof. unfold post_approved_draft. eauto. Qed.

Lemma try_block_success status_code text :
  try_block (Responded status_code text) = inl tt <-> status_code = 200 /\ text = "OK".
Proof.
  unfold try_block. destruct (Z.eqb_spec status_code 200) as [->|Hne]; cbn [negb].
  - destruct (String.eqb_spec text "OK") as [->|Hne]; cbn [negb].
    + tauto.
    + split; [discriminate|]. intros [_ ?]. contradiction.
  - split; [discriminate|]. intros [? _]. contradiction.
Qed.

Lemma error_on_status status_code text :
  status_code <> 200 ->
  snd (post_approved_draft (Responded status_code text))
  = "Status code is not 200 OK (it's " +:+ pretty status_code +:+ ").".
Proof.
  intros Hne. unfold post_approved_draft, try_block.
  destruct (Z.eqb_spec status_code 200); [contradiction|reflexivity].
Qed.

Lemma error_on_body text :
  text <> "OK" ->
  snd (post_approved_draft (Responded 200 text))
  = "Response is not " +:+ PyStr.dq +:+ "OK" +:+ PyStr.dq
    +:+ " (it's " +:+ PyStr.dq +:+ text +:+ PyStr.dq +:+ ").".
Proof.
  intros Hne. unfold post_approved_draft, try_block. cbn [Z.eqb negb Pos.eqb].
  destruct (String.eqb_spec text "OK"); [contradiction|reflexivity].
Qed.

Lemma error_on_exception msg : post_approved_draft (Raised msg) = (PyStr.empty, msg).
Proof. reflexivity. Qed.

(** C2: the response text that [post_approved_draft] returns is the
    empty string for every outcome of the request, the successful one
    included: on status 200 with the body OK it returns the pair of
    two empty strings, not the body and the empty string; and an
    exception whose string is empty gives an empty error. *)
Theorem response_text_is_always_empty :
  (forall o, fst (post_approved_draft o) = PyStr.empty) /\
  post_approved_draft (Responded 200 "OK") = (PyStr.empty, PyStr.empty) /\
  post_approved_draft (Responded 200 "OK") <> ("OK", PyStr.empty) /\
  post_approved_draft (Raised PyStr.empty) = (PyStr.empty, PyStr.empty).
Proof.
  split; [intros o; reflexivity|]. split; [reflexivity|]. split; [|reflexivity].
  vm_compute. discriminate.
Qed.

Example body_fail : 
  post_approved_draft (Responded 200 "FAIL")
  = (PyStr.empty, "Response is not " +:+ PyStr.dq +:+ "OK" +:+ PyStr.dq
                  +:+ " (it's " +:+ PyStr.dq +:+ "FAIL" +:+ PyStr.dq +:+ ").").
Proof. reflexivity. Qed.

Example status_500 :
  post_approved_draft (Responded 500 "OK")
  = (PyStr.empty, "Status code is not 200 OK (it's 500).").
Proof. vm_compute. reflexivity. Qed.
End NotifierFacts.

Module QueueParserFacts.
Import PyStr QueueParser QueueStateSpec.

Lemma append_cons a (s r : string) : String a s +:+ r = String a (s +:+ r).
Proof. reflexivity. Qed.

Lemma append_nil (r : string) : EmptyString +:+ r = r.
Proof. reflexivity. Qed.

Lemma prefix_head_ne c0 old c s :
  Ascii.eqb c c0 = false -> String.prefix (String c0 old) (String c s) = false.
Proof.
  intros H. simpl. destruct (ascii_dec c0 c) as [->|]; [|reflexivity].
  rewrite Ascii.eqb_refl in H. discriminate.
Qed.

Lemma prefix_append s rest : String.prefix s (s +:+ rest) = true.
Proof.
  induction s as [|a s IH]; [destruct rest; reflexivity|].
  rewrite append_cons. cbn [String.prefix]. destruct (ascii_dec a a); [exact IH|congruence].
Qed.

Lemma append_assoc (a b c : string) : (a +:+ b) +:+ c = a +:+ (b +:+ c).
Proof. induction a as [|x a IH]; [reflexivity|]. rewrite !append_cons. now rewrite IH. Qed.

(** A stretch of text without the first character of [old] holds no
    occurrence of [old] and starts none. *)
Lemma remove_free c0 old s1 rest :
  lacks c0 s1 = true ->
  remove_from (String c0 old) 0 (s1 +:+ rest)
  = s1 +:+ remove_from (String c0 old) 0 rest.
Proof.
  induction s1 as [|a s1 IH]; intros H; [reflexivity|].
  simpl in H. apply andb_true_iff in H as [Ha Hs]. apply negb_true_iff in Ha.
  rewrite !append_cons. cbn [remove_from].
  rewrite (prefix_head_ne c0 old a _ Ha). now rewrite IH.
Qed.

Lemma contains_free c0 old s1 rest :
  lacks c0 s1 = true ->
  contains (String c0 old) (s1 +:+ rest) = contains (String c0 old) rest.
Proof.
  induction s1 as [|a s1 IH]; intros H; [reflexivity|].
  simpl in H. apply andb_true_iff in H as [Ha Hs]. apply negb_true_iff in Ha.
  rewrite !append_cons. cbn [contains].
  rewrite (prefix_head_ne c0 old a _ Ha). now rewrite IH.
Qed.

Lemma remove_skip old s1 rest :
  remove_from old (String.length s1) (s1 +:+ rest) = remove_from old 0 rest.
Proof. induction s1 as [|a s1 IH]; [reflexivity|]. rewrite append_cons. cbn [String.length remove_from]. auto. Qed.

Lemma remove_hit c0 old rest :
  remove_from (String c0 old) 0 (String c0 old +:+ rest)
  = remove_from (String c0 old) 0 rest.
Proof.
  rewrite append_cons. cbn [remove_from]. rewrite <- append_cons.
  rewrite prefix_append. cbn [String.length Nat.pred]. apply remove_skip.
Qed.

Lemma contains_hit old rest : contains old (old +:+ rest) = true.
Proof.
  destruct old as [|c0 old]; [destruct rest; reflexivity|].
  rewrite append_cons. cbn [contains]. rewrite <- append_cons.
  now rewrite prefix_append.
Qed.

Lemma search_free s1 rest :
  lacks "("%char s1 = true -> search_gen (s1 +:+ rest) = search_gen rest.
Proof.
  induction s1 as [|a s1 IH]; intros H; [reflexivity|].
  simpl in H. apply andb_true_iff in H as [Ha Hs]. apply negb_true_iff in Ha.
  rewrite append_cons. cbn [search_gen match_gen_at]. rewrite Ha. auto.
Qed.

(** ** Digits *)

Lemma digit_not c0 c : is_digit c0 = false -> is_digit c = true -> Ascii.eqb c c0 = false.
Proof.
  intros H0 H. destruct (Ascii.eqb_spec c c0) as [->|]; [congruence|reflexivity].
Qed.

Lemma digits_lack c0 g : is_digit c0 = false -> all_digits g = true -> lacks c0 g = true.
Proof.
  intros H0. induction g as [|a g IH]; intros H; [reflexivity|].
  simpl in *. apply andb_true_iff in H as [Ha Hg].
  rewrite (digit_not c0 a H0 Ha). simpl. auto.
Qed.

Lemma span_digits_stop g c rest :
  all_digits g = true -> is_digit c = false ->
  span_digits (g +:+ String c rest) = (g, String c rest).
Proof.
  intros Hg Hc. induction g as [|a g IH].
  - rewrite append_nil. cbn [span_digits]. now rewrite Hc.
  - cbn [all_digits] in Hg. apply andb_true_iff in Hg as [Ha Hg].
    rewrite append_cons. cbn [span_digits]. rewrite Ha, (IH Hg). reflexivity.
Qed.

Lemma gen_marker_head g : gen_marker g = String "("%char (g +:+ "G)").
Proof. reflexivity. Qed.

Lemma gen_marker_lacks c0 g :
  is_digit c0 = false -> all_digits g = true ->
  Ascii.eqb "("%char c0 = false -> Ascii.eqb "G"%char c0 = false ->
  Ascii.eqb ")"%char c0 = false ->
  lacks c0 (gen_marker g) = true.
Proof.
  intros H0 Hg H1 H2 H3. rewrite gen_marker_head. cbn [lacks]. rewrite H1.
  cbn [negb andb].
  induction g as [|a g IH].
  - rewrite append_nil. cbn [lacks]. now rewrite H2, H3.
  - cbn [all_digits] in Hg. apply andb_true_iff in Hg as [Ha Hg].
    rewrite append_cons. cbn [lacks]. rewrite (digit_not c0 a H0 Ha). cbn [negb andb]. auto.
Qed.

Lemma match_gen_marker g rest :
  all_digits g = true -> truthy g = true ->
  match_gen_at (gen_marker g +:+ rest) = Some g.
Proof.
  intros Hg Hne. rewrite gen_marker_head, append_cons. cbn [match_gen_at].
  rewrite Ascii.eqb_refl, append_assoc, !append_cons, append_nil.
  rewrite span_digits_stop by (auto; reflexivity). rewrite Hne.
  change (String "G" (String ")" rest)) with ("G)" +:+ rest).
  rewrite prefix_append. reflexivity.
Qed.

(** ** The decoding steps on a well-annotated state *)

Section Pieces.
Variable g : string.
Hypothesis g_digits : all_digits g = true.
Hypothesis g_nonempty : truthy g = true.

Lemma not_digit_star : is_digit "*"%char = false. Proof. reflexivity. Qed.
Lemma not_digit_paren : is_digit "("%char = false. Proof. reflexivity. Qed.

Lemma plain_lacks_star c :
  plain_ok (Plain c) = true -> lacks "*"%char (String c EmptyString) = true.
Proof.
  simpl. intros H. apply andb_true_iff in H as [H _]. now rewrite H.
Qed.

Lemma plain_lacks_paren c :
  plain_ok (Plain c) = true -> lacks "("%char (String c EmptyString) = true.
Proof.
  simpl. intros H. apply andb_true_iff in H as [_ H]. now rewrite H.
Qed.

Lemma marker_lacks_star : lacks "*"%char (gen_marker g) = true.
Proof. apply gen_marker_lacks; auto. Qed.

Lemma render_cons p ps : render g (p :: ps) = render_piece g p +:+ render g ps.
Proof. reflexivity. Qed.

Lemma remove_R ps :
  forallb plain_ok ps = true ->
  remove_all "*R" (render g ps) = render g (without KindR ps).
Proof.
  unfold remove_all. induction ps as [|p ps IH]; intros H; [reflexivity|].
  cbn [forallb] in H. apply andb_true_iff in H as [Hp Hps].
  rewrite render_cons. destruct p; cbn [without List.filter is_kind negb render_piece].
  - rewrite remove_free by (apply plain_lacks_star, Hp).
    rewrite render_cons. cbn [render_piece]. f_equal. apply IH, Hps.
  - rewrite remove_hit. apply IH, Hps.
  - rewrite render_cons. cbn [render_piece]. rewrite !append_cons, append_nil.
    cbn. f_equal. f_equal. apply IH, Hps.
  - rewrite remove_free by apply marker_lacks_star.
    rewrite render_cons. cbn [render_piece]. f_equal. apply IH, Hps.
Qed.

Lemma remove_A ps :
  forallb plain_ok ps = true ->
  remove_all "*A" (render g ps) = render g (without KindA ps).
Proof.
  unfold remove_all. induction ps as [|p ps IH]; intros H; [reflexivity|].
  cbn [forallb] in H. apply andb_true_iff in H as [Hp Hps].
  rewrite render_cons. destruct p; cbn [without List.filter is_kind negb render_piece].
  - rewrite remove_free by (apply plain_lacks_star, Hp).
    rewrite render_cons. cbn [render_piece]. f_equal. apply IH, Hps.
  - rewrite render_cons. cbn [render_piece]. rewrite !append_cons, append_nil.
    cbn. f_equal. f_equal. apply IH, Hps.
  - rewrite remove_hit. apply IH, Hps.
  - rewrite remove_free by apply marker_lacks_star.
    rewrite render_cons. cbn [render_piece]. f_equal. apply IH, Hps.
Qed.

Lemma remove_G ps :
  forallb plain_ok ps = true ->
  remove_all (gen_marker g) (render g ps) = render g (without KindG ps).
Proof.
  unfold remove_all. rewrite gen_marker_head.
  induction ps as [|p ps IH]; intros H; [reflexivity|].
  cbn [forallb] in H. apply andb_true_iff in H as [Hp Hps].
  rewrite render_cons. destruct p; cbn [without List.filter is_kind negb render_piece].
  - rewrite remove_free by (apply plain_lacks_paren, Hp).
    rewrite render_cons. cbn [render_piece]. f_equal. apply IH, Hps.
  - rewrite remove_free by reflexivity.
    rewrite render_cons. cbn [render_piece]. f_equal. apply IH, Hps.
  - rewrite remove_free by reflexivity.
    rewrite render_cons. cbn [render_piece]. f_equal. apply IH, Hps.
  - rewrite gen_marker_head, remove_hit. apply IH, Hps.
Qed.

Lemma contains_R ps :
  forallb plain_ok ps = true ->
  contains "*R" (render g ps) = has_kind KindR ps.
Proof.
  induction ps as [|p ps IH]; intros H; [reflexivity|].
  cbn [forallb] in H. apply andb_true_iff in H as [Hp Hps].
  rewrite render_cons. destruct p; cbn [has_kind existsb is_kind orb render_piece].
  - rewrite contains_free by (apply plain_lacks_star, Hp). apply IH, Hps.
  - apply contains_hit.
  - rewrite !append_cons, append_nil. cbn. apply IH, Hps.
  - rewrite contains_free by apply marker_lacks_star. apply IH, Hps.
Qed.

Lemma contains_A ps :
  forallb plain_ok ps = true ->
  contains "*A" (render g ps) = has_kind KindA ps.
Proof.
  induction ps as [|p ps IH]; intros H; [reflexivity|].
  cbn [forallb] in H. apply andb_true_iff in H as [Hp Hps].
  rewrite render_cons. destruct p; cbn [has_kind existsb is_kind orb render_piece].
  - rewrite contains_free by (apply plain_lacks_star, Hp). apply IH, Hps.
  - rewrite !append_cons, append_nil. cbn. apply IH, Hps.
  - apply contains_hit.
  - rewrite contains_free by apply marker_lacks_star. apply IH, Hps.
Qed.

Lemma search_gen_unfold s :
  search_gen s =
  match match_gen_at s with
  | Some x => Some x
  | None => match s with EmptyString => None | String _ s' => search_gen s' end
  end.
Proof. destruct s; reflexivity. Qed.

Lemma search_G ps :
  forallb plain_ok ps = true ->
  search_gen (render g ps) = if has_kind KindG ps then Some g else None.
Proof.
  induction ps as [|p ps IH]; intros H; [reflexivity|].
  cbn [forallb] in H. apply andb_true_iff in H as [Hp Hps].
  rewrite render_cons. destruct p; cbn [has_kind existsb is_kind orb render_piece].
  - rewrite search_free by (apply plain_lacks_paren, Hp). apply IH, Hps.
  - rewrite search_free by reflexivity. apply IH, Hps.
  - rewrite search_free by reflexivity. apply IH, Hps.
  - rewrite search_gen_unfold, match_gen_marker by auto. reflexivity.
Qed.

Lemma without_plain_ok k ps :
  forallb plain_ok ps = true -> forallb plain_ok (without k ps) = true.
Proof.
  intros H. apply forallb_forall. intros p Hp.
  apply filter_In in Hp as [Hp _].
  revert p Hp. apply forallb_forall. exact H.
Qed.

Lemma without_absent k ps : has_kind k ps = false -> without k ps = ps.
Proof.
  intros E. unfold without. apply forallb_filter_id.
  apply forallb_forall. intros p Hp. apply negb_true_iff.
  destruct (is_kind k p) eqn:Ek; [|reflexivity].
  unfold has_kind in E.
  assert (existsb (is_kind k) ps = true) by (apply existsb_exists; eauto).
  congruence.
Qed.

(** One decoding step removes the markers of one kind. *)
Lemma strip_state k ps tags gen :
  forallb plain_ok ps = true ->
  fst (fst (strip k (render g ps, tags, gen))) = render g (without k ps).
Proof.
  intros H. destruct k; cbn [strip].
  - unfold strip_R. rewrite contains_R by exact H.
    destruct (has_kind KindR ps) eqn:E; cbn [fst]; [apply remove_R, H|].
    now rewrite without_absent.
  - unfold strip_A. rewrite contains_A by exact H.
    destruct (has_kind KindA ps) eqn:E; cbn [fst]; [apply remove_A, H|].
    now rewrite without_absent.
  - unfold strip_G. rewrite search_G by exact H.
    destruct (has_kind KindG ps) eqn:E; cbn [fst]; [apply remove_G, H|].
    now rewrite without_absent.
Qed.

Lemma strip_shape k ps tags gen :
  forallb plain_ok ps = true ->
  exists tags' gen',
    strip k (render g ps, tags, gen) = (render g (without k ps), tags', gen').
Proof.
  intros H. pose proof (strip_state k ps tags gen H) as E.
  destruct (strip k (render g ps, tags, gen)) as [[s t] g']. cbn [fst] in E.
  subst s. eauto.
Qed.

Lemma strip_fold_state order : forall ps tags gen,
  forallb plain_ok ps = true ->
  fst (fst (fold_left (fun st k => strip k st) order (render g ps, tags, gen)))
  = render g (fold_left (fun qs k => without k qs) order ps).
Proof.
  induction order as [|k order IH]; intros ps tags gen H; [reflexivity|].
  cbn [fold_left].
  destruct (strip_shape k ps tags gen H) as (tags' & gen' & ->).
  apply IH, without_plain_ok, H.
Qed.

Lemma fold_without order : forall ps,
  fold_left (fun qs k => without k qs) order ps = List.filter (survives order) ps.
Proof.
  induction order as [|k order IH]; intros ps; cbn [fold_left].
  - unfold survives. cbn [existsb negb]. symmetry. apply forallb_filter_id.
    apply forallb_forall. reflexivity.
  - rewrite IH. unfold without.
    induction ps as [|p ps IHps]; [reflexivity|].
    cbn [List.filter]. unfold survives at 2. cbn [existsb].
    destruct (is_kind k p); cbn [negb orb]; [exact IHps|].
    cbn [List.filter]. fold (survives order p).
    destruct (survives order p); [f_equal|]; exact IHps.
Qed.

Lemma survives_full order p :
  (forall k, In k order) -> survives order p = is_plain p.
Proof.
  intros Hall. unfold survives. destruct p; cbn [is_plain].
  - apply negb_true_iff. apply not_true_is_false. intros E.
    apply existsb_exists in E as (k & _ & Hk). destruct k; discriminate.
  - apply negb_false_iff, existsb_exists. exists KindR. split; [apply Hall|reflexivity].
  - apply negb_false_iff, existsb_exists. exists KindA. split; [apply Hall|reflexivity].
  - apply negb_false_iff, existsb_exists. exists KindG. split; [apply Hall|reflexivity].
Qed.

Lemma fold_without_full order ps :
  (forall k, In k order) ->
  fold_left (fun qs k => without k qs) order ps = List.filter is_plain ps.
Proof.
  intros Hall. rewrite fold_without. apply filter_ext.
  intros p. apply survives_full, Hall.
Qed.

Lemma plain_text_filter ps : plain_text g ps = render g (List.filter is_plain ps).
Proof.
  unfold plain_text. f_equal.
  apply (fold_without_full [KindR; KindA; KindG] ps).
  intros []; simpl; auto.
Qed.

Lemma has_kind_filter_plain k ps : has_kind k (List.filter is_plain ps) = false.
Proof.
  apply not_true_is_false. intros E. apply existsb_exists in E as (p & Hp & Hk).
  apply filter_In in Hp as [_ Hp]. destruct p, k; discriminate.
Qed.

Lemma filter_plain_ok ps :
  forallb plain_ok ps = true -> forallb plain_ok (List.filter is_plain ps) = true.
Proof.
  intros H. apply forallb_forall. intros p Hp. apply filter_In in Hp as [Hp _].
  revert p Hp. apply forallb_forall, H.
Qed.

Lemma has_kind_without k k' ps :
  k <> k' -> has_kind k' (without k ps) = has_kind k' ps.
Proof.
  intros Hne. unfold has_kind, without.
  induction ps as [|p ps IH]; [reflexivity|].
  cbn [List.filter existsb].
  destruct (is_kind k p) eqn:Ek; cbn [negb existsb]; rewrite IH.
  - destruct k, k', p; try discriminate; try reflexivity; congruence.
  - reflexivity.
Qed.

(** A state that carries both [*R] and [*A]: what [parse_queue] makes
    of it. *)
Lemma parse_state_render ps :
  forallb plain_ok ps = true ->
  has_kind KindR ps = true -> has_kind KindA ps = true ->
  parse_state (render g ps)
  = (plain_text g ps, ["ref"; "iana"],
     if has_kind KindG ps then g else EmptyString).
Proof.
  intros H HR HA. unfold parse_state, parse_states, plain_text.
  cbn [fold_left decode_state].
  unfold strip_R. rewrite contains_R, HR by exact H. rewrite remove_R by exact H.
  pose proof (without_plain_ok KindR ps H) as H1.
  unfold strip_A. rewrite contains_A by exact H1.
  rewrite has_kind_without, HA by discriminate. rewrite remove_A by exact H1.
  pose proof (without_plain_ok KindA _ H1) as H2.
  unfold strip_G. rewrite search_G by exact H2.
  rewrite !has_kind_without by discriminate.
  destruct (has_kind KindG ps) eqn:EG.
  - rewrite remove_G by exact H2. reflexivity.
  - rewrite (without_absent KindG); [reflexivity|].
    now rewrite !has_kind_without by discriminate.
Qed.
End Pieces.

(** C9 (as amended).  For a well-annotated state (plain text in which an
    asterisk only begins [*R] or [*A] and an opening parenthesis only
    begins the one generation marker) that carries both [*R] and [*A],
    in either order: the tags are ref and iana, the generation is the
    marker's when there is one, the decoded state is the plain text, free
    of all three markers, and the decoding steps give that same state in
    whatever order they are taken. *)
Theorem well_annotated_state_decoding g ps :
  well_annotated g ps ->
  has_kind KindR ps = true -> has_kind KindA ps = true ->
  contains "*R" (render g ps) = true /\ contains "*A" (render g ps) = true /\
  parse_state (render g ps)
  = (plain_text g ps, ["ref"; "iana"], if has_kind KindG ps then g else EmptyString) /\
  contains "*R" (plain_text g ps) = false /\
  contains "*A" (plain_text g ps) = false /\
  search_gen (plain_text g ps) = None /\
  (forall order, (forall k, In k order) ->
     fst (fst (strip_in_order order (render g ps))) = plain_text g ps) /\
  decodes_cleanly (render g ps).
Proof.
  intros (Hg & Hne & H) HR HA.
  pose proof (filter_plain_ok ps H) as Hf.
  assert (Horder : forall order, (forall k, In k order) ->
     fst (fst (strip_in_order order (render g ps))) = plain_text g ps).
  { intros order Hall. unfold strip_in_order.
    rewrite (strip_fold_state g Hg Hne) by exact H.
    rewrite fold_without_full by exact Hall. symmetry. apply plain_text_filter. }
  assert (HcR : contains "*R" (plain_text g ps) = false).
  { rewrite plain_text_filter, (contains_R g Hg) by exact Hf.
    apply has_kind_filter_plain. }
  assert (HcA : contains "*A" (plain_text g ps) = false).
  { rewrite plain_text_filter, (contains_A g Hg) by exact Hf.
    apply has_kind_filter_plain. }
  repeat split.
  - rewrite (contains_R g Hg) by exact H. exact HR.
  - rewrite (contains_A g Hg) by exact H. exact HA.
  - apply (parse_state_render g Hg Hne); assumption.
  - exact HcR.
  - exact HcA.
  - rewrite plain_text_filter, (search_G g Hg Hne) by exact Hf.
    now rewrite has_kind_filter_plain.
  - exact Horder.
  - unfold decodes_cleanly. rewrite (parse_state_render g Hg Hne) by assumption.
    repeat split; auto.
    + simpl. intros [<-|[<-|[]]]; auto.
    + intros [->| ->]; simpl; auto.
    + intros order Hp. apply Horder. intros k.
      apply (Permutation_in k (Permutation_sym Hp)). destruct k; simpl; auto.
Qed.

Lemma well_annotated_state_decoding_witness :
  let ps := [Plain "E"; Plain "D"; Plain "I"; Plain "T"; MarkA; MarkR; MarkG]%char in
  render "12" ps = "EDIT*A*R(12G)" /\
  parse_state "EDIT*A*R(12G)" = ("EDIT", ["ref"; "iana"], "12") /\
  decodes_cleanly "EDIT*A*R(12G)".
Proof.
  intros ps.
  assert (W : well_annotated "12" ps) by (repeat split; reflexivity).
  pose proof (well_annotated_state_decoding "12" ps W eq_refl eq_refl)
    as (_ & _ & Hp & _ & _ & _ & _ & Hd).
  split; [reflexivity|]. split; [exact Hp|exact Hd].
Defined.

(** C9 (as stated) fails on a state with a bare asterisk: both markers
    occur in it, yet the decoded state still holds [*R], and taking the
    steps in another order gives another state. *)
Lemma bare_asterisk_state_counterexample :
  contains "*R" "**AR*R" = true /\ contains "*A" "**AR*R" = true /\
  parse_state "**AR*R" = ("*R", ["ref"; "iana"], EmptyString) /\
  fst (fst (strip_in_order [KindA; KindR; KindG] "**AR*R")) = EmptyString /\
  ~ decodes_cleanly "**AR*R".
Proof.
  repeat split; try reflexivity.
  unfold decodes_cleanly.
  change (parse_state "**AR*R") with ("*R", ["ref"; "iana"], EmptyString).
  intros (_ & H & _). vm_compute in H. discriminate.
Qed.
End QueueParserFacts.

Module PubDateFacts.
Import PyDate PubDate.

Lemma is_leap_cases y :
  (is_leap y = true /\ y mod 4 = 0 /\ (y mod 100 <> 0 \/ y mod 400 = 0)) \/
  (is_leap y = false /\ (y mod 4 <> 0 \/ (y mod 100 = 0 /\ y mod 400 <> 0))).
Proof.
  unfold is_leap.
  destruct (Z.eqb_spec (y mod 4) 0), (Z.eqb_spec (y mod 100) 0),
    (Z.eqb_spec (y mod 400) 0); simpl; lia.
Qed.

Lemma days_before_year_succ y :
  days_before_year (y + 1) = days_before_year y + year_length y.
Proof.
  unfold days_before_year, year_length.
  destruct (is_leap_cases y) as [(-> & H)|(-> & H)];
    replace (y + 1 - 1) with (y - 1 + 1) by lia;
    Z.div_mod_to_equations; lia.
Qed.

Lemma year_length_pos y : 365 <= year_length y <= 366.
Proof. unfold year_length; destruct (is_leap y); lia. Qed.

Lemma days_before_year_mono a b :
  a <= b -> days_before_year a <= days_before_year b.
Proof.
  intros H. replace b with (a + Z.of_nat (Z.to_nat (b - a))) by lia.
  induction (Z.to_nat (b - a)) as [|n IH].
  - replace (a + Z.of_nat 0) with a by lia. lia.
  - replace (a + Z.of_nat (S n)) with (a + Z.of_nat n + 1) by lia.
    rewrite days_before_year_succ.
    pose proof (year_length_pos (a + Z.of_nat n)). lia.
Qed.

Ltac month_cases m :=
  let H := fresh in
  assert (H : m = 1 \/ m = 2 \/ m = 3 \/ m = 4 \/ m = 5 \/ m = 6 \/ m = 7 \/
              m = 8 \/ m = 9 \/ m = 10 \/ m = 11 \/ m = 12) by lia;
  repeat (destruct H as [H|H]; [subst m|]); [..|subst m].

(** The months of a year tile it: a month starts where the previous one
    ends, and December ends the year. *)
Lemma days_before_month_succ y m :
  1 <= m < 12 ->
  days_before_month y (m + 1) = days_before_month y m + days_in_month y m.
Proof.
  intros Hm. month_cases m; unfold days_before_month, days_in_month; simpl;
    destruct (is_leap y); simpl; lia.
Qed.

Lemma days_before_month_end y :
  days_before_month y 12 + days_in_month y 12 = year_length y.
Proof.
  unfold days_before_month, days_in_month, year_length; simpl;
    destruct (is_leap y); simpl; lia.
Qed.

Lemma days_in_month_bounds y m : 28 <= days_in_month y m <= 31.
Proof.
  unfold days_in_month.
  destruct (m =? 2); [destruct (is_leap y); lia|].
  destruct ((m =? 4) || (m =? 6) || (m =? 9) || (m =? 11)); lia.
Qed.

Lemma days_before_month_mono y a b :
  1 <= a -> a < b -> b <= 12 ->
  days_before_month y a + days_in_month y a <= days_before_month y b.
Proof.
  intros Ha Hab Hb.
  replace b with (a + 1 + Z.of_nat (Z.to_nat (b - a - 1))) in * by lia.
  induction (Z.to_nat (b - a - 1)) as [|n IH].
  - replace (a + 1 + Z.of_nat 0) with (a + 1) by lia.
    rewrite days_before_month_succ by lia. lia.
  - replace (a + 1 + Z.of_nat (S n)) with (a + 1 + Z.of_nat n + 1) in * by lia.
    rewrite days_before_month_succ by lia.
    pose proof (days_in_month_bounds y (a + 1 + Z.of_nat n)).
    assert (a + 1 + Z.of_nat n <= 12) by lia.
    assert (a < a + 1 + Z.of_nat n) by lia.
    specialize (IH ltac:(lia) ltac:(lia)). lia.
Qed.

Lemma days_before_month_nonneg y m : 0 <= days_before_month y m.
Proof.
  unfold days_before_month.
  destruct ((2 <? m) && is_leap y); destruct m as [|p|p]; try lia;
    repeat (destruct p as [p|p|]; try lia).
Qed.

Lemma month_within_year y m :
  1 <= m <= 12 -> days_before_month y m + days_in_month y m <= year_length y.
Proof.
  intros Hm. destruct (Z.eq_dec m 12) as [->|Hne].
  - rewrite days_before_month_end. lia.
  - pose proof (days_before_month_mono y m 12 ltac:(lia) ltac:(lia) ltac:(lia)).
    pose proof (days_before_month_end y).
    pose proof (days_in_month_bounds y 12). lia.
Qed.

(** ** The ordinal of a date orders the valid dates *)

Lemma toordinal_year_lt a b :
  valid a -> valid b -> year a < year b -> toordinal a < toordinal b.
Proof.
  intros (Hya & Hma & Hda) (Hyb & Hmb & Hdb) Hlt. unfold toordinal.
  pose proof (month_within_year (year a) (month a) Hma).
  pose proof (days_before_year_succ (year a)).
  pose proof (days_before_year_mono (year a + 1) (year b) ltac:(lia)).
  pose proof (days_before_month_nonneg (year b) (month b)). lia.
Qed.

Lemma toordinal_month_lt a b :
  valid a -> valid b -> year a = year b -> month a < month b ->
  toordinal a < toordinal b.
Proof.
  intros (Hya & Hma & Hda) (Hyb & Hmb & Hdb) Hy Hlt. unfold toordinal.
  rewrite Hy in *.
  pose proof (days_before_month_mono (year b) (month a) (month b)
                ltac:(lia) Hlt ltac:(lia)). lia.
Qed.

Lemma toordinal_same_month a b :
  valid a -> valid b -> toordinal a = toordinal b ->
  year a = year b /\ month a = month b /\ day a = day b.
Proof.
  intros Ha Hb Ho.
  destruct (Z.lt_trichotomy (year a) (year b)) as [Hy|[Hy|Hy]].
  - pose proof (toordinal_year_lt a b Ha Hb Hy). lia.
  - destruct (Z.lt_trichotomy (month a) (month b)) as [Hm|[Hm|Hm]].
    + pose proof (toordinal_month_lt a b Ha Hb Hy Hm). lia.
    + unfold toordinal in Ho. rewrite Hy, Hm in Ho. lia.
    + pose proof (toordinal_month_lt b a Hb Ha (eq_sym Hy) Hm). lia.
  - pose proof (toordinal_year_lt b a Hb Ha Hy). lia.
Qed.

(** A date in the month of [d] is not before the first day of that
    month. *)
Lemma toordinal_first_of_month a d :
  valid a -> year a = year d -> month a = month d -> day d = 1 ->
  toordinal d <= toordinal a.
Proof.
  intros (_ & _ & Hda) Hy Hm Hd. unfold toordinal. rewrite Hy, Hm, Hd. lia.
Qed.

(** ** One day later, one day earlier *)

Lemma next_day_spec d d' :
  valid d -> next_day d = Some d' ->
  valid d' /\ toordinal d' = toordinal d + 1.
Proof.
  intros (Hy & Hm & Hd) H. unfold next_day in H.
  destruct (Z.ltb_spec (day d) (days_in_month (year d) (month d))).
  { inversion H; subst; clear H. unfold valid, toordinal; simpl. lia. }
  destruct (Z.ltb_spec (month d) 12).
  { inversion H; subst; clear H. unfold valid, toordinal; simpl.
    rewrite days_before_month_succ by lia.
    pose proof (days_in_month_bounds (year d) (month d + 1)). lia. }
  destruct (Z.ltb_spec (year d) MAXYEAR); [|discriminate].
  inversion H; subst; clear H. unfold valid, toordinal; simpl.
  rewrite days_before_year_succ.
  assert (Hm12 : month d = 12) by lia.
  pose proof (days_before_month_end (year d)). rewrite Hm12 in *.
  unfold MINYEAR, MAXYEAR in *.
  assert (days_before_month (year d + 1) 1 = 0).
  { unfold days_before_month. simpl. reflexivity. }
  assert (days_in_month (year d + 1) 1 = 31) by reflexivity.
  lia.
Qed.

Lemma prev_day_spec d d' :
  valid d -> prev_day d = Some d' ->
  valid d' /\ toordinal d' = toordinal d - 1.
Proof.
  intros (Hy & Hm & Hd) H. unfold prev_day in H.
  destruct (Z.ltb_spec 1 (day d)).
  { inversion H; subst; clear H. unfold valid, toordinal; simpl. lia. }
  destruct (Z.ltb_spec 1 (month d)).
  { inversion H; subst; clear H. unfold valid, toordinal; simpl.
    pose proof (days_before_month_succ (year d) (month d - 1) ltac:(lia)) as E.
    replace (month d - 1 + 1) with (month d) in E by lia.
    pose proof (days_in_month_bounds (year d) (month d - 1)). lia. }
  destruct (Z.ltb_spec MINYEAR (year d)); [|discriminate].
  inversion H; subst; clear H. unfold valid, toordinal; simpl.
  pose proof (days_before_year_succ (year d - 1)) as E.
  replace (year d - 1 + 1) with (year d) in E by lia.
  assert (Hm1 : month d = 1) by lia.
  pose proof (days_before_month_end (year d - 1)). rewrite Hm1 in *.
  assert (days_before_month (year d) 1 = 0) by reflexivity.
  assert (days_in_month (year d - 1) 12 = 31) by reflexivity.
  unfold MINYEAR, MAXYEAR in *. lia.
Qed.

(** No overflow below the last valid date, nor above the first. *)
Lemma next_day_defined d e :
  valid d -> valid e -> toordinal d < toordinal e -> exists d', next_day d = Some d'.
Proof.
  intros Hd He Hlt. unfold next_day.
  destruct (Z.ltb_spec (day d) (days_in_month (year d) (month d))); eauto.
  destruct (Z.ltb_spec (month d) 12); eauto.
  destruct (Z.ltb_spec (year d) MAXYEAR); eauto.
  exfalso. destruct Hd as (Hy & Hm & Hdd), He as (Hye & Hme & Hde).
  unfold toordinal in Hlt.
  assert (Hm12 : month d = 12) by lia. rewrite Hm12 in *.
  pose proof (days_before_month_end (year d)).
  pose proof (month_within_year (year e) (month e) Hme).
  pose proof (days_before_year_succ (year e)).
  pose proof (days_before_year_succ (year d)).
  pose proof (days_before_year_mono (year e + 1) (year d + 1) ltac:(lia)).
  lia.
Qed.

Lemma prev_day_defined d e :
  valid d -> valid e -> toordinal e < toordinal d -> exists d', prev_day d = Some d'.
Proof.
  intros Hd He Hlt. unfold prev_day.
  destruct (Z.ltb_spec 1 (day d)); eauto.
  destruct (Z.ltb_spec 1 (month d)); eauto.
  destruct (Z.ltb_spec MINYEAR (year d)); eauto.
  exfalso. destruct Hd as (Hy & Hm & Hdd), He as (Hye & Hme & Hde).
  unfold toordinal in Hlt.
  assert (Hm1 : month d = 1) by lia. rewrite Hm1 in *.
  assert (days_before_month (year d) 1 = 0) by reflexivity.
  pose proof (days_before_month_nonneg (year e) (month e)).
  pose proof (days_before_year_mono (year d) (year e) ltac:(lia)).
  lia.
Qed.

(** ** The day-by-day walk *)

Lemma same_month_iff a b :
  same_month a b = true <->
  month (dt_date a) = month (dt_date b) /\ year (dt_date a) = year (dt_date b).
Proof. unfold same_month. rewrite andb_true_iff, !Z.eqb_eq. tauto. Qed.

Lemma walk_stop fuel direction d t :
  same_month t d = true -> walk fuel direction d t = Some (t, O).
Proof. intros H. destruct fuel; simpl; rewrite H; reflexivity. Qed.

Lemma walk_step fuel direction d t t' r n :
  same_month t d = false -> add_day direction t = Some t' ->
  walk fuel direction d t' = Some (r, n) ->
  walk (S fuel) direction d t = Some (r, S n).
Proof. intros H1 H2 H3. simpl. rewrite H1, H2, H3. reflexivity. Qed.

(** Walking forward from a time [k] days before the candidate's date. *)
Lemma walk_forward k : forall d t,
  valid (dt_date d) -> valid (dt_date t) ->
  toordinal (dt_date d) - toordinal (dt_date t) = Z.of_nat k ->
  exists r n, (n <= k)%nat /\
    (forall fuel, (n <= fuel)%nat -> walk fuel 1 d t = Some (r, n)) /\
    same_month r d = true.
Proof.
  induction k as [|k IH]; intros d t Hd Ht Hk.
  - assert (E : same_month t d = true).
    { apply same_month_iff.
      destruct (toordinal_same_month _ _ Ht Hd ltac:(lia)) as (? & ? & _). auto. }
    exists t, O. split; [lia|]. split; [|exact E].
    intros fuel _. apply walk_stop, E.
  - destruct (same_month t d) eqn:E.
    + exists t, O. split; [lia|]. split; [|exact E].
      intros fuel _. apply walk_stop, E.
    + destruct (next_day_defined (dt_date t) (dt_date d) Ht Hd ltac:(lia)) as [t' Hn].
      destruct (next_day_spec _ _ Ht Hn) as [Ht' Ho].
      destruct (IH d (DateTime t' (dt_usec t)) Hd Ht' ltac:(simpl; lia))
        as (r & n & Hle & Hw & Hr).
      exists r, (S n). split; [lia|]. split; [|exact Hr].
      intros [|fuel] Hf; [lia|].
      apply walk_step with (t' := DateTime t' (dt_usec t)); auto.
      * unfold add_day. simpl. rewrite Hn. reflexivity.
      * apply Hw. lia.
Qed.

(** Walking backward from a time [k] days after the candidate's date. *)
Lemma walk_backward k : forall d t,
  valid (dt_date d) -> valid (dt_date t) ->
  toordinal (dt_date t) - toordinal (dt_date d) = Z.of_nat k ->
  exists r n, (n <= k)%nat /\
    (forall fuel, (n <= fuel)%nat -> walk fuel (-1) d t = Some (r, n)) /\
    same_month r d = true.
Proof.
  induction k as [|k IH]; intros d t Hd Ht Hk.
  - assert (E : same_month t d = true).
    { apply same_month_iff.
      destruct (toordinal_same_month _ _ Ht Hd ltac:(lia)) as (? & ? & _). auto. }
    exists t, O. split; [lia|]. split; [|exact E].
    intros fuel _. apply walk_stop, E.
  - destruct (same_month t d) eqn:E.
    + exists t, O. split; [lia|]. split; [|exact E].
      intros fuel _. apply walk_stop, E.
    + destruct (prev_day_defined (dt_date t) (dt_date d) Ht Hd ltac:(lia)) as [t' Hn].
      destruct (prev_day_spec _ _ Ht Hn) as [Ht' Ho].
      destruct (IH d (DateTime t' (dt_usec t)) Hd Ht' ltac:(simpl; lia))
        as (r & n & Hle & Hw & Hr).
      exists r, (S n). split; [lia|]. split; [|exact Hr].
      intros [|fuel] Hf; [lia|].
      apply walk_step with (t' := DateTime t' (dt_usec t)); auto.
      * unfold add_day. simpl. rewrite Hn. reflexivity.
      * apply Hw. lia.
Qed.

(** Within sixty days of the candidate the walk makes at most sixty
    steps, in the direction the code chooses. *)
Lemma walk_within_60 published now :
  valid published -> valid_dt now ->
  Z.abs (sub (datetime_from_date published) now) <= 60 * usec_per_day ->
  exists r n, (n <= 60)%nat /\
    (forall fuel, (n <= fuel)%nat ->
       walk fuel (if sub (datetime_from_date published) now <? 0 then -1 else 1)
            (datetime_from_date published) now = Some (r, n)) /\
    same_month r (datetime_from_date published) = true.
Proof.
  intros Hp [Hn Hu] Habs.
  set (d := datetime_from_date published) in *.
  assert (Hd : valid (dt_date d)) by exact Hp.
  destruct (Z.ltb_spec (sub d now) 0) as [Hneg|Hpos];
    unfold sub, usec_per_day in *; simpl in *.
  - assert (Hk : 0 <= toordinal (dt_date now) - toordinal published <= 60) by lia.
    destruct (walk_backward (Z.to_nat (toordinal (dt_date now) - toordinal published))
                d now Hd Hn ltac:(simpl; lia)) as (r & n & Hle & Hw & Hr).
    exists r, n. split; [lia|]. split; assumption.
  - assert (Hk : 0 <= toordinal published - toordinal (dt_date now) <= 60) by lia.
    destruct (walk_forward (Z.to_nat (toordinal published - toordinal (dt_date now)))
                d now Hd Hn ltac:(simpl; lia)) as (r & n & Hle & Hw & Hr).
    exists r, n. split; [lia|]. split; assumption.
Qed.

(** C7.  For a candidate publication timestamp (midnight of a valid day,
    the first of the month for the feed) and a current time at most 60
    days from it, the day-by-day walk, in the direction the code chooses,
    stops after at most 62 one-day steps (the walk never overflows the
    calendar), at a timestamp whose month and year are the candidate's.
    The whole synthesis, walk or not, therefore returns for every
    candidate and every current time, whatever fuel beyond the number of
    steps the model is given. *)
Theorem publication_walk_terminates published now :
  valid published -> valid_dt now ->
  (Z.abs (sub (datetime_from_date published) now) <= 60 * usec_per_day ->
   exists r n, (n <= 62)%nat /\
     (forall fuel, (n <= fuel)%nat ->
        walk fuel (if sub (datetime_from_date published) now <? 0 then -1 else 1)
             (datetime_from_date published) now = Some (r, n)) /\
     month (dt_date r) = month published /\ year (dt_date r) = year published) /\
  (exists r n, (n <= 62)%nat /\
     (forall fuel, (n <= fuel)%nat -> synthesize fuel published now = Some (r, n)) /\
     month (dt_date r) = month published /\ year (dt_date r) = year published).
Proof.
  intros Hp Hn. split.
  - intros Habs.
    destruct (walk_within_60 published now Hp Hn Habs) as (r & n & Hle & Hw & Hr).
    apply same_month_iff in Hr. exists r, n. simpl in Hr. repeat split; try tauto. lia.
  - unfold synthesize.
    destruct (Z.gtb_spec (Z.abs (sub (datetime_from_date published) now))
                (60 * usec_per_day)) as [Hfar|Hnear].
    + exists (datetime_from_date published), O. repeat split; auto. lia.
    + destruct (walk_within_60 published now Hp Hn Hnear) as (r & n & Hle & Hw & Hr).
      apply same_month_iff in Hr. exists r, n. simpl in Hr. repeat split; try tauto. lia.
Qed.

Lemma publication_walk_terminates_witness :
  let published := Date 2024 3 1 in
  let now := DateTime (Date 2024 4 20) 43200000000 in
  valid published /\ valid_dt now /\
  Z.abs (sub (datetime_from_date published) now) <= 60 * usec_per_day /\
  (exists r n, (n <= 62)%nat /\
     (forall fuel, (n <= fuel)%nat ->
        walk fuel (-1) (datetime_from_date published) now = Some (r, n)) /\
     month (dt_date r) = 3 /\ year (dt_date r) = 2024) /\
  (exists r n, (n <= 62)%nat /\
     (forall fuel, (n <= fuel)%nat -> synthesize fuel published now = Some (r, n)) /\
     month (dt_date r) = 3 /\ year (dt_date r) = 2024).
Proof.
  intros published now.
  assert (Hp : valid published).
  { unfold valid, MINYEAR, MAXYEAR; cbn [year month day published].
    replace (days_in_month 2024 3) with 31 by reflexivity. lia. }
  assert (Hn : valid_dt now).
  { unfold valid_dt, valid, MINYEAR, MAXYEAR, usec_per_day;
      cbn [year month day dt_date dt_usec now].
    replace (days_in_month 2024 4) with 30 by reflexivity. lia. }
  assert (Hd : Z.abs (sub (datetime_from_date published) now) <= 60 * usec_per_day).
  { vm_compute. discriminate. }
  destruct (publication_walk_terminates published now Hp Hn) as [Hw Hs].
  repeat split; try apply Hp; try apply Hn; try exact Hd; [exact (Hw Hd)|exact Hs].
Defined.

Example synthesize_march_2024 :
  synthesize 62 (Date 2024 3 1) (DateTime (Date 2024 4 20) 43200000000)
  = Some (DateTime (Date 2024 3 31) 43200000000, 20%nat).
Proof. reflexivity. Qed.

Example synthesize_forward :
  synthesize 62 (Date 2024 3 1) (DateTime (Date 2024 1 5) 1)
  = Some (DateTime (Date 2024 3 1) 1, 56%nat).
Proof. reflexivity. Qed.

Example synthesize_far :
  synthesize 0 (Date 2020 3 1) (DateTime (Date 2024 1 5) 1)
  = Some (DateTime (Date 2020 3 1) 0, 0%nat).
Proof. reflexivity. Qed.
End PubDateFacts.

Module QueueFacts.
Import Db Queue QueueSpec.

(** ** What the blocks of an iteration leave alone *)

Lemma tag_frame_same nm s s' :
  aliases s' = aliases s -> documents s' = documents s -> tag_frame nm s s'.
Proof.
  intros Ha Hd. split; [exact Ha|]. exists (fun x => x). split; [|reflexivity].
  rewrite Hd. symmetry. now apply alter_id.
Qed.

Lemma tag_frame_refl nm s : tag_frame nm s s.
Proof. now apply tag_frame_same. Qed.

Lemma tag_frame_trans nm s1 s2 s3 :
  tag_frame nm s1 s2 -> tag_frame nm s2 s3 -> tag_frame nm s1 s3.
Proof.
  intros [A1 (f & D1 & T1)] [A2 (g & D2 & T2)]. split; [congruence|].
  exists (g ∘ f). split.
  - rewrite D2, D1. apply alter_alter_eq.
  - intros x. simpl. now rewrite T2, T1.
Qed.

Lemma tag_frame_events nm s ev : tag_frame nm s (save_event ev s).
Proof. now apply tag_frame_same. Qed.

Lemma tag_frame_perform nm s x : tag_frame nm s (perform x s).
Proof. now apply tag_frame_same. Qed.

Lemma tag_frame_update nm f s :
  (forall x, tags (f x) = tags x) -> tag_frame nm s (update_doc nm f s).
Proof. intros H. split; [reflexivity|]. exists f. split; [reflexivity|exact H]. Qed.

Lemma add_state_change_event_frame nm rv ty prev next s :
  tag_frame nm s (fst (add_state_change_event nm rv ty prev next s)).
Proof.
  unfold add_state_change_event. destruct (decide (prev = Some next)); simpl;
    now apply tag_frame_same.
Qed.

Lemma update_action_holders_frame T nm rv ty prev next s :
  tag_frame nm s (fst (update_action_holders T nm rv ty prev next s)).
Proof.
  unfold update_action_holders.
  destruct (action_holders_event T nm ty prev next); simpl; now apply tag_frame_same.
Qed.

Lemma first_contact_frame T nm d s : tag_frame nm s (fst (first_contact T nm d s)).
Proof.
  unfold first_contact.
  match goal with |- context [add_state_change_event ?a ?b ?c ?d ?e ?f] =>
    pose proof (add_state_change_event_frame a b c d e f) as H1;
    destruct (add_state_change_event a b c d e f) as [s1 e1] end.
  match goal with |- context [update_action_holders ?t ?a ?b ?c ?d ?e ?f] =>
    pose proof (update_action_holders_frame t a b c d e f) as H2;
    destruct (update_action_holders t a b c d e f) as [s2 e2] end.
  cbn [fst] in *.
  eapply tag_frame_trans; [|exact H2]. eapply tag_frame_trans; [|exact H1].
  eapply tag_frame_trans; [|apply tag_frame_update; reflexivity].
  eapply tag_frame_trans; [|apply tag_frame_perform].
  apply tag_frame_events.
Qed.

Lemma change_state_frame nm d prev next a48 s :
  tag_frame nm s (fst (change_state nm d prev next a48 s)).
Proof.
  unfold change_state. destruct (PyStr.truthy a48); cbv zeta; cbn [fst];
    (eapply tag_frame_trans; [|apply tag_frame_update; reflexivity]);
    (eapply tag_frame_trans; [|apply tag_frame_events]);
    apply tag_frame_update; reflexivity.
Qed.

Lemma check_received_frame T nm d prev s ev ch :
  tag_frame nm s (fst (fst (check_received T nm d prev (s, ev, ch)))).
Proof.
  unfold check_received.
  destruct (_ && _ && _); [|apply tag_frame_refl].
  pose proof (first_contact_frame T nm d s).
  destruct (first_contact T nm d s). assumption.
Qed.

Lemma check_state_frame nm d prev next a48 s ev ch :
  tag_frame nm s (fst (fst (check_state nm d prev next a48 (s, ev, ch)))).
Proof.
  unfold check_state.
  destruct (negb _); [|apply tag_frame_refl].
  pose proof (change_state_frame nm d prev next a48 s).
  destruct (change_state nm d prev next a48 s). assumption.
Qed.

Lemma save_history_frame nm s ev ch :
  fst (save_history nm (s, ev, ch)) = (perform (SavedWithHistory nm ev) s, ev)
  \/ save_history nm (s, ev, ch) = (s, ev, ch).
Proof. unfold save_history. destruct ev; auto. Qed.

Lemma save_history_store nm s ev ch :
  documents (fst (fst (save_history nm (s, ev, ch)))) = documents s /\
  aliases (fst (fst (save_history nm (s, ev, ch)))) = aliases s /\
  snd (save_history nm (s, ev, ch)) = ch.
Proof. unfold save_history. destruct ev; auto. Qed.

Lemma tag_frame_tags nm s s' :
  tag_frame nm s s' -> tags <$> documents s' !! nm = tags <$> documents s !! nm.
Proof.
  intros [_ (f & -> & Hf)]. rewrite lookup_alter_eq.
  destruct (documents s !! nm); simpl; [now rewrite Hf|reflexivity].
Qed.

Lemma tag_frame_other nm s s' k :
  tag_frame nm s s' -> k <> nm -> documents s' !! k = documents s !! k.
Proof. intros [_ (f & -> & _)] Hne. now apply lookup_alter_ne. Qed.

Lemma tag_frame_is_Some nm s s' k :
  tag_frame nm s s' -> is_Some (documents s' !! k) <-> is_Some (documents s !! k).
Proof. intros [_ (f & -> & _)]. apply lookup_alter_is_Some. Qed.

(** ** One iteration *)

Lemma step_unknown_state T in_db r e :
  name e ∈ in_db -> state_mapping !! state e = None ->
  step T in_db r e = warn (unknown_state_warning e) r.
Proof.
  intros Hin Hst. unfold step.
  rewrite (bool_decide_eq_true_2 _ Hin). cbn [negb].
  rewrite Hst.
  rewrite (bool_decide_eq_false_2 (is_Some None)) by (intros [? ?]; discriminate).
  cbn [negb]. rewrite orb_true_r. reflexivity.
Qed.

Lemma tag_frame_doc_frame nm s s' : tag_frame nm s s' -> doc_frame nm s s'.
Proof. intros [Ha (f & Hd & _)]. split; eauto. Qed.

(** A known entry with a known state: the store after the iteration. *)
Lemma step_known T in_db r e d next :
  name e ∈ in_db -> documents (store r) !! name e = Some d ->
  state_mapping !! state e = Some next ->
  exists s1 ev1 ch1,
    tag_frame (name e) (store r) s1 /\ changed r ⊆ ch1 /\
    step T in_db r e
    = (let '(s, _, ch) :=
         save_history (name e) (reconcile_tags T (name e) (qtags e) (s1, ev1, ch1)) in
       mkRun s ch (warnings r)).
Proof.
  intros Hin Hd Hst. unfold step.
  rewrite (bool_decide_eq_true_2 _ Hin). cbn [negb].
  rewrite Hst, Hd.
  rewrite (bool_decide_eq_true_2 (is_Some (Some next))) by eauto.
  assert (Ht : PyStr.truthy (state e) = true).
  { destruct (state e); [|reflexivity]. vm_compute in Hst. discriminate. }
  rewrite Ht. cbn [negb orb]. cbv zeta.
  pose proof (check_received_frame T (name e) d (get_state "draft-rfceditor" d)
                (store r) [] (changed r)) as F1.
  assert (C1 : changed r ⊆ snd (check_received T (name e) d
                 (get_state "draft-rfceditor" d) (store r, [], changed r))).
  { unfold check_received. destruct (_ && _ && _); [|set_solver].
    destruct (first_contact T (name e) d (store r)). cbn [snd]. set_solver. }
  destruct (check_received T (name e) d (get_state "draft-rfceditor" d)
              (store r, [], changed r)) as [[s1 ev1] ch1]. cbn [fst snd] in *.
  pose proof (check_state_frame (name e) d (get_state "draft-rfceditor" d) next
                (auth48 e) s1 ev1 ch1) as F2.
  assert (C2 : ch1 ⊆ snd (check_state (name e) d (get_state "draft-rfceditor" d)
                            next (auth48 e) (s1, ev1, ch1))).
  { unfold check_state. destruct (negb _); [|set_solver].
    destruct (change_state (name e) d (get_state "draft-rfceditor" d) next
                (auth48 e) s1). cbn [snd]. set_solver. }
  destruct (check_state (name e) d (get_state "draft-rfceditor" d) next
              (auth48 e) (s1, ev1, ch1)) as [[s2 ev2] ch2]. cbn [fst snd] in *.
  exists s2, ev2, ch2. split; [eapply tag_frame_trans; eauto|].
  split; [set_solver|reflexivity].
Qed.

Lemma reconcile_tags_spec T nm tgs s ev ch :
  let a := reconcile_tags T nm tgs (s, ev, ch) in
  doc_frame nm s (fst (fst a)) /\ ch ⊆ snd a /\
  (forall d, documents s !! nm = Some d ->
     exists d', documents (fst (fst a)) !! nm = Some d' /\
                tags d' = selected_tags T tgs /\
                (selected_tags T tgs <> tags d -> nm ∈ snd a) /\
                (selected_tags T tgs = tags d -> a = (s, ev, ch))).
Proof.
  unfold reconcile_tags. cbv zeta.
  destruct (bool_decide_reflect
              (selected_tags T tgs = default ∅ (tags <$> documents s !! nm))) as [E|E];
    cbn [negb fst snd].
  - split; [apply tag_frame_doc_frame, tag_frame_refl|]. split; [set_solver|].
    intros d Hd. rewrite Hd in E. cbn in E. exists d. repeat split; auto. congruence.
  - split; [split; [reflexivity|eexists; reflexivity]|]. split; [set_solver|].
    intros d Hd. rewrite Hd in E. cbn in E.
    exists (with_tags (selected_tags T tgs) d). unfold update_doc. cbn.
    rewrite lookup_alter_eq, Hd. repeat split; auto; [set_solver|congruence].
Qed.

Lemma doc_frame_trans nm s1 s2 s3 :
  doc_frame nm s1 s2 -> doc_frame nm s2 s3 -> doc_frame nm s1 s3.
Proof.
  intros [A1 (f & D1)] [A2 (g & D2)]. split; [congruence|].
  exists (g ∘ f). rewrite D2, D1. apply alter_alter_eq.
Qed.

Lemma doc_frame_refl nm s : doc_frame nm s s.
Proof. apply tag_frame_doc_frame, tag_frame_refl. Qed.

Lemma step_frame T in_db r e :
  doc_frame (name e) (store r) (store (step T in_db r e)) /\
  changed r ⊆ changed (step T in_db r e).
Proof.
  unfold step at 1 2.
  destruct (bool_decide_reflect (name e ∈ in_db)) as [Hin|Hin]; cbn [negb];
    [|split; [apply doc_frame_refl|reflexivity]].
  destruct (negb (PyStr.truthy (state e)) || _) eqn:E;
    [split; [apply doc_frame_refl|reflexivity]|].
  destruct (documents (store r) !! name e) as [d|] eqn:Hd;
    [|split; [apply doc_frame_refl|reflexivity]].
  destruct (state_mapping !! state e) as [next|] eqn:Hst;
    [|split; [apply doc_frame_refl|reflexivity]].
  destruct (step_known T in_db r e d next Hin Hd Hst)
    as (s1 & ev1 & ch1 & F1 & C1 & Hstep).
  unfold step in Hstep. rewrite (bool_decide_eq_true_2 _ Hin), Hst, E, Hd in Hstep.
  cbn [negb] in Hstep. rewrite Hstep. clear Hstep.
  pose proof (reconcile_tags_spec T (name e) (qtags e) s1 ev1 ch1) as (F2 & C2 & _).
  destruct (reconcile_tags T (name e) (qtags e) (s1, ev1, ch1)) as [[s2 ev2] ch2].
  cbn [fst snd] in *.
  pose proof (save_history_store (name e) s2 ev2 ch2) as (D3 & A3 & C3).
  destruct (save_history (name e) (s2, ev2, ch2)) as [[s3 ev3] ch3].
  cbn [fst snd store changed] in *. subst ch3. split; [|set_solver].
  eapply doc_frame_trans; [apply tag_frame_doc_frame, F1|].
  eapply doc_frame_trans; [exact F2|]. split; [exact A3|].
  exists (fun x => x). rewrite D3. symmetry. now apply alter_id.
Qed.

Lemma step_warnings T in_db r e w :
  In w (warnings r) -> In w (warnings (step T in_db r e)).
Proof.
  intros Hw. unfold step.
  destruct (negb (bool_decide (name e ∈ in_db)));
    [cbn; apply in_or_app; auto|].
  destruct (negb (PyStr.truthy (state e)) || _); [cbn; apply in_or_app; auto|].
  destruct (documents (store r) !! name e); [|exact Hw].
  destruct (state_mapping !! state e); [|exact Hw].
  cbv zeta. destruct (save_history _ _) as [[? ?] ?]. exact Hw.
Qed.

(** ** The loop over the queue *)

Lemma main_loop_cons T in_db e drafts r :
  main_loop T in_db (e :: drafts) r = main_loop T in_db drafts (step T in_db r e).
Proof. reflexivity. Qed.

Lemma main_loop_app T in_db pre post r :
  main_loop T in_db (pre ++ post) r = main_loop T in_db post (main_loop T in_db pre r).
Proof. apply fold_left_app. Qed.

Lemma main_loop_frame T in_db drafts : forall r,
  let r' := main_loop T in_db drafts r in
  aliases (store r') = aliases (store r) /\
  (forall k, ~ In k (List.map name drafts) ->
     documents (store r') !! k = documents (store r) !! k) /\
  (forall w, In w (warnings r) -> In w (warnings r')).
Proof.
  induction drafts as [|e drafts IH]; intros r; [cbn; auto|].
  cbv zeta. rewrite main_loop_cons.
  destruct (IH (step T in_db r e)) as (A & D & W).
  destruct (step_frame T in_db r e) as [[A1 (f & D1)] _].
  split; [congruence|]. split.
  - intros k Hk. rewrite D by (intros ?; apply Hk; right; assumption).
    rewrite D1. apply lookup_alter_ne. intros Heq. apply Hk. left. exact Heq.
  - intros w Hw. apply W, step_warnings, Hw.
Qed.

Lemma drafts_in_db_alias names s nm :
  nm ∈ drafts_in_db names s ->
  is_Some (documents s !! nm) /\ has_alias_in names nm s = true.
Proof.
  unfold drafts_in_db. intros H. apply elem_of_dom in H as [d Hd].
  apply map_lookup_filter_Some in Hd as (Hd & _ & Ha). cbn in Ha. eauto.
Qed.

Lemma has_alias_in_aliases names nm s s' :
  aliases s' = aliases s -> has_alias_in names nm s' = has_alias_in names nm s.
Proof. unfold has_alias_in. now intros ->. Qed.

(** The second loop leaves a document with an alias in the queue as it
    is, and adds no warning. *)
Lemma remove_left_keeps names drafts r r' nm :
  remove_left names drafts r = Some r' ->
  warnings r' = warnings r /\ events (store r') = events (store r) /\
  (has_alias_in names nm (store r) = true ->
   documents (store r') !! nm = documents (store r) !! nm).
Proof.
  unfold remove_left. cbv zeta.
  destruct (bool_decide _); [intros [= <-]; auto|].
  destruct (last (List.map name drafts)); [|discriminate].
  intros [= <-]. cbn. repeat split. intros Ha.
  rewrite map_lookup_imap. destruct (documents (store r) !! nm) as [d|]; [|reflexivity].
  cbn. unfold left_queue. rewrite Ha. reflexivity.
Qed.

(** C8.  A queue entry whose document is in the database and whose state
    code is not one of the thirteen of [state_mapping] (the empty code
    included): the iteration appends the warning
    [unknown state '<code>' for <name>] and leaves the store and the
    changed set as they are; the loop goes on with the entries that
    follow; the warning is among those returned, the second loop does not
    touch the document, and when no other entry names the document it is
    after the run exactly what it was before. *)
Theorem unknown_state_is_skipped T s pre e post :
  let drafts := pre ++ e :: post in
  let in_db := drafts_in_db (List.map name drafts) s in
  let start := mkRun s ∅ [] in
  let before := main_loop T in_db pre start in
  name e ∈ in_db -> state_mapping !! state e = None ->
  step T in_db before e
  = mkRun (store before) (changed before)
          (warnings before ++ ["unknown state '" +:+ state e +:+ "' for " +:+ name e]) /\
  main_loop T in_db drafts start
  = main_loop T in_db post (warn (unknown_state_warning e) before) /\
  forall c w s', update_drafts_from_queue T s drafts = Some (c, w, s') ->
    In (unknown_state_warning e) w /\
    documents s' !! name e
    = documents (store (main_loop T in_db drafts start)) !! name e /\
    (~ In (name e) (List.map name (pre ++ post)) ->
     documents s' !! name e = documents s !! name e).
Proof.
  intros drafts in_db start before Hin Hst.
  pose proof (step_unknown_state T in_db before e Hin Hst) as Hstep.
  assert (Hloop : main_loop T in_db drafts start
                  = main_loop T in_db post (warn (unknown_state_warning e) before)).
  { unfold drafts. rewrite main_loop_app, main_loop_cons. fold before.
    now rewrite Hstep. }
  split; [exact Hstep|]. split; [exact Hloop|].
  intros c w s' Hrun. unfold update_drafts_from_queue in Hrun.
  destruct (negb (bool_decide _)); [discriminate|]. cbv zeta in Hrun.
  fold drafts in_db start in Hrun.
  destruct (remove_left (List.map name drafts) drafts (main_loop T in_db drafts start))
    as [r'|] eqn:Hrem; [|discriminate].
  injection Hrun as <- <- <-.
  destruct (remove_left_keeps _ _ _ _ (name e) Hrem) as (Hw & _ & Hd).
  destruct (drafts_in_db_alias _ _ _ Hin) as [_ Ha].
  destruct (main_loop_frame T in_db drafts start) as (Hal & _ & _).
  specialize (Hd ltac:(rewrite (has_alias_in_aliases _ _ _ _ Hal); exact Ha)).
  split; [|split; [exact Hd|]].
  - rewrite Hw, Hloop.
    destruct (main_loop_frame T in_db post (warn (unknown_state_warning e) before))
      as (_ & _ & W).
    apply W. cbn. apply in_or_app. right. left. reflexivity.
  - intros Hother. rewrite Hd, Hloop.
    destruct (main_loop_frame T in_db post (warn (unknown_state_warning e) before))
      as (_ & D & _).
    rewrite D by (intros ?; apply Hother; rewrite map_app; apply in_or_app; auto).
    cbn [warn store]. unfold before.
    destruct (main_loop_frame T in_db pre start) as (_ & D0 & _).
    apply D0. intros ?; apply Hother; rewrite map_app; apply in_or_app; auto.
Qed.

Lemma unknown_state_is_skipped_witness :
  let s := QueueScenario.store_with ∅ in
  let drafts := [] ++ QueueScenario.entry_bogus :: [QueueScenario.entry_a] in
  let in_db := drafts_in_db (List.map name drafts) s in
  step QueueScenario.tables in_db (main_loop QueueScenario.tables in_db [] (mkRun s ∅ []))
       QueueScenario.entry_bogus
  = mkRun s ∅ ([] ++ ["unknown state 'BOGUS' for draft-b"]).
Proof.
  intros s drafts in_db.
  assert (Hin : name QueueScenario.entry_bogus ∈ in_db)
    by (apply (bool_decide_unpack _); vm_compute; exact I).
  assert (Hst : state_mapping !! state QueueScenario.entry_bogus = None)
    by (vm_compute; reflexivity).
  exact (proj1 (unknown_state_is_skipped QueueScenario.tables s []
                  QueueScenario.entry_bogus [QueueScenario.entry_a] Hin Hst)).
Defined.

(** C4 (as amended).  For a queue entry whose document is known and whose
    state code is known, the tag block compares the set of tags the
    queue annotations select (those of the entry's tags that are tag
    names, at most ref and iana for a parsed entry) with the whole tag
    set of the document, as sets.  After the iteration the document
    carries exactly the selected tags, so a tag outside what the entry
    selects does not remain; when the two sets differ the name is in the
    changed set; when they are equal, and the RFC Editor state is already
    the one of the entry, the iteration changes nothing at all. *)
Theorem tags_replaced_by_selected T in_db r e d next :
  name e ∈ in_db -> documents (store r) !! name e = Some d ->
  state_mapping !! state e = Some next ->
  let r' := step T in_db r e in
  let t := selected_tags T (qtags e) in
  (exists d', documents (store r') !! name e = Some d' /\ tags d' = t /\
              forall x, x ∈ tags d -> x ∉ t -> x ∉ tags d') /\
  (t <> tags d -> name e ∈ changed r') /\
  (t = tags d -> get_state "draft-rfceditor" d = Some next -> r' = r).
Proof.
  intros Hin Hd Hst r' t.
  destruct (step_known T in_db r e d next Hin Hd Hst)
    as (s1 & ev1 & ch1 & F1 & C1 & Hstep).
  assert (Hd1 : exists d1, documents s1 !! name e = Some d1 /\ tags d1 = tags d).
  { pose proof (tag_frame_tags _ _ _ F1) as E. rewrite Hd in E. cbn in E.
    destruct (documents s1 !! name e) as [d1|]; [|discriminate].
    exists d1. split; [reflexivity|]. now injection E. }
  destruct Hd1 as (d1 & Hd1 & Ht1).
  pose proof (reconcile_tags_spec T (name e) (qtags e) s1 ev1 ch1) as (_ & C2 & Hrec).
  destruct (Hrec d1 Hd1) as (d2 & Hd2 & Ht2 & Hch & Hsame). clear Hrec.
  fold t in Ht2, Hch, Hsame. rewrite Ht1 in Hch, Hsame.
  split; [|split].
  - unfold r'. rewrite Hstep.
    destruct (reconcile_tags T (name e) (qtags e) (s1, ev1, ch1)) as [[s2 ev2] ch2].
    cbn [fst snd] in *.
    pose proof (save_history_store (name e) s2 ev2 ch2) as (D3 & _ & _).
    destruct (save_history (name e) (s2, ev2, ch2)) as [[s3 ev3] ch3].
    cbn [fst snd store] in *. exists d2. rewrite D3. repeat split; auto.
    intros x _ Hx. now rewrite Ht2.
  - intros Hne. unfold r'. rewrite Hstep.
    destruct (reconcile_tags T (name e) (qtags e) (s1, ev1, ch1)) as [[s2 ev2] ch2].
    cbn [fst snd] in *.
    pose proof (save_history_store (name e) s2 ev2 ch2) as (_ & _ & C3).
    destruct (save_history (name e) (s2, ev2, ch2)) as [[s3 ev3] ch3].
    cbn [fst snd changed] in *. subst ch3. auto.
  - intros Heq Hprev. unfold r', step.
    rewrite (bool_decide_eq_true_2 _ Hin). cbn [negb]. rewrite Hst, Hd.
    rewrite (bool_decide_eq_true_2 (is_Some (Some next))) by eauto.
    assert (Htr : PyStr.truthy (state e) = true).
    { destruct (state e); [|reflexivity]. vm_compute in Hst. discriminate. }
    rewrite Htr. cbn [negb orb]. cbv zeta.
    unfold check_received. rewrite Hprev.
    rewrite (bool_decide_eq_false_2 (Some next = None)) by discriminate.
    rewrite andb_false_r. cbn [andb].
    unfold check_state. rewrite (bool_decide_eq_true_2 (Some next = Some next)) by reflexivity.
    cbn [negb]. unfold reconcile_tags. cbv zeta. rewrite Hd. cbn [fmap option_fmap option_map default].
    fold t. rewrite (bool_decide_eq_true_2 _ Heq). cbn [negb save_history].
    destruct r; reflexivity.
Qed.

Lemma tags_replaced_by_selected_witness :
  let s := QueueScenario.store_with {[ "need-rev" ]} in
  let in_db := drafts_in_db ["draft-a"] s in
  let r' := step QueueScenario.tables in_db (mkRun s ∅ []) QueueScenario.entry_a in
  exists d', documents (store r') !! "draft-a" = Some d' /\ tags d' = ∅.
Proof.
  intros s in_db r'.
  assert (Hin : name QueueScenario.entry_a ∈ in_db)
    by (apply (bool_decide_unpack _); vm_compute; exact I).
  assert (Hd : documents (store (mkRun s ∅ [])) !! name QueueScenario.entry_a
               = Some (QueueScenario.in_edit {[ "need-rev" ]}))
    by (vm_compute; reflexivity).
  assert (Hst : state_mapping !! state QueueScenario.entry_a = Some "edit")
    by (vm_compute; reflexivity).
  destruct (tags_replaced_by_selected QueueScenario.tables in_db (mkRun s ∅ [])
              QueueScenario.entry_a _ _ Hin Hd Hst) as ((d' & Hd' & Ht & _) & _).
  exists d'. split; [exact Hd'|]. rewrite Ht. vm_compute. reflexivity.
Defined.

(** C4 (as stated) fails: a document in the queue that carries the tag
    need-rev, and an entry without annotations.  The tags the entry
    selects and the tags of the document agree on ref and iana, yet the
    tag set is rewritten: need-rev is gone and the name is reported as
    changed. *)
Lemma foreign_tag_counterexample :
  let s := QueueScenario.store_with {[ "need-rev" ]} in
  let in_db := drafts_in_db ["draft-a"] s in
  let r' := step QueueScenario.tables in_db (mkRun s ∅ []) QueueScenario.entry_a in
  (tags <$> documents s !! "draft-a") = Some {[ "need-rev" ]} /\
  QueueScenario.restricted (selected_tags QueueScenario.tables (qtags QueueScenario.entry_a))
  = QueueScenario.restricted {[ "need-rev" ]} /\
  (tags <$> documents (store r') !! "draft-a") = Some ∅ /\
  changed r' = {[ "draft-a" ]} /\
  update_drafts_from_queue QueueScenario.tables s [QueueScenario.entry_a]
  = Some ({[ "draft-a" ]}, [],
          mkStore (<["draft-a" := QueueScenario.in_edit ∅]>
                     (<["draft-b" := leave_queue (QueueScenario.in_edit ∅)]> ∅))
                  (aliases s) [] [] []).
Proof. vm_compute. repeat split; reflexivity. Qed.

(** C5: the changed set of a run in which the queue lists draft-a in the
    state it already has, while draft-b has left the queue.  Nothing
    happens to draft-a (no event, no state change, no tag change), and
    draft-b loses its RFC Editor state; the set returned is draft-a
    alone, the name the second loop inherits from the first. *)
Theorem changed_set_names_last_entry :
  let s := QueueScenario.store_with ∅ in
  exists c w s',
    update_drafts_from_queue QueueScenario.tables s [QueueScenario.entry_a]
    = Some (c, w, s') /\
    c = {[ "draft-a" ]} /\ w = [] /\
    documents s' !! "draft-a" = documents s !! "draft-a" /\
    events s' = events s /\ effects s' = effects s /\
    (get_state "draft-rfceditor" <$> documents s !! "draft-b") = Some (Some "edit") /\
    (get_state "draft-rfceditor" <$> documents s' !! "draft-b") = Some None /\
    "draft-b" ∉ c.
Proof.
  intros s. eexists _, _, _. split; [vm_compute; reflexivity|].
  repeat split; try (vm_compute; reflexivity).
  apply (bool_decide_unpack _). vm_compute. exact I.
Qed.

(** With an empty queue the second loop has no name to add. *)
Example empty_queue_name_error :
  update_drafts_from_queue QueueScenario.tables (QueueScenario.store_with ∅) [] = None.
Proof. vm_compute. reflexivity. Qed.
End QueueFacts.

Module IndexFacts.
Import Db PyDate Index IndexSpec.

Lemma doc_keeps_refl kt kf ks d : doc_keeps kt kf ks d d.
Proof. repeat split. Qed.

Lemma doc_keeps_trans kt kf ks d1 d2 d3 :
  doc_keeps kt kf ks d1 d2 -> doc_keeps kt kf ks d2 d3 -> doc_keeps kt kf ks d1 d3.
Proof.
  intros (A1 & B1 & C1) (A2 & B2 & C2). repeat split; intros H.
  - now rewrite A2, A1.
  - now rewrite B2, B1.
  - now rewrite C2, C1.
Qed.

Lemma doc_keeps_weaken kt kf ks kt' kf' ks' d d' :
  (kt' = true -> kt = true) -> (kf' = true -> kf = true) -> (ks' = true -> ks = true) ->
  doc_keeps kt kf ks d d' -> doc_keeps kt' kf' ks' d d'.
Proof. intros Ht Hf Hs (A & B & C). repeat split; auto. Qed.

Lemma find_alias_app name s x :
  find_alias name (with_aliases (aliases s ++ x) s)
  = match find_alias name s with
    | Some row => Some row
    | None => List.find (fun row => String.eqb (fst row) name) x
    end.
Proof.
  unfold find_alias. cbn. induction (aliases s) as [|row l IH]; [reflexivity|].
  cbn. destruct (String.eqb (fst row) name); auto.
Qed.

Lemma find_app_none {A} (p : A -> bool) l x :
  List.find p (l ++ x) = None -> List.find p l = None.
Proof.
  induction l as [|a l IH]; [reflexivity|]. cbn. destruct (p a); [discriminate|auto].
Qed.

Lemma evolves_refl K kt kf ks w : evolves K kt kf ks w w.
Proof.
  split.
  - reflexivity.
  - exists (fun d => d). split; [symmetry; now apply alter_id|].
    intros d. apply doc_keeps_refl.
  - exists []. rewrite app_nil_r. split; [reflexivity|intros ? []].
  - exists []. rewrite app_nil_r. split; [reflexivity|].
    split; [constructor|intros ? []].
  - exists []. rewrite app_nil_r. split; [reflexivity|constructor].
  - exists []. rewrite app_nil_r. split; [reflexivity|constructor].
Qed.

Lemma evolves_trans K kt kf ks w1 w2 w3 :
  evolves K kt kf ks w1 w2 -> evolves K kt kf ks w2 w3 -> evolves K kt kf ks w1 w3.
Proof.
  intros [D1 (g1 & G1 & K1) (a1 & A1 & N1) (r1 & R1 & U1 & P1) (e1 & E1 & F1) (c1 & C1 & M1)]
         [D2 (g2 & G2 & K2) (a2 & A2 & N2) (r2 & R2 & U2 & P2) (e2 & E2 & F2) (c2 & C2 & M2)].
  split.
  - congruence.
  - exists (g2 ∘ g1). split.
    + rewrite G2, G1, D1. apply alter_alter_eq.
    + intros d. eapply doc_keeps_trans; [apply K1|apply K2].
  - exists (a1 ++ a2). split; [rewrite A2, A1; now rewrite <- app_assoc|].
    intros row Hin. apply in_app_or in Hin as [Hin|Hin]; [auto|].
    specialize (N2 row Hin). unfold find_alias in *. rewrite A1 in N2.
    eapply find_app_none, N2.
  - exists (r1 ++ r2). split; [rewrite R2, R1; now rewrite <- app_assoc|]. split.
    + apply NoDup_app. split; [exact U1|]. split; [|exact U2].
      intros r Hr1 Hr2. apply list_elem_of_In in Hr1, Hr2.
      destruct (P2 r Hr2) as (Hn & _). apply Hn.
      rewrite R1. apply in_or_app. now right.
    + intros r Hin. apply in_app_or in Hin as [Hin|Hin].
      * exact (P1 r Hin).
      * destruct (P2 r Hin) as (Hn & Hs & Hk). rewrite D1 in Hs.
        repeat split; auto. intros Hr. apply Hn. rewrite R1. apply in_or_app. auto.
  - exists (e1 ++ e2). split; [rewrite E2, E1; now rewrite <- app_assoc|].
    apply Forall_app. split; [exact F1|]. rewrite D1 in F2. exact F2.
  - exists (c1 ++ c2). split; [rewrite C2, C1; now rewrite <- app_assoc|].
    apply Forall_app. split; assumption.
Qed.

Lemma evolves_weaken K kt kf ks K' kt' kf' ks' w w' :
  (forall k, In k K -> In k K') ->
  (kt' = true -> kt = true) -> (kf' = true -> kf = true) -> (ks' = true -> ks = true) ->
  evolves K kt kf ks w w' -> evolves K' kt' kf' ks' w w'.
Proof.
  intros HK Ht Hf Hs [D (g & G & Kp) A R E (c & C & N)]. split; auto.
  - exists g. split; [exact G|]. intros d. eapply doc_keeps_weaken; eauto.
  - exists c. split; [exact C|]. eapply Forall_impl; [exact N|]. intros ? ?; auto.
Qed.

(** The building blocks. *)
Lemma evolves_note K kt kf ks c w :
  In (kind_of c) K -> evolves K kt kf ks w (note c w).
Proof.
  intros Hk. destruct (evolves_refl K kt kf ks w) as [D G A R E C]. split; auto.
  exists [c]. split; [reflexivity|]. constructor; [exact Hk|constructor].
Qed.

Lemma evolves_cur K kt kf ks f w : evolves K kt kf ks w (with_cur f w).
Proof. destruct (evolves_refl K kt kf ks w) as [D G A R E C]. split; auto. Qed.

Lemma evolves_published K kt kf ks w : evolves K kt kf ks w (set_published w).
Proof. destruct (evolves_refl K kt kf ks w) as [D G A R E C]. split; auto. Qed.

Lemma evolves_add_events K kt kf ks l w : evolves K kt kf ks w (add_events l w).
Proof. destruct (evolves_refl K kt kf ks w) as [D G A R E C]. split; auto. Qed.

Lemma evolves_perform K kt kf ks x w :
  evolves K kt kf ks w (with_st (perform x (st w)) w).
Proof. destruct (evolves_refl K kt kf ks w) as [D G A R E C]. split; auto. Qed.

Lemma evolves_save_event K kt kf ks ev w :
  ev_doc ev = doc w -> evolves K kt kf ks w (with_st (save_event ev (st w)) w).
Proof.
  intros Hev. destruct (evolves_refl K kt kf ks w) as [D G A R E C]. split; auto.
  exists [ev]. split; [reflexivity|]. constructor; [exact Hev|constructor].
Qed.

Lemma evolves_update_doc K kt kf ks g w :
  (forall d, doc_keeps kt kf ks d (g d)) ->
  evolves K kt kf ks w (with_st (update_doc (doc w) g (st w)) w).
Proof.
  intros Kp. destruct (evolves_refl K kt kf ks w) as [D G A R E C]. split; auto.
  exists g. split; [reflexivity|exact Kp].
Qed.

Lemma evolves_relation K kt kf ks r w :
  ~ In r (relations (st w)) -> source r = doc w ->
  In (relationship r) ["obs"; "updates"] ->
  evolves K kt kf ks w (with_st (with_relations (relations (st w) ++ [r]) (st w)) w).
Proof.
  intros Hn Hs Hk. destruct (evolves_refl K kt kf ks w) as [D G A R E C]. split; auto.
  exists [r]. split; [reflexivity|]. split.
  - apply NoDup_cons. split; [apply not_elem_of_nil|apply NoDup_nil_2].
  - intros r' [<-|[]]. auto.
Qed.

Lemma evolves_create_alias K kt kf ks a dn w :
  find_alias a (st w) = None ->
  evolves K kt kf ks w (with_st (create_alias a dn (st w)) w).
Proof.
  intros Hnone. destruct (evolves_refl K kt kf ks w) as [D G A R E C]. split; auto.
  exists [(a, [dn])]. split; [reflexivity|].
  intros row [<-|[]]. exact Hnone.
Qed.

Ltac evo :=
  repeat first
    [ apply evolves_refl
    | eapply evolves_trans; [|apply evolves_note; simpl; tauto]
    | eapply evolves_trans; [|apply evolves_cur]
    | eapply evolves_trans; [|apply evolves_published]
    | eapply evolves_trans; [|apply evolves_add_events]
    | eapply evolves_trans; [|apply evolves_perform]
    | eapply evolves_trans; [|apply evolves_save_event; reflexivity]
    | eapply evolves_trans;
      [|apply evolves_update_doc; intros ?; repeat split; (reflexivity || discriminate)] ].

(** ** The blocks of an iteration *)

Lemma check_title_evolves e w : evolves [KTitle] true true true w (check_title e w).
Proof. unfold check_title. destruct (negb _); evo. Qed.

Lemma check_abstract_evolves e w : evolves [KAbstract] true true true w (check_abstract e w).
Proof. unfold check_abstract. destruct (_ && _); evo. Qed.

Lemma check_pages_evolves e w w' :
  check_pages e w = Some w' -> evolves [KPages] true true true w w'.
Proof.
  unfold check_pages. destruct (PyStr.truthy _); [|intros [= <-]; evo].
  destruct (PyStr.int _); [|discriminate].
  destruct (negb _); intros [= <-]; evo.
Qed.

Lemma check_std_level_evolves e w w' :
  check_std_level e w = Some w' -> evolves [KStdLevel] true true true w w'.
Proof.
  unfold check_std_level. destruct (std_level_mapping !! _); [|discriminate].
  destruct (negb _); intros [= <-]; evo.
Qed.

Lemma check_state_evolves w : evolves [KState] true true false w (check_state w).
Proof. unfold check_state. destruct (negb _); cbv zeta; evo. Qed.

Lemma check_stream_evolves e w w' :
  check_stream e w = Some w' -> evolves [KStream] true true true w w'.
Proof.
  unfold check_stream. destruct (stream_mapping !! _); [|discriminate].
  destruct (negb _); intros [= <-]; evo.
Qed.

Lemma check_group_evolves T e w w' :
  check_group T e w = Some w' -> evolves [KGroup] true true true w w'.
Proof.
  unfold check_group. destruct (group (cur w)); [intros [= <-]; evo|].
  destruct (wg_truthy e).
  - destruct (bool_decide _); [|discriminate]. intros [= <-]; evo.
  - destruct (individ T); [|discriminate]. intros [= <-]; evo.
Qed.

Lemma check_published_evolves e now w w' :
  check_published e now w = Some w' -> evolves [KPublished] true true true w w'.
Proof.
  unfold check_published. destruct (negb _); [|intros [= <-]; evo].
  destruct (PubDate.synthesize _ _ _) as [[t n]|]; [|discriminate].
  intros [= <-]. cbv zeta. evo.
Qed.

Lemma update_action_holders_evolves K kt kf ks T t prev next w :
  evolves K kt kf ks w
    (with_st (fst (update_action_holders T (doc w) (rev (cur w)) t prev next (st w))) w).
Proof.
  unfold update_action_holders. destruct (action_holders_event _ _ _ _ _); cbn [fst].
  - eapply evolves_trans; [apply evolves_perform|].
    match goal with |- evolves _ _ _ _ ?a _ =>
      apply (evolves_save_event K kt kf ks _ a) end. reflexivity.
  - apply evolves_perform.
Qed.

Lemma check_typed_state_evolves T w t : evolves [KTypedState] true true false w (check_typed_state T w t).
Proof.
  unfold check_typed_state. destruct (doc_state t w) as [slug|].
  - destruct (negb _); [|evo]. cbv zeta.
    match goal with |- context [update_action_holders ?T ?a ?b ?c ?d ?e (st ?w0)] =>
      pose proof (update_action_holders_evolves [KTypedState] true true false T c d e w0) as H;
      change a with (doc w0) in *; change b with (rev (cur w0)) in *;
      destruct (update_action_holders T (doc w0) (rev (cur w0)) c d e (st w0)) as [s1 ev1]
    end.
    cbn [fst] in H. eapply evolves_trans; [|apply evolves_add_events].
    eapply evolves_trans; [|exact H]. evo.
  - destruct (String.eqb _ _); evo.
Qed.

Lemma check_typed_states_evolves T w : evolves [KTypedState] true true false w (check_typed_states T w).
Proof.
  unfold check_typed_states. generalize state_types. intros l. revert w.
  induction l as [|t l IH]; intros w; [apply evolves_refl|].
  cbn [fold_left]. eapply evolves_trans; [apply check_typed_state_evolves|apply IH].
Qed.

Lemma ensure_relation_evolves rel w x :
  In rel ["obs"; "updates"] -> evolves [KRelation] true true true w (ensure_relation rel w x).
Proof.
  intros Hrel. unfold ensure_relation. cbv zeta.
  destruct (bool_decide_reflect (mkRelation (doc w) x rel ∈ relations (st w))) as [Hin|Hin];
    cbn [negb]; [apply evolves_refl|].
  eapply evolves_trans; [|apply evolves_note; simpl; tauto].
  apply evolves_relation; auto. intros H. apply Hin. now apply list_elem_of_In.
Qed.

Lemma fold_evolves {A} K kt kf ks (f : work -> A -> work) l :
  (forall w x, evolves K kt kf ks w (f w x)) ->
  forall w, evolves K kt kf ks w (fold_left f l w).
Proof.
  intros Hf. induction l as [|x l IH]; intros w; [apply evolves_refl|].
  cbn [fold_left]. eapply evolves_trans; [apply Hf|apply IH].
Qed.

Lemma check_relations_evolves rel ids w :
  In rel ["obs"; "updates"] -> evolves [KRelation] true true true w (check_relations rel ids w).
Proof.
  intros Hrel. unfold check_relations. apply fold_evolves.
  intros ? ?. now apply ensure_relation_evolves.
Qed.

Lemma ensure_alias_evolves w a : evolves [KCreated] true true true w (ensure_alias w a).
Proof.
  unfold ensure_alias. cbv zeta. destruct (find_alias _ _) eqn:E; [evo|].
  eapply evolves_trans; [|apply evolves_note; simpl; tauto]. now apply evolves_create_alias.
Qed.

Lemma check_also_evolves e w : evolves [KCreated] true true true w (check_also e w).
Proof. unfold check_also. apply fold_evolves. apply ensure_alias_evolves. Qed.

Lemma add_tag_evolves K t w : evolves K false true true w (add_tag t w).
Proof. unfold add_tag. evo. Qed.

Lemma remove_tag_evolves K t w : evolves K false true true w (remove_tag t w).
Proof. unfold remove_tag. evo. Qed.

Lemma check_errata_evolves errata e w : evolves [KErrata] false true true w (check_errata errata e w).
Proof.
  unfold check_errata. cbv zeta.
  destruct (has_errata e && _).
  - destruct (negb (bool_decide ("errata" ∈ doc_tags w))).
    + destruct (_ && _); [|].
      * eapply evolves_trans; [|apply evolves_note; simpl; tauto].
        eapply evolves_trans; [|apply add_tag_evolves].
        eapply evolves_trans; [|apply evolves_note; simpl; tauto]. apply add_tag_evolves.
      * eapply evolves_trans; [|apply evolves_note; simpl; tauto]. apply add_tag_evolves.
    + destruct (_ && _); [|apply evolves_refl].
      eapply evolves_trans; [|apply evolves_note; simpl; tauto]. apply add_tag_evolves.
  - destruct (bool_decide ("errata" ∈ doc_tags w)).
    + destruct (bool_decide _); [|].
      * eapply evolves_trans; [|apply evolves_note; simpl; tauto].
        eapply evolves_trans; [|apply remove_tag_evolves].
        eapply evolves_trans; [|apply evolves_note; simpl; tauto]. apply remove_tag_evolves.
      * eapply evolves_trans; [|apply evolves_note; simpl; tauto]. apply remove_tag_evolves.
    + destruct (bool_decide _); [|apply evolves_refl].
      eapply evolves_trans; [|apply evolves_note; simpl; tauto]. apply remove_tag_evolves.
Qed.

Lemma finish_evolves w : evolves [] true false true w (finish w).
Proof.
  unfold finish. destruct (changes w) as [|c l]; [apply evolves_refl|]. cbv zeta.
  set (ev := mkEvent (doc w) (rev (cur w)) system (SyncFromRfcEditor (c :: l))).
  set (w1 := add_events [ev] (with_st (save_event ev (st w)) w)).
  set (w2 := with_st (update_doc (doc w1) (with_fields (cur w1)) (st w1)) w1).
  apply evolves_trans with (w2 := w2).
  - unfold w2, w1. evo.
  - exact (evolves_perform [] true false true (SavedWithHistory (doc w1) (evs w1)) w2).
Qed.

(** ** What evolving keeps *)

Lemma evolves_lookup K kt kf ks w w' d :
  evolves K kt kf ks w w' -> documents (st w) !! doc w = Some d ->
  exists d', documents (st w') !! doc w' = Some d' /\ doc_keeps kt kf ks d d'.
Proof.
  intros [D (g & G & Kp) _ _ _ _] Hd. exists (g d). split; [|apply Kp].
  rewrite D, G, lookup_alter_eq, Hd. reflexivity.
Qed.

Lemma evolves_other K kt kf ks w w' k :
  evolves K kt kf ks w w' -> k <> doc w ->
  documents (st w') !! k = documents (st w) !! k.
Proof.
  intros [_ (g & G & _) _ _ _ _] Hne. rewrite G. apply lookup_alter_ne. congruence.
Qed.

Lemma evolves_tags K kf ks w w' :
  evolves K true kf ks w w' -> doc_tags w' = doc_tags w.
Proof.
  intros [D (g & G & Kp) _ _ _ _]. unfold doc_tags.
  rewrite D, G, lookup_alter_eq. destruct (documents (st w) !! doc w) as [d|]; cbn;
    [|reflexivity].
  destruct (Kp d) as (Ht & _). now apply Ht.
Qed.

Lemma evolves_changes_nil K kt kf ks w w' :
  evolves K kt kf ks w w' -> changes w' = [] -> changes w = [].
Proof.
  intros [_ _ _ _ _ (c & C & _)] Hnil. rewrite C in Hnil.
  now apply app_eq_nil in Hnil as [? _].
Qed.

Lemma evolves_changes_in K kt kf ks w w' c :
  evolves K kt kf ks w w' -> In c (changes w) -> In c (changes w').
Proof. intros [_ _ _ _ _ (x & C & _)] Hin. rewrite C. apply in_or_app. now left. Qed.

Lemma evolves_changes_kind K kt kf ks w w' c :
  evolves K kt kf ks w w' -> In c (changes w') ->
  In c (changes w) \/ In (kind_of c) K.
Proof.
  intros [_ _ _ _ _ (x & C & N)] Hin. rewrite C in Hin.
  apply in_app_or in Hin as [Hin|Hin]; [now left|right].
  rewrite Forall_forall in N. apply N. now apply list_elem_of_In.
Qed.

(** ** Resolving the document *)

Lemma resolve_spec s e w0 :
  resolve s e = Some w0 ->
  exists d0,
    documents (st w0) !! doc w0 = Some d0 /\ fields d0 = cur w0 /\
    (documents s !! doc w0 = Some d0 /\ documents (st w0) = documents s
     \/ documents s !! doc w0 = None /\ d0 = new_document
        /\ documents (st w0) = <[doc w0 := new_document]> (documents s)) /\
    (exists x, aliases (st w0) = aliases s ++ x
               /\ forall row, In row x -> find_alias (fst row) s = None) /\
    relations (st w0) = relations s /\ events (st w0) = events s /\
    effects (st w0) = effects s /\
    (exists nm rest, find_alias (rfc_name (rfc_number e)) (st w0)
                     = Some (nm, doc w0 :: rest)) /\
    evs w0 = [] /\ rfc_published w0 = false /\
    Forall is_created (changes w0).
Proof.
  unfold resolve. cbv zeta.
  destruct (find_alias (rfc_name (rfc_number e)) s) as [[nm docs]|] eqn:Ea.
  - destruct docs as [|dn rest]; cbn [head]; [discriminate|].
    destruct (documents s !! dn) as [d|] eqn:Ed; [|discriminate].
    intros [= <-]. cbn. exists d. repeat split; auto.
    + exists []. rewrite app_nil_r. split; [reflexivity|intros ? []].
    + eauto.
  - assert (Hfind : forall dn s', aliases s' = aliases s ->
              find_alias (rfc_name (rfc_number e))
                (create_alias (rfc_name (rfc_number e)) dn s')
              = Some (rfc_name (rfc_number e), [dn])).
    { intros dn s' Hs'. unfold create_alias. rewrite find_alias_app.
      unfold find_alias in *. rewrite Hs', Ea. cbn. now rewrite String.eqb_refl. }
    assert (Hnew : forall dn, exists x,
              aliases s ++ [(rfc_name (rfc_number e), [dn])] = aliases s ++ x
              /\ forall row, In row x -> find_alias (fst row) s = None).
    { intros dn. eexists. split; [reflexivity|]. intros row [<-|[]]. exact Ea. }
    destruct (PyStr.truthy (draft e)) eqn:Et;
      [destruct (documents s !! draft e) as [d|] eqn:Ed|].
    + intros [= <-]. cbn. exists d. repeat split; auto.
      * eexists _, _. now apply Hfind.
      * repeat constructor.
    + destruct (documents s !! rfc_name (rfc_number e)) eqn:En; [discriminate|].
      intros [= <-]. cbn. exists new_document. split; [apply lookup_insert_eq|].
      repeat split; auto.
      * eexists _, _. now apply Hfind.
      * repeat constructor.
    + destruct (documents s !! rfc_name (rfc_number e)) eqn:En; [discriminate|].
      intros [= <-]. cbn. exists new_document. split; [apply lookup_insert_eq|].
      repeat split; auto.
      * eexists _, _. now apply Hfind.
      * repeat constructor.
Qed.

(** ** The stages of an iteration *)

Lemma reconcile_inv T errata s e now w :
  reconcile T errata s e now = Some w ->
  exists w0 w3 w4 w6 w7 w8,
    resolve s e = Some w0 /\
    check_pages e (check_abstract e (check_title e w0)) = Some w3 /\
    check_std_level e w3 = Some w4 /\
    check_stream e (check_state w4) = Some w6 /\
    check_group T e w6 = Some w7 /\
    check_published e now w7 = Some w8 /\
    w = finish (check_errata errata e
                  (check_also e
                     (check_relations "updates" (updates e)
                        (check_relations "obs" (obsoletes e)
                           (check_typed_states T w8))))).
Proof.
  unfold reconcile. intros H.
  destruct (resolve s e) as [w0|]; [|discriminate]. cbn in H.
  destruct (check_pages e _) as [w3|] eqn:E3; [|discriminate]. cbn in H.
  destruct (check_std_level e w3) as [w4|] eqn:E4; [|discriminate]. cbn in H.
  destruct (check_stream e _) as [w6|] eqn:E6; [|discriminate]. cbn in H.
  destruct (check_group T e w6) as [w7|] eqn:E7; [|discriminate]. cbn in H.
  destruct (check_published e now w7) as [w8|] eqn:E8; [|discriminate]. cbn in H.
  injection H as <-. exists w0, w3, w4, w6, w7, w8. repeat split; auto.
Qed.

Ltac widen := 
  eapply evolves_weaken; [| | | |eassumption || eauto];
  [intros ? ?; unfold all_kinds; simpl in *; tauto|auto; try discriminate..].

(** From the page count on, up to the errata block. *)
Lemma reconcile_chain T errata s e now w :
  reconcile T errata s e now = Some w ->
  exists w0 w3 w1,
    resolve s e = Some w0 /\
    check_pages e (check_abstract e (check_title e w0)) = Some w3 /\
    evolves [KStdLevel; KState; KStream; KGroup; KPublished; KTypedState;
             KRelation; KCreated] true true false w3 w1 /\
    w = finish (check_errata errata e w1).
Proof.
  intros H. destruct (reconcile_inv _ _ _ _ _ _ H)
    as (w0 & w3 & w4 & w6 & w7 & w8 & H0 & H3 & H4 & H6 & H7 & H8 & ->).
  set (w1 := check_also e _).
  exists w0, w3, w1. split; [exact H0|]. split; [exact H3|]. split; [|reflexivity].
  pose proof (check_std_level_evolves _ _ _ H4) as A4.
  pose proof (check_state_evolves w4) as A5.
  pose proof (check_stream_evolves _ _ _ H6) as A6.
  pose proof (check_group_evolves _ _ _ _ H7) as A7.
  pose proof (check_published_evolves _ _ _ _ H8) as A8.
  pose proof (check_typed_states_evolves T w8) as A9.
  pose proof (check_relations_evolves "obs" (obsoletes e) (check_typed_states T w8)
                ltac:(simpl; auto)) as A10.
  pose proof (check_relations_evolves "updates" (updates e)
                (check_relations "obs" (obsoletes e) (check_typed_states T w8))
                ltac:(simpl; auto)) as A11.
  pose proof (check_also_evolves e
                (check_relations "updates" (updates e)
                   (check_relations "obs" (obsoletes e) (check_typed_states T w8)))) as A12.
  fold w1 in A12.
  eapply evolves_trans; [|widen]. eapply evolves_trans; [|widen].
  eapply evolves_trans; [|widen]. eapply evolves_trans; [|widen].
  eapply evolves_trans; [|widen]. eapply evolves_trans; [|widen].
  eapply evolves_trans; [|widen]. eapply evolves_trans; [|widen]. widen.
Qed.

Lemma attributes_evolve e w0 w3 :
  check_pages e (check_abstract e (check_title e w0)) = Some w3 ->
  evolves [KTitle; KAbstract; KPages] true true true w0 w3.
Proof.
  intros H3.
  pose proof (check_title_evolves e w0) as A1.
  pose proof (check_abstract_evolves e (check_title e w0)) as A2.
  pose proof (check_pages_evolves _ _ _ H3) as A3.
  eapply evolves_trans; [|widen]. eapply evolves_trans; [|widen]. widen.
Qed.

(** From the resolved document to the errata block, and to the end. *)
Lemma reconcile_evolves T errata s e now w :
  reconcile T errata s e now = Some w ->
  exists w0 w1,
    resolve s e = Some w0 /\
    evolves [KTitle; KAbstract; KPages; KStdLevel; KState; KStream; KGroup;
             KPublished; KTypedState; KRelation; KCreated] true true false w0 w1 /\
    w = finish (check_errata errata e w1) /\
    evolves all_kinds false false false w0 w.
Proof.
  intros H. destruct (reconcile_chain _ _ _ _ _ _ H) as (w0 & w3 & w1 & H0 & H3 & E3 & ->).
  pose proof (attributes_evolve _ _ _ H3) as E0.
  assert (E1 : evolves [KTitle; KAbstract; KPages; KStdLevel; KState; KStream; KGroup;
             KPublished; KTypedState; KRelation; KCreated] true true false w0 w1).
  { eapply evolves_trans; [|widen]. widen. }
  exists w0, w1. split; [exact H0|]. split; [exact E1|]. split; [reflexivity|].
  pose proof (check_errata_evolves errata e w1) as A13.
  pose proof (finish_evolves (check_errata errata e w1)) as A14.
  eapply evolves_trans; [|widen]. eapply evolves_trans; [|widen].
  clear E0 E3. widen.
Qed.

(** ** The errata tags *)

Lemma group_errata_fold data : forall (m : gmap string (list erratum)) k,
  default [] (fold_left
                (fun m item => <[doc_id item := default [] (m !! doc_id item) ++ [item]]> m)
                data m !! k)
  = default [] (m !! k) ++ List.filter (fun er => String.eqb (doc_id er) k) data.
Proof.
  induction data as [|item data IH]; intros m k; cbn [fold_left List.filter].
  - now rewrite app_nil_r.
  - rewrite IH. destruct (String.eqb_spec (doc_id item) k) as [->|Hne].
    + rewrite lookup_insert_eq. cbn. now rewrite <- app_assoc.
    + now rewrite lookup_insert_ne.
Qed.

Lemma group_errata_lookup errata_data e :
  default [] (group_errata errata_data !! errata_key (rfc_number e))
  = associated errata_data e.
Proof. unfold group_errata, associated. now rewrite group_errata_fold. Qed.

Lemma doc_tags_note c w : doc_tags (note c w) = doc_tags w.
Proof. reflexivity. Qed.

Lemma doc_tags_add_tag t w d :
  documents (st w) !! doc w = Some d -> doc_tags (add_tag t w) = doc_tags w ∪ {[t]}.
Proof.
  intros Hd. unfold doc_tags, add_tag, update_doc. cbn.
  rewrite lookup_alter_eq, Hd. reflexivity.
Qed.

Lemma doc_tags_remove_tag t w d :
  documents (st w) !! doc w = Some d -> doc_tags (remove_tag t w) = doc_tags w ∖ {[t]}.
Proof.
  intros Hd. unfold doc_tags, remove_tag, update_doc. cbn.
  rewrite lookup_alter_eq, Hd. reflexivity.
Qed.

Lemma add_tag_has_doc t w d :
  documents (st w) !! doc w = Some d ->
  exists d', documents (st (note AddedErrataTag (add_tag t w)))
             !! doc (note AddedErrataTag (add_tag t w)) = Some d'.
Proof.
  intros Hd. unfold add_tag, update_doc. cbn. rewrite lookup_alter_eq, Hd. cbn. eauto.
Qed.

Lemma remove_tag_has_doc c t w d :
  documents (st w) !! doc w = Some d ->
  exists d', documents (st (note c (remove_tag t w)))
             !! doc (note c (remove_tag t w)) = Some d'.
Proof.
  intros Hd. unfold remove_tag, update_doc. cbn. rewrite lookup_alter_eq, Hd. cbn. eauto.
Qed.

Lemma check_errata_spec errata e w d :
  documents (st w) !! doc w = Some d ->
  let doc_errata := default [] (errata !! errata_key (rfc_number e)) in
  let w' := check_errata errata e w in
  (has_errata e && negb (all_rejected doc_errata) = true ->
     "errata" ∈ doc_tags w' /\
     (existsb (is_status "Verified") doc_errata = true ->
      "verified-errata" ∈ doc_tags w')) /\
  (has_errata e && negb (all_rejected doc_errata) = false ->
     ("errata" ∉ doc_tags w') /\ ("verified-errata" ∉ doc_tags w') /\
     ("errata" ∈ doc_tags w ->
      In (RemovedErrataTag (all_rejected doc_errata)) (changes w'))).
Proof.
  intros Hd doc_errata w'. unfold w', check_errata. cbv zeta. fold doc_errata.
  destruct (has_errata e && negb (all_rejected doc_errata)); (split; [|discriminate || intros _]);
    try discriminate; try intros _.
  - destruct (bool_decide_reflect ("errata" ∈ doc_tags w)) as [He|He]; cbn [negb].
    + destruct (existsb (is_status "Verified") doc_errata); cbn [andb].
      * destruct (bool_decide_reflect ("verified-errata" ∈ doc_tags w)) as [Hv|Hv];
          cbn [negb]; [auto|].
        rewrite doc_tags_note, (doc_tags_add_tag _ _ _ Hd). set_solver.
      * split; [exact He|discriminate].
    + destruct (add_tag_has_doc "errata" w d Hd) as [d1 Hd1].
      destruct (existsb (is_status "Verified") doc_errata); cbn [andb].
      * destruct (bool_decide_reflect
                    ("verified-errata" ∈ doc_tags (note AddedErrataTag (add_tag "errata" w))))
          as [Hv|Hv]; cbn [negb].
        -- rewrite doc_tags_note, (doc_tags_add_tag _ _ _ Hd) in *. set_solver.
        -- rewrite doc_tags_note, (doc_tags_add_tag _ _ _ Hd1), doc_tags_note,
             (doc_tags_add_tag _ _ _ Hd). set_solver.
      * rewrite doc_tags_note, (doc_tags_add_tag _ _ _ Hd). split; [set_solver|discriminate].
  - destruct (bool_decide_reflect ("errata" ∈ doc_tags w)) as [He|He].
    + destruct (remove_tag_has_doc (RemovedErrataTag (all_rejected doc_errata))
                  "errata" w d Hd) as [d1 Hd1].
      set (w1 := note (RemovedErrataTag (all_rejected doc_errata)) (remove_tag "errata" w)) in *.
      assert (T1 : doc_tags w1 = doc_tags w ∖ {["errata"]}).
      { unfold w1. now rewrite doc_tags_note, (doc_tags_remove_tag _ _ _ Hd). }
      destruct (bool_decide_reflect ("verified-errata" ∈ doc_tags w1)) as [Hv|Hv].
      * rewrite doc_tags_note, (doc_tags_remove_tag _ _ _ Hd1), T1.
        split; [set_solver|]. split; [set_solver|]. intros _. cbn.
        apply in_or_app. left. apply in_or_app. right. now left.
      * rewrite T1 in *. split; [set_solver|]. split; [set_solver|]. intros _.
        unfold w1. cbn. apply in_or_app. right. now left.
    + destruct (bool_decide_reflect ("verified-errata" ∈ doc_tags w)) as [Hv|Hv].
      * rewrite doc_tags_note, (doc_tags_remove_tag _ _ _ Hd).
        split; [set_solver|]. split; [set_solver|]. intros Hc. contradiction.
      * split; [exact He|]. split; [exact Hv|]. intros Hc. contradiction.
Qed.

Lemma finish_changes w : changes (finish w) = changes w.
Proof. unfold finish. destruct (changes w) eqn:E; [exact E|]. cbn. exact E. Qed.

Lemma finish_doc_tags w : doc_tags (finish w) = doc_tags w.
Proof. apply (evolves_tags _ _ _ _ _ (finish_evolves w)). Qed.

(** The tags of the document when the errata block is reached are
    those it had in the database before the iteration. *)
Lemma tags_before_errata s e w0 w1 K kf ks :
  resolve s e = Some w0 -> evolves K true kf ks w0 w1 ->
  doc w1 = doc w0 /\
  doc_tags w1 = default ∅ (tags <$> documents s !! doc w0) /\
  exists d1, documents (st w1) !! doc w1 = Some d1.
Proof.
  intros H0 E1. destruct (resolve_spec _ _ _ H0) as (d0 & Hd0 & _ & Hcase & _).
  split; [apply (same_doc _ _ _ _ _ _ E1)|]. split.
  - rewrite (evolves_tags _ _ _ _ _ E1). unfold doc_tags. rewrite Hd0. cbn.
    destruct Hcase as [[-> _]|(-> & -> & _)]; reflexivity.
  - destruct (evolves_lookup _ _ _ _ _ _ _ E1 Hd0) as (d1 & Hd1 & _). eauto.
Qed.

(** C3 (as amended).  After an index entry is reconciled, with
    [all_rejected] read as the code computes it (there is at least one
    erratum for the document and every one is Rejected, so that no
    erratum at all does not count as all rejected): if the index reports
    errata and not all_rejected, the document has the tag errata, and the
    tag verified-errata as well when one of its errata is Verified;
    otherwise it has neither tag, and when the tag errata was removed the
    change note tells whether all errata were rejected.  In particular,
    when the index reports errata, one erratum with status Verified
    gives both tags. *)
Theorem errata_tags_reconciled T s e now errata_data w :
  reconcile T (group_errata errata_data) s e now = Some w ->
  let doc_errata := associated errata_data e in
  let before := default ∅ (tags <$> documents s !! doc w) in
  let after := doc_tags w in
  (has_errata e = true -> all_rejected doc_errata = false ->
     "errata" ∈ after /\
     (existsb (is_status "Verified") doc_errata = true -> "verified-errata" ∈ after)) /\
  (has_errata e = false \/ all_rejected doc_errata = true ->
     ("errata" ∉ after) /\ ("verified-errata" ∉ after) /\
     ("errata" ∈ before ->
      In (RemovedErrataTag (all_rejected doc_errata)) (changes w))) /\
  (has_errata e = true ->
   (exists er, doc_errata = [er] /\ errata_status_code er = "Verified") ->
   "errata" ∈ after /\ "verified-errata" ∈ after).
Proof.
  intros H doc_errata before after.
  destruct (reconcile_evolves _ _ _ _ _ _ H) as (w0 & w1 & H0 & E1 & Hw & Eall).
  destruct (tags_before_errata _ _ _ _ _ _ _ H0 E1) as (D1 & T1 & d1 & Hd1).
  pose proof (check_errata_spec (group_errata errata_data) e w1 d1 Hd1) as [Hyes Hno].
  rewrite group_errata_lookup in Hyes, Hno. fold doc_errata in Hyes, Hno.
  assert (Hdoc : doc w = doc w0) by apply (same_doc _ _ _ _ _ _ Eall).
  assert (Hafter : after = doc_tags (check_errata (group_errata errata_data) e w1)).
  { unfold after. rewrite Hw. apply finish_doc_tags. }
  assert (Hch : changes w = changes (check_errata (group_errata errata_data) e w1)).
  { rewrite Hw. apply finish_changes. }
  assert (Hbefore : before = doc_tags w1).
  { unfold before. now rewrite Hdoc, T1. }
  rewrite Hafter, Hch, Hbefore.
  assert (Hfirst : has_errata e = true -> all_rejected doc_errata = false ->
     "errata" ∈ doc_tags (check_errata (group_errata errata_data) e w1) /\
     (existsb (is_status "Verified") doc_errata = true ->
      "verified-errata" ∈ doc_tags (check_errata (group_errata errata_data) e w1))).
  { intros He Hr. apply Hyes. now rewrite He, Hr. }
  split; [exact Hfirst|]. split.
  - intros Hcase. apply Hno. destruct Hcase as [-> | ->]; [reflexivity|].
    cbn. apply andb_false_r.
  - intros He (er & Her & Hst).
    assert (Hr : all_rejected doc_errata = false).
    { rewrite Her. cbn. unfold is_status. now rewrite Hst. }
    destruct (Hfirst He Hr) as [H1 H2]. split; [exact H1|]. apply H2.
    rewrite Her. cbn. unfold is_status. now rewrite Hst.
Qed.

Lemma errata_tags_reconciled_witness :
  let data := [mkErratum "RFC0003" "Verified"] in
  exists w,
    reconcile IndexScenario.tables (group_errata data) IndexScenario.empty_store
              IndexScenario.rfc3 IndexScenario.now = Some w /\
    "errata" ∈ doc_tags w /\ "verified-errata" ∈ doc_tags w.
Proof.
  intros data.
  assert (H : exists w,
    reconcile IndexScenario.tables (group_errata data) IndexScenario.empty_store
              IndexScenario.rfc3 IndexScenario.now = Some w)
    by (vm_compute; eexists; reflexivity).
  destruct H as [w H]. exists w. split; [exact H|].
  apply (errata_tags_reconciled _ _ _ _ _ _ H); [reflexivity|].
  eexists. split; vm_compute; reflexivity.
Defined.

(** C3 (as stated) fails when the index reports errata for a document
    and the errata data hold no record for it: all the associated errata
    (there are none) are Rejected, and the document ends with the tag
    errata all the same. *)
Lemma no_errata_records_counterexample :
  exists w,
    reconcile IndexScenario.tables (group_errata []) IndexScenario.empty_store
              IndexScenario.rfc3 IndexScenario.now = Some w /\
    has_errata IndexScenario.rfc3 = true /\
    every_rejected (associated [] IndexScenario.rfc3) = true /\
    "errata" ∈ doc_tags w /\
    ~ claimed_errata_tags IndexScenario.rfc3 (associated [] IndexScenario.rfc3) (doc_tags w).
Proof.
  eexists. split; [vm_compute; reflexivity|].
  split; [reflexivity|]. split; [reflexivity|].
  assert (Hin : "errata" ∈ ({[ "errata" ]} : gset string)) by set_solver.
  split; [exact Hin|]. unfold claimed_errata_tags. cbn. intros [Hn _]. exact (Hn Hin).
Qed.

(** ** Relations *)

Lemma ensure_relation_cases rel w x :
  let r := mkRelation (doc w) x rel in
  (r ∈ relations (st w) /\ ensure_relation rel w x = w) \/
  ((r ∉ relations (st w)) /\
   ensure_relation rel w x
   = note (CreatedRelation (relationship_name rel) (doc w) x)
          (with_st (with_relations (relations (st w) ++ [r]) (st w)) w)).
Proof.
  cbv zeta. unfold ensure_relation. cbv zeta.
  destruct (bool_decide_reflect (mkRelation (doc w) x rel ∈ relations (st w))) as [Hin|Hin];
    cbn [negb]; auto.
Qed.

Lemma ensure_relation_twice rel w x :
  let w1 := ensure_relation rel w x in
  mkRelation (doc w) x rel ∈ relations (st w1) /\
  ensure_relation rel w1 x = w1 /\
  (exists new, relations (st w1) = relations (st w) ++ new) /\
  (NoDup (relations (st w)) -> NoDup (relations (st w1))).
Proof.
  cbv zeta. destruct (ensure_relation_cases rel w x) as [[Hin ->]|[Hin ->]].
  - split; [exact Hin|].
    destruct (ensure_relation_cases rel w x) as [[_ E]|[Hn _]]; [|contradiction].
    split; [exact E|]. split; [exists []; now rewrite app_nil_r|auto].
  - set (w1 := note _ _).
    assert (Hin1 : mkRelation (doc w1) x rel ∈ relations (st w1)) by (cbn; set_solver).
    split; [exact Hin1|].
    destruct (ensure_relation_cases rel w1 x) as [[_ E]|[Hn _]]; [|contradiction].
    split; [exact E|]. split; [cbn; eauto|]. intros Hnd. cbn.
    apply NoDup_app. split; [exact Hnd|]. split; [set_solver|]. apply NoDup_singleton.
Qed.

Lemma reconcile_relations T errata s e now w :
  reconcile T errata s e now = Some w ->
  exists new, relations (st w) = relations s ++ new /\ NoDup new /\
    (forall r, In r new ->
       ~ In r (relations s) /\ source r = doc w /\
       In (relationship r) ["obs"; "updates"]) /\
    (NoDup (relations s) -> NoDup (relations (st w))).
Proof.
  intros H. destruct (reconcile_evolves _ _ _ _ _ _ H) as (w0 & w1 & H0 & _ & _ & Eall).
  destruct (resolve_spec _ _ _ H0) as (_ & _ & _ & _ & _ & Hrel & _).
  destruct Eall as [D _ _ (new & R & U & P) _ _]. rewrite Hrel in *.
  exists new. split; [exact R|]. split; [exact U|]. split.
  - intros r Hr. destruct (P r Hr) as (A & B & C). rewrite D. auto.
  - intros Hnd. rewrite R. apply NoDup_app. split; [exact Hnd|]. split; [|exact U].
    intros r Hr1 Hr2. apply list_elem_of_In in Hr1, Hr2.
    destruct (P r Hr2) as (A & _). auto.
Qed.

Lemma step_relations T errata skip s e now s' out :
  step T errata skip s e now = Some (s', out) ->
  (exists new, relations s' = relations s ++ new) /\
  (NoDup (relations s) -> NoDup (relations s')).
Proof.
  unfold step. destruct (skipped skip e).
  - intros [= <- <-]. split; [exists []; now rewrite app_nil_r|auto].
  - destruct (reconcile T errata s e now) as [w|] eqn:H; [|discriminate].
    cbn. intros [= <- <-].
    destruct (reconcile_relations _ _ _ _ _ _ H) as (new & R & _ & _ & N). eauto.
Qed.

Lemma run_relations T errata skip index_data : forall s s' out,
  run T errata skip s index_data = Some (s', out) ->
  (exists new, relations s' = relations s ++ new) /\
  (NoDup (relations s) -> NoDup (relations s')).
Proof.
  induction index_data as [|[e now] rest IH]; intros s s' out; cbn [run].
  - intros [= <- <-]. split; [exists []; now rewrite app_nil_r|auto].
  - destruct (step T errata skip s e now) as [[s1 out1]|] eqn:H1; [|discriminate].
    cbn. destruct (run T errata skip s1 rest) as [[s2 out2]|] eqn:H2; [|discriminate].
    cbn. intros [= <- <-].
    destruct (step_relations _ _ _ _ _ _ _ _ H1) as ((n1 & R1) & N1).
    destruct (IH _ _ _ H2) as ((n2 & R2) & N2). split; [|auto].
    exists (n1 ++ n2). rewrite R2, R1. now rewrite <- app_assoc.
Qed.

(** ** The columns of the instance in memory *)

Lemma set_title_same f : set_title (title f) f = f.
Proof. now destruct f. Qed.
Lemma set_abstract_same f : set_abstract (abstract f) f = f.
Proof. now destruct f. Qed.
Lemma set_pages_same f : set_pages (pages f) f = f.
Proof. now destruct f. Qed.
Lemma set_std_level_same f : set_std_level (std_level f) f = f.
Proof. now destruct f. Qed.
Lemma set_stream_same f : set_stream (stream f) f = f.
Proof. now destruct f. Qed.
Lemma set_group_same f : set_group (group f) f = f.
Proof. now destruct f. Qed.

Lemma cur_check_title e w : cur (check_title e w) = set_title (e_title e) (cur w).
Proof.
  unfold check_title. destruct (String.eqb_spec (e_title e) (title (cur w))) as [->|];
    cbn; [now rewrite set_title_same|reflexivity].
Qed.

Lemma cur_check_abstract e w :
  cur (check_abstract e w)
  = if PyStr.truthy (e_abstract e) then set_abstract (e_abstract e) (cur w) else cur w.
Proof.
  unfold check_abstract. destruct (PyStr.truthy (e_abstract e)); [|reflexivity].
  destruct (String.eqb_spec (e_abstract e) (abstract (cur w))) as [->|];
    cbn; [now rewrite set_abstract_same|reflexivity].
Qed.

Lemma cur_check_pages e w w' :
  check_pages e w = Some w' ->
  cur w' = if PyStr.truthy (e_pages e) then set_pages (PyStr.int (e_pages e)) (cur w)
           else cur w.
Proof.
  unfold check_pages. destruct (PyStr.truthy (e_pages e)); [|now intros [= <-]].
  destruct (PyStr.int (e_pages e)) as [n|]; [|discriminate].
  destruct (bool_decide_reflect (Some n = pages (cur w))) as [->|]; intros [= <-]; cbn;
    [now rewrite set_pages_same|reflexivity].
Qed.

Lemma cur_check_std_level e w w' :
  check_std_level e w = Some w' ->
  cur w' = set_std_level (std_level_mapping !! current_status e) (cur w).
Proof.
  unfold check_std_level. destruct (std_level_mapping !! current_status e) as [lv|];
    [|discriminate].
  destruct (bool_decide_reflect (Some lv = std_level (cur w))) as [->|]; intros [= <-]; cbn;
    [now rewrite set_std_level_same|reflexivity].
Qed.

Lemma cur_check_state w : cur (check_state w) = cur w.
Proof. unfold check_state. now destruct (negb _). Qed.

Lemma cur_check_stream e w w' :
  check_stream e w = Some w' ->
  cur w' = set_stream (stream_mapping !! e_stream e) (cur w).
Proof.
  unfold check_stream. destruct (stream_mapping !! e_stream e) as [sm|]; [|discriminate].
  destruct (bool_decide_reflect (stream (cur w) = Some sm)) as [<-|]; intros [= <-]; cbn;
    [now rewrite set_stream_same|reflexivity].
Qed.

Lemma cur_check_group T e w w' :
  check_group T e w = Some w' ->
  cur w' = set_group (group_after T e (group (cur w))) (cur w).
Proof.
  unfold check_group, group_after. destruct (group (cur w)) as [g|] eqn:Eg.
  - intros [= <-]. now rewrite <- Eg, set_group_same.
  - destruct (wg_truthy e).
    + destruct (bool_decide _); [|discriminate]. now intros [= <-].
    + destruct (individ T); [|discriminate]. now intros [= <-].
Qed.

Lemma cur_check_published e now w w' : check_published e now w = Some w' -> cur w' = cur w.
Proof.
  unfold check_published. destruct (negb _); [|now intros [= <-]].
  destruct (PubDate.synthesize _ _ _) as [[t n]|]; [|discriminate]. now intros [= <-].
Qed.

Lemma cur_check_typed_state T w t : cur (check_typed_state T w t) = cur w.
Proof.
  unfold check_typed_state. destruct (doc_state t w).
  - destruct (negb _); [|reflexivity]. cbv zeta.
    destruct (update_action_holders _ _ _ _ _ _ _). reflexivity.
  - now destruct (String.eqb _ _).
Qed.

Lemma cur_fold {A} (f : work -> A -> work) l :
  (forall w x, cur (f w x) = cur w) -> forall w, cur (fold_left f l w) = cur w.
Proof.
  intros Hf. induction l as [|x l IH]; intros w; [reflexivity|].
  cbn [fold_left]. now rewrite IH, Hf.
Qed.

Lemma cur_check_typed_states T w : cur (check_typed_states T w) = cur w.
Proof. apply cur_fold. apply cur_check_typed_state. Qed.

Lemma cur_check_relations rel ids w : cur (check_relations rel ids w) = cur w.
Proof.
  apply cur_fold. intros w' x. unfold ensure_relation. cbv zeta. now destruct (negb _).
Qed.

Lemma cur_check_also e w : cur (check_also e w) = cur w.
Proof.
  apply cur_fold. intros w' x. unfold ensure_alias. cbv zeta.
  now destruct (find_alias _ _).
Qed.

Lemma cur_check_errata errata e w : cur (check_errata errata e w) = cur w.
Proof.
  unfold check_errata. cbv zeta.
  repeat match goal with |- context [if ?b then _ else _] => destruct b end; reflexivity.
Qed.

Lemma cur_finish w : cur (finish w) = cur w.
Proof. unfold finish. now destruct (changes w). Qed.

Lemma reconcile_cur T errata s e now w w0 :
  reconcile T errata s e now = Some w -> resolve s e = Some w0 ->
  cur w = fields_after T e (cur w0).
Proof.
  intros H H0'. destruct (reconcile_inv _ _ _ _ _ _ H)
    as (w0' & w3 & w4 & w6 & w7 & w8 & H0 & H3 & H4 & H6 & H7 & H8 & ->).
  rewrite H0' in H0. injection H0 as <-.
  rewrite cur_finish, cur_check_errata, cur_check_also, !cur_check_relations,
    cur_check_typed_states.
  rewrite (cur_check_published _ _ _ _ H8), (cur_check_group _ _ _ _ H7),
    (cur_check_stream _ _ _ H6), cur_check_state, (cur_check_std_level _ _ _ H4),
    (cur_check_pages _ _ _ H3), cur_check_abstract, cur_check_title.
  reflexivity.
Qed.

(** What [save_with_history] leaves in the row. *)
Lemma finish_fields w d :
  documents (st w) !! doc w = Some d ->
  fields <$> documents (st (finish w)) !! doc (finish w)
  = Some (match changes w with [] => fields d | _ => cur w end).
Proof.
  intros Hd. unfold finish. destruct (changes w); [now rewrite Hd|].
  cbn. rewrite lookup_alter_eq, Hd. reflexivity.
Qed.

(** ** Empty values of the index *)

Lemma fmap_Some_eq {A B} (f : A -> B) (x : A) : f <$> Some x = Some (f x).
Proof. reflexivity. Qed.

Lemma truthy_false s : PyStr.truthy s = false <-> s = EmptyString.
Proof. destruct s; cbn; split; congruence. Qed.

Lemma truthy_true s : s <> EmptyString -> PyStr.truthy s = true.
Proof. destruct s; cbn; congruence. Qed.

Lemma abstract_fields_after T e f :
  abstract (fields_after T e f)
  = if PyStr.truthy (e_abstract e) then e_abstract e else abstract f.
Proof.
  unfold fields_after. cbv zeta.
  destruct (PyStr.truthy (e_abstract e)), (PyStr.truthy (e_pages e)); reflexivity.
Qed.

Lemma pages_fields_after T e f :
  pages (fields_after T e f)
  = if PyStr.truthy (e_pages e) then PyStr.int (e_pages e) else pages f.
Proof.
  unfold fields_after. cbv zeta.
  destruct (PyStr.truthy (e_abstract e)), (PyStr.truthy (e_pages e)); reflexivity.
Qed.

Lemma check_abstract_quiet e w :
  changes (check_abstract e w) = [] -> PyStr.truthy (e_abstract e) = true ->
  abstract (cur w) = e_abstract e.
Proof.
  unfold check_abstract. intros Hc Ht. rewrite Ht in Hc. cbn [andb] in Hc.
  destruct (String.eqb_spec (e_abstract e) (abstract (cur w))) as [->|]; [reflexivity|].
  cbn in Hc. now apply app_eq_nil in Hc as [_ ?].
Qed.

Lemma check_pages_quiet e w w' n :
  check_pages e w = Some w' -> changes w' = [] -> PyStr.truthy (e_pages e) = true ->
  PyStr.int (e_pages e) = Some n -> pages (cur w) = Some n.
Proof.
  unfold check_pages. intros H Hc Ht Hn. rewrite Ht, Hn in H.
  destruct (bool_decide_reflect (Some n = pages (cur w))) as [<-|]; [reflexivity|].
  cbn in H. injection H as <-. cbn in Hc. now apply app_eq_nil in Hc as [_ ?].
Qed.

(** The columns stored for the document after an iteration: those in
    memory when there were changes, those stored before otherwise. *)
Lemma reconcile_stored T errata s e now w :
  reconcile T errata s e now = Some w ->
  exists w0,
    resolve s e = Some w0 /\ doc w = doc w0 /\
    (match documents s !! doc w with
     | Some d => fields d
     | None => fields new_document
     end = cur w0) /\
    fields <$> documents (st w) !! doc w
    = Some (match changes w with [] => cur w0 | _ => fields_after T e (cur w0) end).
Proof.
  intros H. pose proof (fun w0 => reconcile_cur T errata s e now w w0 H) as Hcur.
  destruct (reconcile_evolves _ _ _ _ _ _ H) as (w0 & w1 & H0 & E1 & Hw & Eall).
  specialize (Hcur _ H0).
  destruct (resolve_spec _ _ _ H0) as (d0 & Hd0 & Hf0 & Hcase & _).
  exists w0. split; [exact H0|].
  assert (Hdoc : doc w = doc w0) by apply (same_doc _ _ _ _ _ _ Eall).
  split; [exact Hdoc|]. split.
  - rewrite Hdoc. destruct Hcase as [[-> _]|(-> & -> & _)]; [exact Hf0|].
    now rewrite <- Hf0.
  - pose proof (check_errata_evolves errata e w1) as A13.
    assert (E2 : evolves all_kinds false true false w0 (check_errata errata e w1)).
    { eapply evolves_trans; [|widen]. clear A13. widen. }
    destruct (evolves_lookup _ _ _ _ _ _ _ E2 Hd0) as (d2 & Hd2 & _ & Hk & _).
    rewrite Hw, (finish_fields _ _ Hd2), finish_changes.
    rewrite Hw, cur_finish in Hcur. rewrite Hcur, (Hk eq_refl), Hf0. reflexivity.
Qed.

(** C10.  An empty abstract or an empty page count in an index entry
    leaves the abstract, respectively the page count, stored for the
    document as it was (empty, respectively none, for a document the
    iteration creates), and no change note is written for it; a
    non-empty abstract, or a page count that reads as an integer, is
    what the document holds afterwards. *)
Theorem empty_values_do_not_overwrite T errata s e now w :
  reconcile T errata s e now = Some w ->
  let stored := fields <$> documents (st w) !! doc w in
  let before := match documents s !! doc w with
                | Some d => fields d
                | None => fields new_document
                end in
  (e_abstract e = EmptyString ->
     abstract <$> stored = Some (abstract before) /\
     forall a, ~ In (ChangedAbstract a) (changes w)) /\
  (e_pages e = EmptyString ->
     pages <$> stored = Some (pages before) /\
     forall n, ~ In (ChangedPages n) (changes w)) /\
  (e_abstract e <> EmptyString -> abstract <$> stored = Some (e_abstract e)) /\
  (forall n, e_pages e <> EmptyString -> PyStr.int (e_pages e) = Some n ->
     pages <$> stored = Some (Some n)).
Proof.
  intros H stored before.
  destruct (reconcile_stored _ _ _ _ _ _ H) as (w0 & H0 & Hdoc & Hbefore & Hstored).
  fold before in Hbefore. fold stored in Hstored.
  destruct (reconcile_chain _ _ _ _ _ _ H) as (w0' & w3 & w1 & H0' & H3 & E3 & Hw).
  rewrite H0 in H0'. injection H0' as <-.
  destruct (resolve_spec _ _ _ H0) as (_ & _ & _ & _ & _ & _ & _ & _ & _ & _ & _ & Hcr).
  pose proof (check_title_evolves e w0) as A1.
  pose proof (check_abstract_evolves e (check_title e w0)) as A2.
  pose proof (check_pages_evolves _ _ _ H3) as A3.
  pose proof (check_errata_evolves errata e w1) as A13.
  assert (Hch : changes w = changes (check_errata errata e w1))
    by (rewrite Hw; apply finish_changes).
  assert (Etail : evolves [KStdLevel; KState; KStream; KGroup; KPublished; KTypedState;
                           KRelation; KCreated; KErrata] false true false w3
                    (check_errata errata e w1)).
  { eapply evolves_trans; [|widen]. clear A1 A2 A3 A13. widen. }
  assert (Hcreated : forall c, In c (changes w0) -> kind_of c = KCreated).
  { intros c Hc. rewrite Forall_forall in Hcr. apply Hcr. now apply list_elem_of_In. }
  rewrite Hstored, Hbefore.
  split; [|split; [|split]].
  - intros Hempty. apply truthy_false in Hempty as Ht. split.
    + destruct (changes w); [reflexivity|]. rewrite fmap_Some_eq.
      now rewrite abstract_fields_after, Ht.
    + intros a Hin. rewrite Hch in Hin.
      destruct (evolves_changes_kind _ _ _ _ _ _ _ Etail Hin) as [Hin3|Hk];
        [|cbn in Hk; intuition discriminate].
      destruct (evolves_changes_kind _ _ _ _ _ _ _ A3 Hin3) as [Hina|Hk];
        [|cbn in Hk; intuition discriminate].
      unfold check_abstract in Hina. rewrite Ht in Hina. cbn [andb] in Hina.
      destruct (evolves_changes_kind _ _ _ _ _ _ _ A1 Hina) as [Hin0|Hk];
        [|cbn in Hk; intuition discriminate].
      specialize (Hcreated _ Hin0). discriminate.
  - intros Hempty. apply truthy_false in Hempty as Ht. split.
    + destruct (changes w); [reflexivity|]. rewrite fmap_Some_eq.
      now rewrite pages_fields_after, Ht.
    + intros n Hin. rewrite Hch in Hin.
      destruct (evolves_changes_kind _ _ _ _ _ _ _ Etail Hin) as [Hin3|Hk];
        [|cbn in Hk; intuition discriminate].
      unfold check_pages in H3. rewrite Ht in H3. injection H3 as <-.
      destruct (evolves_changes_kind _ _ _ _ _ _ _ A2 Hin3) as [Hina|Hk];
        [|cbn in Hk; intuition discriminate].
      destruct (evolves_changes_kind _ _ _ _ _ _ _ A1 Hina) as [Hin0|Hk];
        [|cbn in Hk; intuition discriminate].
      specialize (Hcreated _ Hin0). discriminate.
  - intros Hne. pose proof (truthy_true _ Hne) as Ht.
    destruct (changes w) eqn:Ec; rewrite fmap_Some_eq.
    + assert (Ec' : changes (check_errata errata e w1) = []) by congruence.
      pose proof (evolves_changes_nil _ _ _ _ _ _ Etail Ec') as Ec3.
      pose proof (evolves_changes_nil _ _ _ _ _ _ A3 Ec3) as Eca.
      pose proof (check_abstract_quiet _ _ Eca Ht) as Ha.
      rewrite cur_check_title in Ha. cbn in Ha. now rewrite Ha.
    + now rewrite abstract_fields_after, Ht.
  - intros n Hne Hn. pose proof (truthy_true _ Hne) as Ht.
    destruct (changes w) eqn:Ec; rewrite fmap_Some_eq.
    + assert (Ec' : changes (check_errata errata e w1) = []) by congruence.
      pose proof (evolves_changes_nil _ _ _ _ _ _ Etail Ec') as Ec3.
      pose proof (check_pages_quiet _ _ _ _ H3 Ec3 Ht Hn) as Hp.
      rewrite cur_check_abstract, cur_check_title in Hp.
      destruct (PyStr.truthy (e_abstract e)); cbn in Hp; now rewrite Hp.
    + now rewrite pages_fields_after, Ht, Hn.
Qed.

Lemma empty_values_do_not_overwrite_witness :
  exists w,
    reconcile IndexScenario.tables ∅ IndexScenario.empty_store IndexScenario.rfc1
              IndexScenario.now = Some w /\
    abstract <$> (fields <$> documents (st w) !! doc w) = Some EmptyString /\
    pages <$> (fields <$> documents (st w) !! doc w) = Some None.
Proof.
  assert (H : exists w,
    reconcile IndexScenario.tables ∅ IndexScenario.empty_store IndexScenario.rfc1
              IndexScenario.now = Some w)
    by (vm_compute; eexists; reflexivity).
  destruct H as [w H]. exists w. split; [exact H|].
  destruct (empty_values_do_not_overwrite _ _ _ _ _ _ H) as (Ha & Hp & _).
  destruct (Ha eq_refl) as [Ha' _]. destruct (Hp eq_refl) as [Hp' _].
  split.
  - rewrite Ha'. destruct (documents IndexScenario.empty_store !! doc w) eqn:E;
      [vm_compute in E; discriminate|reflexivity].
  - rewrite Hp'. destruct (documents IndexScenario.empty_store !! doc w) eqn:E;
      [vm_compute in E; discriminate|reflexivity].
Defined.
End IndexFacts.

Module IdempotenceFacts.
Import Db PyDate Index IndexSpec IndexFacts.

(** ** An entry in sync: the iteration does nothing *)

Lemma resolve_in_sync T errata s e dn d :
  in_sync T errata s e dn d ->
  resolve s e = Some (mkWork s dn (fields d) [] [] false).
Proof.
  intros [(nm & rest & Ha) Hrow _ _ _ _ _ _ _ _ _ _ _ _ _ _].
  unfold resolve. cbv zeta. rewrite Ha. cbn [head]. now rewrite Hrow.
Qed.

Lemma check_title_in_sync e w :
  title (cur w) = e_title e -> check_title e w = w.
Proof. intros H. unfold check_title. now rewrite H, String.eqb_refl. Qed.

Lemma check_abstract_in_sync e w :
  (PyStr.truthy (e_abstract e) = true -> abstract (cur w) = e_abstract e) ->
  check_abstract e w = w.
Proof.
  intros H. unfold check_abstract. destruct (PyStr.truthy (e_abstract e)); [|reflexivity].
  now rewrite H, String.eqb_refl.
Qed.

Lemma check_pages_in_sync e w :
  (PyStr.truthy (e_pages e) = true ->
   exists n, PyStr.int (e_pages e) = Some n /\ pages (cur w) = Some n) ->
  check_pages e w = Some w.
Proof.
  intros H. unfold check_pages. destruct (PyStr.truthy (e_pages e)); [|reflexivity].
  destruct (H eq_refl) as (n & -> & ->). now rewrite bool_decide_eq_true_2.
Qed.

Lemma check_std_level_in_sync e w :
  (exists lv, std_level_mapping !! current_status e = Some lv
              /\ std_level (cur w) = Some lv) ->
  check_std_level e w = Some w.
Proof.
  intros (lv & H1 & H2). unfold check_std_level. rewrite H1, H2.
  now rewrite bool_decide_eq_true_2.
Qed.

Lemma check_state_in_sync w :
  doc_state (doc_type (cur w)) w = Some "rfc" -> check_state w = w.
Proof. intros H. unfold check_state. now rewrite H, bool_decide_eq_true_2. Qed.

Lemma check_stream_in_sync e w :
  (exists sm, stream_mapping !! e_stream e = Some sm /\ stream (cur w) = Some sm) ->
  check_stream e w = Some w.
Proof.
  intros (sm & H1 & H2). unfold check_stream. rewrite H1, H2.
  now rewrite bool_decide_eq_true_2.
Qed.

Lemma check_group_in_sync T e w :
  group (cur w) <> None \/ (wg_truthy e = None /\ individ T <> None) ->
  exists f, check_group T e w = Some (with_cur f w).
Proof.
  intros H. unfold check_group. destruct (group (cur w)) as [g|] eqn:Eg.
  - exists (cur w). now destruct w.
  - destruct H as [H|[H1 H2]]; [congruence|]. rewrite H1.
    destruct (individ T); [eauto|congruence].
Qed.

Lemma check_published_in_sync e now w :
  has_event (doc w) "published_rfc" (st w) = true -> check_published e now w = Some w.
Proof. intros H. unfold check_published. now rewrite H. Qed.

Lemma check_typed_state_in_sync T w t d :
  documents (st w) !! doc w = Some d -> typed_state_ok d t ->
  check_typed_state T w t = w.
Proof.
  intros Hd Hok. unfold check_typed_state, doc_state. rewrite Hd. cbn.
  unfold typed_state_ok in Hok. destruct (get_state t d) as [slug|].
  - now rewrite bool_decide_eq_true_2.
  - destruct (String.eqb_spec t "draft-iesg"); [contradiction|reflexivity].
Qed.

Lemma check_typed_states_in_sync T w d :
  documents (st w) !! doc w = Some d ->
  (forall t, In t state_types -> typed_state_ok d t) ->
  check_typed_states T w = w.
Proof.
  intros Hd Hok. unfold check_typed_states. induction state_types as [|t l IH];
    [reflexivity|].
  cbn [fold_left]. rewrite (check_typed_state_in_sync T w t d Hd) by (apply Hok; now left).
  apply IH. intros t' Ht'. apply Hok. now right.
Qed.

Lemma fold_fixed {A} (f : work -> A -> work) (l : list A) (w : work) :
  (forall x, In x l -> f w x = w) -> fold_left f l w = w.
Proof.
  induction l as [|x l IH]; intros H; [reflexivity|].
  cbn [fold_left]. rewrite (H x) by now left. apply IH. intros y Hy. apply H. now right.
Qed.

Lemma check_relations_in_sync rel ids w :
  (forall a, In a (parse_relation_list (st w) ids) ->
             mkRelation (doc w) a rel ∈ relations (st w)) ->
  check_relations rel ids w = w.
Proof.
  intros H. unfold check_relations. apply fold_fixed. intros a Ha.
  unfold ensure_relation. cbv zeta. now rewrite bool_decide_eq_true_2 by auto.
Qed.

Lemma check_also_in_sync e w :
  (forall a, In a (also e) -> find_alias (PyStr.lower a) (st w) <> None) ->
  check_also e w = w.
Proof.
  intros H. unfold check_also. apply fold_fixed. intros a Ha.
  unfold ensure_alias. cbv zeta. specialize (H a Ha).
  destruct (find_alias (PyStr.lower a) (st w)); [reflexivity|congruence].
Qed.

Lemma check_errata_in_sync errata e w :
  errata_tags_ok e (default [] (errata !! errata_key (rfc_number e))) (doc_tags w) ->
  check_errata errata e w = w.
Proof.
  unfold errata_tags_ok, check_errata. cbv zeta.
  destruct (has_errata e && negb (all_rejected _)).
  - intros [H1 H2]. rewrite (bool_decide_eq_true_2 _ H1). cbn [negb].
    destruct (existsb (is_status "Verified") _); [|reflexivity].
    now rewrite (bool_decide_eq_true_2 _ (H2 eq_refl)).
  - intros [H1 H2]. now rewrite (bool_decide_eq_false_2 _ H1), (bool_decide_eq_false_2 _ H2).
Qed.

(** An entry in sync is reconciled without a change, whatever the time. *)
Lemma reconcile_in_sync T errata s e dn d now :
  in_sync T errata s e dn d ->
  exists f, reconcile T errata s e now = Some (mkWork s dn f [] [] false).
Proof.
  intros S. pose proof (resolve_in_sync _ _ _ _ _ _ S) as H0.
  destruct S as [Ha Hrow Ht Hab Hp Hsl Hty Hst Hsm Hg Hpub Htyped Hobs Hupd Halso Herr].
  unfold reconcile. rewrite H0. cbn [mbind option_bind].
  set (w0 := mkWork s dn (fields d) [] [] false).
  rewrite (check_title_in_sync e w0 Ht), (check_abstract_in_sync e w0 Hab),
    (check_pages_in_sync e w0 Hp). cbn [mbind option_bind].
  rewrite (check_std_level_in_sync e w0 Hsl). cbn [mbind option_bind].
  rewrite (check_state_in_sync w0)
    by (unfold doc_state; cbn; rewrite Hrow; cbn; now rewrite Hty).
  rewrite (check_stream_in_sync e w0 Hsm). cbn [mbind option_bind].
  destruct (check_group_in_sync T e w0 Hg) as (f & ->). cbn [mbind option_bind].
  set (w1 := with_cur f w0).
  rewrite (check_published_in_sync e now w1 Hpub). cbn [mbind option_bind].
  rewrite (check_typed_states_in_sync T w1 d Hrow Htyped).
  rewrite (check_relations_in_sync "obs" (obsoletes e) w1 Hobs).
  rewrite (check_relations_in_sync "updates" (updates e) w1 Hupd).
  rewrite (check_also_in_sync e w1 Halso).
  rewrite (check_errata_in_sync errata e w1)
    by (unfold doc_tags; cbn; rewrite Hrow; exact Herr).
  exists f. reflexivity.
Qed.

Lemma step_in_sync T errata skip s e dn d now :
  in_sync T errata s e dn d -> step T errata skip s e now = Some (s, []).
Proof.
  intros S. unfold step. destruct (skipped skip e); [reflexivity|].
  destruct (reconcile_in_sync T errata s e dn d now S) as (f & ->). reflexivity.
Qed.

(** ** Stores that only grow *)

Lemma grows_refl s : grows s s.
Proof. repeat split; exists []; now rewrite app_nil_r. Qed.

Lemma grows_trans s1 s2 s3 : grows s1 s2 -> grows s2 s3 -> grows s1 s3.
Proof.
  intros ((a1 & A1) & (r1 & R1) & (e1 & E1)) ((a2 & A2) & (r2 & R2) & (e2 & E2)).
  repeat split.
  - exists (a1 ++ a2). rewrite A2, A1. now rewrite <- app_assoc.
  - exists (r1 ++ r2). rewrite R2, R1. now rewrite <- app_assoc.
  - exists (e1 ++ e2). rewrite E2, E1. now rewrite <- app_assoc.
Qed.

Lemma evolves_grows K kt kf ks w w' : evolves K kt kf ks w w' -> grows (st w) (st w').
Proof.
  intros [_ _ (a & A & _) (r & R & _) (e & E & _) _]. repeat split; eauto.
Qed.

Lemma resolve_grows s e w0 : resolve s e = Some w0 -> grows s (st w0).
Proof.
  intros H. destruct (resolve_spec _ _ _ H)
    as (_ & _ & _ & _ & (a & A & _) & R & E & _).
  repeat split; [eauto|exists []|exists []]; rewrite app_nil_r; congruence.
Qed.

Lemma reconcile_grows T errata s e now w :
  reconcile T errata s e now = Some w -> grows s (st w).
Proof.
  intros H. destruct (reconcile_evolves _ _ _ _ _ _ H) as (w0 & w1 & H0 & _ & _ & Eall).
  eapply grows_trans; [eapply resolve_grows, H0|eapply evolves_grows, Eall].
Qed.

Lemma step_grows T errata skip s e now s' out :
  step T errata skip s e now = Some (s', out) -> grows s s'.
Proof.
  unfold step. destruct (skipped skip e); [intros [= <- <-]; apply grows_refl|].
  destruct (reconcile T errata s e now) as [w|] eqn:H; [|discriminate].
  cbn. intros [= <- <-]. eapply reconcile_grows, H.
Qed.

Lemma run_grows T errata skip index_data : forall s s' out,
  run T errata skip s index_data = Some (s', out) -> grows s s'.
Proof.
  induction index_data as [|[e now] rest IH]; intros s s' out; cbn [run].
  - intros [= <- <-]. apply grows_refl.
  - destruct (step T errata skip s e now) as [[s1 out1]|] eqn:H1; [|discriminate].
    cbn. destruct (run T errata skip s1 rest) as [[s2 out2]|] eqn:H2; [|discriminate].
    cbn. intros [= <- <-].
    eapply grows_trans; [eapply step_grows, H1|eapply IH, H2].
Qed.

Lemma find_alias_grows s s' name row :
  grows s s' -> find_alias name s = Some row -> find_alias name s' = Some row.
Proof.
  intros ((x & A) & _). unfold find_alias. rewrite A. clear A.
  induction (aliases s) as [|r l IH]; [discriminate|].
  cbn. destruct (String.eqb (fst r) name); auto.
Qed.

Lemma has_event_grows s s' dn ty :
  grows s s' -> has_event dn ty s = true -> has_event dn ty s' = true.
Proof.
  intros (_ & _ & (x & E)) H. unfold has_event in *. rewrite E, existsb_app, H.
  reflexivity.
Qed.

Lemma relation_grows s s' (r : Relation) :
  grows s s' -> r ∈ relations s -> r ∈ relations s'.
Proof. intros (_ & (x & R) & _) H. rewrite R. set_solver. Qed.

Lemma has_alias_in_grows s s' names d :
  grows s s' -> has_alias_in names d s = true -> has_alias_in names d s' = true.
Proof.
  intros ((x & A) & _) H. unfold has_alias_in in *. rewrite A, existsb_app, H.
  reflexivity.
Qed.

Lemma lookup_targets_grows s s' x a :
  grows s s' -> In a (lookup_targets s x) -> In a (lookup_targets s' x).
Proof.
  intros G. pose proof G as ((y & A) & _). unfold lookup_targets.
  destruct (bool_decide _); rewrite !in_map_iff; intros (row & Hf & Hin);
    exists row; (split; [exact Hf|]); apply filter_In in Hin as [Hin Hp];
    apply filter_In; (split; [rewrite A; apply in_or_app; now left|]).
  - apply andb_true_iff in Hp as [Hp1 Hp2]. rewrite Hp1. cbn [andb].
    apply existsb_exists in Hp2 as (d & Hd & Hh). apply existsb_exists.
    exists d. split; [exact Hd|]. eapply has_alias_in_grows; eauto.
  - exact Hp.
Qed.

Lemma in_add_new res ts a :
  In a (fold_left add_new ts res) <-> In a res \/ In a ts.
Proof.
  revert res. induction ts as [|t ts IH]; intros res; cbn [fold_left].
  - cbn. tauto.
  - rewrite IH. unfold add_new. destruct (bool_decide_reflect (t ∈ res)) as [Ht|Ht].
    + apply list_elem_of_In in Ht. cbn. split; [tauto|].
      intros [H|[<-|H]]; auto.
    + rewrite in_app_iff. cbn. tauto.
Qed.

Lemma in_parse_relation_list s l a :
  In a (parse_relation_list s l) <-> exists x, In x l /\ In a (lookup_targets s x).
Proof.
  unfold parse_relation_list.
  assert (G : forall res,
    In a (fold_left (fun res x => fold_left add_new (lookup_targets s x) res) l res)
    <-> In a res \/ exists x, In x l /\ In a (lookup_targets s x)).
  { induction l as [|x l IH]; intros res; cbn [fold_left].
    - split; [auto|]. intros [H|(x & [] & _)]. exact H.
    - rewrite IH, in_add_new. split.
      + intros [[H|H]|(y & Hy & H)]; eauto.
        * right. exists x. split; [now left|exact H].
        * right. exists y. split; [now right|exact H].
      + intros [H|(y & [<-|Hy] & H)]; eauto. }
  rewrite G. split; [intros [[]|H]; exact H|auto].
Qed.

Lemma parse_relation_list_grows s s' l a :
  grows s s' -> In a (parse_relation_list s l) -> In a (parse_relation_list s' l).
Proof.
  intros G. rewrite !in_parse_relation_list. intros (x & Hx & H).
  exists x. split; [exact Hx|]. eapply lookup_targets_grows; eauto.
Qed.

(** ** What an iteration leaves: the columns *)

Lemma check_title_quiet e w :
  changes (check_title e w) = [] -> title (cur w) = e_title e.
Proof.
  unfold check_title.
  destruct (String.eqb_spec (e_title e) (title (cur w))) as [->|]; [reflexivity|].
  cbn. intros Hc. now apply app_eq_nil in Hc as [_ ?].
Qed.

Lemma check_pages_some e w w' :
  check_pages e w = Some w' -> PyStr.truthy (e_pages e) = true ->
  exists n, PyStr.int (e_pages e) = Some n.
Proof.
  unfold check_pages. intros H Ht. rewrite Ht in H.
  destruct (PyStr.int (e_pages e)); [eauto|discriminate].
Qed.

Lemma check_std_level_some e w w' :
  check_std_level e w = Some w' ->
  exists lv, std_level_mapping !! current_status e = Some lv.
Proof.
  unfold check_std_level. destruct (std_level_mapping !! _); [eauto|discriminate].
Qed.

Lemma check_std_level_quiet e w w' lv :
  check_std_level e w = Some w' -> changes w' = [] ->
  std_level_mapping !! current_status e = Some lv -> std_level (cur w) = Some lv.
Proof.
  unfold check_std_level. intros H Hc Hm. rewrite Hm in H.
  destruct (bool_decide_reflect (Some lv = std_level (cur w))) as [<-|]; [reflexivity|].
  cbn in H. injection H as <-. cbn in Hc. now apply app_eq_nil in Hc as [_ ?].
Qed.

Lemma check_stream_some e w w' :
  check_stream e w = Some w' -> exists sm, stream_mapping !! e_stream e = Some sm.
Proof. unfold check_stream. destruct (stream_mapping !! _); [eauto|discriminate]. Qed.

Lemma check_stream_quiet e w w' sm :
  check_stream e w = Some w' -> changes w' = [] ->
  stream_mapping !! e_stream e = Some sm -> stream (cur w) = Some sm.
Proof.
  unfold check_stream. intros H Hc Hm. rewrite Hm in H.
  destruct (bool_decide_reflect (stream (cur w) = Some sm)) as [->|]; [reflexivity|].
  cbn in H. injection H as <-. cbn in Hc. now apply app_eq_nil in Hc as [_ ?].
Qed.

Lemma check_group_some T e w w' :
  check_group T e w = Some w' -> group_after T e (group (cur w)) <> None.
Proof.
  unfold check_group, group_after. destruct (group (cur w)); [discriminate|].
  destruct (wg_truthy e); [discriminate|]. destruct (individ T); discriminate.
Qed.

Lemma check_group_quiet T e w w' :
  check_group T e w = Some w' -> changes w' = [] ->
  group (cur w) <> None \/ (wg_truthy e = None /\ individ T <> None).
Proof.
  unfold check_group. destruct (group (cur w)); [left; discriminate|].
  destruct (wg_truthy e).
  - destruct (bool_decide _); [|discriminate]. intros [= <-] Hc. cbn in Hc.
    now apply app_eq_nil in Hc as [_ ?].
  - destruct (individ T); [|discriminate]. intros _ _. right. split; [reflexivity|discriminate].
Qed.

(** The columns the iteration stores satisfy what the attribute blocks
    look for. *)
Lemma stored_fields_in_sync T errata s e now w w0 :
  reconcile T errata s e now = Some w -> resolve s e = Some w0 ->
  let f := match changes w with [] => cur w0 | _ => fields_after T e (cur w0) end in
  doc_type f = doc_type (cur w0) /\
  title f = e_title e /\
  (PyStr.truthy (e_abstract e) = true -> abstract f = e_abstract e) /\
  (PyStr.truthy (e_pages e) = true ->
     exists n, PyStr.int (e_pages e) = Some n /\ pages f = Some n) /\
  (exists lv, std_level_mapping !! current_status e = Some lv /\ std_level f = Some lv) /\
  (exists sm, stream_mapping !! e_stream e = Some sm /\ stream f = Some sm) /\
  (group f <> None \/ (wg_truthy e = None /\ individ T <> None)).
Proof.
  intros H H0'. destruct (reconcile_inv _ _ _ _ _ _ H)
    as (w0' & w3 & w4 & w6 & w7 & w8 & H0 & H3 & H4 & H6 & H7 & H8 & Hw).
  rewrite H0' in H0. injection H0 as <-.
  destruct (check_std_level_some _ _ _ H4) as (lv & Hlv).
  destruct (check_stream_some _ _ _ H6) as (sm & Hsm).
  pose proof (check_group_some _ _ _ _ H7) as Hg.
  pose proof (cur_check_pages _ _ _ H3) as C3.
  rewrite cur_check_abstract, cur_check_title in C3.
  pose proof (cur_check_std_level _ _ _ H4) as C4. rewrite C3 in C4.
  pose proof (cur_check_stream _ _ _ H6) as C6. rewrite cur_check_state, C4 in C6.
  destruct (changes w) eqn:Ec; cbv zeta.
  - (* nothing changed: the blocks found the columns as they are *)
    assert (E13 : changes (check_errata errata e
                   (check_also e (check_relations "updates" (updates e)
                      (check_relations "obs" (obsoletes e) (check_typed_states T w8))))) = [])
      by (rewrite Hw, finish_changes in Ec; exact Ec).
    pose proof (check_errata_evolves errata e
                  (check_also e (check_relations "updates" (updates e)
                     (check_relations "obs" (obsoletes e) (check_typed_states T w8))))) as A13.
    pose proof (evolves_changes_nil _ _ _ _ _ _ A13 E13) as E12.
    pose proof (evolves_changes_nil _ _ _ _ _ _ (check_also_evolves _ _) E12) as E11.
    pose proof (evolves_changes_nil _ _ _ _ _ _
                  (check_relations_evolves "updates" _ _ ltac:(simpl; auto)) E11) as E10.
    pose proof (evolves_changes_nil _ _ _ _ _ _
                  (check_relations_evolves "obs" _ _ ltac:(simpl; auto)) E10) as E9.
    pose proof (evolves_changes_nil _ _ _ _ _ _ (check_typed_states_evolves _ _) E9) as E8.
    pose proof (evolves_changes_nil _ _ _ _ _ _ (check_published_evolves _ _ _ _ H8) E8) as E7.
    pose proof (evolves_changes_nil _ _ _ _ _ _ (check_group_evolves _ _ _ _ H7) E7) as E6.
    pose proof (evolves_changes_nil _ _ _ _ _ _ (check_stream_evolves _ _ _ H6) E6) as E5.
    pose proof (evolves_changes_nil _ _ _ _ _ _ (check_state_evolves _) E5) as E4.
    pose proof (evolves_changes_nil _ _ _ _ _ _ (check_std_level_evolves _ _ _ H4) E4) as E3.
    pose proof (evolves_changes_nil _ _ _ _ _ _ (check_pages_evolves _ _ _ H3) E3) as E2.
    pose proof (evolves_changes_nil _ _ _ _ _ _ (check_abstract_evolves _ _) E2) as E1.
    pose proof (check_title_quiet _ _ E1) as Qt.
    split; [reflexivity|]. split; [exact Qt|]. split; [|split; [|split; [|split]]].
    + intros Ht. pose proof (check_abstract_quiet _ _ E2 Ht) as Qa.
      rewrite cur_check_title in Qa. exact Qa.
    + intros Ht. destruct (check_pages_some _ _ _ H3 Ht) as (n & Hn).
      exists n. split; [exact Hn|].
      pose proof (check_pages_quiet _ _ _ _ H3 E3 Ht Hn) as Qp.
      rewrite cur_check_abstract, cur_check_title in Qp.
      destruct (PyStr.truthy (e_abstract e)); exact Qp.
    + exists lv. split; [exact Hlv|].
      pose proof (check_std_level_quiet _ _ _ _ H4 E4 Hlv) as Ql. rewrite C3 in Ql.
      destruct (PyStr.truthy (e_abstract e)), (PyStr.truthy (e_pages e)); exact Ql.
    + exists sm. split; [exact Hsm|].
      pose proof (check_stream_quiet _ _ _ _ H6 E6 Hsm) as Qs.
      rewrite cur_check_state, C4 in Qs.
      destruct (PyStr.truthy (e_abstract e)), (PyStr.truthy (e_pages e)); exact Qs.
    + pose proof (check_group_quiet _ _ _ _ H7 E7) as Qg. rewrite C6 in Qg.
      destruct (PyStr.truthy (e_abstract e)), (PyStr.truthy (e_pages e)); exact Qg.
  - (* the columns in memory were stored *)
    rewrite C6 in Hg. unfold fields_after. cbv zeta.
    split; [destruct (PyStr.truthy (e_abstract e)), (PyStr.truthy (e_pages e)); reflexivity|].
    split; [destruct (PyStr.truthy (e_abstract e)), (PyStr.truthy (e_pages e)); reflexivity|].
    split; [|split; [|split; [|split]]].
    + intros Ht. rewrite Ht. destruct (PyStr.truthy (e_pages e)); reflexivity.
    + intros Ht. destruct (check_pages_some _ _ _ H3 Ht) as (n & Hn).
      exists n. split; [exact Hn|]. rewrite Ht, Hn.
      destruct (PyStr.truthy (e_abstract e)); reflexivity.
    + exists lv. split; [exact Hlv|]. rewrite Hlv.
      destruct (PyStr.truthy (e_abstract e)), (PyStr.truthy (e_pages e)); reflexivity.
    + exists sm. split; [exact Hsm|]. rewrite Hsm.
      destruct (PyStr.truthy (e_abstract e)), (PyStr.truthy (e_pages e)); reflexivity.
    + left. destruct (PyStr.truthy (e_abstract e)), (PyStr.truthy (e_pages e)); exact Hg.
Qed.

(** ** What an iteration leaves: states, events, relations, aliases *)

Lemma evolves_states K kt kf w w' d :
  evolves K kt kf true w w' -> documents (st w) !! doc w = Some d ->
  exists d', documents (st w') !! doc w' = Some d' /\ states d' = states d.
Proof.
  intros E Hd. destruct (evolves_lookup _ _ _ _ _ _ _ E Hd) as (d' & Hd' & _ & _ & Hs).
  exists d'. split; [exact Hd'|]. now apply Hs.
Qed.

Lemma check_state_row w d :
  documents (st w) !! doc w = Some d -> doc_type (cur w) = "draft" ->
  exists d', documents (st (check_state w)) !! doc (check_state w) = Some d'
             /\ get_state "draft" d' = Some "rfc".
Proof.
  intros Hd Ht. unfold check_state. rewrite Ht.
  destruct (bool_decide_reflect (doc_state "draft" w = Some "rfc")) as [Hs|Hs]; cbn.
  - exists d. split; [exact Hd|]. unfold doc_state in Hs. now rewrite Hd in Hs.
  - exists (set_state "draft" "rfc" d). split.
    + rewrite lookup_alter_eq, Hd. reflexivity.
    + unfold get_state, set_state. cbn. apply lookup_insert_eq.
Qed.

Lemma documents_update_action_holders T a b c p n s :
  documents (fst (update_action_holders T a b c p n s)) = documents s.
Proof.
  unfold update_action_holders. now destruct (action_holders_event _ _ _ _ _).
Qed.

Lemma check_typed_state_row T w t d :
  documents (st w) !! doc w = Some d ->
  doc (check_typed_state T w t) = doc w /\
  exists d', documents (st (check_typed_state T w t)) !! doc w = Some d' /\
             (forall t', t' <> t -> get_state t' d' = get_state t' d) /\
             typed_state_ok d' t.
Proof.
  intros Hd. unfold check_typed_state, doc_state. rewrite Hd. cbn [mbind option_bind].
  destruct (get_state t d) as [slug|] eqn:Eg.
  - destruct (bool_decide_reflect (slug ∈ ["pub"; "idexists"])) as [Hin|Hin]; cbn [negb].
    + split; [reflexivity|]. exists d. split; [exact Hd|]. split; [reflexivity|].
      unfold typed_state_ok. now rewrite Eg.
    + cbv zeta.
      match goal with |- context [update_action_holders ?T ?a ?b ?c ?d ?e ?s0] =>
        pose proof (documents_update_action_holders T a b c d e s0) as Hu;
        destruct (update_action_holders T a b c d e s0) as [s1 ev1]
      end.
      cbn [fst] in Hu. cbn. split; [reflexivity|].
      exists (set_state t "pub" d). rewrite Hu. cbn. split.
      * rewrite lookup_alter_eq, Hd. reflexivity.
      * split.
        -- intros t' Hne. unfold get_state, set_state. cbn.
           apply lookup_insert_ne. congruence.
        -- unfold typed_state_ok, get_state, set_state. cbn.
           rewrite lookup_insert_eq. set_solver.
  - destruct (String.eqb_spec t "draft-iesg") as [->|Hne].
    + cbn. split; [reflexivity|]. exists (set_state "draft-iesg" "idexists" d). split.
      * rewrite lookup_alter_eq, Hd. reflexivity.
      * split.
        -- intros t' Hne. unfold get_state, set_state. cbn.
           apply lookup_insert_ne. congruence.
        -- unfold typed_state_ok, get_state, set_state. cbn.
           rewrite lookup_insert_eq. set_solver.
    + split; [reflexivity|]. exists d. split; [exact Hd|]. split; [reflexivity|].
      unfold typed_state_ok. now rewrite Eg.
Qed.

Lemma typed_state_ok_ext d d' t :
  get_state t d' = get_state t d -> typed_state_ok d t -> typed_state_ok d' t.
Proof. unfold typed_state_ok. now intros ->. Qed.

Lemma fold_typed_state_row T (l : list string) : forall w d,
  NoDup l -> documents (st w) !! doc w = Some d ->
  doc (fold_left (check_typed_state T) l w) = doc w /\
  exists d', documents (st (fold_left (check_typed_state T) l w)) !! doc w = Some d' /\
             (forall t', ~ In t' l -> get_state t' d' = get_state t' d) /\
             (forall t, In t l -> typed_state_ok d' t).
Proof.
  induction l as [|t l IH]; intros w d Hnd Hd; cbn [fold_left].
  - split; [reflexivity|]. exists d. split; [exact Hd|]. split; [reflexivity|].
    intros t [].
  - apply NoDup_cons in Hnd as [Hnotin Hnd].
    destruct (check_typed_state_row T w t d Hd) as (D1 & d1 & Hd1 & Hk1 & Hok1).
    rewrite <- D1 in Hd1.
    destruct (IH _ _ Hnd Hd1) as (D2 & d2 & Hd2 & Hk2 & Hok2).
    rewrite D1 in D2, Hd2. split; [exact D2|]. exists d2. split; [exact Hd2|]. split.
    + intros t' Hn. rewrite Hk2 by (intros ?; apply Hn; now right).
      apply Hk1. intros ->. apply Hn. now left.
    + intros t' [<-|Hin]; [|now apply Hok2].
      apply (typed_state_ok_ext d1); [|exact Hok1].
      apply Hk2. intros Hin. apply Hnotin. now apply list_elem_of_In.
Qed.

Lemma NoDup_state_types : NoDup state_types.
Proof. apply (bool_decide_unpack _). vm_compute. exact I. Qed.

Lemma check_typed_states_row T w d :
  documents (st w) !! doc w = Some d ->
  doc (check_typed_states T w) = doc w /\
  exists d', documents (st (check_typed_states T w)) !! doc w = Some d' /\
             get_state "draft" d' = get_state "draft" d /\
             (forall t, In t state_types -> typed_state_ok d' t).
Proof.
  intros Hd. unfold check_typed_states.
  destruct (fold_typed_state_row T state_types w d NoDup_state_types Hd)
    as (D & d' & Hd' & Hk & Hok).
  split; [exact D|]. exists d'. split; [exact Hd'|]. split; [|exact Hok].
  apply Hk. unfold state_types. cbn. intros H.
  repeat (destruct H as [H|H]; [discriminate|]). exact H.
Qed.

Lemma check_published_has e now w w' :
  check_published e now w = Some w' ->
  has_event (doc w') "published_rfc" (st w') = true.
Proof.
  unfold check_published. destruct (has_event (doc w) "published_rfc" (st w)) eqn:Eh; cbn.
  - now intros [= <-].
  - destruct (PubDate.synthesize _ _ _) as [[syn n]|]; [|discriminate].
    intros [= <-]. cbn. unfold has_event. cbn. rewrite existsb_app. cbn.
    rewrite String.eqb_refl. cbn. apply orb_true_r.
Qed.

Lemma fold_ensure_relation rel (l : list string) : forall w,
  doc (fold_left (ensure_relation rel) l w) = doc w /\
  (forall r, r ∈ relations (st w) ->
             r ∈ relations (st (fold_left (ensure_relation rel) l w))) /\
  (forall a, In a l ->
             mkRelation (doc w) a rel ∈ relations (st (fold_left (ensure_relation rel) l w))).
Proof.
  induction l as [|x l IH]; intros w; cbn [fold_left].
  - split; [reflexivity|]. split; [auto|]. intros a [].
  - destruct (IH (ensure_relation rel w x)) as (D & Hk & Hall).
    destruct (ensure_relation_twice rel w x) as (Hin & _ & (new & Hnew) & _).
    assert (Dx : doc (ensure_relation rel w x) = doc w).
    { destruct (ensure_relation_cases rel w x) as [[_ ->]|[_ ->]]; reflexivity. }
    split; [now rewrite D|]. split.
    + intros r Hr. apply Hk. rewrite Hnew. apply elem_of_app. now left.
    + intros a [<-|Ha].
      * apply Hk. exact Hin.
      * rewrite <- Dx. now apply Hall.
Qed.

Lemma check_relations_all rel ids w a :
  In a (parse_relation_list (st w) ids) ->
  mkRelation (doc w) a rel ∈ relations (st (check_relations rel ids w)).
Proof. intros Ha. unfold check_relations. now apply fold_ensure_relation. Qed.

Lemma find_alias_some_grows s s' name :
  grows s s' -> find_alias name s <> None -> find_alias name s' <> None.
Proof.
  intros G H. destruct (find_alias name s) as [row|] eqn:E; [|contradiction].
  now rewrite (find_alias_grows _ _ _ _ G E).
Qed.

Lemma ensure_alias_has w a : find_alias (PyStr.lower a) (st (ensure_alias w a)) <> None.
Proof.
  unfold ensure_alias. destruct (find_alias (PyStr.lower a) (st w)) eqn:E.
  - now rewrite E.
  - cbn [st note with_st]. unfold create_alias. rewrite find_alias_app, E. cbn.
    now rewrite String.eqb_refl.
Qed.

Lemma fold_ensure_alias (l : list string) : forall w a,
  In a l -> find_alias (PyStr.lower a) (st (fold_left ensure_alias l w)) <> None.
Proof.
  induction l as [|x l IH]; intros w a; cbn [fold_left]; [intros []|].
  intros [<-|Ha]; [|now apply IH].
  eapply find_alias_some_grows; [|apply ensure_alias_has].
  apply (evolves_grows [KCreated] true true true).
  apply fold_evolves. intros. apply ensure_alias_evolves.
Qed.

Lemma check_also_all e w a :
  In a (also e) -> find_alias (PyStr.lower a) (st (check_also e w)) <> None.
Proof. apply fold_ensure_alias. Qed.

(** ** An iteration leaves its entry in sync *)

Ltac wk H :=
  eapply evolves_weaken; [| | | |exact H];
  [intros ? ?; unfold all_kinds; simpl in *; tauto|auto; try discriminate..].

Lemma reconcile_stages T errata s e now w :
  reconcile T errata s e now = Some w ->
  exists w0 w4 w8,
    resolve s e = Some w0 /\
    evolves all_kinds true true true w0 w4 /\
    doc_type (cur w4) = doc_type (cur w0) /\
    evolves all_kinds true true true (check_state w4) w8 /\
    has_event (doc w8) "published_rfc" (st w8) = true /\
    w = finish (check_errata errata e
                  (check_also e
                     (check_relations "updates" (updates e)
                        (check_relations "obs" (obsoletes e)
                           (check_typed_states T w8))))).
Proof.
  intros H. destruct (reconcile_inv _ _ _ _ _ _ H)
    as (w0 & w3 & w4 & w6 & w7 & w8 & H0 & H3 & H4 & H6 & H7 & H8 & Hw).
  exists w0, w4, w8. split; [exact H0|]. split; [|split; [|split; [|split]]].
  - pose proof (attributes_evolve _ _ _ H3) as A.
    pose proof (check_std_level_evolves _ _ _ H4) as B.
    eapply evolves_trans; [wk A|wk B].
  - rewrite (cur_check_std_level _ _ _ H4), (cur_check_pages _ _ _ H3),
      cur_check_abstract, cur_check_title.
    destruct (PyStr.truthy (e_abstract e)), (PyStr.truthy (e_pages e)); reflexivity.
  - pose proof (check_stream_evolves _ _ _ H6) as A.
    pose proof (check_group_evolves _ _ _ _ H7) as B.
    pose proof (check_published_evolves _ _ _ _ H8) as C.
    eapply evolves_trans; [wk A|]. eapply evolves_trans; [wk B|wk C].
  - exact (check_published_has _ _ _ _ H8).
  - exact Hw.
Qed.

Lemma errata_tags_ok_spec errata e w d :
  documents (st w) !! doc w = Some d ->
  errata_tags_ok e (default [] (errata !! errata_key (rfc_number e)))
                 (doc_tags (check_errata errata e w)).
Proof.
  intros Hd. destruct (check_errata_spec errata e w d Hd) as (Hyes & Hno).
  unfold errata_tags_ok.
  destruct (has_errata e && negb (all_rejected _)) eqn:E.
  - now apply Hyes.
  - destruct (Hno eq_refl) as (A & B & _). now split.
Qed.

(** What an iteration establishes for its entry, the relations
    apart. *)
Lemma reconcile_establishes T errata s e now w :
  reconcile T errata s e now = Some w ->
  exists d, documents (st w) !! doc w = Some d /\
    (exists nm rest,
       find_alias (rfc_name (rfc_number e)) (st w) = Some (nm, doc w :: rest)) /\
    (doc_type (fields d) = "draft" ->
     in_sync T errata (st w) (without_relations e) (doc w) d).
Proof.
  intros H.
  destruct (reconcile_stages _ _ _ _ _ _ H)
    as (w0 & w4 & w8 & H0 & A04 & Ty4 & A58 & Hpub & Hw).
  destruct (resolve_spec _ _ _ H0)
    as (d0 & Hd0 & Hf0 & _ & _ & _ & _ & _ & (nm & rest & Hal) & _).
  pose proof (resolve_grows _ _ _ H0) as G0.
  pose proof (check_state_evolves w4) as A45.
  pose proof (check_typed_states_evolves T w8) as A89.
  set (w9 := check_typed_states T w8) in *.
  assert (A910 : evolves [KRelation] true true true w9
                   (check_relations "obs" (obsoletes e) w9))
    by (apply check_relations_evolves; simpl; auto).
  set (w10 := check_relations "obs" (obsoletes e) w9) in *.
  assert (A1011 : evolves [KRelation] true true true w10
                    (check_relations "updates" (updates e) w10))
    by (apply check_relations_evolves; simpl; auto).
  set (w11 := check_relations "updates" (updates e) w10) in *.
  pose proof (check_also_evolves e w11) as A1112.
  set (w12 := check_also e w11) in *.
  pose proof (check_errata_evolves errata e w12) as A1213.
  set (w13 := check_errata errata e w12) in *.
  pose proof (finish_evolves w13) as A13w. rewrite <- Hw in A13w.
  (* the tail of the iteration keeps the states *)
  assert (A12w : evolves all_kinds false false true w12 w)
    by (eapply evolves_trans; [wk A1213|wk A13w]).
  assert (A11w : evolves all_kinds false false true w11 w)
    by (eapply evolves_trans; [wk A1112|exact A12w]).
  assert (A10w : evolves all_kinds false false true w10 w)
    by (eapply evolves_trans; [wk A1011|exact A11w]).
  assert (A9w : evolves all_kinds false false true w9 w)
    by (eapply evolves_trans; [wk A910|exact A10w]).
  assert (A8w : evolves all_kinds false false false w8 w)
    by (eapply evolves_trans; [wk A89|wk A9w]).
  assert (A08 : evolves all_kinds true true false w0 w8).
  { eapply evolves_trans; [wk A04|]. eapply evolves_trans; [wk A45|wk A58]. }
  assert (A09 : evolves all_kinds true true false w0 w9)
    by (eapply evolves_trans; [exact A08|wk A89]).
  assert (A010 : evolves all_kinds true true false w0 w10)
    by (eapply evolves_trans; [exact A09|wk A910]).
  assert (A012 : evolves all_kinds true true false w0 w12).
  { eapply evolves_trans; [exact A010|]. eapply evolves_trans; [wk A1011|wk A1112]. }
  assert (A0w : evolves all_kinds false false false w0 w)
    by (eapply evolves_trans; [wk A08|exact A8w]).
  destruct (evolves_lookup _ _ _ _ _ _ _ A0w Hd0) as (d & Hd & _).
  exists d. split; [exact Hd|]. split.
  { exists nm, rest. rewrite (same_doc _ _ _ _ _ _ A0w).
    exact (find_alias_grows _ _ _ _ (evolves_grows _ _ _ _ _ _ A0w) Hal). }
  intros Tyd.
  (* the columns *)
  destruct (reconcile_stored _ _ _ _ _ _ H) as (w0' & H0' & _ & _ & Hst).
  rewrite H0 in H0'. injection H0' as <-.
  rewrite Hd, fmap_Some_eq in Hst. injection Hst as Hst.
  pose proof (stored_fields_in_sync _ _ _ _ _ _ _ H H0) as F. cbv zeta in F.
  rewrite <- Hst in F. destruct F as (Fty & Ftitle & Fabs & Fpages & Flv & Fsm & Fgrp).
  (* the states *)
  destruct (evolves_lookup _ _ _ _ _ _ _ A04 Hd0) as (d4 & Hd4 & _).
  assert (Ty4' : doc_type (cur w4) = "draft") by congruence.
  destruct (check_state_row w4 d4 Hd4 Ty4') as (d5 & Hd5 & Hs5).
  destruct (evolves_states _ _ _ _ _ _ A58 Hd5) as (d8 & Hd8 & Hs8).
  destruct (check_typed_states_row T w8 d8 Hd8) as (D9 & d9 & Hd9 & Hs9 & Hok9).
  fold w9 in D9, Hd9. rewrite <- D9 in Hd9.
  destruct (evolves_states _ _ _ _ _ _ A9w Hd9) as (d' & Hd' & Hs').
  assert (d' = d) by congruence. subst d'.
  split.
  - exists nm, rest. rewrite (same_doc _ _ _ _ _ _ A0w).
    exact (find_alias_grows _ _ _ _ (evolves_grows _ _ _ _ _ _ A0w) Hal).
  - exact Hd.
  - exact Ftitle.
  - exact Fabs.
  - exact Fpages.
  - exact Flv.
  - exact Tyd.
  - unfold get_state in *. rewrite Hs'. rewrite Hs9. rewrite Hs8. exact Hs5.
  - exact Fsm.
  - exact Fgrp.
  - rewrite (same_doc _ _ _ _ _ _ A8w).
    exact (has_event_grows _ _ _ _ (evolves_grows _ _ _ _ _ _ A8w) Hpub).
  - intros t Ht. apply (typed_state_ok_ext d9); [|now apply Hok9].
    unfold get_state. now rewrite Hs'.
  - intros a Ha. cbn in Ha. destruct Ha.
  - intros a Ha. cbn in Ha. destruct Ha.
  - intros a Ha.
    apply (find_alias_some_grows _ _ _ (evolves_grows _ _ _ _ _ _ A12w)).
    now apply check_also_all.
  - destruct (evolves_lookup _ _ _ _ _ _ _ A012 Hd0) as (d12 & Hd12 & _).
    pose proof (errata_tags_ok_spec errata e w12 d12 Hd12) as Hok. fold w13 in Hok.
    rewrite <- (finish_doc_tags w13), <- Hw in Hok.
    unfold doc_tags in Hok. rewrite Hd in Hok. exact Hok.
Qed.

(** ** The relation block of an iteration *)

(** The stages of an iteration around its two relation loops. *)
Lemma reconcile_tail T errata s e now w :
  reconcile T errata s e now = Some w ->
  exists w9,
    grows s (st w9) /\
    evolves [KRelation] true true true w9 (check_relations "obs" (obsoletes e) w9) /\
    evolves [KRelation] true true true (check_relations "obs" (obsoletes e) w9)
      (check_relations "updates" (updates e)
         (check_relations "obs" (obsoletes e) w9)) /\
    evolves all_kinds false false true
      (check_relations "updates" (updates e)
         (check_relations "obs" (obsoletes e) w9)) w /\
    changes w
    = changes (check_errata errata e
                 (check_also e
                    (check_relations "updates" (updates e)
                       (check_relations "obs" (obsoletes e) w9)))).
Proof.
  intros H.
  destruct (reconcile_stages _ _ _ _ _ _ H)
    as (w0 & w4 & w8 & H0 & A04 & Ty4 & A58 & Hpub & Hw).
  pose proof (resolve_grows _ _ _ H0) as G0.
  pose proof (check_state_evolves w4) as A45.
  pose proof (check_typed_states_evolves T w8) as A89.
  set (w9 := check_typed_states T w8) in *.
  assert (A910 : evolves [KRelation] true true true w9
                   (check_relations "obs" (obsoletes e) w9))
    by (apply check_relations_evolves; simpl; auto).
  set (w10 := check_relations "obs" (obsoletes e) w9) in *.
  assert (A1011 : evolves [KRelation] true true true w10
                    (check_relations "updates" (updates e) w10))
    by (apply check_relations_evolves; simpl; auto).
  set (w11 := check_relations "updates" (updates e) w10) in *.
  pose proof (check_also_evolves e w11) as A1112.
  set (w12 := check_also e w11) in *.
  pose proof (check_errata_evolves errata e w12) as A1213.
  set (w13 := check_errata errata e w12) in *.
  pose proof (finish_evolves w13) as A13w. rewrite <- Hw in A13w.
  assert (A12w : evolves all_kinds false false true w12 w)
    by (eapply evolves_trans; [wk A1213|wk A13w]).
  assert (A11w : evolves all_kinds false false true w11 w)
    by (eapply evolves_trans; [wk A1112|exact A12w]).
  assert (A09 : evolves all_kinds true true false w0 w9).
  { eapply evolves_trans; [wk A04|]. eapply evolves_trans; [wk A45|].
    eapply evolves_trans; [wk A58|wk A89]. }
  exists w9. split.
  { eapply grows_trans; [exact G0|exact (evolves_grows _ _ _ _ _ _ A09)]. }
  split; [exact A910|]. split; [exact A1011|]. split; [exact A11w|].
  rewrite Hw. apply finish_changes.
Qed.

(** An iteration leaves a relation from its document to every alias
    that the lists of its entry resolve to in the store it starts
    from. *)
Lemma reconcile_requested T errata s e now w :
  reconcile T errata s e now = Some w ->
  (forall a, In a (parse_relation_list s (obsoletes e)) ->
             mkRelation (doc w) a "obs" ∈ relations (st w)) /\
  (forall a, In a (parse_relation_list s (updates e)) ->
             mkRelation (doc w) a "updates" ∈ relations (st w)).
Proof.
  intros H. destruct (reconcile_tail _ _ _ _ _ _ H) as (w9 & G9 & A910 & A1011 & A11w & _).
  set (w10 := check_relations "obs" (obsoletes e) w9) in *.
  set (w11 := check_relations "updates" (updates e) w10) in *.
  assert (D9 : doc w = doc w9).
  { rewrite (same_doc _ _ _ _ _ _ A11w), (same_doc _ _ _ _ _ _ A1011).
    exact (same_doc _ _ _ _ _ _ A910). }
  split; intros a Ha.
  - apply (parse_relation_list_grows _ _ _ _ G9) in Ha.
    apply (check_relations_all "obs") in Ha. fold w10 in Ha. rewrite D9.
    apply (relation_grows (st w10)); [|exact Ha].
    eapply grows_trans; [exact (evolves_grows _ _ _ _ _ _ A1011)|].
    exact (evolves_grows _ _ _ _ _ _ A11w).
  - assert (G10 : grows s (st w10))
      by (eapply grows_trans; [exact G9|exact (evolves_grows _ _ _ _ _ _ A910)]).
    apply (parse_relation_list_grows _ _ _ _ G10) in Ha.
    apply (check_relations_all "updates") in Ha. fold w11 in Ha.
    rewrite D9, <- (same_doc _ _ _ _ _ _ A910).
    exact (relation_grows _ _ _ (evolves_grows _ _ _ _ _ _ A11w) Ha).
Qed.

(** A relation loop that adds no note found every relation it looked
    for. *)
Lemma fold_ensure_relation_quiet rel (l : list string) : forall w,
  changes (fold_left (ensure_relation rel) l w) = [] ->
  fold_left (ensure_relation rel) l w = w /\
  forall a, In a l -> mkRelation (doc w) a rel ∈ relations (st w).
Proof.
  induction l as [|x l IH]; intros w H; cbn [fold_left] in *.
  - split; [reflexivity|intros a []].
  - destruct (ensure_relation_cases rel w x) as [[Hin E]|[Hn E]].
    + rewrite E in *. destruct (IH w H) as [F Hall]. split; [exact F|].
      intros a [<-|Ha]; [exact Hin|now apply Hall].
    + exfalso. destruct (IH _ H) as [F _]. rewrite F, E in H. cbn in H.
      now destruct (changes w).
Qed.

(** An iteration without a change note found the relations of its
    entry in the store that its relation loops read. *)
Lemma reconcile_quiet_relations T errata s e now w :
  reconcile T errata s e now = Some w -> changes w = [] ->
  exists s9, grows s s9 /\ grows s9 (st w) /\
    (forall a, In a (parse_relation_list s9 (obsoletes e)) ->
               mkRelation (doc w) a "obs" ∈ relations s9) /\
    (forall a, In a (parse_relation_list s9 (updates e)) ->
               mkRelation (doc w) a "updates" ∈ relations s9).
Proof.
  intros H Hq.
  destruct (reconcile_tail _ _ _ _ _ _ H) as (w9 & G9 & A910 & A1011 & A11w & Hc).
  set (w10 := check_relations "obs" (obsoletes e) w9) in *.
  set (w11 := check_relations "updates" (updates e) w10) in *.
  rewrite Hq in Hc. symmetry in Hc.
  pose proof (evolves_changes_nil _ _ _ _ _ _ (check_errata_evolves errata e _) Hc) as C12.
  pose proof (evolves_changes_nil _ _ _ _ _ _ (check_also_evolves e _) C12) as C11.
  destruct (fold_ensure_relation_quiet "updates" _ w10 C11) as [E11 Hupd].
  fold (check_relations "updates" (updates e) w10) in E11. fold w11 in E11.
  assert (C10 : changes w10 = []) by (rewrite <- E11; exact C11).
  destruct (fold_ensure_relation_quiet "obs" _ w9 C10) as [E10 Hobs].
  fold (check_relations "obs" (obsoletes e) w9) in E10. fold w10 in E10.
  assert (D9 : doc w = doc w9).
  { rewrite (same_doc _ _ _ _ _ _ A11w), (same_doc _ _ _ _ _ _ A1011).
    exact (same_doc _ _ _ _ _ _ A910). }
  exists (st w9). split; [exact G9|]. split.
  { eapply grows_trans; [exact (evolves_grows _ _ _ _ _ _ A910)|].
    eapply grows_trans; [exact (evolves_grows _ _ _ _ _ _ A1011)|].
    exact (evolves_grows _ _ _ _ _ _ A11w). }
  rewrite D9. split; [exact Hobs|]. rewrite E10 in Hupd. exact Hupd.
Qed.

(** ** The iteration of another document keeps an entry in sync *)

Lemma reconcile_row_frame T errata s e' now w' dn :
  reconcile T errata s e' now = Some w' -> doc w' <> dn ->
  documents (st w') !! dn = documents s !! dn.
Proof.
  intros H Hne. destruct (reconcile_evolves _ _ _ _ _ _ H) as (w0 & w1 & H0 & _ & _ & A).
  destruct (resolve_spec _ _ _ H0) as (d0 & _ & _ & Hdocs & _).
  rewrite (same_doc _ _ _ _ _ _ A) in Hne.
  rewrite (evolves_other _ _ _ _ _ _ dn A) by congruence.
  destruct Hdocs as [(_ & ->)|(_ & _ & ->)]; [reflexivity|].
  apply lookup_insert_ne. congruence.
Qed.

Lemma in_sync_frame T errata s s' e dn d :
  in_sync T errata s e dn d -> grows s s' -> same_targets s s' e ->
  documents s' !! dn = documents s !! dn ->
  in_sync T errata s' e dn d.
Proof.
  intros [(nm & rest & Ha) Hrow Ht Hab Hp Hlv Hty Hs Hsm Hg Hpub Htyp Hobs Hupd Halso Herr]
         G [So Su] Hdocs.
  split; try assumption.
  - exists nm, rest. exact (find_alias_grows _ _ _ _ G Ha).
  - now rewrite Hdocs.
  - exact (has_event_grows _ _ _ _ G Hpub).
  - intros a Hin. apply (relation_grows _ _ _ G). apply Hobs. now apply So.
  - intros a Hin. apply (relation_grows _ _ _ G). apply Hupd. now apply Su.
  - intros a Hin. apply (find_alias_some_grows _ _ _ G). now apply Halso.
Qed.

Lemma entry_doc_grows s s' e dn :
  grows s s' -> entry_doc s e = Some dn -> entry_doc s' e = Some dn.
Proof.
  intros G. unfold entry_doc.
  destruct (find_alias (rfc_name (rfc_number e)) s) as [row|] eqn:E; [|discriminate].
  now rewrite (find_alias_grows _ _ _ _ G E).
Qed.

Lemma reconcile_entry_doc T errata s e now w :
  reconcile T errata s e now = Some w -> entry_doc (st w) e = Some (doc w).
Proof.
  intros H. destruct (reconcile_evolves _ _ _ _ _ _ H) as (w0 & w1 & H0 & _ & _ & A).
  destruct (resolve_spec _ _ _ H0) as (d0 & _ & _ & _ & _ & _ & _ & _ & (nm & rest & Hal) & _).
  unfold entry_doc.
  rewrite (find_alias_grows _ _ _ _ (evolves_grows _ _ _ _ _ _ A) Hal).
  now rewrite (same_doc _ _ _ _ _ _ A).
Qed.

Lemma same_targets_between s a b s1 e :
  grows s a -> grows b s1 -> same_targets s s1 e -> same_targets a b e.
Proof.
  intros Ga Gb [So Su]. split; intros x Hx.
  - apply (parse_relation_list_grows _ _ _ _ Ga). apply So.
    exact (parse_relation_list_grows _ _ _ _ Gb Hx).
  - apply (parse_relation_list_grows _ _ _ _ Ga). apply Su.
    exact (parse_relation_list_grows _ _ _ _ Gb Hx).
Qed.

Lemma processed_cons skip e now rest :
  processed skip ((e, now) :: rest)
  = if skipped skip e then processed skip rest else e :: processed skip rest.
Proof. unfold processed. cbn. now destruct (skipped skip e). Qed.

(** The rows of the documents that the entries of a run do not denote
    stay as they are. *)
Lemma run_row_frame T errata skip dn : forall index_data s s1 out,
  run T errata skip s index_data = Some (s1, out) ->
  (forall e', In e' (processed skip index_data) -> entry_doc s1 e' <> Some dn) ->
  documents s1 !! dn = documents s !! dn.
Proof.
  induction index_data as [|[e' now] rest IH]; intros s s1 out Hrun Hne.
  - cbn in Hrun. now injection Hrun as <- <-.
  - cbn [run] in Hrun.
    destruct (step T errata skip s e' now) as [[sa outa]|] eqn:Es; [|discriminate].
    cbn in Hrun.
    destruct (run T errata skip sa rest) as [[sb outb]|] eqn:Er; [|discriminate].
    cbn in Hrun. injection Hrun as <- <-.
    rewrite processed_cons in Hne. unfold step in Es.
    destruct (skipped skip e') eqn:Esk.
    + injection Es as <- <-. exact (IH _ _ _ Er Hne).
    + destruct (reconcile T errata s e' now) as [w'|] eqn:Ew; [|discriminate].
      cbn in Es. injection Es as <- <-.
      rewrite (IH _ _ _ Er) by (intros x Hx; apply Hne; now right).
      apply (reconcile_row_frame _ _ _ _ _ _ _ Ew).
      intros Heq. apply (Hne e'); [now left|].
      rewrite <- Heq. apply (entry_doc_grows (st w')); [exact (run_grows _ _ _ _ _ _ _ Er)|].
      exact (reconcile_entry_doc _ _ _ _ _ _ Ew).
Qed.

Lemma run_frame T errata skip index_data s s1 out e dn d :
  in_sync T errata s e dn d ->
  run T errata skip s index_data = Some (s1, out) ->
  (forall e', In e' (processed skip index_data) -> entry_doc s1 e' <> Some dn) ->
  same_targets s s1 e ->
  in_sync T errata s1 e dn d.
Proof.
  intros Hs Hrun Hne Hst.
  apply (in_sync_frame _ _ s); [exact Hs|exact (run_grows _ _ _ _ _ _ _ Hrun)|exact Hst|].
  exact (run_row_frame _ _ _ _ _ _ _ _ Hrun Hne).
Qed.

(** ** A run leaves every entry it processed in sync *)

Lemma same_targets_without s s' e : same_targets s s' (without_relations e).
Proof. split; intros a Ha; cbn in Ha; destruct Ha. Qed.

Lemma run_in_sync T errata skip : forall index_data s s1 out,
  run T errata skip s index_data = Some (s1, out) ->
  NoDup (List.map (entry_doc s1) (processed skip index_data)) ->
  (forall e dn d, In e (processed skip index_data) -> entry_doc s1 e = Some dn ->
                  documents s1 !! dn = Some d -> doc_type (fields d) = "draft") ->
  forall e, In e (processed skip index_data) ->
            exists dn d, in_sync T errata s1 (without_relations e) dn d.
Proof.
  induction index_data as [|[e0 now] rest IH]; intros s s1 out Hrun Hnd Hty e Hin.
  - destruct Hin.
  - cbn [run] in Hrun.
    destruct (step T errata skip s e0 now) as [[sa outa]|] eqn:Es; [|discriminate].
    cbn in Hrun.
    destruct (run T errata skip sa rest) as [[sb outb]|] eqn:Er; [|discriminate].
    cbn in Hrun. injection Hrun as <- <-.
    pose proof (run_grows _ _ _ _ _ _ _ Er) as Gb.
    rewrite processed_cons in Hin, Hnd, Hty.
    unfold step in Es. destruct (skipped skip e0) eqn:Esk.
    + injection Es as <- <-. exact (IH _ _ _ Er Hnd Hty e Hin).
    + destruct (reconcile T errata s e0 now) as [w|] eqn:Ew; [|discriminate].
      cbn in Es. injection Es as <- <-.
      cbn [List.map] in Hnd. apply NoDup_cons in Hnd as [Hnotin Hnd].
      destruct Hin as [<-|Hin].
      * (* the entry at hand *)
        destruct (reconcile_establishes _ _ _ _ _ _ Ew) as (d & Hd & _ & Hsync).
        pose proof (reconcile_entry_doc _ _ _ _ _ _ Ew) as Hed.
        pose proof (entry_doc_grows _ _ _ _ Gb Hed) as Hed'.
        assert (Hfree : forall e', In e' (processed skip rest) ->
                                   entry_doc sb e' <> Some (doc w)).
        { intros e' He' Heq. apply Hnotin. rewrite Hed', <- Heq.
          apply list_elem_of_In. apply in_map. exact He'. }
        pose proof (run_row_frame _ _ _ _ _ _ _ _ Er Hfree) as Hrow.
        exists (doc w), d. eapply run_frame; [|exact Er|exact Hfree|].
        -- apply Hsync. apply (Hty e0 (doc w) d); [now left|exact Hed'|].
           now rewrite Hrow.
        -- apply same_targets_without.
      * apply (IH _ _ _ Er Hnd); [|exact Hin].
        intros x dn d Hx. apply Hty. now right.
Qed.

(** With its relations in place, an entry that is in sync but for
    them is in sync. *)
Lemma in_sync_with_relations T errata s e dn d :
  in_sync T errata s (without_relations e) dn d -> relations_present s e ->
  in_sync T errata s e dn d.
Proof.
  intros [(nm & rest & Ha) Hrow Ht Hab Hp Hlv Hty Hs Hsm Hg Hpub Htyp _ _ Halso Herr] Hrel.
  assert (Hed : entry_doc s e = Some dn).
  { unfold entry_doc. cbn in Ha. now rewrite Ha. }
  destruct (Hrel dn Hed) as [Ho Hu].
  split; [exists nm, rest; exact Ha|exact Hrow|exact Ht|exact Hab|exact Hp|exact Hlv
         |exact Hty|exact Hs|exact Hsm|exact Hg|exact Hpub|exact Htyp|exact Ho|exact Hu
         |exact Halso|exact Herr].
Qed.

(** A run over entries that are in sync changes nothing and yields
    nothing. *)
Lemma run_quiet T errata skip s : forall index_data,
  (forall e, In e (processed skip index_data) -> exists dn d, in_sync T errata s e dn d) ->
  run T errata skip s index_data = Some (s, []).
Proof.
  induction index_data as [|[e now] rest IH]; intros Hs; [reflexivity|].
  cbn [run]. rewrite processed_cons in Hs.
  assert (Es : step T errata skip s e now = Some (s, [])).
  { destruct (skipped skip e) eqn:Esk.
    - unfold step. now rewrite Esk.
    - destruct (Hs e ltac:(now left)) as (dn & d & Hsync).
      exact (step_in_sync _ _ _ _ _ _ _ _ Hsync). }
  rewrite Es. cbn. rewrite IH; [reflexivity|].
  intros x Hx. apply Hs. destruct (skipped skip e); [exact Hx|now right].
Qed.

(** ** Running the reconciler again *)

Lemma processed_same skip (a b : list (entry * datetime)) :
  List.map fst a = List.map fst b -> processed skip a = processed skip b.
Proof. unfold processed. now intros ->. Qed.

Lemma grows_antisym a b :
  grows a b -> grows b a -> aliases a = aliases b /\ relations a = relations b.
Proof.
  intros ((x & A) & (r & R) & _) ((x' & A') & (r' & R') & _).
  rewrite A in A'. rewrite R in R'. rewrite <- app_assoc in A', R'.
  rewrite <- (app_nil_r (aliases a)) in A' at 1.
  rewrite <- (app_nil_r (relations a)) in R' at 1.
  apply app_inv_head in A', R'. symmetry in A', R'.
  apply app_eq_nil in A' as [-> _]. apply app_eq_nil in R' as [-> _].
  rewrite app_nil_r in A, R. now split.
Qed.

Lemma parse_relation_list_aliases s s' l :
  aliases s = aliases s' -> parse_relation_list s l = parse_relation_list s' l.
Proof.
  intros H. unfold parse_relation_list, lookup_targets, has_alias_in. now rewrite H.
Qed.

Lemma entry_doc_aliases s s' e : aliases s = aliases s' -> entry_doc s e = entry_doc s' e.
Proof. intros H. unfold entry_doc, find_alias. now rewrite H. Qed.

(** A run that yields nothing and ends in the store [sf], from a
    store that [sf] has grown from, found the relations of every entry
    it processed in [sf]. *)
Lemma quiet_run_relations T errata skip : forall index_data s s' sf,
  run T errata skip s index_data = Some (s', []) ->
  grows s' sf -> grows sf s ->
  forall e, In e (processed skip index_data) -> relations_present sf e.
Proof.
  induction index_data as [|[e0 now] rest IH]; intros s s' sf Hrun G1 G2 e Hin.
  - destruct Hin.
  - cbn [run] in Hrun.
    destruct (step T errata skip s e0 now) as [[sa outa]|] eqn:Es; [|discriminate].
    cbn in Hrun.
    destruct (run T errata skip sa rest) as [[sb outb]|] eqn:Er; [|discriminate].
    cbn in Hrun. injection Hrun as <- Hout.
    apply app_eq_nil in Hout as [-> ->].
    pose proof (step_grows _ _ _ _ _ _ _ _ Es) as Ga.
    pose proof (run_grows _ _ _ _ _ _ _ Er) as Gb.
    assert (IH' : forall x, In x (processed skip rest) -> relations_present sf x).
    { apply (IH sa sb sf Er G1). eapply grows_trans; [exact G2|exact Ga]. }
    rewrite processed_cons in Hin. unfold step in Es.
    destruct (skipped skip e0) eqn:Esk; [now apply IH'|].
    destruct Hin as [<-|Hin]; [|now apply IH'].
    destruct (reconcile T errata s e0 now) as [w|] eqn:Ew; [|discriminate].
    cbn in Es. injection Es as <- Hq.
    assert (Hc : changes w = []) by (destruct (changes w); [reflexivity|discriminate]).
    destruct (reconcile_quiet_relations _ _ _ _ _ _ Ew Hc) as (s9 & G9 & G9w & Ho & Hu).
    assert (Gw : grows (st w) sf) by (eapply grows_trans; [exact Gb|exact G1]).
    destruct (grows_antisym s9 sf) as [A9 R9].
    { eapply grows_trans; [exact G9w|exact Gw]. }
    { eapply grows_trans; [exact G2|exact G9]. }
    destruct (grows_antisym (st w) sf Gw) as [Aw _].
    { eapply grows_trans; [exact G2|]. eapply grows_trans; [exact G9|exact G9w]. }
    intros dn Hdn.
    rewrite <- (entry_doc_aliases _ _ _ Aw), (reconcile_entry_doc _ _ _ _ _ _ Ew) in Hdn.
    injection Hdn as <-.
    rewrite <- !(parse_relation_list_aliases _ _ _ A9), <- R9. now split.
Qed.

(** C1 (as amended): a second run of [update_docs_from_rfc_index] over
    the same index entries, with the same errata records and the same
    cutoff date, right after a first run that ended in the store [s1],
    whose processed entries denote pairwise distinct documents, all of
    type draft.  The second run yields the empty sequence and leaves
    the store as it is (no event, column, state, tag, alias or relation
    changes) exactly when, after the first run, every alias that the
    obsoletes and updates lists of a processed entry resolve to is the
    target of the relation of that kind from the document of the
    entry: the first run has created the relations to the aliases that
    it found when it reached the entry, so that only a reference to an
    alias created later in that run is left for the second. *)
Theorem second_run_changes_nothing T s index_data errata_data skip s1 out1 index_again :
  update_docs_from_rfc_index T s index_data errata_data skip = Some (s1, out1) ->
  List.map fst index_again = List.map fst index_data ->
  NoDup (List.map (entry_doc s1) (processed skip index_data)) ->
  (forall e dn d, In e (processed skip index_data) -> entry_doc s1 e = Some dn ->
                  documents s1 !! dn = Some d -> doc_type (fields d) = "draft") ->
  (update_docs_from_rfc_index T s1 index_again errata_data skip = Some (s1, [])
   <-> forall e, In e (processed skip index_data) -> relations_present s1 e).
Proof.
  unfold update_docs_from_rfc_index. intros Hrun Hsame Hnd Hty. split.
  - intros Hq e He. rewrite <- (processed_same skip _ _ Hsame) in He.
    exact (quiet_run_relations _ _ _ _ _ _ _ Hq (grows_refl s1) (grows_refl s1) e He).
  - intros Hrel. apply run_quiet. rewrite (processed_same skip _ _ Hsame).
    intros e He.
    destruct (run_in_sync _ _ _ _ _ _ _ Hrun Hnd Hty e He) as (dn & d & Hs).
    exists dn, d. apply in_sync_with_relations; [exact Hs|now apply Hrel].
Qed.

Lemma second_run_changes_nothing_witness :
  exists out1,
    update_docs_from_rfc_index IndexScenario.tables IndexScenario.empty_store
      IndexScenario.index_back [] None = Some (IndexScenario.after_back, out1) /\
    relations IndexScenario.after_back = [mkRelation "rfc1" "rfc2" "obs"] /\
    update_docs_from_rfc_index IndexScenario.tables IndexScenario.after_back
      IndexScenario.index_back [] None = Some (IndexScenario.after_back, []).
Proof.
  assert (H : exists out1,
    update_docs_from_rfc_index IndexScenario.tables IndexScenario.empty_store
      IndexScenario.index_back [] None = Some (IndexScenario.after_back, out1))
    by (eexists; vm_compute; reflexivity).
  destruct H as [out1 H]. exists out1. split; [exact H|].
  split; [vm_compute; reflexivity|].
  apply (second_run_changes_nothing _ _ _ _ _ _ _ _ H eq_refl).
  - apply (bool_decide_unpack _). vm_compute. exact I.
  - intros e dn d [<-|[<-|[]]] Hdn Hd; vm_compute in Hdn; injection Hdn as <-;
      vm_compute in Hd; injection Hd as <-; reflexivity.
  - intros e [<-|[<-|[]]] dn Hdn; vm_compute in Hdn; injection Hdn as <-;
      split; intros a Ha; vm_compute in Ha; try (destruct Ha as [<-|[]]);
      try (destruct Ha); apply (bool_decide_unpack _); vm_compute; exact I.
Defined.

(** The claim as it was stated fails in three ways.  An entry may
    refer to a document that a later entry of the same index creates:
    the first run finds no alias rfc2 when it reaches the entry of
    RFC 1, which obsoletes RFC 2; the second run finds it, creates the
    relation and yields a change list.  Two entries may denote the same
    document: of an index that lists RFC 4 under two titles, every run
    sets the one title and then the other.  And the document may be of
    another type than draft: every run sets the state of type draft,
    which is not what it reads, and notes the change. *)
Lemma second_run_counterexamples :
  ((exists out1,
      update_docs_from_rfc_index IndexScenario.tables IndexScenario.empty_store
        IndexScenario.index [] None = Some (IndexScenario.after_one_run, out1)) /\
   update_docs_from_rfc_index IndexScenario.tables IndexScenario.after_one_run
     IndexScenario.index [] None
   = Some (IndexScenario.after_two_runs,
           [([CreatedRelation "obsoletes" "rfc1" "rfc2"], "rfc1", false)]) /\
   relations IndexScenario.after_one_run = [] /\
   relations IndexScenario.after_two_runs = [mkRelation "rfc1" "rfc2" "obs"]) /\
  ((exists out1,
      update_docs_from_rfc_index IndexScenario.tables IndexScenario.empty_store
        IndexScenario.index_twice [] None = Some (IndexScenario.after_twice, out1)) /\
   (exists s2,
      update_docs_from_rfc_index IndexScenario.tables IndexScenario.after_twice
        IndexScenario.index_twice [] None
      = Some (s2, [([ChangedTitle "Four"], "rfc4", false);
                   ([ChangedTitle "Fourth"], "rfc4", false)])) /\
   (forall e, In e (processed None IndexScenario.index_twice) ->
              relations_present IndexScenario.after_twice e)) /\
  ((exists out1,
      update_docs_from_rfc_index IndexScenario.tables IndexScenario.store_with_review
        IndexScenario.index_review [] None = Some (IndexScenario.after_review, out1)) /\
   (exists s2,
      update_docs_from_rfc_index IndexScenario.tables IndexScenario.after_review
        IndexScenario.index_review [] None
      = Some (s2, [([ChangedState None], "conflict-review-six", false)])) /\
   (forall e, In e (processed None IndexScenario.index_review) ->
              relations_present IndexScenario.after_review e)).
Proof.
  split; [|split].
  - split; [eexists; vm_compute; reflexivity|].
    split; [vm_compute; reflexivity|]. split; vm_compute; reflexivity.
  - split; [eexists; vm_compute; reflexivity|].
    split; [eexists; vm_compute; reflexivity|].
    intros e [<-|[<-|[]]] dn _; split; intros a Ha; vm_compute in Ha; destruct Ha.
  - split; [eexists; vm_compute; reflexivity|].
    split; [eexists; vm_compute; reflexivity|].
    intros e [<-|[]] dn _; split; intros a Ha; vm_compute in Ha; destruct Ha.
Qed.
End IdempotenceFacts.

Module RelationFacts.
Import Db PyDate Index IndexSpec IndexFacts IdempotenceFacts.

Lemma count_one (r : Relation) s :
  NoDup (relations s) -> r ∈ relations s -> count_relation r s = 1%nat.
Proof.
  unfold count_relation. induction (relations s) as [|x l IH]; intros Hnd Hin.
  - now apply elem_of_nil in Hin.
  - apply NoDup_cons in Hnd as [Hx Hnd]. cbn [List.filter].
    destruct (bool_decide_reflect (x = r)) as [->|Hne]; cbn [length].
    + f_equal. clear IH Hin Hnd. induction l as [|y l IH]; [reflexivity|].
      cbn [List.filter].
      destruct (bool_decide_reflect (y = r)) as [->|_].
      * exfalso. apply Hx. now left.
      * apply IH. intros H. apply Hx. now right.
    + apply IH; [exact Hnd|].
      apply elem_of_cons in Hin as [Hin|Hin]; [congruence|exact Hin].
Qed.

(** The rows an iteration of the loop adds are new and pairwise
    distinct. *)
Lemma step_new_relations T errata skip s e now s' out :
  step T errata skip s e now = Some (s', out) ->
  exists new, relations s' = relations s ++ new /\ NoDup new /\
    forall r, In r new -> ~ In r (relations s) /\ In (relationship r) ["obs"; "updates"].
Proof.
  unfold step. destruct (skipped skip e).
  - intros [= <- <-]. exists []. rewrite app_nil_r.
    split; [reflexivity|]. split; [constructor|intros r []].
  - destruct (reconcile T errata s e now) as [w|] eqn:H; [|discriminate].
    cbn. intros [= <- <-].
    destruct (reconcile_relations _ _ _ _ _ _ H) as (new & R & U & P & _).
    exists new. split; [exact R|]. split; [exact U|].
    intros r Hr. destruct (P r Hr) as (A & _ & C). now split.
Qed.

Lemma run_new_relations T errata skip index_data : forall s s' out,
  run T errata skip s index_data = Some (s', out) ->
  exists new, relations s' = relations s ++ new /\ NoDup new /\
    forall r, In r new -> ~ In r (relations s) /\ In (relationship r) ["obs"; "updates"].
Proof.
  induction index_data as [|[e now] rest IH]; intros s s' out; cbn [run].
  - intros [= <- <-]. exists []. rewrite app_nil_r.
    split; [reflexivity|]. split; [constructor|intros r []].
  - destruct (step T errata skip s e now) as [[s1 out1]|] eqn:H1; [|discriminate].
    cbn. destruct (run T errata skip s1 rest) as [[s2 out2]|] eqn:H2; [|discriminate].
    cbn. intros [= <- <-].
    destruct (step_new_relations _ _ _ _ _ _ _ _ H1) as (n1 & R1 & U1 & P1).
    destruct (IH _ _ _ H2) as (n2 & R2 & U2 & P2).
    exists (n1 ++ n2). split; [rewrite R2, R1; now rewrite <- app_assoc|]. split.
    + apply NoDup_app. split; [exact U1|]. split; [|exact U2].
      intros r Hr1 Hr2. apply list_elem_of_In in Hr1, Hr2.
      destruct (P2 r Hr2) as [Hn _]. apply Hn. rewrite R1. apply in_or_app. now right.
    + intros r Hr. apply in_app_or in Hr as [Hr|Hr]; [now apply P1|].
      destruct (P2 r Hr) as [Hn Hk]. split; [|exact Hk].
      intros Hin. apply Hn. rewrite R1. apply in_or_app. now left.
Qed.

(** After a run, every alias that a list of a processed entry
    resolves to in the store before the run is the target of a
    relation from the document of the entry. *)
Lemma run_requested T errata skip : forall index_data s s' out,
  run T errata skip s index_data = Some (s', out) ->
  forall e dn, In e (processed skip index_data) -> entry_doc s' e = Some dn ->
    (forall a, In a (parse_relation_list s (obsoletes e)) ->
               mkRelation dn a "obs" ∈ relations s') /\
    (forall a, In a (parse_relation_list s (updates e)) ->
               mkRelation dn a "updates" ∈ relations s').
Proof.
  induction index_data as [|[e0 now] rest IH]; intros s s' out Hrun e dn Hin Hdn.
  - destruct Hin.
  - cbn [run] in Hrun.
    destruct (step T errata skip s e0 now) as [[sa outa]|] eqn:Es; [|discriminate].
    cbn in Hrun.
    destruct (run T errata skip sa rest) as [[sb outb]|] eqn:Er; [|discriminate].
    cbn in Hrun. injection Hrun as <- <-.
    pose proof (step_grows _ _ _ _ _ _ _ _ Es) as Ga.
    pose proof (run_grows _ _ _ _ _ _ _ Er) as Gb.
    assert (Hrest : In e (processed skip rest) ->
      (forall a, In a (parse_relation_list s (obsoletes e)) ->
                 mkRelation dn a "obs" ∈ relations sb) /\
      (forall a, In a (parse_relation_list s (updates e)) ->
                 mkRelation dn a "updates" ∈ relations sb)).
    { intros He. destruct (IH _ _ _ Er e dn He Hdn) as [Ho Hu].
      split; intros a Ha; [apply Ho|apply Hu];
        exact (parse_relation_list_grows _ _ _ _ Ga Ha). }
    rewrite processed_cons in Hin. unfold step in Es.
    destruct (skipped skip e0); [now apply Hrest|].
    destruct Hin as [<-|Hin]; [|now apply Hrest].
    destruct (reconcile T errata s e0 now) as [w|] eqn:Ew; [|discriminate].
    cbn in Es. injection Es as <- _.
    pose proof (entry_doc_grows _ _ _ _ Gb (reconcile_entry_doc _ _ _ _ _ _ Ew)) as Hd.
    rewrite Hd in Hdn. injection Hdn as <-.
    destruct (reconcile_requested _ _ _ _ _ _ Ew) as [Ho Hu].
    split; intros a Ha; apply (relation_grows _ _ _ Gb); [now apply Ho|now apply Hu].
Qed.

(** C6.  A run of [update_docs_from_rfc_index] keeps every row of the
    relation table as it is and adds only rows that the table did not
    hold, pairwise distinct, of kind obs or updates; a table with at
    most one row per source, target and kind keeps that.  Every edge
    that a processed entry asks for, from its document to an alias
    that one of its lists resolves to in the database before the run,
    is in the table after the run, and exactly once when the table had
    no row twice, however often the run asked for it.  So it is for
    each iteration, and for the body of the two loops: asked twice for
    the same edge, it does nothing the second time. *)
Theorem relations_created_once T s index_data errata_data skip s' out :
  update_docs_from_rfc_index T s index_data errata_data skip = Some (s', out) ->
  (exists new, relations s' = relations s ++ new /\ NoDup new /\
     forall r, In r new -> ~ In r (relations s) /\ In (relationship r) ["obs"; "updates"]) /\
  (NoDup (relations s) -> NoDup (relations s')) /\
  (forall e dn, In e (processed skip index_data) -> entry_doc s' e = Some dn ->
     (forall a, In a (parse_relation_list s (obsoletes e)) ->
        mkRelation dn a "obs" ∈ relations s' /\
        (NoDup (relations s) -> count_relation (mkRelation dn a "obs") s' = 1%nat)) /\
     (forall a, In a (parse_relation_list s (updates e)) ->
        mkRelation dn a "updates" ∈ relations s' /\
        (NoDup (relations s) -> count_relation (mkRelation dn a "updates") s' = 1%nat))) /\
  (forall s0 e now w,
     reconcile T (group_errata errata_data) s0 e now = Some w ->
     (exists new, relations (st w) = relations s0 ++ new /\ NoDup new /\
        forall r, In r new ->
          ~ In r (relations s0) /\ source r = doc w /\
          In (relationship r) ["obs"; "updates"]) /\
     (forall a, In a (parse_relation_list s0 (obsoletes e)) ->
        mkRelation (doc w) a "obs" ∈ relations (st w)) /\
     (forall a, In a (parse_relation_list s0 (updates e)) ->
        mkRelation (doc w) a "updates" ∈ relations (st w)) /\
     (NoDup (relations s0) -> NoDup (relations (st w)))) /\
  (forall rel w x,
     let w1 := ensure_relation rel w x in
     mkRelation (doc w) x rel ∈ relations (st w1) /\
     ensure_relation rel w1 x = w1 /\
     (exists new, relations (st w1) = relations (st w) ++ new) /\
     (NoDup (relations (st w)) -> NoDup (relations (st w1)))).
Proof.
  unfold update_docs_from_rfc_index. intros H.
  destruct (run_relations _ _ _ _ _ _ _ H) as [_ Hnd].
  split; [exact (run_new_relations _ _ _ _ _ _ _ H)|]. split; [exact Hnd|].
  split; [|split].
  - intros e dn He Hdn.
    destruct (run_requested _ _ _ _ _ _ _ H e dn He Hdn) as [Ho Hu].
    split; intros a Ha.
    + split; [now apply Ho|]. intros N. apply count_one; [now apply Hnd|now apply Ho].
    + split; [now apply Hu|]. intros N. apply count_one; [now apply Hnd|now apply Hu].
  - intros s0 e now w Hw.
    destruct (reconcile_relations _ _ _ _ _ _ Hw) as (new & R & U & P & N).
    destruct (reconcile_requested _ _ _ _ _ _ Hw) as [Ho Hu].
    split; [exists new; auto|]. split; [exact Ho|]. split; [exact Hu|exact N].
  - intros rel w x. apply ensure_relation_twice.
Qed.

Lemma relations_created_once_witness :
  exists out,
    update_docs_from_rfc_index IndexScenario.tables IndexScenario.store_with_rfc1
      IndexScenario.index_repeated [] None = Some (IndexScenario.after_repeated, out) /\
    relations IndexScenario.store_with_rfc1 = [] /\
    mkRelation "rfc2" "rfc1" "obs" ∈ relations IndexScenario.after_repeated /\
    count_relation (mkRelation "rfc2" "rfc1" "obs") IndexScenario.after_repeated = 1%nat.
Proof.
  assert (H : exists out,
    update_docs_from_rfc_index IndexScenario.tables IndexScenario.store_with_rfc1
      IndexScenario.index_repeated [] None = Some (IndexScenario.after_repeated, out))
    by (eexists; vm_compute; reflexivity).
  destruct H as [out H]. exists out. split; [exact H|].
  split; [vm_compute; reflexivity|].
  destruct (relations_created_once _ _ _ _ _ _ _ H) as (_ & _ & Hreq & _).
  destruct (Hreq IndexScenario.rfc2_obsoletes_rfc1 "rfc2") as [Ho _].
  - vm_compute. auto.
  - vm_compute. reflexivity.
  - destruct (Ho "rfc1") as [Hin Hone]; [vm_compute; auto|].
    split; [exact Hin|]. apply Hone. vm_compute. constructor.
Defined.

End RelationFacts.

Module QueueRunFacts.
Import Db Queue QueueSpec QueueRunSpec QueueFacts.

(** ** Entries the first loop does not work on *)

Lemma step_unknown T in_db r e :
  known in_db e = false -> step T in_db r e = warn (warning_of in_db e) r.
Proof.
  unfold known, warning_of, step.
  destruct (bool_decide (name e ∈ in_db)); cbn [negb andb]; [|reflexivity].
  intros H. apply andb_false_iff in H.
  destruct H as [H|H]; rewrite H; cbn [negb orb]; [reflexivity|].
  now rewrite orb_true_r.
Qed.

Lemma known_inv in_db e :
  known in_db e = true ->
  name e ∈ in_db /\ PyStr.truthy (state e) = true /\
  exists next, state_mapping !! state e = Some next.
Proof.
  unfold known. intros H.
  apply andb_true_iff in H as [H H3]. apply andb_true_iff in H as [H1 H2].
  split; [exact (bool_decide_eq_true_1 _ H1)|]. split; [exact H2|].
  apply bool_decide_eq_true_1 in H3. destruct H3 as [next H3]. eauto.
Qed.

Lemma step_known_warnings T in_db r e :
  known in_db e = true -> warnings (step T in_db r e) = warnings r.
Proof.
  unfold known, step. intros H.
  apply andb_true_iff in H as [H H3]. apply andb_true_iff in H as [H1 H2].
  rewrite H1, H2, H3. cbn [negb orb].
  destruct (documents (store r) !! name e); [|reflexivity].
  destruct (state_mapping !! state e); [|reflexivity].
  cbv zeta. destruct (save_history _ _) as [[? ?] ?]. reflexivity.
Qed.

(** The store and the changed set after an iteration do not depend on
    the warnings so far. *)
Lemma step_data T in_db r r' e :
  store r = store r' -> changed r = changed r' ->
  store (step T in_db r e) = store (step T in_db r' e) /\
  changed (step T in_db r e) = changed (step T in_db r' e).
Proof.
  destruct r as [s c w], r' as [s' c' w']. cbn. intros <- <-.
  unfold step. cbn [store changed warnings].
  destruct (negb (bool_decide (name e ∈ in_db))); [now split|].
  destruct (negb (PyStr.truthy (state e)) || _); [now split|].
  destruct (documents s !! name e); [|now split].
  destruct (state_mapping !! state e); [|now split].
  cbv zeta. destruct (save_history _ _) as [[? ?] ?]. now split.
Qed.

Lemma main_loop_data T in_db drafts : forall r r',
  store r = store r' -> changed r = changed r' ->
  store (main_loop T in_db drafts r) = store (main_loop T in_db drafts r') /\
  changed (main_loop T in_db drafts r) = changed (main_loop T in_db drafts r').
Proof.
  induction drafts as [|e drafts IH]; intros r r' Hs Hc; [now split|].
  rewrite !main_loop_cons. apply IH; now apply step_data.
Qed.

Lemma main_loop_warnings T in_db drafts : forall r,
  warnings (main_loop T in_db drafts r)
  = warnings r ++ List.map (warning_of in_db)
                    (List.filter (fun e => negb (known in_db e)) drafts).
Proof.
  induction drafts as [|e drafts IH]; intros r; [now rewrite app_nil_r|].
  rewrite main_loop_cons, IH. cbn [List.filter].
  destruct (known in_db e) eqn:K; cbn [negb].
  - now rewrite step_known_warnings.
  - rewrite step_unknown by exact K. unfold warn. cbn [warnings List.map].
    rewrite <- app_assoc. reflexivity.
Qed.

(** X1: entries that name an unknown document or carry an unknown state
    have no effect on the database or on the changed set: the first
    loop leaves the store and the changed set that it leaves over the
    queue without them, and adds one warning for each of them, in the
    order of the queue, and no other warning. *)
Theorem unknown_entries_only_warn T in_db drafts r :
  let r' := main_loop T in_db drafts r in
  let worked := List.filter (known in_db) drafts in
  store r' = store (main_loop T in_db worked r) /\
  changed r' = changed (main_loop T in_db worked r) /\
  warnings r'
  = warnings r ++ List.map (warning_of in_db)
                    (List.filter (fun e => negb (known in_db e)) drafts) /\
  warnings (main_loop T in_db worked r) = warnings r.
Proof.
  cbv zeta. split; [|split; [|split]].
  - revert r. induction drafts as [|e drafts IH]; intros r; [reflexivity|].
    rewrite main_loop_cons. cbn [List.filter]. destruct (known in_db e) eqn:K.
    + rewrite main_loop_cons. apply IH.
    + rewrite step_unknown by exact K. rewrite <- IH.
      now apply main_loop_data.
  - revert r. induction drafts as [|e drafts IH]; intros r; [reflexivity|].
    rewrite main_loop_cons. cbn [List.filter]. destruct (known in_db e) eqn:K.
    + rewrite main_loop_cons. apply IH.
    + rewrite step_unknown by exact K. rewrite <- IH.
      now apply main_loop_data.
  - apply main_loop_warnings.
  - rewrite main_loop_warnings.
    replace (List.filter (fun e => negb (known in_db e))
               (List.filter (known in_db) drafts)) with (@nil entry);
      [now rewrite app_nil_r|].
    induction drafts as [|e drafts IH]; [reflexivity|]. cbn [List.filter].
    destruct (known in_db e) eqn:K; [|exact IH].
    cbn [List.filter]. now rewrite K.
Qed.

(** ** The store after each block *)

Lemma alter_lookup_insert {A} (f : A -> A) (m : gmap string A) k x :
  m !! k = Some x -> alter f k m = <[k := f x]> m.
Proof.
  intros H. apply map_eq. intros j. destruct (decide (j = k)) as [->|Hne].
  - now rewrite lookup_alter_eq, lookup_insert_eq, H.
  - now rewrite lookup_alter_ne, lookup_insert_ne by congruence.
Qed.

Lemma advances_refl nm s : advances nm s s.
Proof.
  split; try reflexivity.
  - exists (fun x => x). split; [|reflexivity]. symmetry. now apply alter_id.
  - exists []. split; [now rewrite app_nil_r|constructor].
  - exists []. now rewrite app_nil_r.
Qed.

Lemma advances_trans nm s1 s2 s3 :
  advances nm s1 s2 -> advances nm s2 s3 -> advances nm s1 s3.
Proof.
  intros [A1 R1 (f1 & D1 & F1) (x1 & E1 & P1) (y1 & X1)]
         [A2 R2 (f2 & D2 & F2) (x2 & E2 & P2) (y2 & X2)].
  split.
  - congruence.
  - congruence.
  - exists (fun x => f2 (f1 x)). split.
    + rewrite D2, D1. apply alter_alter_eq.
    + intros x. now rewrite F2, F1.
  - exists (x1 ++ x2). split; [now rewrite E2, E1, app_assoc|].
    apply Forall_app. now split.
  - exists (y1 ++ y2). now rewrite X2, X1, app_assoc.
Qed.

Lemma advances_save_event nm ev s : ev_doc ev = nm -> advances nm s (save_event ev s).
Proof.
  intros H. split; try reflexivity.
  - exists (fun x => x). split; [|reflexivity]. symmetry. now apply alter_id.
  - exists [ev]. split; [reflexivity|]. now constructor.
  - exists []. cbn. now rewrite app_nil_r.
Qed.

Lemma advances_perform nm x s : advances nm s (perform x s).
Proof.
  split; try reflexivity.
  - exists (fun x => x). split; [|reflexivity]. symmetry. now apply alter_id.
  - exists []. split; [cbn; now rewrite app_nil_r|constructor].
  - now exists [x].
Qed.

Lemma advances_update_doc nm f s :
  (forall x, fields (f x) = fields x) -> advances nm s (update_doc nm f s).
Proof.
  intros H. split; try reflexivity.
  - now exists f.
  - exists []. split; [cbn; now rewrite app_nil_r|constructor].
  - exists []. cbn. now rewrite app_nil_r.
Qed.

Lemma advances_add_state_change_event nm rv ty prev next s :
  advances nm s (fst (add_state_change_event nm rv ty prev next s)).
Proof.
  unfold add_state_change_event. destruct (decide _); cbn [fst];
    [apply advances_refl|now apply advances_save_event].
Qed.

Lemma advances_update_action_holders T nm rv ty prev next s :
  advances nm s (fst (update_action_holders T nm rv ty prev next s)).
Proof.
  unfold update_action_holders. destruct (action_holders_event _ _ _ _ _); cbn [fst].
  - eapply advances_trans; [apply advances_perform|now apply advances_save_event].
  - apply advances_perform.
Qed.

Lemma first_contact_advances T nm d s : advances nm s (fst (first_contact T nm d s)).
Proof.
  unfold first_contact. cbv zeta.
  match goal with |- context [add_state_change_event ?a ?b ?c ?d ?e ?f] =>
    pose proof (advances_add_state_change_event a b c d e f) as H1;
    destruct (add_state_change_event a b c d e f) as [s1 e1] end.
  match goal with |- context [update_action_holders ?t ?a ?b ?c ?d ?e ?f] =>
    pose proof (advances_update_action_holders t a b c d e f) as H2;
    destruct (update_action_holders t a b c d e f) as [s2 e2] end.
  cbn [fst] in *.
  eapply advances_trans; [|exact H2]. eapply advances_trans; [|exact H1].
  eapply advances_trans; [|apply advances_update_doc; reflexivity].
  eapply advances_trans; [|apply advances_perform].
  now apply advances_save_event.
Qed.

Lemma change_state_advances nm d prev next a48 s :
  advances nm s (fst (change_state nm d prev next a48 s)).
Proof.
  unfold change_state. destruct (PyStr.truthy a48); cbv zeta; cbn [fst];
    (eapply advances_trans; [|apply advances_update_doc; reflexivity]);
    (eapply advances_trans; [|now apply advances_save_event]);
    apply advances_update_doc; reflexivity.
Qed.

Lemma check_received_advances T nm d prev s ev ch :
  advances nm s (fst (fst (check_received T nm d prev (s, ev, ch)))).
Proof.
  unfold check_received. destruct (_ && _ && _); [|apply advances_refl].
  pose proof (first_contact_advances T nm d s).
  destruct (first_contact T nm d s). assumption.
Qed.

Lemma check_state_advances nm d prev next a48 s ev ch :
  advances nm s (fst (fst (check_state nm d prev next a48 (s, ev, ch)))).
Proof.
  unfold check_state. destruct (negb _); [|apply advances_refl].
  pose proof (change_state_advances nm d prev next a48 s).
  destruct (change_state nm d prev next a48 s). assumption.
Qed.

Lemma reconcile_tags_advances T nm tgs s ev ch :
  advances nm s (fst (fst (reconcile_tags T nm tgs (s, ev, ch)))).
Proof.
  unfold reconcile_tags. cbv zeta. destruct (negb _); [|apply advances_refl].
  cbn [fst]. now apply advances_update_doc.
Qed.

Lemma save_history_advances nm s ev ch :
  advances nm s (fst (fst (save_history nm (s, ev, ch)))).
Proof.
  unfold save_history. destruct ev; [apply advances_refl|apply advances_perform].
Qed.

(** An iteration changes the store only for the document it names. *)
Lemma step_advances T in_db r e :
  advances (name e) (store r) (store (step T in_db r e)) /\
  (name e ∉ in_db -> store (step T in_db r e) = store r).
Proof.
  unfold step.
  destruct (bool_decide_reflect (name e ∈ in_db)) as [Hin|Hin]; cbn [negb];
    [|split; [apply advances_refl|reflexivity]].
  split; [|contradiction].
  destruct (negb (PyStr.truthy (state e)) || _); [apply advances_refl|].
  destruct (documents (store r) !! name e) as [d|]; [|apply advances_refl].
  destruct (state_mapping !! state e) as [next|]; [|apply advances_refl].
  cbv zeta.
  pose proof (check_received_advances T (name e) d (get_state "draft-rfceditor" d)
                (store r) [] (changed r)) as F1.
  destruct (check_received T (name e) d (get_state "draft-rfceditor" d)
              (store r, [], changed r)) as [[s1 ev1] ch1]. cbn [fst snd] in *.
  pose proof (check_state_advances (name e) d (get_state "draft-rfceditor" d) next
                (auth48 e) s1 ev1 ch1) as F2.
  destruct (check_state (name e) d (get_state "draft-rfceditor" d) next
              (auth48 e) (s1, ev1, ch1)) as [[s2 ev2] ch2]. cbn [fst snd] in *.
  pose proof (reconcile_tags_advances T (name e) (qtags e) s2 ev2 ch2) as F3.
  destruct (reconcile_tags T (name e) (qtags e) (s2, ev2, ch2)) as [[s3 ev3] ch3].
  cbn [fst snd] in *.
  pose proof (save_history_advances (name e) s3 ev3 ch3) as F4.
  destruct (save_history (name e) (s3, ev3, ch3)) as [[s4 ev4] ch4].
  cbn [fst snd store] in *.
  eapply advances_trans; [exact F1|]. eapply advances_trans; [exact F2|].
  eapply advances_trans; [exact F3|exact F4].
Qed.

(** What the first loop as a whole leaves alone. *)
Lemma main_loop_advances T in_db drafts : forall r,
  let r' := main_loop T in_db drafts r in
  aliases (store r') = aliases (store r) /\
  relations (store r') = relations (store r) /\
  (forall k, fields <$> documents (store r') !! k = fields <$> documents (store r) !! k) /\
  (forall k, k ∉ in_db \/ ~ In k (List.map name drafts) ->
             documents (store r') !! k = documents (store r) !! k) /\
  (exists x, events (store r') = events (store r) ++ x
             /\ Forall (fun ev => ev_doc ev ∈ in_db /\ In (ev_doc ev) (List.map name drafts)) x).
Proof.
  induction drafts as [|e drafts IH]; intros r; cbv zeta.
  - cbn. repeat split; try reflexivity. exists []. split; [now rewrite app_nil_r|constructor].
  - rewrite main_loop_cons.
    destruct (IH (step T in_db r e)) as (A & R & F & D & (x & E & P)).
    destruct (step_advances T in_db r e) as ([A1 R1 (f1 & D1 & F1) (x1 & E1 & P1) _] & Hout).
    split; [congruence|]. split; [congruence|]. split; [|split].
    + intros k. rewrite F, D1. destruct (decide (k = name e)) as [->|Hne].
      * rewrite lookup_alter_eq. destruct (documents (store r) !! name e); cbn;
          [now rewrite F1|reflexivity].
      * now rewrite lookup_alter_ne by congruence.
    + intros k Hk. rewrite D.
      * destruct (decide (name e ∈ in_db)) as [Hin|Hin].
        -- rewrite D1. apply lookup_alter_ne. intros Heq. subst k.
           destruct Hk as [Hk|Hk]; [contradiction|]. apply Hk. now left.
        -- now rewrite Hout.
      * destruct Hk as [Hk|Hk]; [now left|]. right. intros Hin. apply Hk. now right.
    + destruct (decide (name e ∈ in_db)) as [Hin|Hin].
      * exists (x1 ++ x). split; [now rewrite E, E1, app_assoc|].
        apply Forall_app. split.
        -- eapply Forall_impl; [exact P1|]. cbn. intros ev ->. split; [exact Hin|now left].
        -- eapply Forall_impl; [exact P|]. cbn. intros ev [? ?]. split; [assumption|now right].
      * exists x. split; [now rewrite E, Hout|].
        eapply Forall_impl; [exact P|]. cbn. intros ev [? ?]. split; [assumption|now right].
Qed.

(** ** The second loop *)

Lemma remove_left_row names drafts r r' nm d :
  remove_left names drafts r = Some r' ->
  documents (store r) !! nm = Some d ->
  documents (store r') !! nm
  = Some (if left_queue names (store r) nm d then leave_queue d else d) /\
  aliases (store r') = aliases (store r) /\
  events (store r') = events (store r) /\
  effects (store r') = effects (store r) /\
  relations (store r') = relations (store r).
Proof.
  unfold remove_left. cbv zeta.
  destruct (bool_decide_reflect
              (filter (fun kv => left_queue names (store r) (fst kv) (snd kv) = true)
                      (documents (store r)) = ∅)) as [He|He].
  - intros [= <-] Hd. split; [|auto].
    destruct (left_queue names (store r) nm d) eqn:L; [|exact Hd].
    exfalso. assert (H : filter (fun kv => left_queue names (store r) (fst kv) (snd kv) = true)
                           (documents (store r)) !! nm = Some d).
    { apply map_lookup_filter_Some. split; [exact Hd|exact L]. }
    rewrite He in H. now rewrite lookup_empty in H.
  - destruct (last (List.map name drafts)); [|discriminate].
    intros [= <-] Hd. cbn. split; [|auto].
    rewrite map_lookup_imap, Hd. reflexivity.
Qed.

Lemma remove_left_store names drafts r r' :
  remove_left names drafts r = Some r' ->
  aliases (store r') = aliases (store r) /\
  forall k, documents (store r') !! k
            = (fun d => if left_queue names (store r) k d then leave_queue d else d)
                <$> documents (store r) !! k.
Proof.
  intros H. split.
  - unfold remove_left in H. cbv zeta in H.
    destruct (bool_decide (_ = ∅)); [now injection H as <-|].
    destruct (last (List.map name drafts)); [|discriminate]. now injection H as <-.
  - intros k. destruct (documents (store r) !! k) as [d|] eqn:Hd.
    + now destruct (remove_left_row _ _ _ _ _ _ H Hd) as (-> & _).
    + unfold remove_left in H. cbv zeta in H.
      destruct (bool_decide (_ = ∅)); [injection H as <-; now rewrite Hd|].
      destruct (last (List.map name drafts)); [|discriminate]. injection H as <-.
      cbn. now rewrite map_lookup_imap, Hd.
Qed.

Lemma leave_queue_spec d :
  get_state "draft-rfceditor" (leave_queue d) = None /\
  tags (leave_queue d) = tags d ∖ {[ "iana"; "ref" ]} /\
  fields (leave_queue d) = fields d /\ urls (leave_queue d) = urls d /\
  forall t, t <> "draft-rfceditor" -> get_state t (leave_queue d) = get_state t d.
Proof.
  unfold leave_queue, unset_state, get_state. cbn. split; [apply lookup_delete_eq|].
  split; [reflexivity|]. split; [reflexivity|]. split; [reflexivity|].
  intros t Ht. apply lookup_delete_ne. congruence.
Qed.

Lemma rows_without_alias T s drafts c w s' nm d :
  update_drafts_from_queue T s drafts = Some (c, w, s') ->
  documents s !! nm = Some d ->
  has_alias_in (List.map name drafts) nm s = false ->
  exists d',
    documents s' !! nm = Some d' /\
    get_state "draft-rfceditor" d' = None /\
    fields d' = fields d /\ urls d' = urls d /\
    (forall t, t <> "draft-rfceditor" -> get_state t d' = get_state t d) /\
    (is_Some (get_state "draft-rfceditor" d) -> tags d' = tags d ∖ {[ "iana"; "ref" ]}) /\
    (get_state "draft-rfceditor" d = None -> d' = d) /\
    (forall ev, In ev (events s') -> ev_doc ev = nm -> In ev (events s)).
Proof.
  unfold update_drafts_from_queue. intros H Hd Ha.
  destruct (negb (bool_decide (tag_mapping_values ⊆ tag_names T))); [discriminate|].
  cbv zeta in H.
  set (names := List.map name drafts) in *.
  set (in_db := drafts_in_db names s) in *.
  set (r1 := main_loop T in_db drafts (mkRun s ∅ [])) in *.
  destruct (remove_left names drafts r1) as [r2|] eqn:Hr; [|discriminate].
  injection H as <- <- <-.
  destruct (main_loop_advances T in_db drafts (mkRun s ∅ [])) as (A & _ & _ & D & (x & E & P)).
  fold r1 in A, D, E. cbn [store] in A, D, E.
  assert (Hout : nm ∉ in_db).
  { intros Hin. apply drafts_in_db_alias in Hin as [_ Hin]. congruence. }
  assert (Hd1 : documents (store r1) !! nm = Some d) by (rewrite D; auto).
  destruct (remove_left_row _ _ _ _ _ _ Hr Hd1) as (Hrow & _ & Hev & _ & _).
  assert (Ha1 : has_alias_in names nm (store r1) = false)
    by (rewrite (has_alias_in_aliases _ _ _ _ A); exact Ha).
  unfold left_queue in Hrow. rewrite Ha1 in Hrow. cbn [negb andb] in Hrow.
  destruct (leave_queue_spec d) as (L1 & L2 & L3 & L4 & L5).
  assert (Hevents : forall ev, In ev (events (store r2)) -> ev_doc ev = nm -> In ev (events s)).
  { intros ev Hin Hnm. rewrite Hev, E in Hin. apply in_app_or in Hin as [Hin|Hin]; [exact Hin|].
    rewrite Forall_forall in P. destruct (P ev) as [Hdb _]; [now apply list_elem_of_In|].
    rewrite Hnm in Hdb. contradiction. }
  destruct (bool_decide_reflect (is_Some (get_state "draft-rfceditor" d))) as [Hs|Hs].
  - exists (leave_queue d). split; [exact Hrow|]. split; [exact L1|].
    split; [exact L3|]. split; [exact L4|]. split; [exact L5|]. split; [auto|].
    split; [|exact Hevents]. intros Hn. rewrite Hn in Hs. destruct Hs as [? ?]. discriminate.
  - exists d. split; [exact Hrow|].
    assert (Hn : get_state "draft-rfceditor" d = None).
    { destruct (get_state "draft-rfceditor" d) eqn:G; [|reflexivity].
      exfalso. apply Hs. eauto. }
    split; [exact Hn|]. split; [reflexivity|]. split; [reflexivity|].
    split; [reflexivity|]. split; [intros; contradiction|]. split; [reflexivity|exact Hevents].
Qed.

(** X2: a document that has no alias among the names of the queue: after
    the run it has no RFC Editor state; if it had one, its tags are
    those it had without iana and ref, whatever other tags it carries
    stay, and its columns, its URLs and its states of the other types
    are as they were; if it had none, its row is as it was.  The run
    adds no event of the document. *)
Theorem left_queue_is_cleared T s drafts c w s' nm d :
  update_drafts_from_queue T s drafts = Some (c, w, s') ->
  documents s !! nm = Some d ->
  has_alias_in (List.map name drafts) nm s = false ->
  exists d',
    documents s' !! nm = Some d' /\
    get_state "draft-rfceditor" d' = None /\
    fields d' = fields d /\ urls d' = urls d /\
    (forall t, t <> "draft-rfceditor" -> get_state t d' = get_state t d) /\
    (is_Some (get_state "draft-rfceditor" d) -> tags d' = tags d ∖ {[ "iana"; "ref" ]}) /\
    (get_state "draft-rfceditor" d = None -> d' = d) /\
    (forall ev, In ev (events s') -> ev_doc ev = nm -> In ev (events s)).
Proof. apply rows_without_alias. Qed.

Lemma left_queue_is_cleared_witness :
  exists d',
    documents (QueueScenarioRuns.after_run) !! "draft-b" = Some d' /\
    get_state "draft-rfceditor" d' = None /\
    fields d' = QueueScenario.draft_fields.
Proof.
  assert (H : update_drafts_from_queue QueueScenario.tables (QueueScenario.store_with ∅)
                [QueueScenario.entry_a]
              = Some ({[ "draft-a" ]}, [], QueueScenarioRuns.after_run))
    by (vm_compute; reflexivity).
  assert (Hd : documents (QueueScenario.store_with ∅) !! "draft-b"
               = Some (QueueScenario.in_edit ∅)) by (vm_compute; reflexivity).
  assert (Ha : has_alias_in (List.map name [QueueScenario.entry_a]) "draft-b"
                 (QueueScenario.store_with ∅) = false) by (vm_compute; reflexivity).
  destruct (left_queue_is_cleared _ _ _ _ _ _ _ _ H Hd Ha)
    as (d' & H1 & H2 & H3 & _).
  exists d'. split; [exact H1|]. split; [exact H2|exact H3].
Defined.

(** ** The row of the document after an iteration *)

Lemma documents_add_state_change_event nm rv ty prev next s :
  documents (fst (add_state_change_event nm rv ty prev next s)) = documents s /\
  List.filter is_mail (effects (fst (add_state_change_event nm rv ty prev next s)))
  = List.filter is_mail (effects s).
Proof. unfold add_state_change_event. destruct (decide _); now split. Qed.

Lemma queue_update_action_holders T nm rv ty prev next s :
  documents (fst (update_action_holders T nm rv ty prev next s)) = documents s /\
  List.filter is_mail (effects (fst (update_action_holders T nm rv ty prev next s)))
  = List.filter is_mail (effects s).
Proof.
  unfold update_action_holders. destruct (action_holders_event _ _ _ _ _); cbn;
    rewrite List.filter_app; cbn; now rewrite app_nil_r.
Qed.

Lemma first_contact_store T nm d s :
  let s' := fst (first_contact T nm d s) in
  documents s' = alter (set_state "draft-iesg" "rfcqueue") nm (documents s) /\
  List.filter is_mail (effects s') = List.filter is_mail (effects s) ++ [mail_of nm] /\
  has_event nm "rfc_editor_received_announcement" s' = true.
Proof.
  cbv zeta. pose proof (first_contact_advances T nm d s) as Adv. revert Adv.
  unfold first_contact. cbv zeta.
  set (s0 := update_doc nm (set_state "draft-iesg" "rfcqueue")
               (perform (mail_of nm)
                  (save_event (mkEvent nm (rev (fields d)) system ReceivedAnnouncement) s))).
  change (update_doc nm (set_state "draft-iesg" "rfcqueue") _) with s0.
  match goal with |- context [add_state_change_event ?a ?b ?c ?d ?e ?f] =>
    pose proof (documents_add_state_change_event a b c d e f) as [D1 M1];
    pose proof (advances_add_state_change_event a b c d e f) as A1;
    destruct (add_state_change_event a b c d e f) as [s1 e1] end.
  match goal with |- context [update_action_holders ?t ?a ?b ?c ?d ?e ?f] =>
    pose proof (queue_update_action_holders t a b c d e f) as [D2 M2];
    pose proof (advances_update_action_holders t a b c d e f) as A2;
    destruct (update_action_holders t a b c d e f) as [s2 e2] end.
  cbn [fst] in *. intros _. split; [now rewrite D2, D1|]. split.
  - rewrite M2, M1. unfold s0. cbn. rewrite List.filter_app. reflexivity.
  - destruct A1 as [_ _ _ (x1 & E1 & _) _]. destruct A2 as [_ _ _ (x2 & E2 & _) _].
    unfold has_event. rewrite E2, E1. unfold s0. cbn.
    rewrite !existsb_app. cbn. rewrite String.eqb_refl. cbn.
    now rewrite orb_true_r.
Qed.

Lemma change_state_store nm d prev next a48 s :
  let s' := fst (change_state nm d prev next a48 s) in
  documents s'
  = alter (fun x => url_step a48 (set_state "draft-rfceditor" next x)) nm (documents s) /\
  effects s' = effects s /\
  events s' = events s ++ [mkEvent nm (rev (fields d)) system
                             (StateChange "draft-rfceditor" prev next
                                (if PyStr.truthy a48 then Some a48 else None))].
Proof.
  cbv zeta. unfold change_state, url_step. destruct (PyStr.truthy a48); cbn;
    (split; [now rewrite alter_alter_eq|now split]).
Qed.

Lemma after_rows_tags nm d s next a48 prev :
  tags (after_state next a48 prev (after_contact nm d s)) = tags d.
Proof.
  unfold after_state, after_contact.
  destruct (first_contact_due nm d s), (bool_decide (prev = Some next)),
    (PyStr.truthy a48); reflexivity.
Qed.

(** An iteration for a known entry: the row it leaves, the changed
    set and the mail sent. *)
Lemma step_row T in_db r e d next :
  name e ∈ in_db -> documents (store r) !! name e = Some d ->
  state_mapping !! state e = Some next ->
  let nm := name e in
  let prev := get_state "draft-rfceditor" d in
  let t := selected_tags T (qtags e) in
  let due := first_contact_due nm d (store r) in
  let r' := step T in_db r e in
  documents (store r') !! nm
  = Some (after_tags t (after_state next (auth48 e) prev (after_contact nm d (store r)))) /\
  changed r'
  = (if due || negb (bool_decide (prev = Some next)) || negb (bool_decide (t = tags d))
     then changed r ∪ {[nm]} else changed r) /\
  List.filter is_mail (effects (store r'))
  = List.filter is_mail (effects (store r)) ++ (if due then [mail_of nm] else []) /\
  (due = true -> has_event nm "rfc_editor_received_announcement" (store r') = true) /\
  (prev <> Some next ->
   In (mkEvent nm (rev (fields d)) system
         (StateChange "draft-rfceditor" prev next
            (if PyStr.truthy (auth48 e) then Some (auth48 e) else None)))
      (events (store r'))).
Proof.
  intros Hin Hd Hst nm prev t due r'. unfold r', step.
  rewrite (bool_decide_eq_true_2 _ Hin). cbn [negb]. rewrite Hst, Hd.
  rewrite (bool_decide_eq_true_2 (is_Some (Some next))) by eauto.
  assert (Htr : PyStr.truthy (state e) = true).
  { destruct (state e); [|reflexivity]. vm_compute in Hst. discriminate. }
  rewrite Htr. cbn [negb orb]. cbv zeta. fold nm prev. fold nm in Hd.
  (* the first-contact block *)
  assert (B1 : exists s1 ev1,
    check_received T nm d prev (store r, [], changed r)
    = (s1, ev1, if due then changed r ∪ {[nm]} else changed r) /\
    documents s1 !! nm = Some (after_contact nm d (store r)) /\
    List.filter is_mail (effects s1)
    = List.filter is_mail (effects (store r)) ++ (if due then [mail_of nm] else []) /\
    (due = true -> has_event nm "rfc_editor_received_announcement" s1 = true) /\
    advances nm (store r) s1).
  { unfold check_received, after_contact. fold due.
    change (bool_decide (get_state "draft-iesg" d = Some "ann")
            && bool_decide (prev = None)
            && negb (has_event nm "rfc_editor_received_announcement" (store r)))
      with due.
    destruct due eqn:Edue.
    - pose proof (first_contact_store T nm d (store r)) as (D & M & Hev).
      pose proof (first_contact_advances T nm d (store r)) as Adv.
      destruct (first_contact T nm d (store r)) as [s1 evs]. cbn [fst] in *.
      exists s1, ([] ++ evs). split; [reflexivity|]. split.
      + rewrite D, lookup_alter_eq, Hd. reflexivity.
      + split; [exact M|]. split; [auto|exact Adv].
    - exists (store r), []. split; [reflexivity|]. split; [exact Hd|].
      split; [now rewrite app_nil_r|]. split; [discriminate|apply advances_refl]. }
  destruct B1 as (s1 & ev1 & -> & Hd1 & M1 & Hev1 & Adv1).
  (* the state block *)
  assert (B2 : exists s2 ev2,
    check_state nm d prev next (auth48 e)
      (s1, ev1, if due then changed r ∪ {[nm]} else changed r)
    = (s2, ev2, if negb (bool_decide (prev = Some next))
                then (if due then changed r ∪ {[nm]} else changed r) ∪ {[nm]}
                else (if due then changed r ∪ {[nm]} else changed r)) /\
    documents s2 !! nm
    = Some (after_state next (auth48 e) prev (after_contact nm d (store r))) /\
    List.filter is_mail (effects s2) = List.filter is_mail (effects s1) /\
    (prev <> Some next ->
     In (mkEvent nm (rev (fields d)) system
           (StateChange "draft-rfceditor" prev next
              (if PyStr.truthy (auth48 e) then Some (auth48 e) else None)))
        (events s2)) /\
    advances nm s1 s2).
  { unfold check_state, after_state.
    destruct (bool_decide_reflect (prev = Some next)) as [Hp|Hp]; cbn [negb].
    - exists s1, ev1. split; [reflexivity|]. split; [exact Hd1|]. split; [reflexivity|].
      split; [contradiction|apply advances_refl].
    - pose proof (change_state_store nm d prev next (auth48 e) s1) as (D & X & E).
      pose proof (change_state_advances nm d prev next (auth48 e) s1) as Adv.
      destruct (change_state nm d prev next (auth48 e) s1) as [s2 evs]. cbn [fst] in *.
      exists s2, (ev1 ++ evs). split; [reflexivity|]. split.
      + rewrite D, lookup_alter_eq, Hd1. unfold url_step. cbn.
        destruct (PyStr.truthy (auth48 e)); reflexivity.
      + split; [now rewrite X|]. split; [|exact Adv].
        intros _. rewrite E. apply in_or_app. right. now left. }
  destruct B2 as (s2 & ev2 & -> & Hd2 & M2 & Hev2 & Adv2).
  (* the tag block *)
  unfold reconcile_tags. cbv zeta. fold t. rewrite Hd2.
  cbn [fmap option_fmap option_map default]. unfold id. rewrite after_rows_tags.
  set (ch2 := if negb (bool_decide (prev = Some next)) then _ else _).
  assert (Hch : forall b : bool,
    (if b then ch2 ∪ {[nm]} else ch2)
    = (if due || negb (bool_decide (prev = Some next)) || b
       then changed r ∪ {[nm]} else changed r)).
  { intros b. unfold ch2. destruct due, (negb (bool_decide (prev = Some next))), b;
      cbn [orb]; try reflexivity; apply leibniz_equiv; set_solver. }
  destruct (bool_decide_reflect (t = tags d)) as [Ht|Ht]; cbn [negb].
  - pose proof (save_history_advances nm s2 ev2 ch2) as Adv3.
    pose proof (save_history_store nm s2 ev2 ch2) as (D3 & _ & C3).
    assert (M3 : List.filter is_mail (effects (fst (fst (save_history nm (s2, ev2, ch2)))))
                 = List.filter is_mail (effects s2)).
    { unfold save_history. destruct ev2; [reflexivity|]. cbn.
      rewrite List.filter_app. cbn. now rewrite app_nil_r. }
    destruct (save_history nm (s2, ev2, ch2)) as [[s3 ev3] ch3].
    cbn [fst snd store changed] in *. subst ch3.
    split; [rewrite D3, Hd2; unfold after_tags;
            now rewrite after_rows_tags, (bool_decide_eq_true_2 _ Ht)|].
    split; [rewrite <- (Hch false); reflexivity|].
    split; [now rewrite M3, M2, M1|].
    destruct Adv3 as [_ _ _ (x3 & E3 & _) _]. destruct Adv2 as [_ _ _ (x2 & E2 & _) _].
    split.
    + intros Hdue. specialize (Hev1 Hdue). unfold has_event in *.
      rewrite E3, E2, !existsb_app, Hev1. reflexivity.
    + intros Hp. rewrite E3. apply in_or_app. left. auto.
  - set (s2' := update_doc nm (with_tags t) s2).
    assert (Hd2' : documents s2' !! nm
                   = Some (with_tags t (after_state next (auth48 e) prev
                                          (after_contact nm d (store r)))))
      by (unfold s2'; cbn; now rewrite lookup_alter_eq, Hd2).
    pose proof (save_history_advances nm s2' ev2 (ch2 ∪ {[nm]})) as Adv3.
    pose proof (save_history_store nm s2' ev2 (ch2 ∪ {[nm]})) as (D3 & _ & C3).
    assert (M3 : List.filter is_mail
                   (effects (fst (fst (save_history nm (s2', ev2, ch2 ∪ {[nm]})))))
                 = List.filter is_mail (effects s2)).
    { unfold save_history. destruct ev2; [reflexivity|]. cbn.
      rewrite List.filter_app. cbn. now rewrite app_nil_r. }
    destruct (save_history nm (s2', ev2, ch2 ∪ {[nm]})) as [[s3 ev3] ch3].
    cbn [fst snd store changed] in *. subst ch3.
    split; [rewrite D3, Hd2'; unfold after_tags;
            now rewrite after_rows_tags, (bool_decide_eq_false_2 _ Ht)|].
    split; [rewrite <- (Hch true); reflexivity|].
    split; [now rewrite M3, M2, M1|].
    destruct Adv3 as [_ _ _ (x3 & E3 & _) _]. destruct Adv2 as [_ _ _ (x2 & E2 & _) _].
    split.
    + intros Hdue. specialize (Hev1 Hdue). unfold has_event in *.
      rewrite E3. unfold s2'. cbn. rewrite E2, !existsb_app, Hev1. reflexivity.
    + intros Hp. rewrite E3. apply in_or_app. left. unfold s2'. cbn. auto.
Qed.

Lemma after_tags_spec t d :
  tags (after_tags t d) = t /\ states (after_tags t d) = states d /\
  fields (after_tags t d) = fields d /\ urls (after_tags t d) = urls d.
Proof.
  unfold after_tags. destruct (bool_decide_reflect (t = tags d)) as [->|]; now cbn.
Qed.

Lemma after_contact_spec nm d s :
  get_state "draft-rfceditor" (after_contact nm d s) = get_state "draft-rfceditor" d /\
  fields (after_contact nm d s) = fields d /\ urls (after_contact nm d s) = urls d /\
  (first_contact_due nm d s = true ->
   get_state "draft-iesg" (after_contact nm d s) = Some "rfcqueue") /\
  (first_contact_due nm d s = false -> after_contact nm d s = d).
Proof.
  unfold after_contact. destruct (first_contact_due nm d s).
  - unfold get_state, set_state. cbn. split; [apply lookup_insert_ne; discriminate|].
    split; [reflexivity|]. split; [reflexivity|]. split; [|discriminate].
    intros _. apply lookup_insert_eq.
  - split; [reflexivity|]. split; [reflexivity|]. split; [reflexivity|].
    split; [discriminate|reflexivity].
Qed.

(** An iteration for an entry whose document is in the state of the
    entry already saves no event. *)
Lemma step_same_state_events T in_db r e d next :
  name e ∈ in_db -> documents (store r) !! name e = Some d ->
  state_mapping !! state e = Some next ->
  get_state "draft-rfceditor" d = Some next ->
  events (store (step T in_db r e)) = events (store r).
Proof.
  intros Hin Hd Hst Hp. unfold step.
  rewrite (bool_decide_eq_true_2 _ Hin). cbn [negb]. rewrite Hst, Hd.
  rewrite (bool_decide_eq_true_2 (is_Some (Some next))) by eauto.
  assert (Htr : PyStr.truthy (state e) = true).
  { destruct (state e); [|reflexivity]. vm_compute in Hst. discriminate. }
  rewrite Htr. cbn [negb orb]. cbv zeta.
  unfold check_received. rewrite Hp.
  rewrite (bool_decide_eq_false_2 (Some next = None)) by discriminate.
  rewrite andb_false_r. cbn [andb].
  unfold check_state.
  rewrite (bool_decide_eq_true_2 (Some next = Some next)) by reflexivity.
  cbn [negb]. unfold reconcile_tags. cbv zeta.
  destruct (negb _); reflexivity.
Qed.

(** X3: the state block of an iteration for a known entry.  After the
    iteration the document is in the RFC Editor state of the entry and
    its columns are as they were.  When that state is new, the name is
    reported as changed, a state change event is saved, and the AUTH48
    URL of the document is the link of the entry, or is removed when
    the entry has none.  When the document was in that state already,
    the iteration saves no event and the URLs of the document stay as
    they are, whatever link the entry has. *)
Theorem state_block_sets_state_and_url T in_db r e d next :
  name e ∈ in_db -> documents (store r) !! name e = Some d ->
  state_mapping !! state e = Some next ->
  let r' := step T in_db r e in
  let prev := get_state "draft-rfceditor" d in
  exists d',
    documents (store r') !! name e = Some d' /\
    get_state "draft-rfceditor" d' = Some next /\ fields d' = fields d /\
    (prev <> Some next ->
       urls d' = (if PyStr.truthy (auth48 e) then <["auth48" := auth48 e]> (urls d)
                  else delete "auth48" (urls d)) /\
       name e ∈ changed r' /\
       In (mkEvent (name e) (rev (fields d)) system
             (StateChange "draft-rfceditor" prev next
                (if PyStr.truthy (auth48 e) then Some (auth48 e) else None)))
          (events (store r'))) /\
    (prev = Some next ->
       urls d' = urls d /\ events (store r') = events (store r)).
Proof.
  intros Hin Hd Hst r' prev.
  destruct (step_row T in_db r e d next Hin Hd Hst) as (Hrow & Hch & _ & _ & Hev).
  fold r' prev in Hrow, Hch, Hev.
  assert (Hchanged : prev <> Some next -> name e ∈ changed r').
  { intros Hp. rewrite Hch, (bool_decide_eq_false_2 _ Hp). cbn [negb orb].
    rewrite orb_true_r. cbn [orb]. set_solver. }
  assert (Hquiet : prev = Some next -> events (store r') = events (store r))
    by (intros Hp; exact (step_same_state_events T in_db r e d next Hin Hd Hst Hp)).
  eexists. split; [exact Hrow|].
  destruct (after_tags_spec (selected_tags T (qtags e))
              (after_state next (auth48 e) prev (after_contact (name e) d (store r))))
    as (_ & S3 & F3 & U3).
  destruct (after_contact_spec (name e) d (store r)) as (S1 & F1 & U1 & _ & _).
  unfold get_state in *. rewrite S3, F3, U3. unfold after_state.
  destruct (bool_decide_reflect (prev = Some next)) as [Hp|Hp].
  - split; [rewrite S1; exact Hp|]. split; [exact F1|]. split; [contradiction|].
    intros _. split; [exact U1|now apply Hquiet].
  - split.
    { destruct (PyStr.truthy (auth48 e)); cbn; apply lookup_insert_eq. }
    split; [destruct (PyStr.truthy (auth48 e)); exact F1|].
    split; [|contradiction]. intros _. split.
    { destruct (PyStr.truthy (auth48 e)); cbn; now rewrite U1. }
    split; [now apply Hchanged|now apply Hev].
Qed.

Lemma state_block_sets_state_and_url_witness :
  let s := QueueScenario.store_with ∅ in
  let r' := step QueueScenario.tables (drafts_in_db ["draft-a"] s) (mkRun s ∅ [])
                 QueueScenarioRuns.entry_auth48 in
  exists d',
    documents (store r') !! "draft-a" = Some d' /\
    get_state "draft-rfceditor" d' = Some "auth48" /\
    urls d' !! "auth48" = Some "https://www.rfc-editor.org/auth48/rfc9999".
Proof.
  intros s r'.
  assert (Hin : name QueueScenarioRuns.entry_auth48 ∈ drafts_in_db ["draft-a"] s)
    by (apply (bool_decide_unpack _); vm_compute; exact I).
  assert (Hd : documents (store (mkRun s ∅ [])) !! name QueueScenarioRuns.entry_auth48
               = Some (QueueScenario.in_edit ∅)) by (vm_compute; reflexivity).
  assert (Hst : state_mapping !! state QueueScenarioRuns.entry_auth48 = Some "auth48")
    by (vm_compute; reflexivity).
  destruct (state_block_sets_state_and_url QueueScenario.tables _ _ _ _ _ Hin Hd Hst)
    as (d' & Hd' & Hs & _ & Hnew & _).
  exists d'. split; [exact Hd'|]. split; [exact Hs|].
  destruct Hnew as (Hu & _); [vm_compute; discriminate|].
  rewrite Hu. vm_compute. reflexivity.
Defined.

(** X4: the first-contact block.  In an iteration for a known entry the
    mail to the IESG secretary is sent exactly when the document is in
    the IESG state ann, has no RFC Editor state and no event that the
    announcement was received; then that event is saved, the IESG state
    becomes rfcqueue, the name is reported as changed, and the
    condition does not hold any more.  Otherwise no mail is sent. *)
Theorem first_contact_mail_sent_once T in_db r e d next :
  name e ∈ in_db -> documents (store r) !! name e = Some d ->
  state_mapping !! state e = Some next ->
  let r' := step T in_db r e in
  let due := first_contact_due (name e) d (store r) in
  List.filter is_mail (effects (store r'))
  = List.filter is_mail (effects (store r)) ++ (if due then [mail_of (name e)] else []) /\
  (due = true ->
     has_event (name e) "rfc_editor_received_announcement" (store r') = true /\
     name e ∈ changed r' /\
     exists d', documents (store r') !! name e = Some d' /\
                get_state "draft-iesg" d' = Some "rfcqueue" /\
                first_contact_due (name e) d' (store r') = false) /\
  (due = false ->
     exists d', documents (store r') !! name e = Some d' /\
                get_state "draft-iesg" d' = get_state "draft-iesg" d).
Proof.
  intros Hin Hd Hst r' due.
  destruct (step_row T in_db r e d next Hin Hd Hst) as (Hrow & Hch & Hmail & Hev & _).
  fold r' due in Hrow, Hch, Hmail, Hev.
  split; [exact Hmail|].
  destruct (after_tags_spec (selected_tags T (qtags e))
              (after_state next (auth48 e) (get_state "draft-rfceditor" d)
                 (after_contact (name e) d (store r))))
    as (_ & S3 & _ & _).
  destruct (after_contact_spec (name e) d (store r)) as (_ & _ & _ & Hq & Hsame).
  fold due in Hq, Hsame.
  assert (Hiesg : forall x, get_state "draft-iesg"
                    (after_state next (auth48 e) (get_state "draft-rfceditor" d) x)
                  = get_state "draft-iesg" x).
  { intros x. unfold after_state. destruct (bool_decide _); [reflexivity|].
    destruct (PyStr.truthy (auth48 e)); unfold get_state; cbn;
      now rewrite lookup_insert_ne by discriminate. }
  split.
  - intros Hdue. split; [now apply Hev|]. split.
    + rewrite Hch, Hdue. cbn [orb]. set_solver.
    + eexists. split; [exact Hrow|]. split.
      * unfold get_state at 1. rewrite S3. fold (get_state "draft-iesg"
          (after_state next (auth48 e) (get_state "draft-rfceditor" d)
             (after_contact (name e) d (store r)))).
        rewrite Hiesg. now apply Hq.
      * unfold first_contact_due. rewrite (Hev Hdue). cbn [negb].
        now rewrite andb_false_r.
  - intros Hdue. eexists. split; [exact Hrow|].
    unfold get_state at 1. rewrite S3. fold (get_state "draft-iesg"
      (after_state next (auth48 e) (get_state "draft-rfceditor" d)
         (after_contact (name e) d (store r)))).
    rewrite Hiesg. now rewrite (Hsame Hdue).
Qed.

Lemma first_contact_mail_sent_once_witness :
  let s := QueueScenarioRuns.store_announced in
  let r' := step QueueScenario.tables (drafts_in_db ["draft-a"] s) (mkRun s ∅ [])
                 QueueScenario.entry_a in
  List.filter is_mail (effects (store r')) = [mail_of "draft-a"] /\
  has_event "draft-a" "rfc_editor_received_announcement" (store r') = true.
Proof.
  intros s r'.
  assert (Hin : name QueueScenario.entry_a ∈ drafts_in_db ["draft-a"] s)
    by (apply (bool_decide_unpack _); vm_compute; exact I).
  assert (Hd : documents (store (mkRun s ∅ [])) !! name QueueScenario.entry_a
               = Some QueueScenarioRuns.announced) by (vm_compute; reflexivity).
  assert (Hst : state_mapping !! state QueueScenario.entry_a = Some "edit")
    by (vm_compute; reflexivity).
  destruct (first_contact_mail_sent_once QueueScenario.tables _ _ _ _ _ Hin Hd Hst)
    as (Hm & Hdue & _).
  split; [exact Hm|]. apply Hdue. vm_compute. reflexivity.
Defined.

(** X5: the changed set in the first loop.  An iteration for a known
    entry adds the name of its document exactly when the first-contact
    block ran, the RFC Editor state of the document changed, or the
    tags the entry selects differ from the tags of the document; it
    adds no other name and removes none. *)
Theorem first_loop_changed_exactly T in_db r e d next :
  name e ∈ in_db -> documents (store r) !! name e = Some d ->
  state_mapping !! state e = Some next ->
  let r' := step T in_db r e in
  (name e ∈ changed r' <->
     name e ∈ changed r \/ first_contact_due (name e) d (store r) = true
     \/ get_state "draft-rfceditor" d <> Some next
     \/ selected_tags T (qtags e) <> tags d) /\
  (forall k, k <> name e -> k ∈ changed r' <-> k ∈ changed r).
Proof.
  intros Hin Hd Hst r'.
  destruct (step_row T in_db r e d next Hin Hd Hst) as (_ & Hch & _).
  fold r' in Hch. rewrite Hch.
  destruct (first_contact_due (name e) d (store r));
    destruct (bool_decide_reflect (get_state "draft-rfceditor" d = Some next));
    destruct (bool_decide_reflect (selected_tags T (qtags e) = tags d));
    cbn [negb orb]; split; try set_solver; split; try set_solver;
    intros [?|[?|[?|?]]]; try set_solver; try discriminate.
Qed.

Lemma first_loop_changed_exactly_witness :
  let s := QueueScenario.store_with ∅ in
  let r' := step QueueScenario.tables (drafts_in_db ["draft-a"] s) (mkRun s ∅ [])
                 QueueScenarioRuns.entry_auth48 in
  "draft-a" ∈ changed r' /\ ("draft-b" ∈ changed r' <-> "draft-b" ∈ (∅ : gset string)).
Proof.
  intros s r'.
  assert (Hin : name QueueScenarioRuns.entry_auth48 ∈ drafts_in_db ["draft-a"] s)
    by (apply (bool_decide_unpack _); vm_compute; exact I).
  assert (Hd : documents (store (mkRun s ∅ [])) !! name QueueScenarioRuns.entry_auth48
               = Some (QueueScenario.in_edit ∅)) by (vm_compute; reflexivity).
  assert (Hst : state_mapping !! state QueueScenarioRuns.entry_auth48 = Some "auth48")
    by (vm_compute; reflexivity).
  destruct (first_loop_changed_exactly QueueScenario.tables _ _ _ _ _ Hin Hd Hst)
    as (Hiff & Hother).
  split.
  - apply Hiff. right. right. left. vm_compute. discriminate.
  - apply Hother. discriminate.
Defined.

(** ** Running the queue reconciler again *)

Lemma step_quiet T in_db r e d next :
  name e ∈ in_db -> documents (store r) !! name e = Some d ->
  state_mapping !! state e = Some next ->
  get_state "draft-rfceditor" d = Some next ->
  selected_tags T (qtags e) = tags d ->
  step T in_db r e = r.
Proof.
  intros Hin Hd Hst Hprev Heq. unfold step.
  rewrite (bool_decide_eq_true_2 _ Hin). cbn [negb]. rewrite Hst, Hd.
  rewrite (bool_decide_eq_true_2 (is_Some (Some next))) by eauto.
  assert (Htr : PyStr.truthy (state e) = true).
  { destruct (state e); [|reflexivity]. vm_compute in Hst. discriminate. }
  rewrite Htr. cbn [negb orb]. cbv zeta.
  unfold check_received. rewrite Hprev.
  rewrite (bool_decide_eq_false_2 (Some next = None)) by discriminate.
  rewrite andb_false_r. cbn [andb].
  unfold check_state. rewrite (bool_decide_eq_true_2 (Some next = Some next)) by reflexivity.
  cbn [negb]. unfold reconcile_tags. cbv zeta. rewrite Hd.
  cbn [fmap option_fmap option_map default].
  rewrite (bool_decide_eq_true_2 _ Heq). cbn [negb save_history].
  destruct r; reflexivity.
Qed.

(** After the first loop over a queue without repeated names, the
    document of every entry it worked on is in the state of the entry
    and carries the tags the entry selects. *)
Lemma main_loop_rows T in_db drafts r e :
  NoDup (List.map name drafts) -> In e drafts -> known in_db e = true ->
  is_Some (documents (store r) !! name e) ->
  exists d next,
    documents (store (main_loop T in_db drafts r)) !! name e = Some d /\
    state_mapping !! state e = Some next /\
    get_state "draft-rfceditor" d = Some next /\
    tags d = selected_tags T (qtags e).
Proof.
  intros Hnd Hin Hk Hsome.
  destruct (known_inv _ _ Hk) as (Hdb & _ & next & Hst).
  apply in_split in Hin as (pre & post & ->).
  rewrite main_loop_app, main_loop_cons.
  set (r0 := main_loop T in_db pre r).
  assert (Hd0 : is_Some (documents (store r0) !! name e)).
  { destruct (main_loop_advances T in_db pre r) as (_ & _ & F & _).
    specialize (F (name e)). fold r0 in F.
    destruct Hsome as [d Hd]. rewrite Hd in F. cbn in F.
    destruct (documents (store r0) !! name e); [eauto|discriminate]. }
  destruct Hd0 as [d0 Hd0].
  destruct (step_row T in_db r0 e d0 next Hdb Hd0 Hst) as (Hrow & _).
  destruct (main_loop_advances T in_db post (step T in_db r0 e)) as (_ & _ & _ & D & _).
  rewrite List.map_app in Hnd. cbn [List.map] in Hnd.
  apply NoDup_app in Hnd as (_ & Hdisj & Hnd2). apply NoDup_cons in Hnd2 as [Hnot _].
  eexists _, next. split.
  - rewrite D; [exact Hrow|]. right. intros Hin. apply Hnot. now apply list_elem_of_In.
  - split; [exact Hst|].
    destruct (after_tags_spec (selected_tags T (qtags e))
                (after_state next (auth48 e) (get_state "draft-rfceditor" d0)
                   (after_contact (name e) d0 (store r0)))) as (T3 & S3 & _ & _).
    split; [|exact T3]. unfold get_state at 1. rewrite S3.
    destruct (after_contact_spec (name e) d0 (store r0)) as (S1 & _).
    unfold after_state.
    destruct (bool_decide_reflect (get_state "draft-rfceditor" d0 = Some next)) as [Hp|Hp].
    + fold (get_state "draft-rfceditor" (after_contact (name e) d0 (store r0))).
      now rewrite S1.
    + destruct (PyStr.truthy (auth48 e)); cbn; apply lookup_insert_eq.
Qed.

Lemma drafts_in_db_same names s s' :
  aliases s' = aliases s ->
  (forall k, fields <$> documents s' !! k = fields <$> documents s !! k) ->
  drafts_in_db names s' = drafts_in_db names s.
Proof.
  intros Ha Hf. apply set_eq. intros k. unfold drafts_in_db.
  rewrite !elem_of_dom. unfold is_Some.
  split; intros [d Hd]; apply map_lookup_filter_Some in Hd as (Hd & Ht & Hal);
    cbn in Ht, Hal; specialize (Hf k); rewrite Hd in Hf; cbn in Hf.
  - destruct (documents s !! k) as [d0|] eqn:Hd0; [|discriminate].
    cbn in Hf. injection Hf as Hf. exists d0. apply map_lookup_filter_Some.
    split; [exact Hd0|]. cbn. split; [congruence|].
    now rewrite <- (has_alias_in_aliases _ _ _ _ Ha).
  - destruct (documents s' !! k) as [d0|] eqn:Hd0; [|discriminate].
    cbn in Hf. injection Hf as Hf. exists d0. apply map_lookup_filter_Some.
    split; [exact Hd0|]. cbn. split; [congruence|].
    now rewrite (has_alias_in_aliases _ _ _ _ Ha).
Qed.

(** A loop over entries whose documents are as the entries say leaves
    the store and the changed set as they are. *)
Lemma main_loop_quiet T in_db drafts s : forall r,
  store r = s ->
  (forall e, In e drafts -> known in_db e = true ->
     exists d next, documents s !! name e = Some d /\
                    state_mapping !! state e = Some next /\
                    get_state "draft-rfceditor" d = Some next /\
                    tags d = selected_tags T (qtags e)) ->
  store (main_loop T in_db drafts r) = s /\
  changed (main_loop T in_db drafts r) = changed r.
Proof.
  induction drafts as [|e drafts IH]; intros r Hs Hsync; [now split|].
  rewrite main_loop_cons. destruct (known in_db e) eqn:K.
  - destruct (Hsync e ltac:(now left) K) as (d & next & Hd & Hst & Hg & Ht).
    destruct (known_inv _ _ K) as (Hdb & _).
    rewrite (step_quiet T in_db r e d next); try assumption; [|now rewrite Hs|now symmetry].
    apply IH; [exact Hs|]. intros x Hx. apply Hsync. now right.
  - rewrite step_unknown by exact K.
    destruct (IH (warn (warning_of in_db e) r)) as [A B]; [exact Hs| |now split].
    intros x Hx. apply Hsync. now right.
Qed.

(** X6: a second run of [update_drafts_from_queue] over the same queue,
    right after a first run, when no name occurs twice in the queue:
    it leaves the store as the first run left it, returns an empty
    changed set, and gives the warnings of the first run again. *)
Theorem queue_rerun_changes_nothing T s drafts c w s1 :
  update_drafts_from_queue T s drafts = Some (c, w, s1) ->
  NoDup (List.map name drafts) ->
  update_drafts_from_queue T s1 drafts = Some (∅, w, s1).
Proof.
  unfold update_drafts_from_queue. intros H Hnd.
  destruct (negb (bool_decide (tag_mapping_values ⊆ tag_names T))) eqn:Et; [discriminate|].
  cbv zeta in *.
  set (names := List.map name drafts) in *.
  set (in_db := drafts_in_db names s) in *.
  set (r1 := main_loop T in_db drafts (mkRun s ∅ [])) in *.
  destruct (remove_left names drafts r1) as [r2|] eqn:Hr; [|discriminate].
  injection H as <- <- <-.
  destruct (main_loop_advances T in_db drafts (mkRun s ∅ [])) as (A & _ & F & D & _).
  fold r1 in A, F, D. cbn [store] in A, F, D.
  (* the rows after the first run *)
  assert (Hrows : forall k d1, documents (store r1) !! k = Some d1 ->
            documents (store r2) !! k
            = Some (if left_queue names (store r1) k d1 then leave_queue d1 else d1)
            /\ aliases (store r2) = aliases (store r1))
    by (intros k d1 Hd1; destruct (remove_left_row _ _ _ _ _ _ Hr Hd1) as (? & ? & _); auto).
  destruct (remove_left_store _ _ _ _ Hr) as (A2' & D2).
  assert (A2 : aliases (store r2) = aliases s) by congruence.
  assert (F2 : forall k, fields <$> documents (store r2) !! k = fields <$> documents s !! k).
  { intros k. rewrite <- F, D2. destruct (documents (store r1) !! k) as [d1|]; [|reflexivity].
    cbn. destruct (left_queue names (store r1) k d1); [|reflexivity].
    now destruct (leave_queue_spec d1) as (_ & _ & -> & _). }
  rewrite (drafts_in_db_same names s (store r2) A2 F2). fold in_db.
  (* the first loop of the second run *)
  assert (Hsync : forall e, In e drafts -> known in_db e = true ->
            exists d next, documents (store r2) !! name e = Some d /\
                           state_mapping !! state e = Some next /\
                           get_state "draft-rfceditor" d = Some next /\
                           tags d = selected_tags T (qtags e)).
  { intros e He K. destruct (known_inv _ _ K) as (Hdb & _).
    destruct (drafts_in_db_alias _ _ _ Hdb) as [Hsome Hal].
    destruct (main_loop_rows T in_db drafts (mkRun s ∅ []) e Hnd He K Hsome)
      as (d & next & Hd & Hst & Hg & Ht).
    fold r1 in Hd. exists d, next. split; [|auto].
    destruct (Hrows _ _ Hd) as [-> _]. unfold left_queue.
    now rewrite (has_alias_in_aliases _ _ _ _ A), Hal. }
  destruct (main_loop_quiet T in_db drafts (store r2) (mkRun (store r2) ∅ []) eq_refl Hsync)
    as [Hst2 Hch2].
  pose proof (main_loop_warnings T in_db drafts (mkRun (store r2) ∅ [])) as Hw2.
  pose proof (main_loop_warnings T in_db drafts (mkRun s ∅ [])) as Hw1.
  fold r1 in Hw1. cbn [warnings app] in Hw1, Hw2.
  set (r3 := main_loop T in_db drafts (mkRun (store r2) ∅ [])) in *.
  assert (Hwr : warnings r2 = warnings r1)
    by (destruct (remove_left_keeps _ _ _ _ "" Hr) as (? & _); assumption).
  (* the second loop of the second run finds no document *)
  assert (Hgone : filter (fun kv => left_queue names (store r3) (fst kv) (snd kv) = true)
                         (documents (store r3)) = ∅).
  { apply map_empty. intros k. apply map_lookup_filter_None. rewrite Hst2.
    destruct (documents (store r2) !! k) as [d2|] eqn:Hd2; [right|now left].
    intros x [= <-]. cbn. unfold left_queue.
    destruct (has_alias_in names k (store r2)) eqn:Hal; [cbn; discriminate|].
    cbn [negb andb]. intros Hb. apply bool_decide_eq_true_1 in Hb.
    specialize (F2 k). rewrite Hd2 in F2. cbn in F2.
    destruct (documents s !! k) as [d0|] eqn:Hd0; [|discriminate].
    assert (Hal0 : has_alias_in names k s = false)
      by (rewrite <- (has_alias_in_aliases _ _ _ _ A2); exact Hal).
    assert (Hrun : update_drafts_from_queue T s drafts
                   = Some (changed r2, warnings r2, store r2)).
    { unfold update_drafts_from_queue. rewrite Et. cbv zeta.
      fold names in_db r1. now rewrite Hr. }
    destruct (rows_without_alias T s drafts _ _ _ k d0 Hrun Hd0 Hal0)
      as (d' & Hd' & Hnone & _).
    rewrite Hd2 in Hd'. injection Hd' as <-. rewrite Hnone in Hb.
    destruct Hb as [? ?]. discriminate. }
  unfold remove_left. cbv zeta. rewrite (bool_decide_eq_true_2 _ Hgone).
  f_equal. f_equal; [f_equal|exact Hst2]; [exact Hch2|].
  now rewrite Hw2, Hwr, Hw1.
Qed.

Lemma queue_rerun_changes_nothing_witness :
  update_drafts_from_queue QueueScenario.tables QueueScenarioRuns.after_run
    [QueueScenario.entry_a]
  = Some (∅, [], QueueScenarioRuns.after_run).
Proof.
  assert (H : update_drafts_from_queue QueueScenario.tables (QueueScenario.store_with ∅)
                [QueueScenario.entry_a]
              = Some ({[ "draft-a" ]}, [], QueueScenarioRuns.after_run))
    by (vm_compute; reflexivity).
  apply (queue_rerun_changes_nothing _ _ _ _ _ _ H).
  apply (bool_decide_unpack _). vm_compute. exact I.
Defined.
End QueueRunFacts.

Module IndexRunFacts.
Import Db PyDate Index IndexSpec IndexRunSpec IndexFacts IdempotenceFacts.

(** ** The cutoff date *)

(** X7: the entries published before the cutoff date are skipped: a run
    with a cutoff date is the run without cutoff over the entries that
    are not older than the date, in their order. *)
Theorem cutoff_skips_older_entries T s index_data errata_data skip :
  update_docs_from_rfc_index T s index_data errata_data skip
  = update_docs_from_rfc_index T s
      (List.filter (fun p => negb (skipped skip (fst p))) index_data) errata_data None.
Proof.
  unfold update_docs_from_rfc_index. generalize (group_errata errata_data). intros errata.
  revert s. induction index_data as [|[e now] rest IH]; intros s; [reflexivity|].
  cbn [List.filter fst]. destruct (skipped skip e) eqn:K; cbn [negb run].
  - unfold step. rewrite K. cbn. rewrite IH.
    destruct (run T errata None s _) as [[s2 out2]|]; reflexivity.
  - unfold step. rewrite K. cbn [skipped].
    destruct (reconcile T errata s e now) as [w|]; [|reflexivity]. cbn.
    now rewrite IH.
Qed.

(** ** Identifiers of a relation list *)

Lemma NoDup_add_new res a : NoDup res -> NoDup (add_new res a).
Proof.
  intros H. unfold add_new. destruct (bool_decide_reflect (a ∈ res)) as [Hin|Hin];
    [exact H|].
  apply NoDup_app. split; [exact H|]. split; [|apply NoDup_singleton].
  intros x Hx Hx'. apply list_elem_of_singleton in Hx'. now subst.
Qed.

Lemma NoDup_fold_add_new ts : forall res, NoDup res -> NoDup (fold_left add_new ts res).
Proof.
  induction ts as [|t ts IH]; intros res H; [exact H|]. cbn. apply IH.
  now apply NoDup_add_new.
Qed.

Lemma lookup_targets_alias s x a :
  In a (lookup_targets s x) ->
  (exists row, In row (aliases s) /\ fst row = a) /\
  (translated x = true -> PyStr.startswith "rfc" a = true) /\
  (translated x = false -> a = PyStr.lower x).
Proof.
  unfold lookup_targets, translated.
  destruct (bool_decide (PyStr.take 3 x ∈ ["NIC"; "IEN"; "STD"; "RTR"])); intros H;
    apply in_map_iff in H as (row & <- & Hrow); apply filter_In in Hrow as [Hin Hp].
  - split; [eauto|]. split; [|discriminate]. intros _.
    now apply andb_true_iff in Hp as [Hp _].
  - split; [eauto|]. split; [discriminate|]. intros _.
    now apply String.eqb_eq in Hp.
Qed.

(** X8: the aliases a relation list stands for.  The list has no
    repetition; each of its members is the name of an alias of the
    database; an identifier that does not begin with NIC, IEN, STD or
    RTR stands for the alias of its name in lower case when there is
    one, and for nothing otherwise, and an identifier that does stands
    only for aliases whose names begin with rfc. *)
Theorem relation_targets_are_known_aliases s l :
  NoDup (parse_relation_list s l) /\
  (forall a, In a (parse_relation_list s l) ->
     find_alias a s <> None /\
     exists x, In x l /\
       (if translated x then PyStr.startswith "rfc" a = true else a = PyStr.lower x)) /\
  (forall x, In x l -> translated x = false ->
     (In (PyStr.lower x) (parse_relation_list s l) <-> find_alias (PyStr.lower x) s <> None)).
Proof.
  split; [|split].
  - unfold parse_relation_list.
    assert (G : forall res, NoDup res ->
              NoDup (fold_left (fun res x => fold_left add_new (lookup_targets s x) res) l res)).
    { induction l as [|x l IH]; intros res H; [exact H|]. cbn. apply IH.
      now apply NoDup_fold_add_new. }
    apply G. apply NoDup_nil_2.
  - intros a Ha. apply in_parse_relation_list in Ha as (x & Hx & Ht).
    destruct (lookup_targets_alias _ _ _ Ht) as ((row & Hrow & Hfst) & Hyes & Hno).
    split.
    + unfold find_alias. intros Hnone.
      apply (find_none _ _ Hnone) in Hrow. rewrite Hfst, String.eqb_refl in Hrow.
      discriminate.
    + exists x. split; [exact Hx|]. destruct (translated x); auto.
  - intros x Hx Hno. rewrite in_parse_relation_list. split.
    + intros (y & _ & Hy). destruct (lookup_targets_alias _ _ _ Hy) as ((row & Hrow & Hfst) & _).
      unfold find_alias. intros Hnone.
      apply (find_none _ _ Hnone) in Hrow. rewrite Hfst, String.eqb_refl in Hrow.
      discriminate.
    + intros Hsome. exists x. split; [exact Hx|].
      unfold lookup_targets. unfold translated in Hno. rewrite Hno.
      unfold find_alias in Hsome.
      destruct (List.find _ (aliases s)) as [row|] eqn:E; [|contradiction].
      apply find_some in E as [Hin Hname]. apply in_map_iff. exists row.
      split; [now apply String.eqb_eq in Hname|]. apply filter_In. now split.
Qed.

(** ** The errata of a document *)

(** X9: the errata dictionary groups the items by their doc-id, each
    group in the order of the data; the key of a document has a group
    exactly when an item has that doc-id, and the errata block reads
    the group of the key RFC followed by the number on four digits. *)
Theorem errata_are_grouped_by_doc_id errata_data :
  (forall k, default [] (group_errata errata_data !! k)
             = List.filter (fun er => String.eqb (doc_id er) k) errata_data) /\
  (forall k, group_errata errata_data !! k = None <->
             forall er, In er errata_data -> doc_id er <> k) /\
  (forall e, default [] (group_errata errata_data !! errata_key (rfc_number e))
             = associated errata_data e).
Proof.
  assert (G : forall k, default [] (group_errata errata_data !! k)
             = List.filter (fun er => String.eqb (doc_id er) k) errata_data).
  { intros k. unfold group_errata. rewrite group_errata_fold. now rewrite lookup_empty. }
  assert (N : forall data (m : gmap string (list erratum)) k,
            (forall j l, m !! j = Some l -> l <> []) ->
            (fold_left (fun m item => <[doc_id item := default [] (m !! doc_id item) ++ [item]]> m)
                       data m !! k = None
             <-> m !! k = None /\ forall er, In er data -> doc_id er <> k) /\
            (forall j l, fold_left (fun m item =>
                            <[doc_id item := default [] (m !! doc_id item) ++ [item]]> m)
                           data m !! j = Some l -> l <> [])).
  { induction data as [|it data IH]; intros m k Hm.
    - cbn. split; [|exact Hm]. split; [intros H; split; [exact H|intros ? []]|now intros [H _]].
    - cbn [fold_left].
      assert (Hm' : forall j l, <[doc_id it := default [] (m !! doc_id it) ++ [it]]> m !! j
                                = Some l -> l <> []).
      { intros j l. destruct (decide (j = doc_id it)) as [->|Hne].
        - rewrite lookup_insert_eq. intros [= <-]. now destruct (default [] _).
        - rewrite lookup_insert_ne by congruence. apply Hm. }
      destruct (IH _ k Hm') as [I1 I2]. split; [|exact I2].
      rewrite I1. destruct (decide (k = doc_id it)) as [->|Hne].
      + rewrite lookup_insert_eq. split; [intros [? _]; discriminate|].
        intros [_ H]. exfalso. apply (H it); [now left|reflexivity].
      + rewrite lookup_insert_ne by congruence. split.
        * intros [H1 H2]. split; [exact H1|]. intros er [<-|Hin]; [congruence|auto].
        * intros [H1 H2]. split; [exact H1|]. intros er Hin. apply H2. now right. }
  split; [exact G|]. split.
  - intros k. unfold group_errata.
    destruct (N errata_data ∅ k) as [I _]; [intros j l; now rewrite lookup_empty|].
    rewrite I. rewrite lookup_empty. tauto.
  - intros e. apply group_errata_lookup.
Qed.

(** ** The events an iteration saves *)

Lemma keeps_refl w : keeps w w.
Proof. now split. Qed.

Lemma keeps_trans w1 w2 w3 : keeps w1 w2 -> keeps w2 w3 -> keeps w1 w3.
Proof. intros [] []. split; congruence. Qed.

Ltac quiet := repeat first [ reflexivity | split ].

Lemma check_title_keeps e w : keeps w (check_title e w).
Proof. unfold check_title. destruct (negb _); quiet. Qed.

Lemma check_abstract_keeps e w : keeps w (check_abstract e w).
Proof. unfold check_abstract. destruct (_ && _); quiet. Qed.

Lemma check_pages_keeps e w w' : check_pages e w = Some w' -> keeps w w'.
Proof.
  unfold check_pages. destruct (PyStr.truthy _); [|intros [= <-]; quiet].
  destruct (PyStr.int _); [|discriminate]. destruct (negb _); intros [= <-]; quiet.
Qed.

Lemma check_std_level_keeps e w w' : check_std_level e w = Some w' -> keeps w w'.
Proof.
  unfold check_std_level. destruct (std_level_mapping !! _); [|discriminate].
  destruct (negb _); intros [= <-]; quiet.
Qed.

Lemma check_state_keeps w : keeps w (check_state w).
Proof. unfold check_state. destruct (negb _); quiet. Qed.

Lemma check_stream_keeps e w w' : check_stream e w = Some w' -> keeps w w'.
Proof.
  unfold check_stream. destruct (stream_mapping !! _); [|discriminate].
  destruct (negb _); intros [= <-]; quiet.
Qed.

Lemma check_group_keeps T e w w' : check_group T e w = Some w' -> keeps w w'.
Proof.
  unfold check_group. destruct (group (cur w)); [intros [= <-]; quiet|].
  destruct (wg_truthy e).
  - destruct (bool_decide _); [|discriminate]. intros [= <-]; quiet.
  - destruct (individ T); [|discriminate]. intros [= <-]; quiet.
Qed.

Lemma fold_keeps {A} (f : work -> A -> work) l :
  (forall w x, keeps w (f w x)) -> forall w, keeps w (fold_left f l w).
Proof.
  intros H. induction l as [|x l IH]; intros w; [apply keeps_refl|].
  cbn. eapply keeps_trans; [apply H|apply IH].
Qed.

Lemma check_relations_keeps rel ids w : keeps w (check_relations rel ids w).
Proof.
  unfold check_relations. apply fold_keeps. intros w0 x. unfold ensure_relation.
  cbv zeta. destruct (negb _); quiet.
Qed.

Lemma check_also_keeps e w : keeps w (check_also e w).
Proof.
  unfold check_also. apply fold_keeps. intros w0 x. unfold ensure_alias.
  cbv zeta. destruct (find_alias _ _); quiet.
Qed.

Lemma check_errata_keeps errata e w : keeps w (check_errata errata e w).
Proof.
  unfold check_errata. cbv zeta.
  repeat match goal with |- context [if ?b then _ else _] => destruct b end; quiet.
Qed.

(** The block of the published event. *)
Lemma check_published_events e now w w' :
  check_published e now w = Some w' ->
  doc w' = doc w /\ rev (cur w') = rev (cur w) /\
  rfc_published w' = (rfc_published w || negb (has_event (doc w) "published_rfc" (st w))) /\
  exists x, events (st w') = events (st w) ++ x /\ evs w' = evs w ++ x /\
    ((has_event (doc w) "published_rfc" (st w) = true /\ x = []) \/
     (has_event (doc w) "published_rfc" (st w) = false /\
      exists t n, PubDate.synthesize 62 (rfc_published_date e) now = Some (t, n) /\
                  x = [mkEvent (doc w) (rev (cur w)) system (PublishedRfc t)])).
Proof.
  unfold check_published. destruct (has_event (doc w) "published_rfc" (st w)) eqn:Eh;
    cbn [negb].
  - intros [= <-]. rewrite orb_false_r. repeat split.
    exists []. rewrite !app_nil_r. auto.
  - destruct (PubDate.synthesize _ _ _) as [[t n]|] eqn:Es; [|discriminate].
    intros [= <-]. cbn. rewrite orb_true_r. repeat split.
    eexists. split; [reflexivity|]. split; [reflexivity|]. right. split; [reflexivity|].
    exists t, n. auto.
Qed.

(** The block of the typed states saves action holder events only. *)
Lemma check_typed_state_events T w t :
  doc (check_typed_state T w t) = doc w /\
  rev (cur (check_typed_state T w t)) = rev (cur w) /\
  rfc_published (check_typed_state T w t) = rfc_published w /\
  exists x, events (st (check_typed_state T w t)) = events (st w) ++ x /\
            evs (check_typed_state T w t) = evs w ++ x /\
            Forall (is_action_holders_event (doc w)) x.
Proof.
  unfold check_typed_state. destruct (doc_state t w) as [slug|].
  - destruct (negb _).
    + cbv zeta. unfold update_action_holders.
      destruct (action_holders_event _ _ _ _ _); cbn.
      * repeat split. eexists. split; [reflexivity|]. split; [reflexivity|].
        constructor; [now split|constructor].
      * repeat split. exists []. rewrite !app_nil_r. repeat split. constructor.
    + repeat split. exists []. rewrite !app_nil_r. repeat split. constructor.
  - destruct (String.eqb _ _); cbn; repeat split; exists []; rewrite !app_nil_r;
      repeat split; constructor.
Qed.

Lemma check_typed_states_events T w :
  doc (check_typed_states T w) = doc w /\
  rev (cur (check_typed_states T w)) = rev (cur w) /\
  rfc_published (check_typed_states T w) = rfc_published w /\
  exists x, events (st (check_typed_states T w)) = events (st w) ++ x /\
            evs (check_typed_states T w) = evs w ++ x /\
            Forall (is_action_holders_event (doc w)) x.
Proof.
  unfold check_typed_states. generalize state_types. intros l. revert w.
  induction l as [|t l IH]; intros w.
  - cbn. repeat split. exists []. rewrite !app_nil_r. repeat split. constructor.
  - cbn [fold_left].
    destruct (check_typed_state_events T w t) as (D1 & R1 & P1 & x1 & E1 & V1 & F1).
    destruct (IH (check_typed_state T w t)) as (D2 & R2 & P2 & x2 & E2 & V2 & F2).
    split; [congruence|]. split; [congruence|]. split; [congruence|].
    exists (x1 ++ x2). split; [now rewrite E2, E1, app_assoc|].
    split; [now rewrite V2, V1, app_assoc|].
    apply Forall_app. split; [exact F1|]. now rewrite D1 in F2.
Qed.

Lemma finish_events w :
  doc (finish w) = doc w /\ rev (cur (finish w)) = rev (cur w) /\
  rfc_published (finish w) = rfc_published w /\ changes (finish w) = changes w /\
  events (st (finish w))
  = events (st w) ++ (match changes w with [] => [] | _ => [sync_event w] end) /\
  evs (finish w) = evs w ++ (match changes w with [] => [] | _ => [sync_event w] end) /\
  effects (st (finish w))
  = effects (st w) ++ (match changes w with
                       | [] => []
                       | _ => [SavedWithHistory (doc w) (evs w ++ [sync_event w])]
                       end).
Proof.
  unfold finish, sync_event. destruct (changes w) eqn:E; cbn.
  - rewrite !app_nil_r. now rewrite E.
  - now rewrite E.
Qed.

(** The events of an iteration, in the order they are saved: the
    published event when the document had none, the action holder
    events of the typed states, and the consolidated event when there
    are changes. *)
Lemma reconcile_events T errata s e now w :
  reconcile T errata s e now = Some w ->
  exists pub ah,
    events (st w)
    = events s ++ pub ++ ah ++ (match changes w with [] => [] | _ => [sync_event w] end) /\
    evs w = pub ++ ah ++ (match changes w with [] => [] | _ => [sync_event w] end) /\
    rfc_published w = negb (has_event (doc w) "published_rfc" s) /\
    ((rfc_published w = false /\ pub = []) \/
     (rfc_published w = true /\
      exists t n, PubDate.synthesize 62 (rfc_published_date e) now = Some (t, n) /\
                  pub = [mkEvent (doc w) (rev (cur w)) system (PublishedRfc t)])) /\
    Forall (is_action_holders_event (doc w)) ah /\
    (match changes w with
     | [] => True
     | _ => exists pre, effects (st w) = pre ++ [SavedWithHistory (doc w) (evs w)]
     end).
Proof.
  intros H. destruct (reconcile_inv _ _ _ _ _ _ H)
    as (w0 & w3 & w4 & w6 & w7 & w8 & H0 & H3 & H4 & H6 & H7 & H8 & Hw).
  destruct (resolve_spec _ _ _ H0)
    as (d0 & _ & _ & _ & _ & _ & Hev0 & _ & _ & Hevs0 & Hpub0 & _).
  assert (K07 : keeps w0 w7).
  { eapply keeps_trans; [apply (check_title_keeps e)|].
    eapply keeps_trans; [apply (check_abstract_keeps e)|].
    eapply keeps_trans; [exact (check_pages_keeps _ _ _ H3)|].
    eapply keeps_trans; [exact (check_std_level_keeps _ _ _ H4)|].
    eapply keeps_trans; [apply check_state_keeps|].
    eapply keeps_trans; [exact (check_stream_keeps _ _ _ H6)|].
    exact (check_group_keeps _ _ _ _ H7). }
  destruct K07 as [E07 V07 D07 R07 P07].
  destruct (check_published_events _ _ _ _ H8) as (D8 & R8 & P8 & pub & E8 & V8 & Hpub).
  destruct (check_typed_states_events T w8) as (D9 & R9 & P9 & ah & E9 & V9 & F9).
  set (w9 := check_typed_states T w8) in *.
  assert (K913 : keeps w9 (check_errata errata e
                    (check_also e (check_relations "updates" (updates e)
                       (check_relations "obs" (obsoletes e) w9))))).
  { eapply keeps_trans; [apply (check_relations_keeps "obs" (obsoletes e))|].
    eapply keeps_trans; [apply (check_relations_keeps "updates" (updates e))|].
    eapply keeps_trans; [apply (check_also_keeps e)|apply check_errata_keeps]. }
  set (w13 := check_errata errata e _) in *.
  destruct K913 as [E913 V913 D913 R913 P913].
  destruct (finish_events w13) as (Df & Rf & Pf & Cf & Ef & Vf & Xf).
  rewrite <- Hw in Df, Rf, Pf, Cf, Ef, Vf, Xf.
  assert (Hdoc : doc w = doc w7) by congruence.
  assert (Hrev : rev (cur w) = rev (cur w7)) by congruence.
  assert (Hsync : sync_event w13 = sync_event w)
    by (unfold sync_event; now rewrite Df, Rf, Cf).
  rewrite <- Cf, Hsync in Ef, Vf, Xf.
  exists pub, ah. split; [|split; [|split; [|split; [|split]]]].
  - rewrite Ef, E913, E9, E8, E07, Hev0. now rewrite <- !app_assoc.
  - rewrite Vf, V913, V9, V8, V07, Hevs0. cbn. now rewrite <- !app_assoc.
  - rewrite Pf, P913, P9, P8, P07, Hpub0, Hdoc. cbn [orb].
    unfold has_event. now rewrite E07, Hev0.
  - rewrite Pf, P913, P9, P8, P07, Hpub0. cbn [orb]. rewrite Hdoc, Hrev.
    destruct Hpub as [[-> ->]|(-> & t & n & Hs & ->)]; [now left|].
    right. split; [reflexivity|]. exists t, n. now split.
  - rewrite Hdoc, <- D8. exact F9.
  - destruct (changes w) eqn:Ec; [exact I|].
    eexists. rewrite Xf. f_equal. f_equal. rewrite Df.
    f_equal. rewrite Vf. reflexivity.
Qed.

Lemma count_events_app dn ty s x s' :
  events s' = events s ++ x ->
  count_events dn ty s'
  = (count_events dn ty s
     + length (List.filter (fun ev => String.eqb (ev_doc ev) dn && String.eqb (ev_type ev) ty)
                           x))%nat.
Proof. intros H. unfold count_events. now rewrite H, List.filter_app, length_app. Qed.

Lemma has_event_count dn ty s :
  has_event dn ty s = false <-> count_events dn ty s = O.
Proof.
  unfold has_event, count_events. induction (events s) as [|ev l IH]; [now cbn|].
  cbn. destruct (String.eqb (ev_doc ev) dn && String.eqb (ev_type ev) ty); cbn.
  - split; discriminate.
  - exact IH.
Qed.

Lemma filter_action_holders dn name ah :
  Forall (is_action_holders_event name) ah ->
  List.filter (fun ev => String.eqb (ev_doc ev) dn && String.eqb (ev_type ev) "published_rfc")
              ah = [].
Proof.
  induction 1 as [|ev l [_ Hd] _ IH]; [reflexivity|]. cbn. unfold ev_type. rewrite Hd.
  cbn. rewrite andb_false_r. exact IH.
Qed.

Lemma reconcile_published T errata s e now w :
  reconcile T errata s e now = Some w ->
  has_event (doc w) "published_rfc" (st w) = true /\
  rfc_published w = negb (has_event (doc w) "published_rfc" s) /\
  (forall dn,
     count_events dn "published_rfc" (st w)
     = (count_events dn "published_rfc" s
        + (if rfc_published w && String.eqb (doc w) dn then 1 else 0))%nat).
Proof.
  intros H. destruct (reconcile_events _ _ _ _ _ _ H)
    as (pub & ah & E & _ & P & Hpub & Fah & _).
  assert (Hcount : forall dn,
     count_events dn "published_rfc" (st w)
     = (count_events dn "published_rfc" s
        + (if rfc_published w && String.eqb (doc w) dn then 1 else 0))%nat).
  { intros dn. rewrite (count_events_app _ _ _ _ _ E). f_equal.
    rewrite !List.filter_app, (filter_action_holders dn _ _ Fah).
    assert (Hs : List.filter (fun ev => String.eqb (ev_doc ev) dn
                                       && String.eqb (ev_type ev) "published_rfc")
                   (match changes w with [] => [] | _ => [sync_event w] end) = []).
    { destruct (changes w); [reflexivity|]. cbn. now rewrite andb_false_r. }
    rewrite Hs, !app_nil_r.
    destruct Hpub as [[-> ->]|(-> & t & n & _ & ->)]; [reflexivity|].
    cbn. destruct (String.eqb (doc w) dn); reflexivity. }
  split; [|split; [exact P|exact Hcount]].
  destruct (has_event (doc w) "published_rfc" (st w)) eqn:Eh; [reflexivity|].
  apply has_event_count in Eh. rewrite Hcount, String.eqb_refl, andb_true_r in Eh.
  destruct (rfc_published w) eqn:Ep; [lia|].
  symmetry in P. apply negb_false_iff in P. 
  assert (Hz : count_events (doc w) "published_rfc" s = O) by lia.
  apply has_event_count in Hz. congruence.
Qed.

Lemma run_published T errata skip index_data : forall s s' out,
  run T errata skip s index_data = Some (s', out) ->
  forall dn,
    (1 <= count_events dn "published_rfc" s ->
     count_events dn "published_rfc" s' = count_events dn "published_rfc" s)%nat /\
    (count_events dn "published_rfc" s = 0 ->
     count_events dn "published_rfc" s' <= 1)%nat.
Proof.
  induction index_data as [|[e now] rest IH]; intros s s' out Hrun dn.
  - cbn in Hrun. injection Hrun as <- <-. split; [reflexivity|lia].
  - cbn [run] in Hrun.
    destruct (step T errata skip s e now) as [[sa outa]|] eqn:Es; [|discriminate].
    cbn in Hrun.
    destruct (run T errata skip sa rest) as [[sb outb]|] eqn:Er; [|discriminate].
    cbn in Hrun. injection Hrun as <- <-.
    destruct (IH _ _ _ Er dn) as [I1 I2].
    unfold step in Es. destruct (skipped skip e).
    + injection Es as <- <-. now split.
    + destruct (reconcile T errata s e now) as [w|] eqn:Ew; [|discriminate].
      cbn in Es. injection Es as <- <-.
      destruct (reconcile_published _ _ _ _ _ _ Ew) as (_ & P & C).
      specialize (C dn).
      destruct (rfc_published w && String.eqb (doc w) dn) eqn:B.
      * apply andb_true_iff in B as [B1 B2]. apply String.eqb_eq in B2. subst dn.
        rewrite B1 in P. symmetry in P. apply negb_true_iff in P.
        apply has_event_count in P. split; lia.
      * split; lia.
Qed.

(** X10: the published event.  After an iteration the document has an
    event of type published_rfc; the iteration saves one exactly when
    the document had none, which is what [rfc_published] reports, and
    then it saves exactly one.  Over a whole run, a document that had
    such an event gets no other, and a document that had none gets at
    most one. *)
Theorem published_event_is_saved_once T s index_data errata_data skip s' out :
  update_docs_from_rfc_index T s index_data errata_data skip = Some (s', out) ->
  (forall s0 e now w,
     reconcile T (group_errata errata_data) s0 e now = Some w ->
     has_event (doc w) "published_rfc" (st w) = true /\
     rfc_published w = negb (has_event (doc w) "published_rfc" s0) /\
     (forall dn,
        count_events dn "published_rfc" (st w)
        = (count_events dn "published_rfc" s0
           + (if rfc_published w && String.eqb (doc w) dn then 1 else 0))%nat)) /\
  (forall dn,
     (1 <= count_events dn "published_rfc" s ->
      count_events dn "published_rfc" s' = count_events dn "published_rfc" s)%nat /\
     (count_events dn "published_rfc" s = 0 ->
      count_events dn "published_rfc" s' <= 1)%nat).
Proof.
  intros H.
  split; [intros s0 e now w Hw; exact (reconcile_published _ _ _ _ _ _ Hw)|].
  exact (run_published _ _ _ _ _ _ _ H).
Qed.

Lemma published_event_is_saved_once_witness :
  count_events "rfc1" "published_rfc" IndexScenario.after_one_run = 1%nat /\
  count_events "rfc1" "published_rfc" IndexScenario.after_two_runs = 1%nat.
Proof.
  assert (H : update_docs_from_rfc_index IndexScenario.tables IndexScenario.after_one_run
                IndexScenario.index [] None
              = Some (IndexScenario.after_two_runs,
                      [([CreatedRelation "obsoletes" "rfc1" "rfc2"], "rfc1", false)]))
    by (vm_compute; reflexivity).
  assert (C : count_events "rfc1" "published_rfc" IndexScenario.after_one_run = 1%nat)
    by (vm_compute; reflexivity).
  split; [exact C|].
  destruct (published_event_is_saved_once _ _ _ _ _ _ _ H) as (_ & R).
  destruct (R "rfc1") as [R1 _]. rewrite R1; [exact C|]. rewrite C. lia.
Defined.

(** X11: the consolidated event.  The events an iteration saves are
    those it hands to [save_with_history]; when it has change notes,
    the last of them is the event of type sync_from_rfc_editor that
    holds exactly these notes, and [save_with_history] is the last
    call made; when it has none, it saves no such event and yields
    nothing. *)
Theorem changes_are_recorded_in_one_event T errata s e now w :
  reconcile T errata s e now = Some w ->
  events (st w) = events s ++ evs w /\
  (changes w <> [] ->
     (exists pre, evs w = pre ++ [sync_event w]
                  /\ Forall (fun ev => ev_type ev <> "sync_from_rfc_editor") pre) /\
     (exists pre, effects (st w) = pre ++ [SavedWithHistory (doc w) (evs w)]) /\
     step T errata None s e now = Some (st w, [(changes w, doc w, rfc_published w)])) /\
  (changes w = [] ->
     Forall (fun ev => ev_type ev <> "sync_from_rfc_editor") (evs w) /\
     step T errata None s e now = Some (st w, [])).
Proof.
  intros H. destruct (reconcile_events _ _ _ _ _ _ H)
    as (pub & ah & E & V & _ & Hpub & Fah & X).
  assert (Hpre : Forall (fun ev => ev_type ev <> "sync_from_rfc_editor") (pub ++ ah)).
  { apply Forall_app. split.
    - destruct Hpub as [[_ ->]|(_ & t & n & _ & ->)]; [constructor|].
      constructor; [discriminate|constructor].
    - eapply Forall_impl; [exact Fah|]. intros ev [_ Hd]. unfold ev_type. now rewrite Hd. }
  split; [now rewrite E, V|]. split.
  - intros Hne. destruct (changes w) as [|c cs] eqn:Ec; [contradiction|]. split; [|split].
    + exists (pub ++ ah). split; [now rewrite V, app_assoc|exact Hpre].
    + exact X.
    + unfold step. cbn [skipped]. rewrite H. cbn. now rewrite Ec.
  - intros Hnil. split.
    + rewrite V, Hnil, app_nil_r. exact Hpre.
    + unfold step. cbn [skipped]. rewrite H. cbn. now rewrite Hnil.
Qed.

Lemma changes_are_recorded_in_one_event_witness :
  exists w,
    reconcile IndexScenario.tables ∅ IndexScenario.empty_store IndexScenario.rfc2
              IndexScenario.now = Some w /\
    events (st w) = events IndexScenario.empty_store ++ evs w /\
    step IndexScenario.tables ∅ None IndexScenario.empty_store IndexScenario.rfc2
         IndexScenario.now
    = Some (st w, [(changes w, doc w, rfc_published w)]).
Proof.
  assert (H : exists w,
    reconcile IndexScenario.tables ∅ IndexScenario.empty_store IndexScenario.rfc2
              IndexScenario.now = Some w /\ changes w <> [])
    by (vm_compute; eexists; split; [reflexivity|discriminate]).
  destruct H as (w & H & Hne). exists w. split; [exact H|].
  destruct (changes_are_recorded_in_one_event _ _ _ _ _ _ H) as (E & Hyes & _).
  split; [exact E|]. now destruct (Hyes Hne) as (_ & _ & Hstep).
Defined.

(** ** Values the mappings do not know *)

(** X12: an entry whose status is not a key of [std_level_mapping], whose
    stream is not a key of [stream_mapping], or whose page count is a
    text of ASCII characters that is not empty and does not read as an
    integer, makes the iteration raise, whatever the database holds. *)
Theorem unknown_values_raise T errata s e now :
  std_level_mapping !! current_status e = None
  \/ stream_mapping !! e_stream e = None
  \/ (PyStr.truthy (e_pages e) = true /\ PyText.is_ascii (e_pages e) = true
      /\ PyStr.int (e_pages e) = None) ->
  reconcile T errata s e now = None.
Proof.
  intros H. unfold reconcile. destruct (resolve s e) as [w0|]; [|reflexivity]. cbn.
  destruct (check_pages e _) as [w3|] eqn:H3; [|reflexivity]. cbn.
  destruct (check_std_level e w3) as [w4|] eqn:H4; [|reflexivity]. cbn.
  destruct (check_stream e _) as [w6|] eqn:H6; [|reflexivity]. exfalso.
  destruct H as [H|[H|(Ht & _ & Hi)]].
  - unfold check_std_level in H4. now rewrite H in H4.
  - unfold check_stream in H6. now rewrite H in H6.
  - unfold check_pages in H3. now rewrite Ht, Hi in H3.
Qed.

Lemma unknown_values_raise_witness :
  reconcile IndexScenario.tables ∅ IndexScenario.empty_store
            IndexRunScenario.rfc_odd IndexScenario.now = None /\
  reconcile IndexScenario.tables ∅ IndexScenario.empty_store
            IndexRunScenario.rfc_pages IndexScenario.now = None.
Proof.
  split.
  - apply unknown_values_raise. left. vm_compute. reflexivity.
  - apply unknown_values_raise. right. right. vm_compute. auto.
Defined.

(** ** What a run yields *)

Lemma run_yields T errata skip index_data : forall s s' out,
  run T errata skip s index_data = Some (s', out) ->
  Forall (fun y => fst (fst y) <> [] /\
                   exists e, In e (processed skip index_data)
                             /\ entry_doc s' e = Some (snd (fst y))) out /\
  (length out <= length (processed skip index_data))%nat.
Proof.
  induction index_data as [|[e now] rest IH]; intros s s' out Hrun.
  - cbn in Hrun. injection Hrun as <- <-. split; [constructor|cbn; lia].
  - cbn [run] in Hrun.
    destruct (step T errata skip s e now) as [[sa outa]|] eqn:Es; [|discriminate].
    cbn in Hrun.
    destruct (run T errata skip sa rest) as [[sb outb]|] eqn:Er; [|discriminate].
    cbn in Hrun. injection Hrun as <- <-.
    destruct (IH _ _ _ Er) as [I1 I2]. rewrite processed_cons.
    unfold step in Es. destruct (skipped skip e).
    + injection Es as <- <-. cbn. now split.
    + destruct (reconcile T errata s e now) as [w|] eqn:Ew; [|discriminate].
      cbn in Es. injection Es as <- <-.
      assert (I1' : Forall (fun y => fst (fst y) <> [] /\
                      exists e0, In e0 (e :: processed skip rest)
                                 /\ entry_doc sb e0 = Some (snd (fst y))) outb).
      { eapply Forall_impl; [exact I1|]. intros y (Hy & e0 & He0 & Hd).
        split; [exact Hy|]. exists e0. split; [now right|exact Hd]. }
      destruct (changes w) as [|c cs] eqn:Ec.
      * cbn. split; [exact I1'|lia].
      * cbn [app length]. split; [|lia]. constructor; [|exact I1'].
        cbn. split; [discriminate|]. exists e. split; [now left|].
        apply (entry_doc_grows (st w)); [exact (run_grows _ _ _ _ _ _ _ Er)|].
        exact (reconcile_entry_doc _ _ _ _ _ _ Ew).
Qed.

(** X13: what a run yields.  Each item yielded carries a change list
    that is not empty and the document that an entry of the index,
    not older than the cutoff date, denotes after the run; there is at
    most one item for each such entry. *)
Theorem yielded_items_carry_changes T s index_data errata_data skip s' out :
  update_docs_from_rfc_index T s index_data errata_data skip = Some (s', out) ->
  Forall (fun y => fst (fst y) <> [] /\
                   exists e, In e (processed skip index_data)
                             /\ entry_doc s' e = Some (snd (fst y))) out /\
  (length out <= length (processed skip index_data))%nat.
Proof. apply run_yields. Qed.

Lemma yielded_items_carry_changes_witness :
  exists s' out,
    update_docs_from_rfc_index IndexScenario.tables IndexScenario.empty_store
      IndexScenario.index [] None = Some (s', out) /\
    (length out <= 2)%nat.
Proof.
  assert (H : exists r,
    update_docs_from_rfc_index IndexScenario.tables IndexScenario.empty_store
      IndexScenario.index [] None = Some r)
    by (vm_compute; eexists; reflexivity).
  destruct H as [[s' out] H]. exists s', out. split; [exact H|].
  exact (proj2 (yielded_items_carry_changes _ _ _ _ _ _ _ H)).
Defined.

(** ** The document of an entry *)

Lemma reconcile_from_resolve T errata s e now w :
  reconcile T errata s e now = Some w ->
  exists w0, resolve s e = Some w0 /\ doc w = doc w0 /\
    grows (st w0) (st w) /\
    (forall c, In c (changes w0) -> In c (changes w)) /\
    (forall k, is_Some (documents (st w) !! k) <-> is_Some (documents (st w0) !! k)).
Proof.
  intros H. destruct (reconcile_evolves _ _ _ _ _ _ H) as (w0 & w1 & H0 & _ & _ & A).
  exists w0. split; [exact H0|]. split; [exact (same_doc _ _ _ _ _ _ A)|].
  split; [exact (evolves_grows _ _ _ _ _ _ A)|].
  split; [intros c; exact (evolves_changes_in _ _ _ _ _ _ c A)|].
  intros k. destruct A as [_ (g & -> & _) _ _ _ _]. apply lookup_alter_is_Some.
Qed.

(** X14: the document of an entry, for an iteration that succeeds.  When
    the alias rfc<number> exists, the document is the first one of the
    alias and no document is created.  When it does not and the entry
    names a draft that is in the database, the alias is created for
    that draft, and no document is.  Otherwise a document named
    rfc<number>, of type draft, is created with its alias, and both
    creations are among the change notes. *)
Theorem entry_document_resolution T errata s e now w :
  reconcile T errata s e now = Some w ->
  let nm := rfc_name (rfc_number e) in
  (forall a dn rest, find_alias nm s = Some (a, dn :: rest) ->
     doc w = dn /\ find_alias nm (st w) = Some (a, dn :: rest) /\
     forall k, is_Some (documents (st w) !! k) <-> is_Some (documents s !! k)) /\
  (find_alias nm s = None -> PyStr.truthy (draft e) = true ->
   is_Some (documents s !! draft e) ->
     doc w = draft e /\ find_alias nm (st w) = Some (nm, [draft e]) /\
     In (CreatedAlias nm) (changes w) /\
     forall k, is_Some (documents (st w) !! k) <-> is_Some (documents s !! k)) /\
  (find_alias nm s = None ->
   PyStr.truthy (draft e) = false \/ documents s !! draft e = None ->
     doc w = nm /\ documents s !! nm = None /\
     find_alias nm (st w) = Some (nm, [nm]) /\
     In (CreatedDocument nm) (changes w) /\ In (CreatedAlias nm) (changes w) /\
     (exists d, documents (st w) !! nm = Some d /\ doc_type (fields d) = "draft") /\
     forall k, is_Some (documents (st w) !! k) <-> k = nm \/ is_Some (documents s !! k)).
Proof.
  intros H nm. destruct (reconcile_from_resolve _ _ _ _ _ _ H)
    as (w0 & H0 & Hdoc & G & Hch & Hdom).
  assert (Halias : forall row, find_alias nm (st w0) = Some row ->
                               find_alias nm (st w) = Some row)
    by (intros row; apply find_alias_grows; exact G).
  split; [|split].
  - intros a dn rest Ha. unfold resolve in H0. cbv zeta in H0. fold nm in H0.
    rewrite Ha in H0. cbn [head] in H0.
    destruct (documents s !! dn) as [d|]; [|discriminate].
    injection H0 as <-. cbn [st doc changes] in *. split; [exact Hdoc|]. split; [now apply Halias|exact Hdom].
  - intros Ha Ht [d Hd]. unfold resolve in H0. cbv zeta in H0. fold nm in H0.
    rewrite Ha, Ht, Hd in H0. injection H0 as <-. cbn [st doc changes] in *.
    split; [exact Hdoc|]. split; [|split; [|exact Hdom]].
    + apply Halias. unfold create_alias. rewrite find_alias_app, Ha. cbn.
      now rewrite String.eqb_refl.
    + apply Hch. now left.
  - intros Ha Hno. unfold resolve in H0. cbv zeta in H0. fold nm in H0. rewrite Ha in H0.
    assert (Hfound : (if PyStr.truthy (draft e)
                      then match documents s !! draft e with
                           | Some d => Some (draft e, d)
                           | None => None
                           end
                      else None) = None).
    { destruct Hno as [->| ->]; [reflexivity|]. now destruct (PyStr.truthy (draft e)). }
    rewrite Hfound in H0.
    destruct (documents s !! nm) as [d|] eqn:Hnm; [discriminate|].
    injection H0 as <-. cbn [st doc changes] in *.
    split; [exact Hdoc|]. split; [reflexivity|]. split; [|split; [|split; [|split]]].
    + apply Halias. unfold create_alias. rewrite find_alias_app.
      change (find_alias nm (with_documents _ s)) with (find_alias nm s).
      rewrite Ha. cbn. now rewrite String.eqb_refl.
    + apply Hch. now left.
    + apply Hch. right. now left.
    + destruct (reconcile_stored _ _ _ _ _ _ H) as (w0' & H0' & _ & _ & Hst).
      pose proof (stored_fields_in_sync _ _ _ _ _ _ _ H H0') as F. cbv zeta in F.
      destruct F as (Fty & _).
      rewrite Hdoc in Hst.
      destruct (documents (st w) !! nm) as [d|]; [|discriminate].
      exists d. split; [reflexivity|]. rewrite fmap_Some_eq in Hst. injection Hst as Hst.
      rewrite Hst, Fty.
      unfold resolve in H0'. cbv zeta in H0'. fold nm in H0'.
      rewrite Ha, Hfound, Hnm in H0'. injection H0' as <-. reflexivity.
    + intros k. rewrite Hdom. unfold create_alias.
      cbn [documents with_aliases with_documents]. rewrite lookup_insert_is_Some.
      destruct (decide (nm = k)) as [->|Hne]; [tauto|]. 
      split; [intros [?|[_ ?]]; [now left|now right]|].
      intros [?|?]; [now left|right; now split].
Qed.

Lemma entry_document_resolution_witness :
  exists w,
    reconcile IndexScenario.tables ∅ IndexRunScenario.store_with_draft
              IndexRunScenario.rfc5 IndexScenario.now = Some w /\
    doc w = "draft-ietf-five" /\
    find_alias "rfc5" (st w) = Some ("rfc5", ["draft-ietf-five"]).
Proof.
  assert (H : exists w,
    reconcile IndexScenario.tables ∅ IndexRunScenario.store_with_draft
              IndexRunScenario.rfc5 IndexScenario.now = Some w)
    by (vm_compute; eexists; reflexivity).
  destruct H as [w H]. exists w. split; [exact H|].
  destruct (entry_document_resolution _ _ _ _ _ _ H) as (_ & Hlink & _).
  destruct Hlink as (Hd & Ha & _);
    [vm_compute; reflexivity|reflexivity|vm_compute; eauto|].
  split; [exact Hd|exact Ha].
Defined.

(** ** What a run never does *)

Lemma other_tags_add_tag t w x :
  x <> t -> x ∈ doc_tags (add_tag t w) <-> x ∈ doc_tags w.
Proof.
  intros Hne. unfold doc_tags, add_tag. cbn. rewrite lookup_alter_eq.
  destruct (documents (st w) !! doc w); cbn; [set_solver|reflexivity].
Qed.

Lemma other_tags_remove_tag t w x :
  x <> t -> x ∈ doc_tags (remove_tag t w) <-> x ∈ doc_tags w.
Proof.
  intros Hne. unfold doc_tags, remove_tag. cbn. rewrite lookup_alter_eq.
  destruct (documents (st w) !! doc w); cbn; [set_solver|reflexivity].
Qed.

Lemma check_errata_other_tags errata e w x :
  other_tag x -> x ∈ doc_tags (check_errata errata e w) <-> x ∈ doc_tags w.
Proof.
  intros [H1 H2]. unfold check_errata. cbv zeta.
  repeat match goal with |- context [if ?b then _ else _] => destruct b end;
    rewrite ?doc_tags_note, ?other_tags_add_tag, ?other_tags_remove_tag,
      ?doc_tags_note, ?other_tags_add_tag, ?other_tags_remove_tag by assumption;
    reflexivity.
Qed.

Lemma fields_after_keeps T e f :
  doc_type (fields_after T e f) = doc_type f /\ rev (fields_after T e f) = rev f.
Proof.
  unfold fields_after. cbv zeta.
  destruct (PyStr.truthy (e_abstract e)), (PyStr.truthy (e_pages e)); now split.
Qed.

(** An iteration keeps every document there is, with its type, its
    revision and its tags other than the two errata tags. *)
Lemma reconcile_keeps_rows T errata s e now w k d :
  reconcile T errata s e now = Some w -> documents s !! k = Some d ->
  exists d', documents (st w) !! k = Some d' /\
    doc_type (fields d') = doc_type (fields d) /\ rev (fields d') = rev (fields d) /\
    forall x, other_tag x -> x ∈ tags d' <-> x ∈ tags d.
Proof.
  intros H Hd. destruct (decide (doc w = k)) as [Heq|Hne].
  - subst k.
    destruct (reconcile_stored _ _ _ _ _ _ H) as (w0 & H0 & Hdoc & Hbefore & Hst).
    rewrite Hd in Hbefore.
    destruct (reconcile_evolves _ _ _ _ _ _ H) as (w0' & w1 & H0' & E1 & Hw & _).
    rewrite H0 in H0'. injection H0' as <-.
    destruct (tags_before_errata _ _ _ _ _ _ _ H0 E1) as (D1 & T1 & d1 & Hd1).
    rewrite <- Hdoc, Hd in T1. cbn in T1.
    destruct (documents (st w) !! doc w) as [d'|] eqn:Hd'; [|discriminate].
    exists d'. split; [reflexivity|]. rewrite fmap_Some_eq in Hst. injection Hst as Hst.
    destruct (fields_after_keeps T e (cur w0)) as [Fa Fb].
    split; [|split].
    + rewrite Hst, Hbefore. destruct (changes w); [reflexivity|exact Fa].
    + rewrite Hst, Hbefore. destruct (changes w); [reflexivity|exact Fb].
    + intros x Hx.
      assert (Ht : doc_tags w = tags d') by (unfold doc_tags; now rewrite Hd').
      rewrite <- Ht, Hw, finish_doc_tags, (check_errata_other_tags _ _ _ _ Hx), T1.
      reflexivity.
  - exists d. rewrite (reconcile_row_frame _ _ _ _ _ _ _ H Hne).
    split; [exact Hd|]. split; [reflexivity|]. split; reflexivity.
Qed.

Lemma run_keeps_rows T errata skip index_data : forall s s' out,
  run T errata skip s index_data = Some (s', out) ->
  forall k d, documents s !! k = Some d ->
    exists d', documents s' !! k = Some d' /\
      doc_type (fields d') = doc_type (fields d) /\ rev (fields d') = rev (fields d) /\
      forall x, other_tag x -> x ∈ tags d' <-> x ∈ tags d.
Proof.
  induction index_data as [|[e now] rest IH]; intros s s' out Hrun k d Hd.
  - cbn in Hrun. injection Hrun as <- <-. exists d. split; [exact Hd|]. 
    split; [reflexivity|]. split; reflexivity.
  - cbn [run] in Hrun.
    destruct (step T errata skip s e now) as [[sa outa]|] eqn:Es; [|discriminate].
    cbn in Hrun.
    destruct (run T errata skip sa rest) as [[sb outb]|] eqn:Er; [|discriminate].
    cbn in Hrun. injection Hrun as <- <-.
    unfold step in Es. destruct (skipped skip e).
    + injection Es as <- <-. exact (IH _ _ _ Er k d Hd).
    + destruct (reconcile T errata s e now) as [w|] eqn:Ew; [|discriminate].
      cbn in Es. injection Es as <- <-.
      destruct (reconcile_keeps_rows _ _ _ _ _ _ _ _ Ew Hd) as (d1 & Hd1 & A1 & B1 & C1).
      destruct (IH _ _ _ Er k d1 Hd1) as (d2 & Hd2 & A2 & B2 & C2).
      exists d2. split; [exact Hd2|]. split; [congruence|]. split; [congruence|].
      intros x Hx. now rewrite C2, C1.
Qed.

(** X15: what a run never does.  It removes no alias, no relation and no
    event and changes none of them: those of the database before the
    run come first, in their order, in the database after it.  Every
    document is still there, with its type and its revision, and with
    the tags it had, the tags errata and verified-errata apart. *)
Theorem run_never_deletes T s index_data errata_data skip s' out :
  update_docs_from_rfc_index T s index_data errata_data skip = Some (s', out) ->
  (exists x, aliases s' = aliases s ++ x) /\
  (exists x, relations s' = relations s ++ x) /\
  (exists x, events s' = events s ++ x) /\
  forall k d, documents s !! k = Some d ->
    exists d', documents s' !! k = Some d' /\
      doc_type (fields d') = doc_type (fields d) /\ rev (fields d') = rev (fields d) /\
      forall x, x <> "errata" -> x <> "verified-errata" -> x ∈ tags d' <-> x ∈ tags d.
Proof.
  unfold update_docs_from_rfc_index. intros H.
  destruct (run_grows _ _ _ _ _ _ _ H) as (A & R & E).
  split; [exact A|]. split; [exact R|]. split; [exact E|].
  intros k d Hd. destruct (run_keeps_rows _ _ _ _ _ _ _ H k d Hd) as (d' & Hd' & X & Y & Z).
  exists d'. split; [exact Hd'|]. split; [exact X|]. split; [exact Y|].
  intros x H1 H2. apply Z. now split.
Qed.

Lemma run_never_deletes_witness :
  exists s' out d',
    update_docs_from_rfc_index IndexScenario.tables IndexRunScenario.store_with_draft
      [(IndexRunScenario.rfc5, IndexScenario.now)] [] None = Some (s', out) /\
    documents s' !! "draft-ietf-five" = Some d' /\
    rev (fields d') = "07" /\ ("need-rev" ∈ tags d' <-> "need-rev" ∈ ({[ "need-rev" ]} : gset string)).
Proof.
  assert (H : exists r,
    update_docs_from_rfc_index IndexScenario.tables IndexRunScenario.store_with_draft
      [(IndexRunScenario.rfc5, IndexScenario.now)] [] None = Some r)
    by (vm_compute; eexists; reflexivity).
  destruct H as [[s' out] H].
  destruct (run_never_deletes _ _ _ _ _ _ _ H) as (_ & _ & _ & K).
  destruct (K "draft-ietf-five" IndexRunScenario.draft_five) as (d' & Hd' & _ & Hr & Ht);
    [vm_compute; reflexivity|].
  exists s', out, d'. split; [exact H|]. split; [exact Hd'|]. split; [exact Hr|].
  apply Ht; discriminate.
Defined.

(** ** The states after an iteration *)

Lemma check_state_other w d :
  documents (st w) !! doc w = Some d ->
  exists d', documents (st (check_state w)) !! doc (check_state w) = Some d' /\
             forall t, t <> "draft" -> get_state t d' = get_state t d.
Proof.
  intros Hd. unfold check_state. destruct (negb _); cbn.
  - exists (set_state "draft" "rfc" d). split.
    + rewrite lookup_alter_eq, Hd. reflexivity.
    + intros t Ht. unfold get_state, set_state. cbn.
      apply lookup_insert_ne. congruence.
  - exists d. split; [exact Hd|reflexivity].
Qed.

(** X16: the states of the document after an iteration.  A document of
    type draft is in the state rfc; the document has an IESG state,
    which is pub or idexists, and each of the states of the IAB, IRTF
    and ISE streams that it has is pub or idexists.  The states of
    every other type, that of the IETF stream among them, are those
    the document had before the iteration. *)
Theorem states_after_an_iteration T errata s e now w :
  reconcile T errata s e now = Some w ->
  exists d, documents (st w) !! doc w = Some d /\
    (doc_type (fields d) = "draft" -> get_state "draft" d = Some "rfc") /\
    (exists slug, get_state "draft-iesg" d = Some slug /\ slug ∈ ["pub"; "idexists"]) /\
    (forall t slug, In t state_types -> get_state t d = Some slug ->
                    slug ∈ ["pub"; "idexists"]) /\
    (forall t, t <> "draft" -> ~ In t state_types ->
               get_state t d
               = get_state t (default new_document (documents s !! doc w))).
Proof.
  intros H.
  destruct (reconcile_stages _ _ _ _ _ _ H)
    as (w0 & w4 & w8 & H0 & A04 & Ty4 & A58 & _ & Hw).
  destruct (resolve_spec _ _ _ H0) as (d0 & Hd0 & _ & Hcase & _).
  pose proof (check_state_evolves w4) as A45.
  destruct (evolves_states _ _ _ _ _ _ A04 Hd0) as (d4 & Hd4 & Hs4).
  destruct (check_state_other w4 d4 Hd4) as (d5 & Hd5 & Ho5).
  destruct (evolves_states _ _ _ _ _ _ A58 Hd5) as (d8 & Hd8 & Hs8).
  destruct (check_typed_states_row T w8 d8 Hd8) as (D9 & d9 & Hd9 & Hs9 & Hok9).
  destruct (fold_typed_state_row T state_types w8 d8 NoDup_state_types Hd8)
    as (_ & d9' & Hd9' & Hk9 & _).
  fold (check_typed_states T w8) in Hd9'.
  assert (d9' = d9) by congruence. subst d9'.
  set (w9 := check_typed_states T w8) in *. rewrite <- D9 in Hd9.
  assert (A9w : evolves all_kinds false false true w9 w).
  { rewrite Hw.
    eapply evolves_trans;
      [|eapply evolves_weaken; [| | | |apply finish_evolves];
        [intros ? []|auto; discriminate..]].
    eapply evolves_trans;
      [|eapply evolves_weaken; [| | | |apply check_errata_evolves];
        [intros ? ?; unfold all_kinds; simpl in *; tauto|auto; discriminate..]].
    eapply evolves_trans;
      [|eapply evolves_weaken; [| | | |apply check_also_evolves];
        [intros ? ?; unfold all_kinds; simpl in *; tauto|auto; discriminate..]].
    eapply evolves_trans;
      [|eapply evolves_weaken; [| | | |apply (check_relations_evolves "updates")];
        [intros ? ?; unfold all_kinds; simpl in *; tauto|auto; discriminate..|simpl; auto]].
    eapply evolves_weaken; [| | | |apply (check_relations_evolves "obs")];
      [intros ? ?; unfold all_kinds; simpl in *; tauto|auto; discriminate..|simpl; auto]. }
  destruct (evolves_states _ _ _ _ _ _ A9w Hd9) as (d & Hd & Hs).
  exists d. split; [exact Hd|].
  assert (Hget : forall t, get_state t d = get_state t d9)
    by (intros t; unfold get_state; now rewrite Hs).
  split; [|split; [|split]].
  - intros Tyd.
    destruct (reconcile_stored _ _ _ _ _ _ H) as (w0' & H0' & _ & _ & Hst).
    pose proof (stored_fields_in_sync _ _ _ _ _ _ _ H H0') as (Fty & _).
    rewrite H0 in H0'. injection H0' as <-.
    rewrite Hd, fmap_Some_eq in Hst. injection Hst as Hst. rewrite <- Hst in Fty.
    assert (Ty4' : doc_type (cur w4) = "draft") by congruence.
    destruct (check_state_row w4 d4 Hd4 Ty4') as (d5' & Hd5' & Hs5).
    assert (d5' = d5) by congruence. subst d5'.
    rewrite Hget, Hs9. unfold get_state in *. now rewrite Hs8.
  - specialize (Hok9 "draft-iesg" ltac:(now left)). unfold typed_state_ok in Hok9.
    rewrite Hget. destruct (get_state "draft-iesg" d9) as [slug|]; [eauto|contradiction].
  - intros t slug Ht Hg. specialize (Hok9 t Ht). unfold typed_state_ok in Hok9.
    rewrite Hget in Hg. now rewrite Hg in Hok9.
  - intros t Hnd Hnt.
    destruct (reconcile_stored _ _ _ _ _ _ H) as (w0' & H0' & Hdoc & _).
    rewrite H0 in H0'. injection H0' as <-.
    rewrite Hget, (Hk9 t Hnt). unfold get_state at 1. rewrite Hs8.
    fold (get_state t d5). rewrite (Ho5 t Hnd). unfold get_state at 1. rewrite Hs4.
    rewrite Hdoc.
    destruct Hcase as [(Hs0 & _)|(Hs0 & -> & _)]; rewrite Hs0; reflexivity.
Qed.

Lemma states_after_an_iteration_witness :
  exists w d,
    reconcile IndexScenario.tables ∅ IndexRunScenario.store_with_streams
              IndexRunScenario.rfc8 IndexScenario.now = Some w /\
    documents (st w) !! doc w = Some d /\
    get_state "draft" d = Some "rfc" /\
    (exists slug, get_state "draft-iesg" d = Some slug /\ slug ∈ ["pub"; "idexists"]) /\
    get_state "draft-stream-ise" d = Some "pub" /\
    get_state "draft-stream-ietf" d = Some "rfc-edit".
Proof.
  assert (H : exists w,
    reconcile IndexScenario.tables ∅ IndexRunScenario.store_with_streams
              IndexRunScenario.rfc8 IndexScenario.now = Some w /\
    doc w = "draft-ietf-eight" /\
    documents (st w) !! doc w ≫= get_state "draft-stream-ise" = Some "pub" /\
    fields <$> documents (st w) !! doc w
    = Some (mkFields "draft" "03" "Eight" EmptyString (Some 12%Z) (Some "ps")
                     (Some "ietf") (Some "httpbis")))
    by (vm_compute; eexists; repeat split; reflexivity).
  destruct H as (w & H & Hdoc & Hise & Hf).
  destruct (states_after_an_iteration _ _ _ _ _ _ H)
    as (d & Hd & Hrfc & Hiesg & _ & Hother).
  exists w, d. split; [exact H|]. split; [exact Hd|]. split; [|split; [exact Hiesg|]].
  - apply Hrfc. rewrite Hd in Hf. cbn in Hf. injection Hf as ->. reflexivity.
  - split.
    + rewrite Hd in Hise. exact Hise.
    + rewrite (Hother "draft-stream-ietf"); [|discriminate|].
      * rewrite Hdoc. vm_compute. reflexivity.
      * vm_compute. intros K. repeat (destruct K as [K|K]; [discriminate|]). exact K.
Defined.
End IndexRunFacts.

Module PubDateMoreFacts.
Import PyDate PubDate PubDateFacts.

Lemma add_day_usec direction t t' :
  add_day direction t = Some t' -> dt_usec t' = dt_usec t.
Proof.
  unfold add_day. destruct (direction <? 0).
  - destruct (prev_day (dt_date t)); [|discriminate]. now intros [= <-].
  - destruct (next_day (dt_date t)); [|discriminate]. now intros [= <-].
Qed.

(** A day reached by a step forward from another month is the first
    of its month; by a step backward, the last. *)
Lemma next_day_enters d d' :
  next_day d = Some d' -> (month d' <> month d \/ year d' <> year d) -> day d' = 1.
Proof.
  unfold next_day. destruct (day d <? _).
  - intros [= <-]. cbn. intros [?|?]; contradiction.
  - destruct (month d <? 12); [now intros [= <-]|].
    destruct (year d <? MAXYEAR); [now intros [= <-]|discriminate].
Qed.

Lemma prev_day_enters d d' :
  prev_day d = Some d' -> (month d' <> month d \/ year d' <> year d) ->
  day d' = days_in_month (year d') (month d').
Proof.
  unfold prev_day. destruct (1 <? day d).
  - intros [= <-]. cbn. intros [?|?]; contradiction.
  - destruct (1 <? month d); [now intros [= <-]|].
    destruct (MINYEAR <? year d); [now intros [= <-]|discriminate].
Qed.

Lemma same_month_false a b :
  same_month a b = false ->
  month (dt_date a) <> month (dt_date b) \/ year (dt_date a) <> year (dt_date b).
Proof.
  unfold same_month. intros H. apply andb_false_iff in H as [H|H];
    apply Z.eqb_neq in H; auto.
Qed.

Lemma walk_result fuel direction d : forall t r n,
  walk fuel direction d t = Some (r, n) ->
  same_month r d = true /\ dt_usec r = dt_usec t /\
  (n = O -> r = t) /\
  (n <> O ->
   day (dt_date r)
   = if direction <? 0 then days_in_month (year (dt_date r)) (month (dt_date r)) else 1).
Proof.
  induction fuel as [|fuel IH]; intros t r n; cbn [walk].
  - destruct (same_month t d) eqn:E; [|discriminate]. intros [= <- <-].
    split; [exact E|]. split; [reflexivity|]. split; [reflexivity|contradiction].
  - destruct (same_month t d) eqn:E.
    + intros [= <- <-]. split; [exact E|]. split; [reflexivity|].
      split; [reflexivity|contradiction].
    + destruct (add_day direction t) as [t'|] eqn:Ea; [|discriminate].
      destruct (walk fuel direction d t') as [[r' n']|] eqn:Ew; [|discriminate].
      intros [= <- <-]. destruct (IH _ _ _ Ew) as (S1 & U1 & Z1 & N1).
      split; [exact S1|]. split; [rewrite U1; exact (add_day_usec _ _ _ Ea)|].
      split; [discriminate|]. intros _.
      destruct n' as [|n']; [|apply N1; discriminate].
      rewrite (Z1 eq_refl) in *. clear Z1 N1 U1.
      apply same_month_iff in S1 as [Sm Sy]. apply same_month_false in E.
      assert (Hd : month (dt_date t') <> month (dt_date t)
                   \/ year (dt_date t') <> year (dt_date t))
        by (destruct E; [left|right]; congruence).
      unfold add_day in Ea. destruct (direction <? 0).
      * destruct (prev_day (dt_date t)) as [p|] eqn:Ep; [|discriminate].
        injection Ea as <-. cbn in *. exact (prev_day_enters _ _ Ep Hd).
      * destruct (next_day (dt_date t)) as [p|] eqn:Ep; [|discriminate].
        injection Ea as <-. cbn in *. exact (next_day_enters _ _ Ep Hd).
Qed.

(** X17: the time of the published event, for an index date and a
    current time that [datetime] can hold.  The synthesis returns, after
    at most 62 steps of the walk.  When the first of the month of the
    index is more than 60 days from the current time, the event is
    dated at midnight of that day.  Otherwise it is dated in the month
    and year of the index, at the current time of day: at the current
    time itself when that lies in the month, on the last day of the
    month when the current time is later, and on the first day when it
    is earlier. *)
Theorem published_event_time published now :
  valid published -> valid_dt now ->
  exists r n,
    (n <= 62)%nat /\
    (forall fuel, (n <= fuel)%nat -> synthesize fuel published now = Some (r, n)) /\
    let d := datetime_from_date published in
    if Z.abs (sub d now) >? 60 * usec_per_day then r = d
    else
      year (dt_date r) = year published /\ month (dt_date r) = month published /\
      dt_usec r = dt_usec now /\
      (same_month now d = true -> r = now) /\
      (same_month now d = false ->
       day (dt_date r)
       = if sub d now <? 0 then days_in_month (year published) (month published) else 1).
Proof.
  intros Hp Hn. unfold synthesize. cbv zeta.
  destruct (Z.gtb_spec (Z.abs (sub (datetime_from_date published) now))
              (60 * usec_per_day)) as [Hfar|Hnear].
  - exists (datetime_from_date published), O.
    split; [lia|]. split; [reflexivity|reflexivity].
  - destruct (walk_within_60 published now Hp Hn Hnear) as (r & n & Hle & Hw & _).
    exists r, n. split; [lia|]. split; [exact Hw|].
    pose proof (Hw n (Nat.le_refl n)) as H.
    destruct (walk_result _ _ _ _ _ _ H) as (Sm & U & Z0 & N).
    apply same_month_iff in Sm as [Hm Hy]. cbn in Hm, Hy.
    split; [exact Hy|]. split; [exact Hm|]. split; [exact U|]. split.
    + intros Hs. rewrite (walk_stop n _ _ _ Hs) in H. now injection H as <- _.
    + intros Hs. assert (Hn0 : n <> O).
      { intros ->. cbn in H. rewrite Hs in H. discriminate. }
      rewrite (N Hn0), Hm, Hy.
      destruct (sub (datetime_from_date published) now <? 0); reflexivity.
Qed.

Lemma published_event_time_witness :
  let published := Date 2024 3 1 in
  let now := DateTime (Date 2024 4 20) 43200000000 in
  exists r n,
    (n <= 62)%nat /\
    (forall fuel, (n <= fuel)%nat -> synthesize fuel published now = Some (r, n)) /\
    year (dt_date r) = 2024 /\ month (dt_date r) = 3 /\ day (dt_date r) = 31 /\
    dt_usec r = 43200000000.
Proof.
  intros published now.
  assert (Hp : valid published).
  { unfold valid, MINYEAR, MAXYEAR; cbn [year month day published].
    replace (days_in_month 2024 3) with 31 by reflexivity. lia. }
  assert (Hn : valid_dt now).
  { unfold valid_dt, valid, MINYEAR, MAXYEAR, usec_per_day;
      cbn [year month day dt_date dt_usec now].
    replace (days_in_month 2024 4) with 30 by reflexivity. lia. }
  destruct (published_event_time published now Hp Hn) as (r & n & Hle & Hw & P).
  cbv zeta in P.
  change (Z.abs (sub (datetime_from_date published) now) >? 60 * usec_per_day)
    with false in P.
  destruct P as (Hy & Hm & Hu & _ & Hd).
  exists r, n. split; [exact Hle|]. split; [exact Hw|].
  split; [exact Hy|]. split; [exact Hm|]. split; [|exact Hu].
  rewrite Hd by reflexivity. reflexivity.
Defined.
End PubDateMoreFacts.

Module NotifierMoreFacts.
Import Notifier.

Lemma append_not_empty (a b : string) : a <> EmptyString -> a +:+ b <> EmptyString.
Proof. destruct a; [contradiction|discriminate]. Qed.

(** X18: the error string that [post_approved_draft] returns is empty
    exactly when the request was answered with status 200 and the body
    OK, or when an exception whose string is empty was raised; every
    other response gives an error that is not empty. *)
Theorem error_is_empty_only_on_success o :
  snd (post_approved_draft o) = PyStr.empty <->
  o = Responded 200 "OK" \/ o = Raised PyStr.empty.
Proof.
  unfold post_approved_draft, try_block, PyStr.empty. cbv zeta. split.
  - destruct o as [code text|msg]; cbn [snd].
    + destruct (Z.eqb_spec code 200) as [->|Hne]; cbn [negb].
      * destruct (String.eqb_spec text "OK") as [->|Hne]; cbn [negb]; [auto|].
        intros H. exfalso. revert H. apply append_not_empty. discriminate.
      * intros H. exfalso. revert H. apply append_not_empty. discriminate.
    + intros ->. now right.
  - intros [->| ->]; reflexivity.
Qed.
End NotifierMoreFacts.

Module ChildTextFacts.
Import Dom.

Lemma all_some_None {A} (l : list (option A)) :
  all_some l = None <-> In None l.
Proof.
  induction l as [|[x|] l IH]; cbn.
  - split; [discriminate|tauto].
  - destruct (all_some l); cbn.
    + split; [discriminate|]. intros [?|H]; [discriminate|].
      apply IH in H. discriminate.
    + split; [|reflexivity]. intros _. right. now apply IH.
  - split; [|reflexivity]. intros _. now left.
Qed.

Lemma in_elements_named name cs sub :
  In sub (elements_named name cs) <->
  exists t a, In (Element t a sub) cs /\ localName t = name.
Proof.
  induction cs as [|c cs IH]; cbn.
  - split; [tauto|]. now intros (? & ? & [] & _).
  - destruct c as [t a sub'| |].
    + destruct (String.eqb_spec (localName t) name) as [E|E]; cbn.
      * rewrite IH. split.
        -- intros [<-|(t' & a' & H & E')]; [now exists t, a; auto|].
           exists t', a'. auto.
        -- intros (t' & a' & [H|H] & E'); [left; congruence|].
           right. now exists t', a'.
      * rewrite IH. split.
        -- intros (t' & a' & H & E'). exists t', a'. auto.
        -- intros (t' & a' & [H|H] & E'); [congruence|]. now exists t', a'.
    + rewrite IH. split.
      * intros (t' & a' & H & E'). exists t', a'. auto.
      * intros (t' & a' & [H|H] & E'); [discriminate|]. now exists t', a'.
    + rewrite IH. split.
      * intros (t' & a' & H & E'). exists t', a'. auto.
      * intros (t' & a' & [H|H] & E'); [discriminate|]. now exists t', a'.
Qed.

(** X19: [get_child_text] raises exactly when a child element of the
    local name has no first child that carries data (it is empty, or
    it begins with an element); when the parent has no child element
    of that local name the result is the empty string. *)
Theorem child_text_raises_on_empty_child (cs : list node) (tag_name : string) :
  (get_child_text cs tag_name = None <->
   exists t a sub, In (Element t a sub) cs /\ localName t = tag_name
                   /\ first_data sub = None)
  /\ ((forall t a sub, In (Element t a sub) cs -> localName t <> tag_name) ->
      get_child_text cs tag_name = Some EmptyString).
Proof.
  split.
  - unfold get_child_text.
    destruct (all_some _) eqn:E; cbn.
    + split; [discriminate|]. intros (t & a & sub & H & Hn & Hd).
      exfalso. assert (In None (List.map first_data (elements_named tag_name cs))) as Hin.
      { rewrite <- Hd. apply in_map. apply in_elements_named. now exists t, a. }
      apply all_some_None in Hin. congruence.
    + split; [|reflexivity]. intros _.
      apply all_some_None in E. apply in_map_iff in E as (sub & Hd & Hin).
      apply in_elements_named in Hin as (t & a & Hin & Hn).
      now exists t, a, sub.
  - intros H. unfold get_child_text.
    assert (elements_named tag_name cs = []) as ->; [|reflexivity].
    destruct (elements_named tag_name cs) as [|sub l] eqn:E; [reflexivity|].
    assert (In sub (elements_named tag_name cs)) as Hin by (rewrite E; now left).
    apply in_elements_named in Hin as (t & a & Hin & Hn).
    now destruct (H t a sub Hin).
Qed.

End ChildTextFacts.

Module DraftNameFacts.
Import PyStr PyText.

Lemma rev_at_shape s r :
  rev_at s = Some r -> exists d1 d2, s = String "-" (String d1 (String d2 r)).
Proof.
  destruct s as [|c [|d1 [|d2 rest]]]; try discriminate.
  cbv beta iota delta [rev_at].
  destruct (_ && _)%bool eqn:E; [|discriminate].
  intros [= <-]. apply andb_prop in E as [E _]. apply andb_prop in E as [E _].
  apply Ascii.eqb_eq in E. subst c. now exists d1, d2.
Qed.

Lemma txt_at_shape s r :
  txt_at s = Some r -> exists a, s = String a ("txt" +:+ r).
Proof.
  destruct s as [|c [|t1 [|x [|t2 rest]]]]; try discriminate.
  cbv beta iota delta [txt_at].
  destruct (_ && _)%bool eqn:E; [|discriminate].
  intros [= <-]. apply andb_prop in E as [E E3]. apply andb_prop in E as [E E2].
  apply andb_prop in E as [_ E1].
  apply Ascii.eqb_eq in E1, E2, E3. subst. now exists c.
Qed.

Lemma at_end_shape r :
  at_end r = true -> r = EmptyString \/ r = String newline EmptyString.
Proof.
  destruct r as [|c [|? ?]]; cbn; [now left| |discriminate].
  destruct (Ascii.eqb_spec c newline); [|discriminate]. subst. now right.
Qed.

(** What a match of the groups [(.txt){1,2}$] looks like. *)
Lemma txt_groups_at_shape s rest :
  txt_groups_at s = Some rest ->
  (rest = EmptyString \/ rest = String newline EmptyString) /\
  ((exists a, s = String a ("txt" +:+ rest)) \/
   (exists a b, s = String a ("txt" +:+ String b ("txt" +:+ rest)))).
Proof.
  unfold txt_groups_at.
  destruct (txt_at s) as [r1|] eqn:E1; [|discriminate].
  apply txt_at_shape in E1 as (a & ->).
  destruct (txt_at r1) as [r2|] eqn:E2.
  - apply txt_at_shape in E2 as (b & ->).
    destruct (at_end r2) eqn:A2.
    + intros [= <-]. split; [now apply at_end_shape|]. right. now exists a, b.
    + destruct (at_end (String b _)) eqn:A1; [|discriminate].
      intros [= <-]. split; [now apply at_end_shape|]. left. now exists a.
  - destruct (at_end r1) eqn:A1; [|discriminate].
    intros [= <-]. split; [now apply at_end_shape|]. left. now exists a.
Qed.

(** What a match of the whole pattern looks like. *)
Lemma suffix_at_shape s rest :
  suffix_at s = Some rest ->
  (rest = EmptyString \/ rest = String newline EmptyString) /\
  exists p, s = p +:+ "txt" +:+ rest /\
    ((exists a, p = String a "") \/
     (exists a b, p = String a ("txt" +:+ String b "")) \/
     (exists d1 d2 a, p = String "-" (String d1 (String d2 (String a "")))) \/
     (exists d1 d2 a b,
        p = String "-" (String d1 (String d2 (String a ("txt" +:+ String b "")))))).
Proof.
  assert (forall s rest, txt_groups_at s = Some rest ->
            (rest = EmptyString \/ rest = String newline EmptyString) /\
            exists p, s = p +:+ "txt" +:+ rest /\
              ((exists a, p = String a "") \/
               (exists a b, p = String a ("txt" +:+ String b "")))) as G.
  { intros s0 r0 H. apply txt_groups_at_shape in H as [Hr [(a & ->)|(a & b & ->)]].
    - split; [exact Hr|]. exists (String a ""). split; [reflexivity|]. left. now exists a.
    - split; [exact Hr|]. exists (String a ("txt" +:+ String b "")).
      split; [reflexivity|]. right. now exists a, b. }
  unfold suffix_at.
  destruct (rev_at s) as [r|] eqn:Er.
  - destruct (txt_groups_at r) as [rest'|] eqn:Eg.
    + intros [= <-]. apply rev_at_shape in Er as (d1 & d2 & ->).
      apply txt_groups_at_shape in Eg as [Hr [(a & ->)|(a & b & ->)]].
      * split; [exact Hr|].
        exists (String "-" (String d1 (String d2 (String a "")))).
        split; [reflexivity|]. right. right. left. now exists d1, d2, a.
      * split; [exact Hr|].
        exists (String "-" (String d1 (String d2 (String a ("txt" +:+ String b ""))))).
        split; [reflexivity|]. right. right. right. now exists d1, d2, a, b.
    + intros H. apply G in H as [Hr (p & -> & [H|H])].
      * split; [exact Hr|]. exists p. split; [reflexivity|]. now left.
      * split; [exact Hr|]. exists p. split; [reflexivity|]. right. now left.
  - intros H. apply G in H as [Hr (p & -> & [H|H])].
    + split; [exact Hr|]. exists p. split; [reflexivity|]. now left.
    + split; [exact Hr|]. exists p. split; [reflexivity|]. right. now left.
Qed.

Lemma app_cons a (s t : string) : String a s +:+ t = String a (s +:+ t).
Proof. reflexivity. Qed.

Lemma app_nil_l (s : string) : "" +:+ s = s.
Proof. reflexivity. Qed.

Lemma last_char_eq p q a b :
  p +:+ String a "" = q +:+ String b "" -> a = b.
Proof.
  revert q. induction p as [|c p IH]; intros [|d q];
    rewrite ?app_cons, ?app_nil_l.
  - now intros [= ->].
  - destruct q; discriminate.
  - destruct p; discriminate.
  - intros [= _ H]. exact (IH _ H).
Qed.

Lemma append_assoc' (a b c : string) : (a +:+ b) +:+ c = a +:+ (b +:+ c).
Proof. induction a; rewrite ?app_cons, ?app_nil_l; congruence. Qed.

(** A match ends the string with the letter t or with a newline. *)
Lemma suffix_at_last s rest q c :
  suffix_at s = Some rest -> s = q +:+ String c "" ->
  c = "t"%char \/ c = newline.
Proof.
  intros H E. apply suffix_at_shape in H as [[->| ->] (p & -> & _)].
  - left. symmetry.
    apply (last_char_eq (p +:+ "tx") q).
    rewrite <- E, append_assoc'. reflexivity.
  - right. symmetry.
    apply (last_char_eq (p +:+ "txt") q).
    rewrite <- E, append_assoc'. reflexivity.
Qed.

(** X20: a draft name that does not end with the letter t is returned
    as it is by the substitution of [parse_queue]: a revision that no
    [.txt] follows stays in the name. *)
Theorem name_without_extension_is_kept (n : string) (c : ascii) :
  c <> "t"%char -> c <> newline ->
  sub_suffix (n +:+ String c "") = n +:+ String c "".
Proof.
  intros Ht Hn. induction n as [|a n IH].
  - rewrite app_nil_l. cbn [sub_suffix].
    destruct (suffix_at (String c "")) as [rest|] eqn:E; [|reflexivity].
    destruct (suffix_at_last _ _ "" c E eq_refl); contradiction.
  - rewrite app_cons. cbn [sub_suffix].
    destruct (suffix_at (String a (n +:+ String c ""))) as [rest|] eqn:E.
    + destruct (suffix_at_last _ _ (String a n) c E eq_refl); contradiction.
    + now rewrite IH.
Qed.

Lemma name_without_extension_is_kept_witness :
  sub_suffix ("draft-ietf-foo-bar-0" +:+ String "7" "")
  = "draft-ietf-foo-bar-0" +:+ String "7" "".
Proof.
  apply (name_without_extension_is_kept "draft-ietf-foo-bar-0" "7"); discriminate.
Defined.

Lemma length_app (s t : string) :
  String.length (s +:+ t) = (String.length s + String.length t)%nat.
Proof. induction s; rewrite ?app_cons, ?app_nil_l; cbn; congruence. Qed.

(** Before a revision and the extension, no match of the pattern
    begins. *)
Lemma no_earlier_match a n d1 d2 :
  suffix_at (String a (n +:+ String "-" (String d1 (String d2 ".txt")))) = None.
Proof.
  destruct (suffix_at _) as [rest|] eqn:E; [exfalso|reflexivity].
  apply suffix_at_shape in E as [Hr (p & E & Hp)].
  destruct Hr as [->| ->].
  - pose proof (f_equal String.length E) as L.
    cbn [String.length] in L. rewrite !length_app in L. cbn [String.length] in L.
    destruct Hp as [(x & ->)|[(x & y & ->)|[(e1 & e2 & x & ->)|(e1 & e2 & x & y & ->)]]];
      cbv beta iota delta [String.append] in L; cbn in L; try lia.
    + destruct n as [|n1 n]; [|cbn in L; lia].
      cbv beta iota delta [String.append] in E. discriminate E.
    + destruct n as [|n1 [|n2 [|n3 [|n4 n]]]]; cbn in L; try lia.
      cbv beta iota delta [String.append] in E. discriminate E.
  - assert ("t"%char = newline) as H; [|discriminate H].
    apply (last_char_eq (String a (n +:+ String "-" (String d1 (String d2 ".tx"))))
                        (p +:+ "txt")).
    rewrite append_assoc', <- E, app_cons, append_assoc'. reflexivity.
Qed.

(** X21: the substitution of [parse_queue] takes a revision and the
    extension [.txt] off the end of a draft name, whatever the name
    before them is. *)
Theorem revision_and_extension_are_removed (n : string) (d1 d2 : ascii) :
  is_digit d1 = true -> is_digit d2 = true ->
  sub_suffix (n +:+ String "-" (String d1 (String d2 ".txt"))) = n.
Proof.
  intros H1 H2. induction n as [|a n IH].
  - rewrite app_nil_l. cbn [sub_suffix].
    assert (suffix_at (String "-" (String d1 (String d2 ".txt"))) = Some "") as ->;
      [|reflexivity].
    cbv beta iota delta [suffix_at rev_at]. rewrite H1, H2. reflexivity.
  - rewrite app_cons. cbn [sub_suffix].
    now rewrite no_earlier_match, IH.
Qed.

Lemma revision_and_extension_are_removed_witness :
  sub_suffix ("draft-ietf-foo.txt-bar" +:+ String "-" (String "0" (String "7" ".txt")))
  = "draft-ietf-foo.txt-bar".
Proof.
  apply (revision_and_extension_are_removed "draft-ietf-foo.txt-bar" "0" "7");
    reflexivity.
Defined.

End DraftNameFacts.

Module IndexTextFacts.
Import PyStr PyText Index IndexXml DraftNameFacts.

Lemma search_rev_at_end n d1 d2 :
  is_digit d1 = true -> is_digit d2 = true ->
  search_rev (n +:+ String "-" (String d1 (String d2 ""))) = true.
Proof.
  intros H1 H2. induction n as [|a n IH].
  - rewrite app_nil_l. cbn [search_rev].
    cbv beta iota delta [rev_at]. rewrite H1, H2. reflexivity.
  - rewrite app_cons. cbn [search_rev]. rewrite IH. apply orb_true_r.
Qed.

Lemma take_app n t : take (String.length n) (n +:+ t) = n.
Proof.
  induction n as [|a n IH]; rewrite ?app_cons, ?app_nil_l; cbn.
  - now destruct t.
  - now rewrite IH.
Qed.

(** X22: [parse_index] cuts a revision at the end of the name in the
    [draft] element off: the tuple holds the name of the draft
    without it. *)
Theorem draft_revision_is_cut_off (n : string) (d1 d2 : ascii) :
  is_digit d1 = true -> is_digit d2 = true ->
  entry_draft (n +:+ String "-" (String d1 (String d2 ""))) = n.
Proof.
  intros H1 H2. unfold entry_draft.
  rewrite search_rev_at_end by assumption.
  assert (truthy (n +:+ String "-" (String d1 (String d2 ""))) = true) as ->.
  { destruct n; reflexivity. }
  cbn [andb]. unfold drop_last3. rewrite length_app. cbn [String.length].
  replace (String.length n + 3 - 3)%nat with (String.length n) by lia.
  apply take_app.
Qed.

Lemma draft_revision_is_cut_off_witness :
  entry_draft ("draft-ietf-poised95-std-proc-3" +:+ String "-" (String "0" (String "6" "")))
  = "draft-ietf-poised95-std-proc-3".
Proof.
  apply (draft_revision_is_cut_off "draft-ietf-poised95-std-proc-3" "0" "6");
    reflexivity.
Defined.

Lemma cased_lower c :
  (is_lower (lower_char c) || is_upper (lower_char c))%bool
  = (is_lower c || is_upper c)%bool.
Proof. destruct c as [[] [] [] [] [] [] [] []]; reflexivity. Qed.

Lemma lower_lower c : lower_char (lower_char c) = lower_char c.
Proof. destruct c as [[] [] [] [] [] [] [] []]; reflexivity. Qed.

Lemma upper_lower c : upper_char (lower_char c) = upper_char c.
Proof. destruct c as [[] [] [] [] [] [] [] []]; reflexivity. Qed.

Lemma uncased_lower c :
  (is_lower c || is_upper c)%bool = false -> lower_char c = c.
Proof.
  destruct c as [[] [] [] [] [] [] [] []]; intros H;
    first [reflexivity | discriminate H].
Qed.

Lemma title_from_lower b s : title_from b (lower s) = title_from b s.
Proof.
  revert b. induction s as [|c s IH]; intros b; [reflexivity|].
  cbn [lower title_from]. rewrite cased_lower, lower_lower, upper_lower, !IH.
  destruct (is_lower c || is_upper c)%bool eqn:E; [reflexivity|].
  now rewrite uncased_lower.
Qed.

(** X23: the letter case of the [current-status] text does not
    matter: a status that is one of the names of [std_level_mapping]
    up to letter case is put in the tuple as that name, and so has
    the level of that name. *)
Theorem status_is_matched_in_any_case (status k : string) :
  forall lv, std_level_mapping !! k = Some lv -> lower status = lower k ->
  title status = k /\ std_level_mapping !! title status = Some lv.
Proof.
  intros lv Hk E.
  assert (title status = k) as ->; [|now split].
  unfold title. rewrite <- (title_from_lower false status), E, title_from_lower.
  apply elem_of_list_to_map_2 in Hk.
  repeat (apply elem_of_cons in Hk as [[= -> _]|Hk]; [reflexivity|]).
  now apply elem_of_nil in Hk.
Qed.

Lemma status_is_matched_in_any_case_witness :
  title "PROPOSED STANDARD" = "Proposed Standard"
  /\ std_level_mapping !! title "PROPOSED STANDARD" = Some "ps".
Proof.
  apply (status_is_matched_in_any_case "PROPOSED STANDARD" "Proposed Standard" "ps");
    reflexivity.
Defined.

End IndexTextFacts.

Module DecimalFacts.
Import PyStr DraftNameFacts.

Lemma digit_char d : is_digit (pretty_N_char d) = true.
Proof. unfold pretty_N_char. repeat case_match; reflexivity. Qed.

Lemma digit_char_value d :
  (d < 10)%N -> digit_value (pretty_N_char d) = Z.of_N d.
Proof.
  intros H.
  assert (d = 0 \/ d = 1 \/ d = 2 \/ d = 3 \/ d = 4 \/ d = 5 \/ d = 6 \/ d = 7
          \/ d = 8 \/ d = 9)%N as C by lia.
  repeat (destruct C as [->|C]; [reflexivity|]). now subst.
Qed.

Lemma digit_no_space c : is_digit c = true -> is_space c = false.
Proof.
  destruct c as [[] [] [] [] [] [] [] []]; intros H;
    first [reflexivity | discriminate H].
Qed.

Lemma digit_lower c : is_digit c = true -> lower_char c = c.
Proof.
  destruct c as [[] [] [] [] [] [] [] []]; intros H;
    first [reflexivity | discriminate H].
Qed.

Lemma digit_no_sign c :
  is_digit c = true -> Ascii.eqb c "-" = false /\ Ascii.eqb c "+" = false.
Proof.
  destruct c as [[] [] [] [] [] [] [] []]; intros H;
    first [split; reflexivity | discriminate H].
Qed.

(** The decimal digits of a number, written before [s]. *)
Lemma pretty_go_digits x s :
  Forall (fun c => is_digit c = true) (list_ascii_of_string s) ->
  Forall (fun c => is_digit c = true) (list_ascii_of_string (pretty_N_go x s)).
Proof.
  revert s. induction (N.lt_wf_0 x) as [x _ IH]. intros s Hs.
  assert (x = 0 \/ 0 < x)%N as [->|Hx] by lia; [now rewrite pretty_N_go_0|].
  rewrite pretty_N_go_step by exact Hx. apply IH.
  - now apply N.div_lt.
  - cbn. constructor; [apply digit_char|exact Hs].
Qed.

Lemma pretty_go_nonempty x s : (0 < x)%N -> pretty_N_go x s <> "".
Proof.
  revert s. induction (N.lt_wf_0 x) as [x _ IH]. intros s Hx.
  rewrite pretty_N_go_step by exact Hx.
  destruct (N.eq_0_gt_0_cases (x `div` 10)) as [->|Hd].
  - now rewrite pretty_N_go_0.
  - apply IH; [now apply N.div_lt|exact Hd].
Qed.

(** Reading the digits of a number back. *)
Lemma pretty_go_value x :
  (0 < x)%N ->
  exists k : nat, forall s acc b,
    digits_value (pretty_N_go x s) acc b
    = digits_value s (acc * 10 ^ Z.of_nat k + Z.of_N x) true.
Proof.
  induction (N.lt_wf_0 x) as [x _ IH]. intros Hx.
  assert (x `mod` 10 < 10)%N as Hm by (apply N.mod_lt; lia).
  pose proof (N.div_mod x 10 ltac:(lia)) as Hdm.
  destruct (N.eq_0_gt_0_cases (x `div` 10)) as [Hd|Hd].
  - exists 1%nat. intros s acc b.
    rewrite pretty_N_go_step, Hd, pretty_N_go_0 by exact Hx.
    cbn [digits_value]. rewrite digit_char, digit_char_value by exact Hm.
    f_equal. lia.
  - destruct (IH (x `div` 10)%N ltac:(now apply N.div_lt) Hd) as (k & Hk).
    exists (S k). intros s acc b.
    rewrite pretty_N_go_step, Hk by exact Hx.
    cbn [digits_value]. rewrite digit_char, digit_char_value by exact Hm.
    f_equal. rewrite Nat2Z.inj_succ, Z.pow_succ_r by lia. lia.
Qed.

Lemma rev_onto_rev_onto s a b :
  rev_onto (rev_onto s a) b = rev_onto a (s +:+ b).
Proof.
  revert a b. induction s as [|c s IH]; intros a b; [reflexivity|].
  cbn [rev_onto]. rewrite IH. reflexivity.
Qed.

Lemma rev_onto_no_space s acc :
  Forall (fun c => is_space c = false) (list_ascii_of_string s) ->
  Forall (fun c => is_space c = false) (list_ascii_of_string acc) ->
  Forall (fun c => is_space c = false) (list_ascii_of_string (rev_onto s acc)).
Proof.
  revert acc. induction s as [|c s IH]; intros acc Hs Ha; [exact Ha|].
  cbn in Hs. apply Forall_cons in Hs as [Hc Hs].
  cbn [rev_onto]. apply IH; [exact Hs|]. cbn. now constructor.
Qed.

Lemma lstrip_no_space s :
  Forall (fun c => is_space c = false) (list_ascii_of_string s) -> PyStr.lstrip s = s.
Proof.
  destruct s as [|c s]; [reflexivity|]. cbn. intros H.
  apply Forall_cons in H as [-> _]. reflexivity.
Qed.

(** A string without white space is left as it is by [strip]. *)
Lemma strip_no_space s :
  Forall (fun c => is_space c = false) (list_ascii_of_string s) -> PyStr.strip s = s.
Proof.
  intros H. unfold PyStr.strip.
  rewrite (lstrip_no_space s H).
  rewrite lstrip_no_space by (apply rev_onto_no_space; [exact H|constructor]).
  rewrite rev_onto_rev_onto. cbn [rev_onto].
  clear H. induction s as [|c s IH]; [reflexivity|].
  rewrite app_cons. now rewrite IH.
Qed.

Lemma chars_app s t :
  list_ascii_of_string (s +:+ t) = list_ascii_of_string s ++ list_ascii_of_string t.
Proof.
  induction s as [|c s IH]; rewrite ?app_cons, ?app_nil_l; [reflexivity|].
  cbn. now rewrite IH.
Qed.

Lemma zeros_digits k :
  Forall (fun c => is_digit c = true) (list_ascii_of_string (zeros k)).
Proof. induction k; cbn; constructor; [reflexivity|assumption]. Qed.

Lemma digits_value_zeros k t b :
  digits_value (zeros k +:+ t) 0 b
  = digits_value t 0 (b || negb (Nat.eqb k 0))%bool.
Proof.
  revert b. induction k as [|k IH]; intros b.
  - rewrite app_nil_l. cbn. now rewrite orb_false_r.
  - cbn [zeros]. rewrite app_cons. cbn [digits_value].
    change (is_digit "0") with true. cbn iota.
    change (10 * 0 + digit_value "0") with 0.
    rewrite IH. cbn. now rewrite orb_true_r.
Qed.

(** [int] of a string of digits. *)
Lemma int_of_digits s :
  Forall (fun c => is_digit c = true) (list_ascii_of_string s) -> s <> "" ->
  int s = digits_value s 0 false.
Proof.
  intros H Hne. unfold int.
  rewrite strip_no_space
    by (eapply Forall_impl; [exact H|]; intros c; apply digit_no_space).
  destruct s as [|c s]; [contradiction|].
  cbn in H. apply Forall_cons in H as [Hc _].
  destruct (digit_no_sign c Hc) as [-> ->]. reflexivity.
Qed.

(** [int] reads a number written with zero padding back. *)
Lemma int_zeros_pretty k n :
  0 <= n -> int (zeros k +:+ pretty n) = Some n.
Proof.
  intros Hn. destruct n as [|p|p]; [| |lia].
  - change (pretty 0) with "0".
    rewrite int_of_digits.
    + rewrite digits_value_zeros. reflexivity.
    + rewrite chars_app. apply Forall_app. split; [apply zeros_digits|].
      repeat constructor.
    + destruct k; discriminate.
  - change (pretty (Z.pos p)) with (pretty_N_go (N.pos p) "").
    assert (0 < N.pos p)%N as Hp by lia.
    rewrite int_of_digits.
    + rewrite digits_value_zeros.
      destruct (pretty_go_value (N.pos p) Hp) as (j & Hj).
      rewrite Hj. cbn. reflexivity.
    + rewrite chars_app. apply Forall_app. split; [apply zeros_digits|].
      apply pretty_go_digits. constructor.
    + intros E. apply (pretty_go_nonempty (N.pos p) "" Hp).
      destruct k; [exact E|discriminate E].
Qed.

(** [int] reads a number as [str] writes it back. *)
Lemma int_pretty n : int (pretty n) = Some n.
Proof.
  destruct n as [|p|p].
  - apply (int_zeros_pretty 0 0). lia.
  - apply (int_zeros_pretty 0 (Z.pos p)). lia.
  - change (pretty (Z.neg p)) with ("-" +:+ pretty_N_go (N.pos p) "").
    assert (0 < N.pos p)%N as Hp by lia.
    unfold int. rewrite strip_no_space.
    + rewrite app_cons, app_nil_l. change (Ascii.eqb "-" "-") with true. cbn iota.
      destruct (pretty_go_value (N.pos p) Hp) as (j & Hj).
      rewrite Hj. reflexivity.
    + rewrite app_cons, app_nil_l. cbn. constructor; [reflexivity|].
      eapply Forall_impl; [apply pretty_go_digits; constructor|].
      intros c. apply digit_no_space.
Qed.

Lemma lower_digits s :
  Forall (fun c => is_digit c = true) (list_ascii_of_string s) -> lower s = s.
Proof.
  induction s as [|c s IH]; [reflexivity|]. cbn. intros H.
  apply Forall_cons in H as [Hc Hs]. now rewrite digit_lower, IH.
Qed.

Lemma pretty_digits n :
  0 <= n -> Forall (fun c => is_digit c = true) (list_ascii_of_string (pretty n)).
Proof.
  intros Hn. destruct n as [|p|p]; [| |lia].
  - repeat constructor.
  - change (pretty (Z.pos p)) with (pretty_N_go (N.pos p) "").
    apply pretty_go_digits. constructor.
Qed.

End DecimalFacts.

Module StdNameFacts.
Import PyStr PyText Index IndexXml DraftNameFacts DecimalFacts.

Lemma lower_app s t : lower (s +:+ t) = lower s +:+ lower t.
Proof.
  induction s as [|c s IH]; rewrite ?app_cons, ?app_nil_l; [reflexivity|].
  cbn [lower]. now rewrite IH, app_cons.
Qed.

Lemma normalize_padded prefix k n :
  In prefix ["RFC"; "FYI"; "BCP"; "STD"] -> 0 <= n ->
  normalize_std_name (prefix +:+ zeros k +:+ pretty n) = prefix +:+ pretty n.
Proof.
  intros Hp Hn. unfold normalize_std_name.
  assert (take 3 (prefix +:+ zeros k +:+ pretty n) = prefix
          /\ drop 3 (prefix +:+ zeros k +:+ pretty n) = zeros k +:+ pretty n)
    as [-> ->].
  { cbn in Hp. destruct Hp as [<-|[<-|[<-|[<-|[]]]]]; split; reflexivity. }
  rewrite int_zeros_pretty by exact Hn.
  rewrite bool_decide_eq_true_2; [reflexivity|].
  apply list_elem_of_In. exact Hp.
Qed.



(** What [normalize_std_name] returns: the name it was given, or one
    of the prefixes and a number as [str] writes it. *)
Lemma normalize_cases x :
  normalize_std_name x = x \/
  exists (prefix : string) (z : Z), In prefix ["RFC"; "FYI"; "BCP"; "STD"]
                   /\ normalize_std_name x = prefix +:+ pretty z.
Proof.
  unfold normalize_std_name. cbv zeta.
  destruct (bool_decide _) eqn:Hp; [|now left].
  destruct (int (drop 3 x)) as [z|]; [|now left].
  right. exists (take 3 x), z. split; [|reflexivity].
  apply bool_decide_eq_true_1, list_elem_of_In in Hp. exact Hp.
Qed.

Lemma normalize_pretty prefix (z : Z) :
  In prefix ["RFC"; "FYI"; "BCP"; "STD"] ->
  normalize_std_name (prefix +:+ pretty z) = prefix +:+ pretty z.
Proof.
  intros Hp. unfold normalize_std_name.
  assert (take 3 (prefix +:+ pretty z) = prefix
          /\ drop 3 (prefix +:+ pretty z) = pretty z) as [-> ->].
  { cbn in Hp. destruct Hp as [<-|[<-|[<-|[<-|[]]]]]; split; reflexivity. }
  rewrite int_pretty.
  rewrite bool_decide_eq_true_2; [reflexivity|].
  apply list_elem_of_In. exact Hp.
Qed.

Lemma normalize_twice x :
  normalize_std_name (normalize_std_name x) = normalize_std_name x.
Proof.
  destruct (normalize_cases x) as [H|(prefix & z & Hp & H)].
  - rewrite H. exact H.
  - rewrite H. now apply normalize_pretty.
Qed.

(** X25: [normalize_std_name] is idempotent: a name that it returns
    is left as it is by it. *)
Theorem normalized_names_are_stable (std_name : string) :
  normalize_std_name (normalize_std_name std_name) = normalize_std_name std_name.
Proof. apply normalize_twice. Qed.

(** X26: the identifier RFC and the number on four digits, as the
    index writes an RFC in its lists, is normalized by [parse_index]
    to a name whose lower case is the alias name that
    [update_docs_from_rfc_index] gives the RFC of that number. *)
Theorem listed_rfc_resolves_to_its_alias (n : Z) :
  0 <= n ->
  lower (normalize_std_name ("RFC" +:+ percent_04d n)) = rfc_name n.
Proof.
  intros Hn. unfold percent_04d.
  destruct (Z.ltb_spec n 0) as [?|_]; [lia|]. cbv zeta.
  rewrite (normalize_padded "RFC") by (cbn; tauto || exact Hn).
  rewrite lower_app, (lower_digits (pretty n)) by (apply pretty_digits; exact Hn).
  reflexivity.
Qed.

Lemma listed_rfc_resolves_to_its_alias_witness :
  lower (normalize_std_name ("RFC" +:+ percent_04d 791)) = rfc_name 791.
Proof. apply (listed_rfc_resolves_to_its_alias 791). lia. Defined.

End StdNameFacts.

Module IndexParseFacts.
Import Dom PyStr PyText PyDate Index IndexXml XmlScenario.
Import ChildTextFacts DraftNameFacts DecimalFacts StdNameFacts.

(** Induction on a document tree. *)
Lemma node_induction (P : node -> Prop) :
  (forall t a cs, Forall P cs -> P (Element t a cs)) ->
  (forall d, P (Text d)) ->
  (forall t d, P (Instruction t d)) ->
  forall n, P n.
Proof.
  intros HE HT HI. fix IH 1. intros [t a cs|d|t d].
  - apply HE. revert cs. fix IHcs 1. intros [|c cs].
    + constructor.
    + constructor; [apply IH|apply IHcs].
  - apply HT.
  - apply HI.
Qed.

Lemma all_some_Some {A} (l : list (option A)) r :
  all_some l = Some r -> l = List.map Some r.
Proof.
  revert r. induction l as [|[x|] l IH]; intros r; cbn.
  - now intros [= <-].
  - destruct (all_some l) as [r'|]; [|discriminate].
    cbn. intros [= <-]. cbn. now rewrite (IH r' eq_refl).
  - discriminate.
Qed.

Lemma visit_None n : visit n None = None.
Proof. now destruct n. Qed.

Lemma fold_visit_None cs : fold_left (fun a c => visit c a) cs None = None.
Proof. induction cs as [|c cs IH]; cbn; [reflexivity|]. now rewrite visit_None. Qed.

(** What holds of the locals before the loop and is kept by the two
    kinds of entries holds after the loop. *)
Lemma visit_invariant (I : scan -> Prop) :
  (forall st cs al, I st -> series_entry cs (also_list st) = Some al ->
                    I (mkScan al (data st))) ->
  (forall st cs e, I st -> rfc_entry cs = Some e ->
                   I (mkScan (also_list st) (data st ++ [e]))) ->
  forall n st st', I st -> visit n (Some st) = Some st' -> I st'.
Proof.
  intros Hs Hr n.
  induction n as [t a cs IH|d|t d] using node_induction; intros st st' Hi.
  - cbn [visit]. destruct (bool_decide _).
    + destruct (series_entry _ _) as [al|] eqn:E; [|discriminate].
      intros [= <-]. eapply Hs; eassumption.
    + destruct (String.eqb t "rfc-entry").
      * destruct (rfc_entry _) as [e|] eqn:E; [|discriminate].
        intros [= <-]. eapply Hr; eassumption.
      * revert st Hi. induction IH as [|c cs Hc _ IHcs]; intros st Hi; cbn.
        -- now intros [= <-].
        -- destruct (visit c (Some st)) as [st1|] eqn:E1.
           ++ apply IHcs. eapply Hc; eassumption.
           ++ now rewrite fold_visit_None.
  - now intros [= <-].
  - now intros [= <-].
Qed.

Lemma extract_doc_list_normalized cs tag l :
  extract_doc_list cs tag = Some l ->
  Forall (fun d => normalize_std_name d = d) l.
Proof.
  unfold extract_doc_list. intros H. apply all_some_Some in H.
  apply List.Forall_forall. intros d Hd.
  assert (In (Some d) (List.map Some l)) as Hin by now apply in_map.
  rewrite <- H in Hin. apply in_flat_map in Hin as (u & _ & Hin).
  apply in_map_iff in Hin as (sub & E & _).
  destruct (first_data sub) as [x|]; [|discriminate].
  cbn in E. injection E as <-. apply normalize_twice.
Qed.

Lemma note_also_keys bcpid al docid k :
  is_Some (note_also bcpid al docid !! k) -> k = docid \/ is_Some (al !! k).
Proof.
  unfold note_also. destruct (al !! docid);
    (destruct (decide (k = docid)) as [->|Hne]; [now left|];
     rewrite lookup_insert_ne by congruence; now right).
Qed.

Lemma series_entry_keys cs al al' :
  series_entry cs al = Some al' ->
  (forall k, is_Some (al !! k) -> normalize_std_name k = k) ->
  forall k, is_Some (al' !! k) -> normalize_std_name k = k.
Proof.
  unfold series_entry.
  destruct (get_child_text cs "doc-id") as [id|]; [|discriminate].
  destruct (extract_doc_list _ _) as [doclist|] eqn:E; [|discriminate].
  intros [= <-]. apply extract_doc_list_normalized in E.
  revert al. induction E as [|d l Hd _ IH]; intros al Hal; [exact Hal|].
  cbn. apply IH. intros k Hk.
  apply note_also_keys in Hk as [->|Hk]; [exact Hd|now apply Hal].
Qed.

Lemma bind_Some {A B} (m : option A) (f : A -> option B) b :
  m ≫= f = Some b -> exists a, m = Some a /\ f a = Some b.
Proof. destruct m as [a|]; [|discriminate]. intros H. now exists a. Qed.

(** The fields of a tuple that the properties below are about. *)
Lemma rfc_entry_fields cs e :
  rfc_entry cs = Some e ->
  also e = [] /\ entry_date cs = Some (rfc_published_date e).
Proof.
  unfold rfc_entry. intros H.
  repeat (apply bind_Some in H as (? & ? & H)).
  injection H as <-. cbn. split; [reflexivity|assumption].
Qed.

Lemma index_of_lt x l i : index_of x l = Some i -> (i < length l)%nat.
Proof.
  revert i. induction l as [|y l IH]; intros i; cbn; [discriminate|].
  destruct (String.eqb y x).
  - intros [= <-]. lia.
  - destruct (index_of x l) as [j|]; [|discriminate].
    cbn. intros [= <-]. specialize (IH j eq_refl). lia.
Qed.

Lemma entry_date_valid cs d :
  entry_date cs = Some d -> valid d /\ day d = 1.
Proof.
  unfold entry_date.
  destruct (getElementsByTagName "date" cs) as [|dn _]; [discriminate|].
  destruct (get_child_text dn "year") as [ytext|]; [|discriminate].
  destruct (PyStr.int ytext) as [y|]; [|discriminate].
  destruct (get_child_text dn "month") as [m|]; [|discriminate].
  destruct (index_of m month_names) as [i|] eqn:Ei; [|discriminate].
  apply index_of_lt in Ei. cbn in Ei.
  unfold first_of_month.
  destruct (_ && _)%bool eqn:Ey; [|discriminate].
  intros [= <-]. apply andb_prop in Ey as [Y1 Y2].
  apply Z.leb_le in Y1, Y2.
  split; [|reflexivity]. unfold valid. cbn [year month day].
  split; [lia|]. split; [lia|]. split; [lia|].
  unfold days_in_month. repeat (destruct (_ =? _) || destruct (is_leap _)); cbn; lia.
Qed.

Lemma with_also_fields al e :
  rfc_number (with_also al e) = rfc_number e
  /\ rfc_published_date (with_also al e) = rfc_published_date e.
Proof. unfold with_also. destruct (al !! _); now split. Qed.

(** X27: every tuple that [parse_index] returns holds a date that
    [datetime.date] can hold, the first day of its month. *)
Theorem published_dates_are_first_days (root : node) (data : list entry) :
  parse_index root = Some data ->
  Forall (fun e => valid (rfc_published_date e) /\ day (rfc_published_date e) = 1)
         data.
Proof.
  unfold parse_index.
  destruct (visit root _) as [a|] eqn:E; [|discriminate].
  intros [= <-].
  apply (visit_invariant
           (fun st => Forall (fun e => valid (rfc_published_date e)
                                       /\ day (rfc_published_date e) = 1)
                             (IndexXml.data st))) in E.
  - cbn in E. apply List.Forall_forall. intros e' Hin.
    apply in_map_iff in Hin as (e & <- & Hin).
    destruct (with_also_fields (also_list a) e) as [_ ->].
    rewrite List.Forall_forall in E. now apply E.
  - intros st cs al Hi _. exact Hi.
  - intros st cs e Hi He. cbn. apply Forall_app. split; [exact Hi|].
    constructor; [|constructor].
    apply rfc_entry_fields in He as [_ He]. now apply entry_date_valid in He.
  - constructor.
Qed.

Lemma published_dates_are_first_days_witness :
  Forall (fun e => valid (rfc_published_date e) /\ day (rfc_published_date e) = 1)
         sample_index_data.
Proof.
  apply (published_dates_are_first_days sample_index sample_index_data).
  vm_compute. reflexivity.
Defined.

Lemma short_below_1000 n :
  0 <= n < 1000 -> (String.length (pretty n) <= 3)%nat.
Proof.
  intros H.
  assert (forallb (fun i => (String.length (pretty (Z.of_nat i)) <=? 3)%nat)
                  (seq 0 1000) = true) as F by (vm_compute; reflexivity).
  rewrite forallb_forall in F.
  specialize (F (Z.to_nat n)). rewrite Z2Nat.id in F by lia.
  apply Nat.leb_le, F, in_seq. lia.
Qed.

Lemma length_zeros k : String.length (zeros k) = k.
Proof. induction k; cbn; congruence. Qed.

(** The key of the last loop is no normalized name when the number
    has less than four digits. *)
Lemma padded_key_not_normalized n :
  0 <= n < 1000 ->
  normalize_std_name ("RFC" +:+ percent_04d n) <> "RFC" +:+ percent_04d n.
Proof.
  intros H E. unfold percent_04d in E.
  destruct (Z.ltb_spec n 0) as [?|_]; [lia|]. cbv zeta in E.
  rewrite (normalize_padded "RFC") in E by (cbn; tauto || lia).
  apply (f_equal String.length) in E.
  rewrite !length_app, length_zeros in E.
  pose proof (short_below_1000 n H). cbn in E. lia.
Qed.

(** X28: [parse_index] never fills [also] for an RFC whose number has
    less than four digits: the lists of the series entries are kept
    under the normalized names, and the last loop looks for RFC and
    the number on four digits. *)
Theorem also_is_empty_below_1000 (root : node) (data : list entry) :
  parse_index root = Some data ->
  Forall (fun e => 0 <= rfc_number e < 1000 -> also e = []) data.
Proof.
  unfold parse_index.
  destruct (visit root _) as [a|] eqn:E; [|discriminate].
  intros [= <-].
  apply (visit_invariant
           (fun st => (forall k, is_Some (also_list st !! k) -> normalize_std_name k = k)
                      /\ Forall (fun e => also e = []) (IndexXml.data st))) in E.
  - destruct E as [Hk Hd]. apply List.Forall_forall. intros e' Hin.
    apply in_map_iff in Hin as (e & <- & Hin).
    rewrite List.Forall_forall in Hd. specialize (Hd e Hin).
    unfold with_also.
    destruct (also_list a !! _) as [l|] eqn:El; [|intros _; exact Hd].
    cbn [rfc_number]. intros Hn. exfalso.
    apply (padded_key_not_normalized _ Hn). apply Hk. now exists l.
  - intros st cs al [Hk Hd] Hs. cbn. split; [|exact Hd].
    eapply series_entry_keys; eassumption.
  - intros st cs e [Hk Hd] He. cbn. split; [exact Hk|].
    apply Forall_app. split; [exact Hd|]. constructor; [|constructor].
    now apply rfc_entry_fields in He.
  - cbn. split; [|constructor]. intros k [x Hx]. now rewrite lookup_empty in Hx.
Qed.

Lemma also_is_empty_below_1000_witness :
  Forall (fun e => 0 <= rfc_number e < 1000 -> also e = []) sample_index_data.
Proof.
  apply (also_is_empty_below_1000 sample_index sample_index_data).
  vm_compute. reflexivity.
Defined.

End IndexParseFacts.

Module QueueParseFacts.
Import Dom PyStr Queue QueueXml QueueXmlSpec XmlScenario.
Import ChildTextFacts IndexParseFacts.

Lemma queue_visit_None n : QueueXml.visit n None = None.
Proof. now destruct n. Qed.

Lemma fold_queue_visit_None cs :
  fold_left (fun a c => QueueXml.visit c a) cs None = None.
Proof.
  induction cs as [|c cs IH]; cbn; [reflexivity|]. now rewrite queue_visit_None.
Qed.

Lemma all_some_app {A} (l1 l2 : list (option A)) :
  all_some (l1 ++ l2)
  = match all_some l1, all_some l2 with
    | Some r1, Some r2 => Some (r1 ++ r2)
    | _, _ => None
    end.
Proof.
  induction l1 as [|[x|] l1 IH]; cbn.
  - now destruct (all_some l2).
  - rewrite IH. destruct (all_some l1), (all_some l2); reflexivity.
  - reflexivity.
Qed.

(** The loop over the children of a section. *)
Lemma visit_entries cs st :
  holds_entries cs ->
  fold_left (fun a c => QueueXml.visit c a) cs (Some st)
  = match all_some (List.map (parse_entry (stream st)) (entries cs)) with
    | Some l => Some (mkScan (drafts st ++ l) (warnings st) (stream st))
    | None => None
    end.
Proof.
  intros H. revert st. induction H as [|c cs Hc _ IH]; intros st.
  - cbn. rewrite app_nil_r. now destruct st.
  - destruct c as [t a sub|d|t d].
    + subst t. cbn [fold_left QueueXml.visit entries flat_map List.map app].
      change (String.eqb "entry" "entry") with true. cbn iota.
      change (List.map (parse_entry (stream st))
                (flat_map (fun n => match n with
                                    | Element _ _ _ => [children (normalize n)]
                                    | _ => []
                                    end) cs))
        with (List.map (parse_entry (stream st)) (entries cs)).
      cbn [all_some].
      destruct (parse_entry (stream st) _) as [e|].
      * rewrite IH. cbn [drafts warnings stream].
        destruct (all_some _) as [l|]; cbn; [|reflexivity].
        now rewrite <- app_assoc.
      * apply fold_queue_visit_None.
    + cbn [fold_left QueueXml.visit]. apply IH.
    + cbn [fold_left QueueXml.visit]. apply IH.
Qed.

(** The loop over the sections. *)
Lemma visit_sections sections st :
  Forall (fun sec => holds_entries (snd sec)) sections ->
  fold_left (fun a c => QueueXml.visit c a)
            (List.map (fun sec => Element "section" (fst sec) (snd sec)) sections)
            (Some st)
  = match all_some (section_entries sections) with
    | Some l =>
        Some (mkScan (drafts st ++ l) (warnings st ++ section_warnings sections)
                     (match sections with
                      | [] => stream st
                      | _ => section_stream (section_name (List.last sections ([], [])))
                      end))
    | None => None
    end.
Proof.
  intros H. revert st. induction H as [|sec secs Hsec _ IH]; intros st.
  - cbn. rewrite !app_nil_r. now destruct st.
  - cbn [List.map fold_left QueueXml.visit].
    change (String.eqb "section" "entry") with false. cbn iota.
    change (String.eqb "section" "section") with true. cbn iota.
    rewrite (visit_entries _ _ Hsec).
    cbn [section_entries flat_map]. rewrite all_some_app.
    change (flat_map _ secs) with (section_entries secs).
    assert (stream (start_section (fst sec) st) = section_stream (section_name sec)
            /\ drafts (start_section (fst sec) st) = drafts st
            /\ warnings (start_section (fst sec) st)
               = warnings st ++ section_warnings [sec]) as (Es & Ed & Ew).
    { clear IH. unfold start_section, section_warnings, section_name. cbn.
      destruct (section_stream (getAttribute (fst sec) "name")); cbn;
        rewrite ?app_nil_r; auto. }
    rewrite Es, Ed.
    destruct (all_some (List.map _ (entries (snd sec)))) as [l1|];
      [|apply fold_queue_visit_None].
    rewrite IH. cbn [drafts warnings stream]. rewrite Ew.
    destruct (all_some (section_entries secs)) as [l2|]; [|reflexivity].
    f_equal. f_equal.
    + now rewrite <- app_assoc.
    + rewrite <- app_assoc. f_equal. unfold section_warnings. cbn [flat_map].
      now rewrite app_nil_r.
    + destruct secs as [|s2 secs']; [reflexivity|]. reflexivity.
Qed.

(** X29: in a queue document whose root holds section elements that
    hold the entry elements, [parse_queue] reads each entry with the
    stream of its own section, returns the tuples in the order of the
    document, and gives one warning for each section whose name
    starts with none of the four stream names; it raises when one of
    the entries does. *)
Theorem entries_take_the_stream_of_their_section
    (tag : string) (attrs : list (string * string))
    (sections : list (list (string * string) * list node)) :
  tag <> "entry" -> tag <> "section" ->
  Forall (fun sec => holds_entries (snd sec)) sections ->
  parse_queue (queue_document tag attrs sections)
  = option_map (fun l => (l, section_warnings sections))
               (all_some (section_entries sections)).
Proof.
  intros He Hs H. unfold parse_queue, queue_document. cbn [QueueXml.visit].
  apply String.eqb_neq in He, Hs. rewrite He, Hs.
  rewrite (visit_sections _ _ H).
  destruct (all_some _); reflexivity.
Qed.

Lemma entries_take_the_stream_of_their_section_witness :
  parse_queue (queue_document "rfc-editor-queue" [] sample_sections)
  = option_map (fun l => (l, section_warnings sample_sections))
               (all_some (section_entries sample_sections)).
Proof.
  apply (entries_take_the_stream_of_their_section "rfc-editor-queue" [] sample_sections).
  - discriminate.
  - discriminate.
  - repeat constructor.
Defined.

End QueueParseFacts.
